(* ===== verification/_CoqProject ===== *)
-Q . S2P
Prelude.v
Dicts.v
Text.v
Json.v
Crypto.v
Canonical.v
Security.v
Wire.v
Messages.v
ErrorTheory.v
MessageTheory.v
Channel.v
Lifecycle.v
Trust.v
Group.v
GroupStore.v
GroupPolicy.v
GroupTheory.v
GroupPolicyTheory.v
GroupScenarios.v
Chat.v
ChatTheory.v
Tasks.v
Manager.v
ManagerTheory.v
Handshake.v
HandshakeTheory.v
Connectivity.v
ConnectivityTheory.v
Files.v
Discovery.v
GroupApp.v
GroupAppTheory.v
GroupAppScenarios.v
Hosting.v
HostingTheory.v
Disk.v
VaultKeys.v
VaultKeysTheory.v
Link.v
VaultSession.v
VaultSessionTheory.v
Partial.v
DiscoveryTheory.v
VaultFiles.v
VaultFilesTheory.v
VaultScenarios.v
TrustApp.v
TrustAppTheory.v
IdentityFile.v
IdentityFileTheory.v
Shell.v
ShellTheory.v
Receiver.v
ReceiverTheory.v
Listeners.v
LinkTheory.v
Transfer.v
TransferTheory.v
TransferFlow.v
TransferRefinement.v
Scenarios.v
