(* ===== verification/Prelude.v ===== *)
(** * peerc: a verification development (prelude and overview)

    ** The program

    peerc is a peer-to-peer chat and file transfer program.  A peer has an Ed25519
    identity; two peers meet over TCP, run an authenticated X25519 handshake, keep the
    outcome in a store of trusted devices, and then exchange encrypted records that
    carry chat messages, control messages and the chunks of files.  Devices form groups,
    whose administrators sign memberships, policies and export capabilities; received
    files can be kept in an encrypted vault; peers are found by broadcast, by links, by
    a rendezvous of their group, and reached through a relay of their group.

    From the wire upwards the parts are: frames on a byte stream
    ([src/core/protocol/frame.py], [src/core/transport/tcp.py]); JSON control messages
    and binary [file_data] payloads inside frames ([src/core/protocol/messages.py],
    [binary.py], [error_codes.py]); the key schedule and the AEAD channel
    ([src/core/crypto/kdf.py], [encryption.py], [src/core/transport/secure.py]);
    identities, rotation certificates and the trust store ([src/core/identity],
    [src/core/trust]); the handshake that ties them together
    ([src/core/crypto/handshake.py]); the manager of connections and relay tunnels
    ([src/core/transport/manager.py]); chat and the event bus ([src/core/messaging],
    [src/core/events.py]); the file transfer session with its partial downloads
    ([src/core/transfer]); groups ([src/core/group]); the vault ([src/core/vault]);
    discovery and reachability ([src/core/discovery], [src/core/connectivity]); and the
    application that connects them to the user ([src/app/ui/app.py]).

    ** Which file models what

    - [Prelude], [Dicts]: bytes, big-endian integers, the result and state-and-error
      monads with their weakest preconditions, insertion-ordered dictionaries, generic
      lemmas, tactics and hint databases.
    - [Text], [Json], [Canonical], [Crypto]: what the program uses of Python's [str],
      [bytes] and [json], the canonical encodings that are signed, and the interfaces to
      the cryptographic primitives (classes of operations and classes of laws, with
      concrete instances in [Crypto.Sample]).
    - [Security]: [security/events.py], the events that other parts emit.
    - [Wire]: [frame.py] (module [Frame]), the stream reader and [relay_stream.py]
      (module [Stream]), [binary.py] (module [FileData]).
    - [Messages]: [error_codes.py] (module [Errors]) and [messages.py] (modules
      [Factories], [Validation]); [ErrorTheory] and [MessageTheory] hold the theorems.
    - [Channel]: [kdf.py] (module [Kdf]), [encryption.py] (module [Encryption]),
      [tcp.py] (module [Tcp]), [secure.py] (module [Secure]).
    - [Lifecycle]: [connection_state.py] and [transfer_state.py], three instances of one
      table machine.
    - [Trust]: [device_identity.py] (module [Identity]), [rotation.py] (module
      [Rotation]), [trust/store.py], [device.py] and [revocation.py] (module [Store]).
    - [Group]: [membership.py], [admin.py], [audit.py], [policy.py], [export_auth.py] and
      [protocol.py] of [core/group], a module each; [GroupStore]: [group/store.py];
      [GroupPolicy]: the enforcement of policies.  [GroupTheory], [GroupPolicyTheory] and
      [GroupScenarios] hold the theorems.
    - [GroupApp]: the group commands and messages of [app.py]; [GroupAppTheory],
      [GroupAppScenarios].
    - [Chat]: [events.py] (module [Bus]) and [messaging/session.py] (module
      [ChatSession]); [ChatTheory].
    - [Tasks]: [task_registry.py], with its theorems.
    - [Manager]: [transport/manager.py] and the session objects of
      [transport/session.py]; [ManagerTheory].
    - [Handshake]: [handshake.py] and [key_exchange.py]; [HandshakeTheory].
    - [Connectivity]: [core/connectivity] (locators, endpoint updates, rendezvous, relay
      authorization) and the handlers of [app.py] over them; [ConnectivityTheory].
    - [Hosting]: rendezvous and relay hosting in [app.py] and the search for a relay;
      [HostingTheory].
    - [Discovery]: [core/discovery]; [DiscoveryTheory].  [Link]: [connectivity/link.py]
      and the link dialogues; [LinkTheory].
    - [Files]: [filenames.py] and the directory operations; [Partial]: [partial.py],
      [resume.py], [chunker.py], [hashing.py] and the path resolution of [receiver.py].
    - [Disk], [VaultKeys], [VaultSession], [VaultFiles]: [core/vault] (files on disk,
      key files and recovery codes, unlocking and locking, encrypted files and what may
      be done with them); [VaultKeysTheory], [VaultSessionTheory], [VaultFilesTheory] and
      [VaultScenarios] hold the theorems.
    - [Transfer]: [transfer/session.py], every handler and the sending task;
      [TransferTheory] (invariants), [TransferFlow] (the stream of a file, end to end),
      [TransferRefinement] (simulation by the lifecycles) and [Scenarios] (evaluated
      runs, the interleavings that go wrong included).
    - [Receiver]: the class [FileReceiver] of [receiver.py], [sender.py] and
      [transfer/manager.py], the helpers the live session does not use; [ReceiverTheory].
    - [IdentityFile]: [key_storage.py], [identity_file.py], [identity_loader.py] and
      [vault/migration.py]; [IdentityFileTheory].
    - [TrustApp]: trust prompts, trust decisions, locking and the review of security
      events in [app.py] and [modals/identity.py]; [TrustAppTheory].
    - [Shell]: greetings, routing and the command line of [app.py]; [ShellTheory].
    - [Listeners]: the listeners of [security/events.py], with their theorem.

    ** How the code is represented

    A Python [str] is its UTF-8 encoding, [bytes] a list of bytes, an [int] a [Z], a
    [float] an IEEE-754 value of [SpecFloat], a [dict] the list of its items in
    insertion order.  A function that raises returns [result E A]; a method that changes
    an object is an operation of the monad [stm S E A] over the object's state, and an
    exception keeps the state reached.  A coroutine is cut where it awaits: what it
    keeps is part of the state, and an event resumes it, so that other handlers can run
    in between.  SQLite tables are finite maps on their primary keys.  The clock, random
    values, the operating system's answers and the outcome of each write are arguments.
    Code of other packages (the cryptography package, SQLCipher, the C library's address
    conversion, Unicode tables) is a class of operations; what a theorem uses of it is a
    class of laws, and its witness instantiates both.

    ** What the theorems show

    - Authentication: a side that completes the handshake has verified a signature of
      the peer's identity key over both transcripts, whatever the peer sends; two honest
      sides agree on keys; nothing is recorded before the proof; a nonce is not used
      twice.  A message that the manager hands on is attributed to the identity its
      session proved, as long as no two live sessions share an address.
    - The channel: what is received is a prefix of what was sent, in order; nonces never
      repeat under a key.
    - Chat: each message has an outcome or something that will give it one; a published
      event reaches each subscriber once.
    - File transfer: every reported success was preceded by a matching hash; counters
      and table sizes stay within their bounds in every environment; an incoming transfer
      is reported at most once; a complete stream ends with exactly the file that was
      sent; every run of a session is simulated by the lifecycle tables; an error frame
      touches one transfer only.
    - Groups: the store refines a small set of authority rules; memberships are rooted in
      the founder, revocation is final, changes are in the audit log, capabilities are
      spent once; the policies decide exports, trust and communication as documented.
      The application keeps these rules whatever is typed and received, and approvals
      answer verified requests.
    - Reachability: stored locators and rendezvous answers come from signed updates; a
      relay carries only members, a device tunnels only with the relay's consent, and
      the search for a relay ends; links round trip and are authentic; the registry of
      discovered peers is consistent.
    - The vault: its key can be recovered as documented and is never lost by a password
      change, a crash of an encrypted write keeps the old or the new file, exports pass
      both gates, opened files are inert.
    - The wire: frames and file-data payloads round trip, whatever the segmentation of
      the stream, and the bytes buffered stay bounded.
    - Trust: revocation is final; a device becomes trusted only by the operations meant
      for it; rotations form chains.
    - Messages: validation raises nothing but [ProtocolError] and accepts what the
      factories build; a received error is reduced to a closed set of safe values.
    - Files: sanitised names are safe path components; resuming picks the newest
      matching part; sweeping removes nothing that has not expired.
    - The identity of the device: its key and its file stay in step through any history,
      it is never replaced silently, a rotation is accepted by the peers, and what a
      crash in it can leave; the migration of an old trust file loses no row.
    - The application: no trust request is lost, an approval is decided by the store and
      the group policies, a lock detaches every store and unlocking gives back their
      tables; only authenticated senders enter the registry, and what is typed goes to
      the address of the active peer.
    - The theorems of the [Scenarios] files, and others next to the component they are
      about, state behaviours that differ from what the comments of the source promise
      or from what its user asked.

    ** Bounds and fuel

    Every function of the model is total.  Most recursion is structural; the loops of the
    code that are not take fuel that is shown to be enough: [Frame.feed_chunks] recurses
    on its input and [drain_frames] on two more than the bytes it has; [chunks_from] and
    [groups_of] on the length of their input; the search for a free file name on two more
    than the files there are ([resolve_safe_dest_path_spec],
    [export_destination_found]); a rotation chain and the walk over its graph on the
    number of edges ([rotation_chain_component]); [words_from] on the characters of a
    line.  Sizes are those of the source: 64 KiB chunks, 32-bit frame lengths, 64-bit
    sequence numbers.

    ** Not modelled

    The terminal screens and what handlers write to them; the sockets and the loops that
    only wait on them (listening, periodic announcements, mDNS browsing, the list of the
    host's interfaces); PEM serialisation, file permissions, SQLCipher and the key
    derivation functions themselves, which are code of other packages and of the
    operating system; QR codes of links, which need an optional package; logging,
    benchmarking, host information, re-exports and the build scripts.  The legacy
    [_dispatch] of the chat and file transfer sessions and the unused
    [_unique_dest_path] are not modelled either. *)

From stdpp Require Export base gmap list strings countable pretty.
From Stdlib Require Export ZArith Lia.
From Stdlib Require Import Ascii Sorting.Sorted.
From Stdlib.Strings Require Byte.
From coqutil Require Export Byte.
From coqutil Require Word.LittleEndianList.

Export Init.Byte.ByteSyntaxNotations.
Delimit Scope byte_scope with byte.

(** ** Scopes, bytes and byte strings *)

Declare Scope peerc_scope.
Delimit Scope peerc_scope with peerc.

Abbreviation byte := Init.Byte.byte.
Abbreviation bytes := (list byte).

#[export] Instance byte_eq_decision : EqDecision byte := Byte.byte_eq_dec.

#[export] Instance byte_countable : Countable byte.
Proof.
  refine (inj_countable' Ascii.ascii_of_byte Ascii.byte_of_ascii _).
  intros x. apply Ascii.byte_of_ascii_of_byte.
Defined.

(** An ASCII (or Latin-1) literal as the bytes Python's [b"..."] denotes. *)
Definition lit (s : string) : bytes := String.list_byte_of_string s.

(** Fixed-width big-endian integers, as [struct.pack(">I"/">Q"/">H"/">B")] and
    [int.to_bytes(n, "big")] write them. *)
Definition be_bytes (n : nat) (z : Z) : bytes := rev (LittleEndianList.le_split n z).
Definition be_int (bs : bytes) : Z := LittleEndianList.le_combine (rev bs).

Arguments be_bytes : simpl never.
Arguments be_int : simpl never.

Lemma length_be_bytes n z : length (be_bytes n z) = n.
Proof. unfold be_bytes. by rewrite length_rev, LittleEndianList.length_le_split. Qed.

Lemma be_int_be_bytes n z :
  (0 <= z < 2 ^ (8 * Z.of_nat n))%Z -> be_int (be_bytes n z) = z.
Proof.
  intros Hz. unfold be_int, be_bytes.
  rewrite rev_involutive, LittleEndianList.le_combine_split.
  apply Z.mod_small. by rewrite Z.mul_comm.
Qed.

Lemma be_bytes_be_int bs : be_bytes (length bs) (be_int bs) = bs.
Proof.
  unfold be_int, be_bytes.
  rewrite <- (length_rev bs), LittleEndianList.split_le_combine.
  apply rev_involutive.
Qed.

Lemma be_int_bound bs : (0 <= be_int bs < 2 ^ (8 * Z.of_nat (length bs)))%Z.
Proof.
  unfold be_int. rewrite <- (length_rev bs). apply LittleEndianList.le_combine_bound.
Qed.

Lemma be_bytes_inj n z1 z2 :
  (0 <= z1 < 2 ^ (8 * Z.of_nat n))%Z -> (0 <= z2 < 2 ^ (8 * Z.of_nat n))%Z ->
  be_bytes n z1 = be_bytes n z2 -> z1 = z2.
Proof.
  intros H1 H2 H. apply (f_equal be_int) in H.
  by rewrite !be_int_be_bytes in H by done.
Qed.

Lemma land_shiftl_small x y k :
  (0 <= k)%Z -> (0 <= x < 2 ^ k)%Z -> Z.land x (Z.shiftl y k) = 0%Z.
Proof.
  intros Hk Hx. apply Z.bits_inj'. intros i Hi. rewrite Z.land_spec, Z.bits_0.
  destruct (decide (i < k)%Z) as [Hlt|].
  - by rewrite Z.shiftl_spec_low, andb_false_r.
  - destruct (decide (x = 0%Z)) as [->|]; [by rewrite Z.bits_0|].
    rewrite Z.bits_above_log2; [done|lia|].
    assert (Z.log2 x < k)%Z; [apply Z.log2_lt_pow2; lia|lia].
Qed.

(** The big-endian value of a concatenation. *)
Lemma be_int_app bs1 bs2 :
  be_int (bs1 ++ bs2) = (be_int bs1 * 2 ^ (8 * Z.of_nat (length bs2)) + be_int bs2)%Z.
Proof.
  unfold be_int. rewrite rev_app_distr, LittleEndianList.le_combine_app, length_rev.
  set (k := (Z.of_nat (length bs2) * 8)%Z).
  assert (Z.land (LittleEndianList.le_combine (rev bs2))
            (Z.shiftl (LittleEndianList.le_combine (rev bs1)) k) = 0%Z) as Hl.
  { apply land_shiftl_small; [lia|]. pose proof (be_int_bound bs2) as Hb.
    unfold be_int in Hb. by replace k with (8 * Z.of_nat (length bs2))%Z by lia. }
  rewrite <- Z.lxor_lor, <- Z.add_nocarry_lxor, Z.shiftl_mul_pow2 by (done || lia).
  replace k with (8 * Z.of_nat (length bs2))%Z by lia. ring.
Qed.

Lemma be_int_1 b : be_int [b] = byte.unsigned b.
Proof. apply LittleEndianList.le_combine_1. Qed.

Lemma range_ok (x m : Z) :
  (0 <= x <= m)%Z -> ((x <? 0) || (m <? x))%Z = false.
Proof. intros Hx. apply orb_false_iff. split; apply Z.ltb_ge; lia. Qed.

(** ** Results: a value or the exception the code raises *)

Inductive result (E A : Type) : Type :=
| Ok (a : A)
| Err (e : E).
Arguments Ok {E A} a.
Arguments Err {E A} e.

Definition rbind {E A B} (r : result E A) (k : A -> result E B) : result E B :=
  match r with Ok a => k a | Err e => Err e end.

Notation "'let?' x ':=' r 'in' k" := (rbind r (fun x => k))
  (at level 10, x name, r at level 100, k at level 200)
  : peerc_scope.
Notation "'raise?' b 'with' e ';;' k" := (if b then Err e else k)
  (at level 10, b at level 99, e at level 99, k at level 200)
  : peerc_scope.

Definition is_ok {E A} (r : result E A) : bool :=
  match r with Ok _ => true | Err _ => false end.

Lemma rbind_Ok {E A B} (r : result E A) (k : A -> result E B) b :
  rbind r k = Ok b <-> exists a, r = Ok a /\ k a = Ok b.
Proof. destruct r; naive_solver. Qed.

Lemma Ok_inj {E A} (a b : A) : @Ok E A a = Ok b -> a = b.
Proof. by intros [=]. Qed.

(** ** Automation *)

(** Case-split every [match] and [if] of a hypothesis, keeping the equations. *)
Ltac split_match_in H :=
  repeat match type of H with
         | context [match ?x with _ => _ end] =>
             let E := fresh "E" in destruct x eqn:E; try discriminate H
         end.

(** The same for the goal. *)
Ltac split_match :=
  repeat match goal with
         | |- context [match ?x with _ => _ end] =>
             let E := fresh "E" in destruct x eqn:E
         end.

(** Linear arithmetic with division and modulo by constants. *)
Ltac lia_div := Z.to_euclidean_division_equations; lia.

(** Turn boolean comparisons in the context into propositions. *)
Ltac bool_to_prop :=
  repeat match goal with
         | H : (_ && _)%bool = true |- _ => apply andb_true_iff in H; destruct H
         | H : (_ || _)%bool = false |- _ => apply orb_false_iff in H; destruct H
         | H : negb _ = true |- _ => apply negb_true_iff in H
         | H : negb _ = false |- _ => apply negb_false_iff in H
         | H : (_ =? _)%Z = true |- _ => apply Z.eqb_eq in H
         | H : (_ =? _)%Z = false |- _ => apply Z.eqb_neq in H
         | H : (_ <? _)%Z = true |- _ => apply Z.ltb_lt in H
         | H : (_ <? _)%Z = false |- _ => apply Z.ltb_ge in H
         | H : (_ <=? _)%Z = true |- _ => apply Z.leb_le in H
         | H : (_ <=? _)%Z = false |- _ => apply Z.leb_gt in H
         | H : bool_decide _ = true |- _ => apply bool_decide_eq_true in H
         | H : bool_decide _ = false |- _ => apply bool_decide_eq_false in H
         end.

Create HintDb peerc discriminated.
Create HintDb wire discriminated.
Create Rewrite HintDb zlen.
#[export] Hint Resolve length_be_bytes be_bytes_be_int : wire.

(** ** Stateful operations that may raise

    [stm S E A] is a computation over the state [S] that returns an [A] or raises
    an [E]; the state reached before the exception is kept. *)

Definition stm (S E A : Type) : Type := S -> S * result E A.

#[export] Instance stm_ret {S E} : MRet (stm S E) := fun A a s => (s, Ok a).
#[export] Instance stm_bind {S E} : MBind (stm S E) := fun A B f m s =>
  match m s with
  | (s', Ok a) => f a s'
  | (s', Err e) => (s', Err e)
  end.

Definition raise {S E A} (e : E) : stm S E A := fun s => (s, Err e).
Definition raise_if {S E} (b : bool) (e : E) : stm S E unit :=
  fun s => if b then (s, Err e) else (s, Ok ()).
Definition get {S E} : stm S E S := fun s => (s, Ok s).
Definition gets {S E A} (f : S -> A) : stm S E A := fun s => (s, Ok (f s)).
Definition modify {S E} (f : S -> S) : stm S E unit := fun s => (f s, Ok ()).
Definition lift {S E A} (r : result E A) : stm S E A := fun s => (s, r).

(** The relation [R] holds between the states before and after [m], however it
    ends. *)
Definition within {S E A} (R : S -> S -> Prop) (m : stm S E A) : Prop :=
  forall s, R s (fst (m s)).

Section Within.
Context {S E : Type} (R : S -> S -> Prop) `{!PreOrder R}.

Lemma within_ret {A} (a : A) : within R (mret a : stm S E A).
Proof. intros s. reflexivity. Qed.

Lemma within_bind {A B} (m : stm S E A) (f : A -> stm S E B) :
  within R m -> (forall a, within R (f a)) -> within R (m ≫= f).
Proof.
  intros Hm Hf s. unfold mbind, stm_bind. specialize (Hm s).
  destruct (m s) as [s' [a|e]]; [|done]. transitivity s'; [done|apply Hf].
Qed.

(** The same at one state, with what the first step returned. *)
Lemma bind_at {A B} (m : stm S E A) (f : A -> stm S E B) s :
  R s (fst (m s)) -> (forall s1 a, m s = (s1, Ok a) -> R s1 (fst (f a s1))) ->
  R s (fst ((m ≫= f) s)).
Proof.
  intros Hm Hf. unfold mbind, stm_bind. destruct (m s) as [s' [a|e]]; [|done].
  transitivity s'; [done|by apply Hf].
Qed.

Lemma within_raise {A} (e : E) : within R (raise e : stm S E A).
Proof. intros s. reflexivity. Qed.

Lemma within_raise_if (b : bool) (e : E) : within R (raise_if b e).
Proof. intros s. unfold raise_if. by destruct b. Qed.

Lemma within_gets {A} (f : S -> A) : within R (gets f : stm S E A).
Proof. intros s. reflexivity. Qed.

Lemma within_get : within R (get : stm S E S).
Proof. intros s. reflexivity. Qed.

Lemma within_lift {A} (r : result E A) : within R (lift r : stm S E A).
Proof. intros s. reflexivity. Qed.

Lemma within_modify (f : S -> S) : (forall s, R s (f s)) -> within R (modify f : stm S E unit).
Proof. intros Hf s. apply Hf. Qed.

End Within.

#[export] Hint Resolve within_ret within_bind within_raise within_raise_if within_gets
  within_get within_lift within_modify : peerc.

(** Follow the structure of a stateful operation down to its updates. *)
Ltac within_steps :=
  repeat first
    [ apply within_bind; [exact _| |intros ?] | apply within_ret; exact _
    | apply within_raise; exact _ | apply within_raise_if; exact _
    | apply within_gets; exact _ | apply within_get; exact _ | apply within_lift; exact _
    | apply within_modify
    | match goal with
      | |- within _ (if ?b then _ else _) => destruct b
      | |- within _ (match ?x with _ => _ end) => destruct x
      | |- within _ (let '_ := ?x in _) => destruct x
      end ].

Lemma bind_run {S E A B} (m : stm S E A) (f : A -> stm S E B) s s1 a :
  m s = (s1, Ok a) -> (m ≫= f) s = f a s1.
Proof. intros Hm. unfold mbind, stm_bind. by rewrite Hm. Qed.

Lemma bind_Ok {S E A B} (m : stm S E A) (f : A -> stm S E B) s s' b :
  (m ≫= f) s = (s', Ok b) <-> exists s1 a, m s = (s1, Ok a) /\ f a s1 = (s', Ok b).
Proof.
  unfold mbind, stm_bind. destruct (m s) as [s1 [a|e]]; split.
  - eauto.
  - intros (? & ? & [= <- <-] & ?). done.
  - done.
  - by intros (? & ? & ? & ?).
Qed.

(** What holds after [m] from a state: [Q] of its result and the new state, or [X] of
    the state in which it raised. *)
Definition wp {S E A} (m : stm S E A) (Q : A -> S -> Prop) (X : S -> Prop) (s : S) : Prop :=
  match m s with (s', Ok a) => Q a s' | (s', Err _) => X s' end.

Section Wp.
Context {S E : Type} (X : S -> Prop).

Lemma wp_bind {A B} (m : stm S E A) (f : A -> stm S E B) Q s :
  wp m (fun a s' => wp (f a) Q X s') X s -> wp (m ≫= f) Q X s.
Proof. unfold wp, mbind, stm_bind. by destruct (m s) as [s' [a|e]]. Qed.

Lemma wp_ret {A} (a : A) (Q : A -> S -> Prop) s : Q a s -> wp (mret a : stm S E A) Q X s.
Proof. done. Qed.

Lemma wp_gets {A} (f : S -> A) (Q : A -> S -> Prop) s :
  Q (f s) s -> wp (gets f : stm S E A) Q X s.
Proof. done. Qed.

Lemma wp_modify (f : S -> S) (Q : unit -> S -> Prop) s :
  Q () (f s) -> wp (modify f : stm S E unit) Q X s.
Proof. done. Qed.

Lemma wp_raise {A} (e : E) (Q : A -> S -> Prop) s : X s -> wp (raise e) Q X s.
Proof. done. Qed.

Lemma wp_raise_if (b : bool) (e : E) (Q : unit -> S -> Prop) s :
  (b = true -> X s) -> (b = false -> Q () s) -> wp (raise_if b e) Q X s.
Proof. unfold wp, raise_if. destruct b; auto. Qed.

Lemma wp_mono {A} (m : stm S E A) (Q Q' : A -> S -> Prop) s :
  wp m Q X s -> (forall a s', Q a s' -> Q' a s') -> wp m Q' X s.
Proof. unfold wp. destruct (m s) as [s' [a|e]]; auto. Qed.

Lemma wp_state {A} (m : stm S E A) s : wp m (fun _ => X) X s <-> X (fst (m s)).
Proof. unfold wp. by destruct (m s) as [s' [a|e]]. Qed.

End Wp.

Lemma wp_and {S E A} (m : stm S E A) (Q Q' : A -> S -> Prop) (X X' : S -> Prop) s :
  wp m Q X s -> wp m Q' X' s -> wp m (fun x s' => Q x s' /\ Q' x s') (fun s' => X s' /\ X' s') s.
Proof. unfold wp. destruct (m s) as [s' [x|er]]; auto. Qed.

Lemma wp_conseq {S E A} (m : stm S E A) (Q Q' : A -> S -> Prop) (X X' : S -> Prop) s :
  wp m Q X s -> (forall x s', Q x s' -> Q' x s') -> (forall s', X s' -> X' s') -> wp m Q' X' s.
Proof. unfold wp. destruct (m s) as [s' [x|er]]; auto. Qed.

(** One step of a [wp] goal along the structure of the operation. *)
Ltac wp_step :=
  lazymatch goal with
  | |- wp (mbind _ _) _ _ _ => apply wp_bind
  | |- wp (mret _) _ _ _ => apply wp_ret
  | |- wp (gets _) _ _ _ => apply wp_gets
  | |- wp (modify _) _ _ _ => apply wp_modify
  | |- wp (raise _) _ _ _ => apply wp_raise
  | |- wp (raise_if _ _) _ _ _ => apply wp_raise_if
  end; cbv beta.

Ltac wp_steps := repeat wp_step.

(** ** Lists *)

Lemma take_app_exact {A} (n : nat) (l k : list A) : length l = n -> take n (l ++ k) = l.
Proof. intros <-. apply take_app_length. Qed.

Lemma drop_app_exact {A} (n : nat) (l k : list A) : length l = n -> drop n (l ++ k) = k.
Proof. intros <-. apply drop_app_length. Qed.

Lemma elem_insert {A} (n : nat) (x y : A) (l : list A) : y ∈ <[n := x]> l -> y = x \/ y ∈ l.
Proof.
  intros [i Hi]%list_elem_of_lookup. apply list_lookup_insert_Some in Hi as [(-> & <- & _)|[_ Hi]]; [by left|].
  right. by eapply list_elem_of_lookup_2.
Qed.

(** Python's [len] as an integer. *)
Definition zlen {A} (l : list A) : Z := Z.of_nat (length l).

Lemma zlen_app {A} (l k : list A) : zlen (l ++ k) = (zlen l + zlen k)%Z.
Proof. unfold zlen. rewrite length_app. lia. Qed.

Lemma zlen_nonneg {A} (l : list A) : (0 <= zlen l)%Z.
Proof. unfold zlen. lia. Qed.

Lemma zlen_nil {A} : zlen (@nil A) = 0%Z.
Proof. done. Qed.

#[export] Hint Rewrite @zlen_app @zlen_nil : zlen.
#[export] Hint Resolve zlen_nonneg : peerc.

(** ** [sorted] with a key: a stable sort for a comparison *)

Section Sorting.
Context {A : Type} (lt : A -> A -> bool).

Fixpoint insert_sorted (x : A) (l : list A) : list A :=
  match l with
  | [] => [x]
  | y :: l' => if lt y x then y :: insert_sorted x l' else x :: y :: l'
  end.

Definition sort_by (l : list A) : list A := foldr insert_sorted [] l.

Lemma insert_sorted_perm x l : insert_sorted x l ≡ₚ x :: l.
Proof.
  induction l as [|y l IH]; simpl; [done|]. destruct (lt y x); [|done].
  etransitivity; [apply perm_skip, IH|apply perm_swap].
Qed.

Lemma sort_by_perm l : sort_by l ≡ₚ l.
Proof.
  induction l as [|x l IH]; simpl; [done|].
  etransitivity; [apply insert_sorted_perm|by apply perm_skip].
Qed.

(** No element is followed by a smaller one. *)
Definition in_order (l : list A) : Prop := LocallySorted (fun a b => lt b a = false) l.

Lemma insert_sorted_in_order x l :
  (forall a b, lt a b = true -> lt b a = false) -> in_order l -> in_order (insert_sorted x l).
Proof.
  intros Hasym. unfold in_order. induction 1 as [|y|y z l Hl IH Hyz]; simpl.
  - constructor.
  - destruct (lt y x) eqn:E; repeat constructor; [by apply Hasym|done].
  - destruct (lt y x) eqn:E; [|repeat constructor; done].
    simpl in IH. destruct (lt z x) eqn:Ez; repeat constructor; try done. by apply Hasym.
Qed.

Lemma sort_by_in_order l :
  (forall a b, lt a b = true -> lt b a = false) -> in_order (sort_by l).
Proof.
  intros Hasym. induction l as [|x l IH]; simpl; [constructor|].
  by apply insert_sorted_in_order.
Qed.

End Sorting.
