(* ===== verification/Dicts.v ===== *)
(** * Python dicts

    A [dict] keyed by texts whose insertion order matters, as the list of its items: what the
    connection manager and the peer registry keep. *)

From S2P Require Import Prelude.

Module OrderedDict.

Section Dict.
Context {A : Type}.

Fixpoint get (k : string) (d : list (string * A)) : option A :=
  match d with
  | [] => None
  | (k', v) :: d' => if decide (k' = k) then Some v else get k d'
  end.

(** [d[k] = v]: in place, or at the end. *)
Fixpoint set (k : string) (v : A) (d : list (string * A)) : list (string * A) :=
  match d with
  | [] => [(k, v)]
  | (k', v') :: d' => if decide (k' = k) then (k, v) :: d' else (k', v') :: set k v d'
  end.

(** [d.pop(k, None)]. *)
Definition pop (k : string) (d : list (string * A)) : list (string * A) :=
  List.filter (fun kv => negb (bool_decide (fst kv = k))) d.

Lemma get_set k v d k' : get k' (set k v d) = if decide (k' = k) then Some v else get k' d.
Proof.
  induction d as [|[k1 v1] d IH]; simpl.
  - destruct (decide (k = k')), (decide (k' = k)); congruence.
  - destruct (decide (k1 = k)) as [-> |]; simpl; [|rewrite IH];
      repeat destruct (decide _); congruence.
Qed.

Lemma get_pop k d k' : get k' (pop k d) = if decide (k' = k) then None else get k' d.
Proof.
  induction d as [|[k1 v1] d IH]; simpl; [by destruct (decide _)|].
  destruct (bool_decide_reflect (k1 = k)) as [-> |]; simpl; rewrite IH;
    repeat destruct (decide _); congruence.
Qed.

Lemma length_set_new k v d : get k d = None -> length (set k v d) = S (length d).
Proof.
  induction d as [|[k' v'] d IH]; simpl; [done|]. destruct (decide (k' = k)); [done|].
  intros Hn. simpl. by rewrite IH.
Qed.

Lemma elem_get k v d : get k d = Some v -> (k, v) ∈ d.
Proof.
  induction d as [|[k' v'] d IH]; simpl; [done|]. destruct (decide (k' = k)) as [-> |]; [|by right; apply IH].
  intros [= ->]. by left.
Qed.

Lemma Forall_set (P : string * A -> Prop) k v d : Forall P d -> P (k, v) -> Forall P (set k v d).
Proof.
  induction 1 as [|[k' v'] d Hk Hd IH]; intros Hv; simpl; [by constructor|].
  destruct (decide (k' = k)); constructor; auto.
Qed.

End Dict.
End OrderedDict.
