(* ===== verification/Text.v ===== *)
(** * Text and hexadecimal helpers of the Python standard library

    [str.replace], [str.strip], [bytes.hex], [bytes.fromhex] and the character
    classes behind them, on the UTF-8 bytes of a string. *)

From Corelib Require Import SpecFloat.
From S2P Require Import Prelude.
Local Open Scope Z_scope.

Abbreviation str_bytes := String.list_byte_of_string.
Abbreviation bytes_str := String.string_of_list_byte.

(** [s.replace(pat, "")]: the non-overlapping occurrences from the left. *)
Fixpoint remove_all (pat : bytes) (skip : nat) (s : bytes) : bytes :=
  match s with
  | [] => []
  | c :: s' =>
      match skip with
      | S k => remove_all pat k s'
      | O => if bool_decide (take (length pat) s = pat)
             then remove_all pat (length pat - 1) s'
             else c :: remove_all pat O s'
      end
  end.

Fixpoint lstrip (drop_it : byte -> bool) (s : bytes) : bytes :=
  match s with
  | [] => []
  | c :: s' => if drop_it c then lstrip drop_it s' else s
  end.

Definition strip (drop_it : byte -> bool) (s : bytes) : bytes :=
  rev (lstrip drop_it (rev (lstrip drop_it s))).

(** [Py_ISSPACE]. *)
Definition is_space (c : byte) : bool :=
  let n := byte.unsigned c in (9 <=? n) && (n <=? 13) || (n =? 32).

Definition hex_value (c : byte) : option Z :=
  let n := byte.unsigned c in
  if (48 <=? n) && (n <=? 57) then Some (n - 48)
  else if (97 <=? n) && (n <=? 102) then Some (n - 87)
  else if (65 <=? n) && (n <=? 70) then Some (n - 55)
  else None.

Definition hex_char (d : Z) : byte := byte.of_Z (if d <? 10 then 48 + d else 87 + d).

Definition hex_byte (b : byte) : bytes :=
  [hex_char (byte.unsigned b / 16); hex_char (byte.unsigned b mod 16)].

(** [bytes.hex()]. *)
Definition hex_text (bs : bytes) : bytes := concat (map hex_byte bs).

(** [bytes.fromhex]: pairs of hexadecimal digits, ASCII white space allowed
    between the pairs. *)
Fixpoint fromhex (s : bytes) : option bytes :=
  match s with
  | [] => Some []
  | c :: s' =>
      if is_space c then fromhex s'
      else match s' with
           | d :: s'' =>
               match hex_value c, hex_value d with
               | Some h, Some l => (fun bs => byte.of_Z (h * 16 + l) :: bs) <$> fromhex s''
               | _, _ => None
               end
           | [] => None
           end
  end.

Definition is_hex (c : byte) : bool :=
  let n := byte.unsigned c in
  (48 <=? n) && (n <=? 57) || (97 <=? n) && (n <=? 102).

Lemma hex_byte_spec b :
  exists c d h l, hex_byte b = [c; d] /\ is_hex c = true /\ is_hex d = true /\
    hex_value c = Some h /\ hex_value d = Some l /\ h * 16 + l = byte.unsigned b.
Proof.
  exists (hex_char (byte.unsigned b / 16)), (hex_char (byte.unsigned b mod 16)),
    (byte.unsigned b / 16), (byte.unsigned b mod 16).
  split; [done|]. split; [by destruct b|]. split; [by destruct b|].
  split; [by destruct b|]. split; [by destruct b|].
  pose proof (Z.div_mod (byte.unsigned b) 16). lia.
Qed.

Lemma hex_text_cons b bs : hex_text (b :: bs) = hex_byte b ++ hex_text bs.
Proof. done. Qed.

Lemma hex_text_is_hex bs : forallb is_hex (hex_text bs) = true.
Proof.
  induction bs as [|b bs IH]; [done|]. rewrite hex_text_cons, forallb_app, IH.
  destruct (hex_byte_spec b) as (c & d & h & l & -> & Hc & Hd & _). simpl. by rewrite Hc, Hd.
Qed.

Lemma length_hex_text bs : length (hex_text bs) = (2 * length bs)%nat.
Proof.
  induction bs as [|b bs IH]; [done|]. rewrite hex_text_cons, length_app, IH.
  destruct (hex_byte_spec b) as (c & d & h & l & -> & _). simpl. lia.
Qed.

Lemma remove_all_absent c0 pat s :
  forallb (fun c => negb (bool_decide (c = c0))) s = true ->
  remove_all (c0 :: pat) O s = s.
Proof.
  induction s as [|c s IH]; [done|]. intros H. cbn [forallb] in H.
  apply andb_true_iff in H as [Hc Hs]. cbn [remove_all].
  apply negb_true_iff, bool_decide_eq_false in Hc.
  rewrite bool_decide_false by (simpl; naive_solver). by rewrite IH.
Qed.

Lemma strip_none f s : forallb (fun c => negb (f c)) s = true -> strip f s = s.
Proof.
  assert (forall s, forallb (fun c => negb (f c)) s = true -> lstrip f s = s) as Hl.
  { intros [|c s'] Hs; [done|]. simpl in *. by destruct (f c). }
  intros Hs. unfold strip. rewrite (Hl s) by done. rewrite Hl, rev_involutive; [done|].
  apply forallb_forall. intros c Hc. apply in_rev in Hc.
  rewrite forallb_forall in Hs. by apply Hs.
Qed.

Lemma forallb_impl {A} (f g : A -> bool) l :
  (forall x, f x = true -> g x = true) -> forallb f l = true -> forallb g l = true.
Proof. rewrite !forallb_forall. auto. Qed.

Lemma forallb_take_drop {A} (f : A -> bool) n m l :
  forallb f l = true -> forallb f (take n (drop m l)) = true.
Proof.
  rewrite !forallb_forall. intros H x Hx. apply H.
  apply list_elem_of_In in Hx. apply list_elem_of_In.
  apply elem_of_take in Hx as (i & Hi & _). rewrite lookup_drop in Hi.
  by eapply list_elem_of_lookup_2.
Qed.

Lemma fromhex_hex_text bs : fromhex (hex_text bs) = Some bs.
Proof.
  induction bs as [|b bs IH]; [done|]. rewrite hex_text_cons.
  destruct (hex_byte_spec b) as (c & d & h & l & -> & Hc & _ & Hh & Hl & Hb). simpl.
  assert (is_space c = false) as -> by (by destruct c).
  rewrite Hh, Hl, IH, Hb. simpl. by rewrite byte.of_Z_unsigned.
Qed.

Lemma hex_text_inj bs1 bs2 : hex_text bs1 = hex_text bs2 -> bs1 = bs2.
Proof.
  intros H. apply (f_equal fromhex) in H. rewrite !fromhex_hex_text in H. by simplify_eq.
Qed.

(** [len] of a [str]: the code points of its UTF-8 encoding. *)
Definition code_points (s : bytes) : Z :=
  zlen (List.filter (fun c => negb ((128 <=? byte.unsigned c) && (byte.unsigned c <? 192))) s).

Definition is_cont (c : byte) : bool := (128 <=? byte.unsigned c) && (byte.unsigned c <? 192).

(** The characters of a string, each with its UTF-8 bytes. *)
Fixpoint chars (s : bytes) : list bytes :=
  match s with
  | [] => []
  | c :: s' =>
      match chars s' with
      | (d :: g) :: rest => if is_cont d then (c :: d :: g) :: rest else [c] :: (d :: g) :: rest
      | r => [c] :: r
      end
  end.

Definition unchars (cs : list bytes) : bytes := concat cs.

(** [s[:n]] on a [str]. *)
Definition str_prefix (n : nat) (s : bytes) : bytes := unchars (take n (chars s)).

(** ** Base 64 *)

(** The sextets of the standard alphabet. *)
Definition b64_char (d : Z) : byte :=
  byte.of_Z (if d <? 26 then 65 + d else if d <? 52 then 71 + d
             else if d <? 62 then d - 4 else if d =? 62 then 43 else 47).

Definition b64_value (c : byte) : option Z :=
  let n := byte.unsigned c in
  if (65 <=? n) && (n <=? 90) then Some (n - 65)
  else if (97 <=? n) && (n <=? 122) then Some (n - 71)
  else if (48 <=? n) && (n <=? 57) then Some (n + 4)
  else if n =? 43 then Some 62
  else if n =? 47 then Some 63
  else None.

(** [base64.b64encode]. *)
Fixpoint b64encode (bs : bytes) : bytes :=
  match bs with
  | [] => []
  | [a] =>
      let x := byte.unsigned a in
      [b64_char (x / 4); b64_char (x mod 4 * 16); "="%byte; "="%byte]
  | [a; b] =>
      let x := byte.unsigned a in let y := byte.unsigned b in
      [b64_char (x / 4); b64_char (x mod 4 * 16 + y / 16); b64_char (y mod 16 * 4); "="%byte]
  | a :: b :: c :: bs' =>
      let x := byte.unsigned a in let y := byte.unsigned b in let z := byte.unsigned c in
      b64_char (x / 4) :: b64_char (x mod 4 * 16 + y / 16)
        :: b64_char (y mod 16 * 4 + z / 64) :: b64_char (z mod 64) :: b64encode bs'
  end.

(** [binascii.a2b_base64] in its lenient mode: characters outside the alphabet are
    skipped, a complete padding ends the input.  [quad_pos] is the position in the
    quadruple, [left] the bits carried over, [pads] the padding seen since the last
    data character. *)
Fixpoint a2b_base64 (quad_pos : nat) (left : Z) (pads : nat) (s : bytes) : option bytes :=
  match s with
  | [] => if decide (quad_pos = 0%nat) then Some [] else None
  | c :: s' =>
      if bool_decide (c = "="%byte) then
        if decide (2 <= quad_pos)%nat then
          if decide (4 <= quad_pos + S pads)%nat then Some []
          else a2b_base64 quad_pos left (S pads) s'
        else a2b_base64 quad_pos left pads s'
      else match b64_value c with
           | None => a2b_base64 quad_pos left pads s'
           | Some v =>
               match quad_pos with
               | 0%nat => a2b_base64 1 v 0 s'
               | 1%nat => cons (byte.of_Z (left * 4 + v / 16)) <$> a2b_base64 2 (v mod 16) 0 s'
               | 2%nat => cons (byte.of_Z (left * 16 + v / 4)) <$> a2b_base64 3 (v mod 4) 0 s'
               | _ => cons (byte.of_Z (left * 64 + v)) <$> a2b_base64 0 0 0 s'
               end
           end
  end.

Definition is_ascii (s : bytes) : bool := forallb (fun c => byte.unsigned c <? 128) s.

(** [base64.b64decode] of a [str]. *)
Definition b64decode (s : bytes) : option bytes :=
  if is_ascii s then a2b_base64 0 0 0 s else None.

Lemma b64_char_spec d :
  0 <= d < 64 -> b64_value (b64_char d) = Some d /\ b64_char d <> "="%byte /\
  byte.unsigned (b64_char d) < 128 /\ b64_char d <> Byte.x00.
Proof.
  intros Hd. assert (exists n, d = Z.of_nat n /\ (n < 64)%nat) as (n & -> & Hn).
  { exists (Z.to_nat d). lia. }
  do 64 (destruct n as [|n]; [by vm_compute|]). lia.
Qed.

Lemma byte_bound b : 0 <= byte.unsigned b < 256.
Proof. apply byte.unsigned_range. Qed.

(** One data character of the decoder. *)
Lemma a2b_char q l p d s :
  0 <= d < 64 ->
  a2b_base64 q l p (b64_char d :: s) =
    match q with
    | 0%nat => a2b_base64 1 d 0 s
    | 1%nat => cons (byte.of_Z (l * 4 + d / 16)) <$> a2b_base64 2 (d mod 16) 0 s
    | 2%nat => cons (byte.of_Z (l * 16 + d / 4)) <$> a2b_base64 3 (d mod 4) 0 s
    | _ => cons (byte.of_Z (l * 64 + d)) <$> a2b_base64 0 0 0 s
    end.
Proof.
  intros Hd. destruct (b64_char_spec d Hd) as (Hv & Hp & _). cbn [a2b_base64].
  by rewrite bool_decide_false, Hv.
Qed.

Lemma of_Z_eq b z : z = byte.unsigned b -> byte.of_Z z = b.
Proof. intros ->. apply byte.of_Z_unsigned. Qed.

Lemma a2b_b64encode bs : a2b_base64 0 0 0 (b64encode bs) = Some bs.
Proof.
  remember (length bs) as n eqn:Hn. assert (length bs <= n)%nat as Hle by lia. clear Hn.
  revert bs Hle. induction n as [|n IH]; intros bs Hle; [by destruct bs; simpl in *; try lia|].
  destruct bs as [|a [|b [|c bs]]]; cbn [b64encode]; [done|..]; cbv zeta;
    pose proof (byte_bound a); try pose proof (byte_bound b); try pose proof (byte_bound c).
  - rewrite a2b_char by lia_div. rewrite a2b_char by lia_div.
    simpl. f_equal. f_equal. apply of_Z_eq. lia_div.
  - do 3 rewrite a2b_char by lia_div.
    simpl. f_equal. f_equal; [apply of_Z_eq; lia_div|].
    f_equal. apply of_Z_eq. lia_div.
  - do 4 rewrite a2b_char by lia_div. rewrite IH by (simpl in Hle; lia).
    simpl. f_equal. f_equal; [apply of_Z_eq; lia_div|].
    f_equal; [apply of_Z_eq; lia_div|]. f_equal. apply of_Z_eq. lia_div.
Qed.

(** The characters an encoding consists of. *)
Lemma b64encode_chars bs c :
  In c (b64encode bs) -> c = "="%byte \/ exists d, 0 <= d < 64 /\ c = b64_char d.
Proof.
  remember (length bs) as n eqn:Hn. assert (length bs <= n)%nat as Hle by lia. clear Hn.
  revert bs Hle. induction n as [|n IH]; intros bs Hle; [by destruct bs; simpl in *; try lia|].
  destruct bs as [|a [|b [|x bs]]]; cbn [b64encode]; [done|..]; cbv zeta;
    pose proof (byte_bound a); try pose proof (byte_bound b); try pose proof (byte_bound x).
  - intros [<-|[<-|[<-|[<-|[]]]]]; [right|right|by left|by left];
      eexists; (split; [|reflexivity]); lia_div.
  - intros [<-|[<-|[<-|[<-|[]]]]]; [right|right|right|by left];
      eexists; (split; [|reflexivity]); lia_div.
  - intros [<-|[<-|[<-|[<-|Hc]]]]; [right..|by apply (IH bs); [simpl in Hle; lia|]];
      eexists; (split; [|reflexivity]); lia_div.
Qed.

Lemma b64encode_ascii bs : is_ascii (b64encode bs) = true.
Proof.
  unfold is_ascii. apply forallb_forall. intros c Hc. apply Z.ltb_lt.
  apply b64encode_chars in Hc as [->|(d & Hd & ->)]; [done|by apply b64_char_spec].
Qed.

Lemma b64decode_b64encode bs : b64decode (b64encode bs) = Some bs.
Proof. unfold b64decode. rewrite b64encode_ascii. apply a2b_b64encode. Qed.

Lemma b64encode_inj bs1 bs2 : b64encode bs1 = b64encode bs2 -> bs1 = bs2.
Proof.
  intros H. apply (f_equal b64decode) in H. rewrite !b64decode_b64encode in H. by simplify_eq.
Qed.

(** An encoding has no NUL byte. *)
Lemma b64encode_no_nul bs : ~ In Byte.x00 (b64encode bs).
Proof.
  intros Hc. apply b64encode_chars in Hc as [Hc|(d & Hd & Hc)]; [done|].
  by apply (b64_char_spec d Hd).
Qed.

(** ** IEEE-754 doubles *)

(** The 64-bit pattern of a Python [float]: sign, biased exponent, mantissa.  A
    finite value is [m * 2^e] with its canonical exponent, at least -1074. *)
Definition float_bits (f : spec_float) : Z :=
  let sign (s : bool) := if s then 2 ^ 63 else 0 in
  match f with
  | S754_zero s => sign s
  | S754_infinity s => sign s + 0x7FF0000000000000
  | S754_nan => 0x7FF8000000000000
  | S754_finite s m e =>
      if Z.pos m <? 2 ^ 52 then sign s + Z.pos m
      else sign s + (e + 1075) * 2 ^ 52 + (Z.pos m - 2 ^ 52)
  end.

(** [struct.pack(">d", f)]. *)
Definition pack_double (f : spec_float) : bytes := be_bytes 8 (float_bits f).

Definition is_nan (f : spec_float) : bool :=
  match f with S754_nan => true | _ => false end.

Lemma length_pack_double f : length (pack_double f) = 8%nat.
Proof. apply length_be_bytes. Qed.

(** The order of floats is asymmetric. *)
Lemma SFcompare_swap f g : SFcompare g f = option_map CompOpp (SFcompare f g).
Proof.
  destruct f as [s1|s1| |s1 m1 e1], g as [s2|s2| |s2 m2 e2];
    try (destruct s1); try (destruct s2); try done; cbn -[Z.compare];
    pose proof (Z.compare_antisym e1 e2) as ->;
    pose proof (Pos.compare_antisym m1 m2) as Hm; unfold Pos.compare in Hm; rewrite Hm;
    destruct (e1 ?= e2)%Z; done.
Qed.

Lemma SFltb_asym f g : SFltb f g = true -> SFltb g f = false.
Proof.
  unfold SFltb. rewrite (SFcompare_swap f g). by destruct (SFcompare f g) as [[]|].
Qed.

(** A number lies on one side of every other number. *)
Lemma SFltb_split f g h :
  is_nan g = false -> SFltb f h = true -> SFltb f g = true \/ SFltb g h = true.
Proof.
  unfold SFltb. destruct f as [s1|s1| |s1 m1 e1], g as [s2|s2| |s2 m2 e2], h as [s3|s3| |s3 m3 e3];
    try (destruct s1); try (destruct s2); try (destruct s3); try done; cbn -[Z.compare];
    change (Pos.compare_cont Eq) with Pos.compare; intros _; try (intros _; by (left + right));
    destruct (Z.compare_spec e1 e2), (Z.compare_spec e2 e3), (Z.compare_spec e1 e3);
    try (by (left + right)); try lia;
    destruct (Pos.compare_spec m1 m2), (Pos.compare_spec m2 m3), (Pos.compare_spec m1 m3);
    try (by (left + right)); try done; lia.
Qed.

(** ** Strings and their bytes *)

Lemma str_bytes_app a b : str_bytes (a +:+ b) = str_bytes a ++ str_bytes b.
Proof.
  unfold String.list_byte_of_string. rewrite <- map_app. f_equal.
  induction a as [|c a IH]; simpl; [done|]. by rewrite IH.
Qed.

Lemma str_bytes_inj a b : str_bytes a = str_bytes b -> a = b.
Proof.
  intros E. rewrite <- (String.string_of_list_byte_of_string a).
  by rewrite E, String.string_of_list_byte_of_string.
Qed.
