(* ===== verification/Json.v ===== *)
(** * JSON values

    The decoded form of every control message of the program (a [dict] once
    [json.loads] has run).  A Python [str] is represented by its UTF-8 encoding
    as a Rocq [string] (strings with lone surrogates, which have no UTF-8
    encoding, are not represented); a Python [int] is a [Z]; a Python [float] is
    an IEEE-754 value of Corelib's [SpecFloat]; a [dict] is the list of its items
    in insertion order.

    The JSON text codec of Python's standard library ([json.dumps(..).encode()]
    and [json.loads(..decode())]) is an interface: a class of the two functions
    and a class of the law the program relies on. *)

From Corelib Require Import SpecFloat.
From S2P Require Import Prelude.

Inductive json : Type :=
| JNull
| JBool (b : bool)
| JInt (z : Z)
| JFloat (f : spec_float)
| JStr (s : string)
| JList (l : list json)
| JObj (kvs : list (string * json)).

(** A [dict] by its items. *)
Abbreviation dict := (list (string * json)).

(** [d.get(k)] / [d[k]] of a dict given by its items. *)
Fixpoint jget (k : string) (kvs : list (string * json)) : option json :=
  match kvs with
  | [] => None
  | (k', v) :: kvs' => if decide (k = k') then Some v else jget k kvs'
  end.

(** [k in d]. *)
Definition jhas (k : string) (kvs : list (string * json)) : bool :=
  match jget k kvs with Some _ => true | None => false end.

(** The values Python can hold: no dict has a key twice. *)
Fixpoint jwf (j : json) : bool :=
  match j with
  | JList l => forallb jwf l
  | JObj kvs => bool_decide (NoDup (map fst kvs)) && forallb (fun kv => jwf (snd kv)) kvs
  | _ => true
  end.

(** The text codec: [json.dumps(m).encode("utf-8")] and
    [json.loads(payload.decode("utf-8"))], [None] standing for
    [JSONDecodeError] / [UnicodeDecodeError]. *)
Class JsonText := {
  json_dumps : json -> bytes;
  json_loads : bytes -> option json
}.

(** A JSON value survives the text codec, and no text is empty. *)
Class JsonTextLaws `{JsonText} : Prop := {
  json_loads_dumps j : jwf j = true -> json_loads (json_dumps j) = Some j;
  json_dumps_nonempty j : json_dumps j <> []
}.

(** ** A concrete codec

    A codec for which the law holds for every JSON value, used to evaluate the
    definitions on concrete messages: the value is written through its stdpp
    encoding as a positive number, one byte per bit. *)
Module BitText.

Abbreviation leaf := (unit + bool + Z + (bool + bool + unit + bool * positive * Z) + string)%type.

Definition float_leaf (f : spec_float) : bool + bool + unit + bool * positive * Z :=
  match f with
  | S754_zero s => inl (inl (inl s))
  | S754_infinity s => inl (inl (inr s))
  | S754_nan => inl (inr ())
  | S754_finite s m e => inr (s, m, e)
  end.

Definition leaf_float (x : bool + bool + unit + bool * positive * Z) : spec_float :=
  match x with
  | inl (inl (inl s)) => S754_zero s
  | inl (inl (inr s)) => S754_infinity s
  | inl (inr ()) => S754_nan
  | inr (s, m, e) => S754_finite s m e
  end.

Fixpoint to_tree (j : json) : gen_tree leaf :=
  match j with
  | JNull => GenLeaf (inl (inl (inl (inl ()))))
  | JBool b => GenLeaf (inl (inl (inl (inr b))))
  | JInt z => GenLeaf (inl (inl (inr z)))
  | JFloat f => GenLeaf (inl (inr (float_leaf f)))
  | JStr s => GenLeaf (inr s)
  | JList l => GenNode 0 (map to_tree l)
  | JObj kvs =>
      GenNode 1 (map (fun kv => GenNode 2 [GenLeaf (inr (fst kv)); to_tree (snd kv)]) kvs)
  end.

Fixpoint of_tree (t : gen_tree leaf) : json :=
  match t with
  | GenLeaf (inl (inl (inl (inl ())))) => JNull
  | GenLeaf (inl (inl (inl (inr b)))) => JBool b
  | GenLeaf (inl (inl (inr z))) => JInt z
  | GenLeaf (inl (inr f)) => JFloat (leaf_float f)
  | GenLeaf (inr s) => JStr s
  | GenNode 1 ts =>
      JObj (map (fun t' => match t' with
                           | GenNode _ [GenLeaf (inr k); v] => (k, of_tree v)
                           | _ => (EmptyString, JNull)
                           end) ts)
  | GenNode _ ts => JList (map of_tree ts)
  end.

Lemma leaf_float_leaf f : leaf_float (float_leaf f) = f.
Proof. by destruct f. Qed.

Lemma of_tree_to_tree : forall j, of_tree (to_tree j) = j.
Proof.
  fix IH 1. intros [|b|z|f|s|l|kvs]; simpl; try done.
  - by rewrite leaf_float_leaf.
  - f_equal. induction l as [|j l IHl]; [done|]. simpl. by rewrite IH, IHl.
  - f_equal. induction kvs as [|[k v] kvs IHl]; [done|]. simpl. by rewrite IH, IHl.
Qed.

Fixpoint bits (p : positive) : bytes :=
  match p with
  | xH => []
  | xO p' => "0"%byte :: bits p'
  | xI p' => "1"%byte :: bits p'
  end.

Fixpoint of_bits (bs : bytes) : positive :=
  match bs with
  | [] => xH
  | c :: bs' => if bool_decide (c = "0"%byte) then xO (of_bits bs') else xI (of_bits bs')
  end.

Lemma of_bits_bits p : of_bits (bits p) = p.
Proof. induction p; simpl; by rewrite ?IHp. Qed.

#[export] Instance text : JsonText := {
  json_dumps j := "j"%byte :: bits (encode (to_tree j));
  json_loads bs := match bs with
                   | [] => None
                   | _ :: bs' => of_tree <$> decode (of_bits bs')
                   end
}.

#[export] Instance text_laws : JsonTextLaws.
Proof.
  split; [|done]. intros j _. cbn [json_loads json_dumps text].
  rewrite of_bits_bits, decode_encode. cbn [fmap option_fmap option_map].
  by rewrite of_tree_to_tree.
Qed.

End BitText.
