(* ===== verification/Crypto.v ===== *)
(** * Interfaces to the cryptographic library

    The program calls the third-party package [cryptography] (ChaCha20-Poly1305,
    HKDF-SHA256, X25519, Ed25519) and the hash functions of the interpreter.
    Each primitive is a class of its operations; the documented behaviour the
    program relies on is a separate class of laws.  Nothing is said about
    secrecy or unforgeability: those are not properties of the program.

    Module [Sample] gives concrete operations that satisfy every law, on which
    the definitions of the other files are evaluated. *)

From S2P Require Import Prelude.
Local Open Scope Z_scope.

(** ** ChaCha20-Poly1305 *)

(** [ChaCha20Poly1305(key).encrypt(nonce, data, associated_data)], [None] for
    the [OverflowError] on data of 2^31 bytes or more, and [.decrypt], [None] for
    [InvalidTag]. *)
Class Aead := {
  aead_encrypt : bytes -> bytes -> bytes -> option bytes -> option bytes;
  aead_decrypt : bytes -> bytes -> bytes -> option bytes -> option bytes
}.

Class AeadLaws `{Aead} : Prop := {
  aead_encrypt_fits k n p ad :
    length k = 32%nat -> length n = 12%nat -> zlen p < 2 ^ 31 ->
    exists c, aead_encrypt k n p ad = Some c;
  aead_encrypt_length k n p ad c :
    aead_encrypt k n p ad = Some c -> length c = (length p + 16)%nat;
  aead_decrypt_encrypt k n p ad c :
    aead_encrypt k n p ad = Some c -> aead_decrypt k n c ad = Some p
}.

(** ** HKDF-SHA256 *)

(** [HKDF(SHA256, length, salt, info).derive(ikm)]. *)
Class Hkdf := { hkdf_derive : bytes -> bytes -> bytes -> nat -> bytes }.

Class HkdfLaws `{Hkdf} : Prop := {
  hkdf_length ikm salt info n : length (hkdf_derive ikm salt info n) = n
}.

(** ** SHA-256 *)

Class Sha256 := { sha256 : bytes -> bytes }.

Class Sha256Laws `{Sha256} : Prop := { sha256_length m : length (sha256 m) = 32%nat }.

(** ** X25519 *)

(** A private key and its raw public key; [exchange] is [None] when the library
    raises (an all-zero shared secret). *)
Class X25519 := {
  x_private : Type;
  x_public : x_private -> bytes;
  x_exchange : x_private -> bytes -> option bytes
}.

Class X25519Laws `{X25519} : Prop := {
  x_public_length a : length (x_public a) = 32%nat;
  x_exchange_length a p s : x_exchange a p = Some s -> length s = 32%nat;
  x_exchange_comm a b : x_exchange a (x_public b) = x_exchange b (x_public a)
}.

(** ** Ed25519 *)

Class Ed25519 := {
  ed_private : Type;
  ed_public : ed_private -> bytes;
  ed_sign : ed_private -> bytes -> bytes;
  ed_verify : bytes -> bytes -> bytes -> bool     (** public key, signature, message *)
}.

Class Ed25519Laws `{Ed25519} : Prop := {
  ed_public_length sk : length (ed_public sk) = 32%nat;
  ed_sign_length sk m : length (ed_sign sk m) = 64%nat;
  ed_verify_sign sk m : ed_verify (ed_public sk) (ed_sign sk m) m = true
}.

(** ** Concrete operations *)
Module Sample.

(** A checksum of a byte string, of a fixed width. *)
Definition digest (n : nat) (m : bytes) : bytes :=
  be_bytes n ((be_int m * 3 + 5 * zlen m) mod (2 ^ 127 - 1)).

Definition optional (ad : option bytes) : bytes := default [] ad.

Definition tag (k n p : bytes) (ad : option bytes) : bytes :=
  digest 16 (k ++ n ++ p ++ optional ad).

#[export] Instance aead : Aead := {
  aead_encrypt k n p ad := if 2 ^ 31 <=? zlen p then None else Some (p ++ tag k n p ad);
  aead_decrypt k n c ad :=
    let p := take (length c - 16) c in
    if bool_decide (drop (length c - 16) c = tag k n p ad) then Some p else None
}.

Arguments digest : simpl never.

Lemma length_digest n m : length (digest n m) = n.
Proof. apply length_be_bytes. Qed.

#[export] Instance aead_laws : AeadLaws.
Proof.
  split; simpl.
  - intros k n p ad _ _ Hp. case_match; [bool_to_prop; lia|eauto].
  - intros k n p ad c. case_match; [done|]. intros Hc. apply (inj Some) in Hc. subst c.
    rewrite length_app. unfold tag. rewrite length_digest. lia.
  - intros k n p ad c. case_match; [done|]. intros Hc. apply (inj Some) in Hc. subst c.
    assert (length (p ++ tag k n p ad) - 16 = length p)%nat as ->.
    { rewrite length_app. unfold tag. rewrite length_digest. lia. }
    by rewrite drop_app_length, take_app_length, bool_decide_true.
Qed.

#[export] Instance hkdf : Hkdf := {
  hkdf_derive ikm salt info n := digest n (ikm ++ salt ++ info)
}.

#[export] Instance hkdf_laws : HkdfLaws.
Proof. split. intros. apply length_digest. Qed.

#[export] Instance sha : Sha256 := { sha256 m := digest 32 m }.

#[export] Instance sha_laws : Sha256Laws.
Proof. split. intros. apply length_digest. Qed.

(** The multiplicative form of Diffie-Hellman, with the all-zero check. *)
#[export] Instance x25519 : X25519 := {
  x_private := Z;
  x_public a := be_bytes 32 (a mod 2 ^ 256);
  x_exchange a p :=
    let s := be_bytes 32 (a * be_int p mod 2 ^ 256) in
    if bool_decide (s = be_bytes 32 0) then None else Some s
}.

#[export] Instance x25519_laws : X25519Laws.
Proof.
  split.
  - intros a. apply length_be_bytes.
  - intros a p s. cbn [x_exchange x25519]. cbv zeta. case_bool_decide; [done|].
    intros Hs. apply (inj Some) in Hs. subst s. apply length_be_bytes.
  - intros a b. cbn [x_exchange x_public x25519].
    assert (forall x y, x * be_int (be_bytes 32 (y mod 2 ^ 256)) mod 2 ^ 256
                        = x * y mod 2 ^ 256) as Hm.
    { intros x y. rewrite be_int_be_bytes by (apply Z.mod_pos_bound; reflexivity).
      by rewrite Z.mul_mod_idemp_r by done. }
    cbv zeta. by rewrite !Hm, (Z.mul_comm b a).
Qed.

#[export] Instance ed25519 : Ed25519 := {
  ed_private := Z;
  ed_public sk := be_bytes 32 sk;
  ed_sign sk m := digest 64 (be_bytes 32 sk ++ m);
  ed_verify pk sig m := bool_decide (sig = digest 64 (pk ++ m))
}.

#[export] Instance ed25519_laws : Ed25519Laws.
Proof.
  split.
  - intros. apply length_be_bytes.
  - intros. apply length_digest.
  - intros. apply bool_decide_eq_true_2. reflexivity.
Qed.

End Sample.
