(* ===== verification/Canonical.v ===== *)
(** * Canonical texts of signed objects

    What the signed objects of the program use of Python's standard library: [sorted]
    on strings, [str.join] and [str.split], [str.lower], [json.dumps(sort_keys=True)],
    [struct.pack] with its range check, and reading typed fields out of a JSON object.
    With the lemmas that make a canonical text determine its fields: length-prefixed
    and NUL-separated concatenations split in one way only. *)

From Corelib Require Import SpecFloat.
From stdpp Require Import sorting.
From S2P Require Import Prelude Text Json.
Local Open Scope peerc_scope.
Local Open Scope Z_scope.

(** ** Strings in code point order

    Comparing UTF-8 byte by byte is comparing code points. *)

Fixpoint lex_ltb (a b : bytes) : bool :=
  match a, b with
  | _, [] => false
  | [], _ :: _ => true
  | x :: a', y :: b' =>
      (byte.unsigned x <? byte.unsigned y)
      || ((byte.unsigned x =? byte.unsigned y) && lex_ltb a' b')
  end.

Definition str_ltb (a b : string) : bool := lex_ltb (str_bytes a) (str_bytes b).

(** [sorted(strings)]. *)
Definition sort_strings (l : list string) : list string := sort_by str_ltb l.

(** [sep.join(l)]. *)
Fixpoint join (sep : string) (l : list string) : string :=
  match l with
  | [] => ""
  | [s] => s
  | s :: l' => s +:+ sep +:+ join sep l'
  end%string.

(** [s.split(c)] for a one-byte separator. *)
Fixpoint split_bytes (c : byte) (s : bytes) : list bytes :=
  match s with
  | [] => [[]]
  | x :: s' =>
      if decide (x = c) then [] :: split_bytes c s'
      else match split_bytes c s' with
           | [] => [[x]]
           | w :: ws => (x :: w) :: ws
           end
  end.

Definition split_commas (s : string) : list string :=
  map bytes_str (split_bytes ","%byte (str_bytes s)).

(** [str.lower()]: the case tables of Unicode are an interface, the ASCII part of
    which is known. *)
Class LowerCase := { str_lower : string -> string }.

Definition ascii_lower (c : byte) : byte :=
  let n := byte.unsigned c in
  if (65 <=? n) && (n <=? 90) then byte.of_Z (n + 32) else c.

Class LowerCaseLaws `{LowerCase} : Prop := {
  str_lower_ascii s :
    is_ascii (str_bytes s) = true -> str_lower s = bytes_str (map ascii_lower (str_bytes s))
}.

(** [pat in s]. *)
Fixpoint has_substring (pat s : bytes) : bool :=
  bool_decide (pat `prefix_of` s) || match s with [] => false | _ :: s' => has_substring pat s' end.

(** ** Canonical JSON *)

Definition key_ltb {A} (x y : string * A) : bool := str_ltb (fst x) (fst y).

(** A value with the keys of every dict sorted, as [sort_keys=True] writes it. *)
Fixpoint jsort (j : json) : json :=
  match j with
  | JList l => JList (map jsort l)
  | JObj kvs => JObj (sort_by key_ltb (map (fun kv => (fst kv, jsort (snd kv))) kvs))
  | _ => j
  end.

(** [json.dumps(j, separators=(",", ":")).encode("utf-8")]. *)
Class CompactJson := { compact_dumps : json -> bytes }.

(** Different values have different texts, and the text is printable ASCII (the
    default [ensure_ascii]). *)
Class CompactJsonLaws `{CompactJson} : Prop := {
  compact_dumps_inj j1 j2 :
    jwf j1 = true -> jwf j2 = true -> compact_dumps j1 = compact_dumps j2 -> j1 = j2;
  compact_dumps_printable j :
    Forall (fun c => 32 <= byte.unsigned c < 127) (compact_dumps j)
}.

(** [json.dumps(j, sort_keys=True, separators=(",", ":")).encode("utf-8")]. *)
Definition canonical_json `{CompactJson} (j : json) : bytes := compact_dumps (jsort j).

(** ** [struct.pack] and concatenation *)

(** [struct.pack(">I", z)], [None] for [struct.error]. *)
Definition pack_u32 (z : Z) : option bytes :=
  if (0 <=? z) && (z <? 2 ^ 32) then Some (be_bytes 4 z) else None.

(** [struct.pack(">I", len(b)) + b]. *)
Definition prefixed (b : bytes) : option bytes :=
  h ← pack_u32 (zlen b); Some (h ++ b).

(** A sum of byte strings of which some may have raised. *)
Fixpoint cat (l : list (option bytes)) : option bytes :=
  match l with
  | [] => Some []
  | o :: l' => b ← o; r ← cat l'; Some (b ++ r)
  end.

Definition NUL : bytes := [Byte.x00].

(** The fields of a double: what a Python [float] can be. *)
Definition is_double (f : spec_float) : bool :=
  match f with
  | S754_finite _ m e =>
      ((2 ^ 52 <=? Z.pos m) && (Z.pos m <? 2 ^ 53) && (-1074 <=? e) && (e <=? 971))
      || ((Z.pos m <? 2 ^ 52) && (e =? -1074))
  | _ => true
  end.

(** ** Reading a JSON object

    [NotAnnotated] is a value of another type than the class declares, for which the
    model stops; the other errors are the exceptions of the code. *)

Inductive dict_error : Type :=
| MissingKey (field : string)
| NotAnnotated (field : string)
| TypeError (field : string)
| BadValue (field : string)
| FloatOverflow (field : string).

Definition read (A : Type) : Type := dict -> result dict_error A.

(** [d[f]]. *)
Definition item_at (f : string) : read json := fun d =>
  match jget f d with Some v => Ok v | None => Err (MissingKey f) end.

Definition as_text (f : string) (v : json) : result dict_error string :=
  match v with JStr s => Ok s | _ => Err (NotAnnotated f) end.

(** [d[f]] declared [str], and [d.get(f, default)]. *)
Definition text_at (f : string) : read string := fun d => let? v := item_at f d in as_text f v.
Definition text_or (f default : string) : read string := fun d =>
  match jget f d with Some v => as_text f v | None => Ok default end.

(** [d.get(f)] declared [Optional[str]]. *)
Definition opt_text (f : string) : read (option string) := fun d =>
  match jget f d with
  | None | Some JNull => Ok None
  | Some v => let? s := as_text f v in Ok (Some s)
  end.

(** [float(v)]; [float] of a text parses it, which is not modelled. *)
Definition py_float (f : string) (v : json) : result dict_error spec_float :=
  let of_int z :=
    match binary_normalize 53 1024 z 0 false with
    | S754_infinity _ => Err (FloatOverflow f)
    | x => Ok x
    end in
  match v with
  | JFloat x => Ok x
  | JInt z => of_int z
  | JBool b => of_int (if b then 1 else 0)
  | JStr _ => Err (NotAnnotated f)
  | _ => Err (TypeError f)
  end.

Definition float_at (f : string) : read spec_float := fun d => let? v := item_at f d in py_float f v.
Definition float_or (f : string) (default : spec_float) : read spec_float := fun d =>
  match jget f d with Some v => py_float f v | None => Ok default end.

(** [d.get(f)] declared [Optional[float]]. *)
Definition opt_float (f : string) : read (option spec_float) := fun d =>
  match jget f d with
  | None | Some JNull => Ok None
  | Some (JFloat x) => Ok (Some x)
  | Some _ => Err (NotAnnotated f)
  end.

(** [list(d.get(f, []))] declared a list of strings. *)
Definition texts_or_nil (f : string) : read (list string) := fun d =>
  match jget f d with
  | None => Ok []
  | Some (JList l) =>
      foldr (fun v acc => let? s := as_text f v in let? r := acc in Ok (s :: r)) (Ok []) l
  | Some (JInt _ | JFloat _ | JBool _ | JNull) => Err (TypeError f)
  | Some _ => Err (NotAnnotated f)
  end.

(** [bool(v)]. *)
Definition truthy (v : json) : bool :=
  match v with
  | JNull => false
  | JBool b => b
  | JInt z => negb (z =? 0)
  | JFloat (S754_zero _) => false
  | JFloat _ => true
  | JStr s => negb (bool_decide (s = ""%string))
  | JList l => negb (bool_decide (length l = O))
  | JObj kvs => negb (bool_decide (length kvs = O))
  end.

Definition bool_at (f : string) : read bool := fun d => let? v := item_at f d in Ok (truthy v).
Definition bool_or (f : string) (default : bool) : read bool := fun d =>
  match jget f d with Some v => Ok (truthy v) | None => Ok default end.

(** [parse(v) if v else None] for [v = d.get(f)] declared a dict or [None]. *)
Definition opt_object {A} (f : string) (parse : read A) : read (option A) := fun d =>
  match jget f d with
  | None => Ok None
  | Some v =>
      if truthy v then
        match v with
        | JObj kvs => let? a := parse kvs in Ok (Some a)
        | _ => Err (TypeError f)
        end
      else Ok None
  end.

(** [d[k] = v], and [d.update(e)]. *)
Fixpoint dict_set (k : string) (v : json) (d : dict) : dict :=
  match d with
  | [] => [(k, v)]
  | (k', v') :: d' => if decide (k = k') then (k, v) :: d' else (k', v') :: dict_set k v d'
  end.

Definition dict_update (d e : dict) : dict := foldl (fun acc kv => dict_set (fst kv) (snd kv) acc) d e.

(** [s or ""], [s or t]. *)
Definition or_empty (s : option string) : string := default ""%string s.
Definition text_is_empty (s : string) : bool := bool_decide (s = ""%string).
Definition or_text (a b : option string) : option string :=
  match a with Some s => if text_is_empty s then b else a | None => b end.

(** ** The order of strings *)

Lemma lex_ltb_irrefl a : lex_ltb a a = false.
Proof.
  induction a as [|x a IH]; [done|]. simpl.
  by rewrite Z.ltb_irrefl, Z.eqb_refl, IH.
Qed.

Lemma lex_ltb_trans a b c : lex_ltb a b = true -> lex_ltb b c = true -> lex_ltb a c = true.
Proof.
  revert b c. induction a as [|x a IH]; intros [|y b] [|z c]; simpl; try done.
  rewrite !orb_true_iff, !andb_true_iff, !Z.ltb_lt, !Z.eqb_eq. intros [?|[? ?]] [?|[? ?]].
  1-3: left; lia.
  right. split; [lia|]. by eapply IH.
Qed.

Lemma lex_ltb_total a b : lex_ltb a b = false -> lex_ltb b a = false -> a = b.
Proof.
  revert b. induction a as [|x a IH]; intros [|y b]; simpl; try done.
  rewrite !orb_false_iff, !andb_false_iff, !Z.ltb_ge, !Z.eqb_neq. intros [? [?|?]] [? [?|?]].
  1-3: lia.
  f_equal; [|by apply IH]. apply byte.unsigned_inj. lia.
Qed.

Lemma lex_ltb_asym a b : lex_ltb a b = true -> lex_ltb b a = false.
Proof.
  intros H. destruct (lex_ltb b a) eqn:E; [|done].
  by rewrite <- (lex_ltb_irrefl a), <- (lex_ltb_trans a b a).
Qed.

(** ** Sorting by a total order *)

Section Unique.
Context {A : Type} (lt : A -> A -> bool).
Context (lt_trans : forall a b c, lt a b = true -> lt b c = true -> lt a c = true)
  (lt_asym : forall a b, lt a b = true -> lt b a = false)
  (lt_total : forall a b, lt a b = false -> lt b a = false -> a = b).

Let le (a b : A) : Prop := lt b a = false.

Lemma le_transitive : Transitive le.
Proof.
  intros a b c Hab Hbc. unfold le in *. destruct (lt c a) eqn:E; [|done].
  destruct (lt a b) eqn:Eab; [by rewrite <- (lt_trans c a b E Eab)|].
  by rewrite <- (lt_total a b Eab Hab), E in Hbc.
Qed.

Lemma sort_by_strongly l : StronglySorted le (sort_by lt l).
Proof.
  apply Sorted_StronglySorted; [apply le_transitive|].
  apply Sorted.Sorted_LocallySorted_iff. by apply sort_by_in_order.
Qed.

Lemma sort_by_unique l k : l ≡ₚ k -> sort_by lt l = sort_by lt k.
Proof.
  intros Hp. assert (AntiSymm eq le) by (intros a b ? ?; by apply lt_total).
  apply (StronglySorted_unique le).
  - apply sort_by_strongly.
  - apply sort_by_strongly.
  - by rewrite !sort_by_perm.
Qed.

End Unique.

(** A list in order is its own sort. *)
Lemma sort_by_ordered {A} (lt : A -> A -> bool) l : in_order lt l -> sort_by lt l = l.
Proof.
  unfold in_order. induction 1 as [|y|y z l Hl IH Hyz]; [done..|].
  cbn [sort_by foldr] in *. rewrite IH. simpl. by rewrite Hyz.
Qed.

Lemma str_ltb_trans a b c : str_ltb a b = true -> str_ltb b c = true -> str_ltb a c = true.
Proof. apply lex_ltb_trans. Qed.

Lemma str_ltb_asym a b : str_ltb a b = true -> str_ltb b a = false.
Proof. apply lex_ltb_asym. Qed.

Lemma str_ltb_total a b : str_ltb a b = false -> str_ltb b a = false -> a = b.
Proof. intros H1 H2. by apply str_bytes_inj, lex_ltb_total. Qed.

#[export] Hint Resolve str_ltb_trans str_ltb_asym str_ltb_total : peerc.

(** [sorted] does not depend on the order of its argument. *)
Lemma sort_strings_perm l k : l ≡ₚ k -> sort_strings l = sort_strings k.
Proof. apply sort_by_unique; eauto with peerc. Qed.

Lemma sort_strings_idem l : sort_strings (sort_strings l) = sort_strings l.
Proof. apply sort_by_ordered, sort_by_in_order, str_ltb_asym. Qed.

Lemma sort_strings_elem l s : s ∈ sort_strings l <-> s ∈ l.
Proof. unfold sort_strings. by rewrite sort_by_perm. Qed.

(** ** Joining and splitting *)

Lemma split_bytes_word c w : c ∉ w -> split_bytes c w = [w].
Proof.
  induction w as [|x w IH]; [done|]. intros Hc. apply not_elem_of_cons in Hc as [Hx Hw].
  simpl. rewrite decide_False by done. by rewrite IH.
Qed.

Lemma split_bytes_app c w s : c ∉ w -> split_bytes c (w ++ c :: s) = w :: split_bytes c s.
Proof.
  induction w as [|x w IH]; simpl; intros Hc.
  - by rewrite decide_True.
  - apply not_elem_of_cons in Hc as [Hx Hw]. rewrite decide_False by done. by rewrite IH.
Qed.

(** No byte [c] in a text. *)
Definition text_free (c : byte) (s : string) : Prop := c ∉ str_bytes s.

Lemma split_commas_join l :
  l <> [] -> Forall (text_free ","%byte) l -> split_commas (join "," l) = l.
Proof.
  unfold split_commas. intros Hne Hl. induction Hl as [|s l Hs Hl IH]; [done|].
  destruct l as [|s' l].
  - simpl. rewrite split_bytes_word by done. simpl. by rewrite String.string_of_list_byte_of_string.
  - change (join "," (s :: s' :: l)) with (s +:+ "," +:+ join "," (s' :: l))%string.
    rewrite str_bytes_app, str_bytes_app. change (str_bytes ",") with [","%byte].
    cbn [app]. rewrite split_bytes_app by done. cbn [map].
    rewrite String.string_of_list_byte_of_string. f_equal. by apply IH.
Qed.

(** ** Concatenations split in one way *)

Lemma sep_split (c : byte) a b x y :
  c ∉ a -> c ∉ b -> a ++ c :: x = b ++ c :: y -> a = b /\ x = y.
Proof.
  revert b. induction a as [|d a IH]; intros [|d' b] Ha Hb E; simpl in *; simplify_eq.
  - done.
  - set_solver.
  - set_solver.
  - destruct (IH b) as [-> ->]; [set_solver..|done|done].
Qed.

Lemma cat_cons o l p :
  cat (o :: l) = Some p <-> exists b r, o = Some b /\ cat l = Some r /\ p = b ++ r.
Proof.
  cbn [cat]. split.
  - intros E. apply bind_Some in E as (b & Eb & E). apply bind_Some in E as (r & Er & E).
    apply (inj Some) in E. eauto.
  - intros (b & r & -> & E & ->). cbn. by rewrite E.
Qed.

(** A first component of fixed length. *)
Lemma cat_fixed_inj x y l k p :
  length x = length y -> cat (Some x :: l) = Some p -> cat (Some y :: k) = Some p ->
  x = y /\ exists q, cat l = Some q /\ cat k = Some q.
Proof.
  rewrite !cat_cons. intros Hl (b & r & Eb & Er & ->) (b' & r' & Eb' & Er' & E).
  apply (inj Some) in Eb, Eb'. subst b b'. apply app_inj_1 in E as [-> <-]; eauto.
Qed.

Lemma prefixed_Some a p :
  prefixed a = Some p <-> zlen a < 2 ^ 32 /\ p = be_bytes 4 (zlen a) ++ a.
Proof.
  unfold prefixed, pack_u32. pose proof (zlen_nonneg a). destruct (Z.leb_spec 0 (zlen a)); [|lia].
  destruct (Z.ltb_spec (zlen a) (2 ^ 32)); simpl; split.
  - intros E. apply (inj Some) in E. auto.
  - by intros [_ ->].
  - done.
  - lia.
Qed.

(** A length-prefixed first component. *)
Lemma cat_prefixed_inj a b l k p :
  cat (prefixed a :: l) = Some p -> cat (prefixed b :: k) = Some p ->
  a = b /\ exists q, cat l = Some q /\ cat k = Some q.
Proof.
  rewrite !cat_cons. intros (x & r & Ea & Er & ->) (y & r' & Eb & Er' & E).
  apply prefixed_Some in Ea as [Ha ->], Eb as [Hb ->]. rewrite <- !app_assoc in E.
  apply app_inj_1 in E as [E1 E2]; [|by rewrite !length_be_bytes].
  pose proof (zlen_nonneg a). pose proof (zlen_nonneg b).
  apply be_bytes_inj in E1; [|change (8 * Z.of_nat 4) with 32; lia..].
  unfold zlen in E1. apply app_inj_1 in E2 as [-> <-]; [eauto|lia].
Qed.

(** A finite double and its bits: subnormal, or with the leading mantissa bit left out. *)
Definition sign_bit (s : bool) : Z := if s then 2 ^ 63 else 0.

Lemma float_bits_finite s m e :
  is_double (S754_finite s m e) = true ->
  exists x y, 0 <= x < 2 ^ 52 /\ 0 <= y < 2047 /\ (y = 0 -> x <> 0) /\
    float_bits (S754_finite s m e) = sign_bit s + y * 2 ^ 52 + x /\
    Z.pos m = (if y =? 0 then x else x + 2 ^ 52) /\ e = (if y =? 0 then -1074 else y - 1075).
Proof.
  unfold is_double, float_bits, sign_bit.
  rewrite orb_true_iff, !andb_true_iff, !Z.leb_le, !Z.ltb_lt, Z.eqb_eq. intros Hd.
  destruct (Z.ltb_spec (Z.pos m) (2 ^ 52)).
  - exists (Z.pos m), 0. rewrite Z.eqb_refl. lia.
  - exists (Z.pos m - 2 ^ 52), (e + 1075). destruct (Z.eqb_spec (e + 1075) 0); lia.
Qed.

Lemma sign_bit_bound s : sign_bit s = 0 \/ sign_bit s = 2 ^ 63.
Proof. destruct s; auto. Qed.

Lemma sign_bit_inj s s' : sign_bit s = sign_bit s' -> s = s'.
Proof. by destruct s, s'. Qed.

Lemma float_bits_bound f : is_double f = true -> 0 <= float_bits f < 2 ^ 64.
Proof.
  destruct f as [s|s| |s m e]; intros Hd.
  4: apply float_bits_finite in Hd as (x & y & ? & ? & ? & -> & _).
  all: try (change (float_bits (S754_zero s)) with (sign_bit s));
    try (change (float_bits (S754_infinity s)) with (sign_bit s + 2047 * 2 ^ 52));
    try (change (float_bits S754_nan) with (2047 * 2 ^ 52 + 2 ^ 51));
    try destruct (sign_bit_bound s) as [-> | ->]; lia.
Qed.

(** The three fields of the 64 bits. *)
Lemma bits_split s s' y y' x x' :
  0 <= x < 2 ^ 52 -> 0 <= x' < 2 ^ 52 -> 0 <= y < 2048 -> 0 <= y' < 2048 ->
  sign_bit s + y * 2 ^ 52 + x = sign_bit s' + y' * 2 ^ 52 + x' ->
  s = s' /\ y = y' /\ x = x'.
Proof.
  intros. assert (sign_bit s = sign_bit s' /\ y = y' /\ x = x') as (? & ? & ?).
  { destruct (sign_bit_bound s) as [Hs|Hs], (sign_bit_bound s') as [Hs'|Hs']; lia. }
  split; [by apply sign_bit_inj|done].
Qed.

Lemma float_bits_fields f :
  is_double f = true ->
  exists s y x, 0 <= x < 2 ^ 52 /\ 0 <= y < 2048 /\
    float_bits f = sign_bit s + y * 2 ^ 52 + x /\
    f = (if y =? 2047 then (if x =? 0 then S754_infinity s else S754_nan)
         else if y =? 0 then (if x =? 0 then S754_zero s
                              else S754_finite s (Z.to_pos x) (-1074))
              else S754_finite s (Z.to_pos (x + 2 ^ 52)) (y - 1075)).
Proof.
  destruct f as [s|s| |s m e]; intros Hd.
  - exists s, 0, 0. split; [lia|]. split; [lia|]. split; [by destruct s|done].
  - exists s, 2047, 0. split; [lia|]. split; [lia|]. split; [by destruct s|done].
  - exists false, 2047, (2 ^ 51). split; [lia|]. split; [lia|]. done.
  - apply float_bits_finite in Hd as (x & y & ? & ? & ? & E & Hm & He).
    exists s, y, x. split; [lia|]. split; [lia|]. split; [done|].
    destruct (Z.eqb_spec y 2047); [lia|]. destruct (Z.eqb_spec y 0).
    + destruct (Z.eqb_spec x 0); [tauto|]. by rewrite <- Hm, He.
    + by rewrite <- Hm, He.
Qed.

Lemma float_bits_inj f g :
  is_double f = true -> is_double g = true -> float_bits f = float_bits g -> f = g.
Proof.
  intros Hf Hg E. apply float_bits_fields in Hf as (s & y & x & ? & ? & Ef & ->).
  apply float_bits_fields in Hg as (s' & y' & x' & ? & ? & Eg & ->).
  rewrite Ef, Eg in E. by apply bits_split in E as (-> & -> & ->).
Qed.

Lemma pack_double_inj f g :
  is_double f = true -> is_double g = true -> pack_double f = pack_double g -> f = g.
Proof.
  intros Hf Hg E. apply float_bits_inj; [done..|].
  by apply be_bytes_inj in E; [|apply float_bits_bound..].
Qed.

(** ** A concrete interpreter *)
Module SampleText.

#[export] Instance lower : LowerCase :=
  { str_lower s := bytes_str (map ascii_lower (str_bytes s)) }.

#[export] Instance lower_laws : LowerCaseLaws.
Proof. by split. Qed.

#[export] Instance compact : CompactJson := { compact_dumps := @json_dumps BitText.text }.

Lemma bits_printable p : Forall (fun c => 32 <= byte.unsigned c < 127) (BitText.bits p).
Proof. induction p; simpl; repeat constructor; try done; vm_compute; done. Qed.

#[export] Instance compact_laws : CompactJsonLaws.
Proof.
  split.
  - intros j1 j2 H1 H2 E. cbn [compact_dumps compact] in E.
    pose proof (@json_loads_dumps _ BitText.text_laws j1 H1) as E1.
    rewrite E, (@json_loads_dumps _ BitText.text_laws j2 H2) in E1. by apply (inj Some) in E1.
  - intros j. cbn. constructor; [vm_compute; done|]. apply bits_printable.
Qed.

End SampleText.
