(* ===== verification/Security.v ===== *)
(** * Security events

    Models [core/security/events.py]: the severities and event types, the events with
    the redaction of their details on construction, and the canonical payload an
    administrator signs.  The delivery of an event to the log and to listeners is the
    business of the components that emit: each keeps the list of what it emitted. *)

From Corelib Require Import SpecFloat.
From S2P Require Import Prelude Text Json Canonical.
Local Open Scope peerc_scope.
Local Open Scope Z_scope.

Module Security.

Definition _EVENT_DOMAIN : bytes := lit "peerc-security-event" ++ NUL.

Definition _SENSITIVE_KEYS : list string :=
  ["private_key"; "session_key"; "secret"; "password"; "key_hex"; "seed"; "token";
   "shared_secret"]%string.

Inductive SecuritySeverity : Type := INFO | WARNING | HIGH | CRITICAL.

#[global] Instance severity_eq : EqDecision SecuritySeverity.
Proof. solve_decision. Defined.

Definition severity_value (s : SecuritySeverity) : string :=
  match s with
  | INFO => "INFO" | WARNING => "WARNING" | HIGH => "HIGH" | CRITICAL => "CRITICAL"
  end%string.

Definition rank (s : SecuritySeverity) : Z :=
  match s with INFO => 10 | WARNING => 20 | HIGH => 30 | CRITICAL => 40 end.

Inductive SecurityEventType : Type :=
| ENDPOINT_CHANGED | KEY_ROTATION | POLICY_CHANGED | GROUP_CREATED | MEMBERSHIP_ISSUED
| ADMIN_ADDED
| UNKNOWN_DEVICE | IDENTITY_CHANGED | AUTH_FAILED | INVALID_ROTATION | MEMBERSHIP_REVOKED
| ADMIN_REMOVED
| REVOKED_DEVICE_ATTEMPT | REPEATED_AUTH_FAILURES | REPLAY_DETECTED
| SUSPICIOUS_AUTHORIZATION | POLICY_VIOLATION
| ADMIN_KEY_COMPROMISE | PRIVATE_KEY_COMPROMISE | INVALID_AUTHORITY_CHAIN.

Definition type_value (t : SecurityEventType) : string :=
  match t with
  | ENDPOINT_CHANGED => "endpoint_changed"
  | KEY_ROTATION => "key_rotation"
  | POLICY_CHANGED => "policy_changed"
  | GROUP_CREATED => "group_created"
  | MEMBERSHIP_ISSUED => "membership_issued"
  | ADMIN_ADDED => "admin_added"
  | UNKNOWN_DEVICE => "unknown_device"
  | IDENTITY_CHANGED => "identity_changed"
  | AUTH_FAILED => "auth_failed"
  | INVALID_ROTATION => "invalid_rotation"
  | MEMBERSHIP_REVOKED => "membership_revoked"
  | ADMIN_REMOVED => "admin_removed"
  | REVOKED_DEVICE_ATTEMPT => "revoked_device_attempt"
  | REPEATED_AUTH_FAILURES => "repeated_auth_failures"
  | REPLAY_DETECTED => "replay_detected"
  | SUSPICIOUS_AUTHORIZATION => "suspicious_authorization"
  | POLICY_VIOLATION => "policy_violation"
  | ADMIN_KEY_COMPROMISE => "admin_key_compromise"
  | PRIVATE_KEY_COMPROMISE => "private_key_compromise"
  | INVALID_AUTHORITY_CHAIN => "invalid_authority_chain"
  end%string.

(** ** Redaction *)

Definition REDACTED : json := JStr "[REDACTED]".

(** [any(s in k.lower() for s in _SENSITIVE_KEYS)]. *)
Definition sensitive `{LowerCase} (k : string) : bool :=
  existsb (fun s => has_substring (str_bytes s) (str_bytes (str_lower k))) _SENSITIVE_KEYS.

Fixpoint _sanitize_value `{LowerCase} (val : json) : json :=
  match val with
  | JObj kvs =>
      JObj (map (fun kv => (fst kv, if sensitive (fst kv) then REDACTED
                                    else _sanitize_value (snd kv))) kvs)
  | JList l => JList (map _sanitize_value l)
  | _ => val
  end.

Definition sanitize_details `{LowerCase} (d : dict) : dict :=
  match _sanitize_value (JObj d) with JObj d' => d' | _ => [] end.

(** ** Events *)

Record SecurityEvent := mk_event {
  event_type : string;
  severity : SecuritySeverity;
  description : string;
  device_id : option string;
  timestamp : spec_float;
  details : dict;
  signature : option string;
  signer_device_id : option string
}.

(** The constructor with [__post_init__]. *)
Definition make_event `{LowerCase} (t : string) (s : SecuritySeverity) (text : string)
    (device : option string) (ts : spec_float) (d : dict) : SecurityEvent :=
  {| event_type := t; severity := s; description := text; device_id := device;
     timestamp := ts; details := sanitize_details d; signature := None;
     signer_device_id := None |}.

Definition canonical_payload `{CompactJson} (e : SecurityEvent) : bytes :=
  _EVENT_DOMAIN ++ pack_double (timestamp e) ++ NUL
    ++ str_bytes (severity_value (severity e)) ++ NUL
    ++ str_bytes (event_type e) ++ NUL
    ++ str_bytes (or_empty (device_id e)) ++ NUL
    ++ str_bytes (description e) ++ NUL
    ++ canonical_json (JObj (details e)).

(** ** What redaction guarantees *)

(** Follow a path of keys and list positions. *)
Fixpoint at_path (p : list (string + nat)) (j : json) : option json :=
  match p with
  | [] => Some j
  | inl k :: p' => match j with JObj kvs => jget k kvs ≫= at_path p' | _ => None end
  | inr i :: p' => match j with JList l => l !! i ≫= at_path p' | _ => None end
  end.

(** No key of the path is sensitive. *)
Definition harmless `{LowerCase} (p : list (string + nat)) : bool :=
  forallb (fun s => match s with inl k => negb (sensitive k) | inr _ => true end) p.

Section Redaction.
Context `{LowerCase}.

Lemma jget_sanitized k kvs :
  jget k (map (fun kv => (fst kv, if sensitive (fst kv) then REDACTED
                                  else _sanitize_value (snd kv))) kvs)
  = (fun v => if sensitive k then REDACTED else _sanitize_value v) <$> jget k kvs.
Proof.
  induction kvs as [|[k' v] kvs IH]; [done|]. cbn [map jget fst snd].
  destruct (decide (k = k')) as [<-|]; [done|apply IH].
Qed.

Lemma at_path_harmless p j :
  harmless p = true -> at_path p (_sanitize_value j) = _sanitize_value <$> at_path p j.
Proof.
  revert j. induction p as [|[k|i] p IH]; intros j Hp; [done|..]; simpl in Hp;
    destruct j as [| | | | |l|kvs]; try done; simpl.
  - apply andb_true_iff in Hp as [Hk Hp]. rewrite jget_sanitized.
    destruct (jget k kvs) as [v|]; [|done]. simpl. apply negb_true_iff in Hk. rewrite Hk.
    by apply IH.
  - rewrite list_lookup_fmap. destruct (l !! i) as [v|]; [|done]. simpl. by apply IH.
Qed.

Lemma at_path_app p q j : at_path (p ++ q) j = at_path p j ≫= at_path q.
Proof.
  revert j. induction p as [|[k|i] p IH]; intros j; [done|..]; simpl;
    destruct j as [| | | | |l|kvs]; try done.
  - destruct (jget k kvs); [apply IH|done].
  - destruct (l !! i); [apply IH|done].
Qed.

(** What is left of a value: the first sensitive key of a path ends it with the
    redaction mark, and everything reached without one is as before. *)
Lemma sanitize_spec j p k q :
  harmless p = true -> sensitive k = true ->
  at_path (p ++ inl k :: q) (_sanitize_value j)
  = match at_path (p ++ [inl k]) j with
    | Some _ => if decide (q = []) then Some REDACTED else None
    | None => None
    end.
Proof.
  intros Hp Hk. rewrite !at_path_app, at_path_harmless by done.
  destruct (at_path p j) as [v|]; [|done]. simpl.
  destruct v as [| | | | |l|kvs]; try done. simpl. rewrite jget_sanitized.
  destruct (jget k kvs) as [v|]; [|done]. simpl. rewrite Hk.
  destruct q as [|[]]; simpl; done.
Qed.

End Redaction.

(** An event never carries the value of a sensitive detail, at any depth: the first
    sensitive key on a path leads to the mark and to nothing below it, and a path
    without a sensitive key leads to the original value (redacted in its turn). *)
Theorem event_details_redacted `{LowerCase} t s text device ts d p k q v :
  harmless p = true -> sensitive k = true ->
  let e := make_event t s text device ts d in
  (at_path (p ++ inl k :: q) (JObj (details e)) = Some v -> v = REDACTED /\ q = []) /\
  at_path p (JObj (details e)) = _sanitize_value <$> at_path p (JObj d).
Proof.
  intros Hp Hk e.
  assert (JObj (details e) = _sanitize_value (JObj d)) as Hd by done.
  rewrite Hd, sanitize_spec by done. split; [|by apply at_path_harmless].
  destruct (at_path (p ++ [inl k]) (JObj d)); [|done]. case_decide; [|done].
  intros E. apply (inj Some) in E. auto.
Qed.

(** A password two levels down. *)
Lemma event_details_redacted_witness :
  let e := @make_event SampleText.lower "t" INFO "d" None (S754_zero false)
             [("session", JList [JObj [("Password", JStr "hunter2"); ("port", JInt 22)]])]%string in
  (at_path ([inl "session"%string; inr 0%nat] ++ inl "Password"%string :: []) (JObj (details e))
   = Some REDACTED -> REDACTED = REDACTED /\ @nil (string + nat) = []) /\
  at_path [inl "session"; inr 0%nat]%string (JObj (details e))
  = @_sanitize_value SampleText.lower
      <$> at_path [inl "session"; inr 0%nat]%string
            (JObj [("session", JList [JObj [("Password", JStr "hunter2"); ("port", JInt 22)]])]%string).
Proof.
  apply (@event_details_redacted SampleText.lower).
  - vm_compute. exact eq_refl.
  - vm_compute. exact eq_refl.
Defined.

End Security.
