(* ===== verification/Wire.v ===== *)
(** * The wire format: frames, file-data payloads and the relay stream

    Models [core/protocol/frame.py] (module [Frame]), the byte stream reader of
    [core/transport/relay_stream.py] (module [Stream], the same [readexactly]
    contract as asyncio's reader) and [core/protocol/binary.py] (module
    [FileData], with the [uuid] text form it depends on). *)

From S2P Require Import Prelude Text Json.
Local Open Scope peerc_scope.
Local Open Scope Z_scope.

(** ** The byte stream a frame is read from *)
Module Stream.

(** [RelayedStreamReader]: the bytes fed so far and not read, and whether the
    end of the stream was signalled. *)
Record reader := mk_reader { buffer : bytes; eof : bool }.

Definition new_reader : reader := {| buffer := []; eof := false |}.

Definition feed_data (data : bytes) (r : reader) : reader :=
  if eof r || bool_decide (data = []) then r
  else {| buffer := buffer r ++ data; eof := eof r |}.

Definition feed_eof (r : reader) : reader :=
  if eof r then r else {| buffer := buffer r; eof := true |}.

(** One attempt of [readexactly(n)]: the coroutine returns, raises
    [IncompleteReadError(partial)] or suspends until more data is fed. *)
Inductive read_outcome : Type :=
| RDone (data : bytes)
| RIncomplete (partial : bytes)
| RWait.

Definition readexactly (n : nat) (r : reader) : reader * read_outcome :=
  if decide (length (buffer r) < n)%nat then
    if eof r then ({| buffer := []; eof := true |}, RIncomplete (buffer r))
    else (r, RWait)
  else ({| buffer := drop n (buffer r); eof := eof r |}, RDone (take n (buffer r))).

(** [RelayedStreamWriter]: the bytes written and not yet drained; [drain]
    hands the whole pending block to the relay session as one chunk. *)
Record writer := mk_writer { pending : bytes; closed : bool }.

Definition new_writer : writer := {| pending := []; closed := false |}.

Definition write (data : bytes) (w : writer) : writer :=
  if closed w || bool_decide (data = []) then w
  else {| pending := pending w ++ data; closed := closed w |}.

Definition drain (w : writer) : writer * option bytes :=
  if closed w || bool_decide (pending w = []) then (w, None)
  else ({| pending := []; closed := closed w |}, Some (pending w)).

Definition close (w : writer) : writer := {| pending := pending w; closed := true |}.

Lemma readexactly_short n r :
  (length (buffer r) < n)%nat -> eof r = false -> readexactly n r = (r, RWait).
Proof. intros H E. unfold readexactly. rewrite decide_True by done. by rewrite E. Qed.

Lemma readexactly_enough n r :
  (n <= length (buffer r))%nat ->
  readexactly n r =
    ({| buffer := drop n (buffer r); eof := eof r |}, RDone (take n (buffer r))).
Proof. intros H. unfold readexactly. by rewrite decide_False by lia. Qed.

Lemma readexactly_app n data rest e :
  length data = n ->
  readexactly n {| buffer := data ++ rest; eof := e |} =
    ({| buffer := rest; eof := e |}, RDone data).
Proof.
  intros <-. rewrite readexactly_enough by (simpl; rewrite length_app; lia).
  simpl. by rewrite take_app_length, drop_app_length.
Qed.

End Stream.

(** ** Length-prefixed frames *)
Module Frame.
Import Stream.

Inductive frame_error : Type :=
| TooLarge (len : Z)              (** [message too large] / [binary payload too large] *)
| InvalidLength (len : Z)         (** [invalid frame length] *)
| MalformedJson                   (** [malformed JSON payload] *)
| ExpectedJson                    (** [expected a JSON frame but got a binary frame] *)
| Incomplete (partial : bytes).   (** [asyncio.IncompleteReadError] *)

Inductive kind : Type := KJson | KBinary.

#[export] Instance kind_eq_decision : EqDecision kind.
Proof. solve_decision. Defined.

Definition LENGTH_PREFIX_SIZE : nat := 4.
Definition MAX_MESSAGE_SIZE : Z := 100 * 1024 * 1024.
Definition BINARY_FLAG : Z := 0x80000000.

Definition encode_frame `{JsonText} (message : json) : result frame_error bytes :=
  let payload := json_dumps message in
  raise? MAX_MESSAGE_SIZE <? zlen payload with TooLarge (zlen payload) ;;
  let header := be_bytes LENGTH_PREFIX_SIZE (zlen payload) in
  Ok (header ++ payload).

Definition encode_binary_frame (payload : bytes) : result frame_error bytes :=
  raise? MAX_MESSAGE_SIZE <? zlen payload with TooLarge (zlen payload) ;;
  let header := be_bytes LENGTH_PREFIX_SIZE (Z.lor (zlen payload) BINARY_FLAG) in
  Ok (header ++ payload).

(** The coroutine [_read_raw] between its two awaits: waiting for the header,
    or for the [length] bytes of the payload. *)
Inductive raw_state : Type :=
| AwaitHeader
| AwaitPayload (is_binary : bool) (length : Z).

Inductive raw_outcome : Type :=
| RawDone (k : kind) (payload : bytes)
| RawError (e : frame_error)
| RawWait (st : raw_state).

(** The check between the awaits: flag bit off the top, then the length test. *)
Definition check_header (header : bytes) : result frame_error (bool * Z) :=
  let raw_length := be_int header in
  let is_binary := negb (Z.land raw_length BINARY_FLAG =? 0) in
  let length := Z.land raw_length (Z.lnot BINARY_FLAG) in
  raise? (length =? 0) || (MAX_MESSAGE_SIZE <? length) with InvalidLength length ;;
  Ok (is_binary, length).

Definition read_payload (is_binary : bool) (length : Z) (r : reader) : reader * raw_outcome :=
  match readexactly (Z.to_nat length) r with
  | (r', RDone payload) => (r', RawDone (if is_binary then KBinary else KJson) payload)
  | (r', RIncomplete p) => (r', RawError (Incomplete p))
  | (r', RWait) => (r', RawWait (AwaitPayload is_binary length))
  end.

(** Resuming [_read_raw] where it was suspended. *)
Definition _read_raw (st : raw_state) (r : reader) : reader * raw_outcome :=
  match st with
  | AwaitHeader =>
      match readexactly LENGTH_PREFIX_SIZE r with
      | (r', RDone header) =>
          match check_header header with
          | Err e => (r', RawError e)
          | Ok (is_binary, length) => read_payload is_binary length r'
          end
      | (r', RIncomplete p) => (r', RawError (Incomplete p))
      | (r', RWait) => (r', RawWait AwaitHeader)
      end
  | AwaitPayload is_binary length => read_payload is_binary length r
  end.

Definition _decode_json `{JsonText} (payload : bytes) : result frame_error json :=
  match json_loads payload with
  | Some m => Ok m
  | None => Err MalformedJson
  end.

(** A frame as [read_any_frame] returns it: [("json", dict)] or [("binary", bytes)]. *)
Inductive frame : Type :=
| JsonFrame (m : json)
| BinaryFrame (payload : bytes).

Definition finish_any `{JsonText} (k : kind) (payload : bytes) : result frame_error frame :=
  match k with
  | KJson => let? m := _decode_json payload in Ok (JsonFrame m)
  | KBinary => Ok (BinaryFrame payload)
  end.

Inductive any_outcome : Type :=
| AnyDone (f : frame)
| AnyError (e : frame_error)
| AnyWait (st : raw_state).

Definition read_any_frame `{JsonText} (st : raw_state) (r : reader) : reader * any_outcome :=
  match _read_raw st r with
  | (r', RawDone k payload) =>
      match finish_any k payload with
      | Ok f => (r', AnyDone f)
      | Err e => (r', AnyError e)
      end
  | (r', RawError e) => (r', AnyError e)
  | (r', RawWait st') => (r', AnyWait st')
  end.

(** [read_frame]: the handshake's reader, which refuses a binary frame. *)
Definition read_frame `{JsonText} (st : raw_state) (r : reader) : reader * any_outcome :=
  match _read_raw st r with
  | (r', RawDone KJson payload) =>
      match _decode_json payload with
      | Ok m => (r', AnyDone (JsonFrame m))
      | Err e => (r', AnyError e)
      end
  | (r', RawDone KBinary _) => (r', AnyError ExpectedJson)
  | (r', RawError e) => (r', AnyError e)
  | (r', RawWait st') => (r', AnyWait st')
  end.

(** The read loop of a connection: frames are read until the reader has to wait
    or an error ends the loop.  Every frame takes at least one byte, so
    [length + 2] rounds are enough ([drain_frames_fuel]). *)
Fixpoint drain_frames `{JsonText} (fuel : nat) (st : raw_state) (r : reader)
  : list frame * (reader * any_outcome) :=
  match fuel with
  | O => ([], (r, AnyWait st))
  | S fuel' =>
      match read_any_frame st r with
      | (r', AnyDone f) =>
          let '(fs, out) := drain_frames fuel' AwaitHeader r' in (f :: fs, out)
      | (r', o) => ([], (r', o))
      end
  end.

Definition drain_all `{JsonText} (st : raw_state) (r : reader)
  : list frame * (reader * any_outcome) :=
  drain_frames (S (S (length (buffer r)))) st r.

(** The same loop with the network delivering the stream in pieces. *)
Fixpoint feed_chunks `{JsonText} (st : raw_state) (r : reader) (chunks : list bytes)
  : list frame * any_outcome :=
  match chunks with
  | [] => ([], AnyWait st)
  | c :: cs =>
      match drain_all st (feed_data c r) with
      | (fs, (r', AnyWait st')) =>
          let '(fs', o) := feed_chunks st' r' cs in (fs ++ fs', o)
      | (fs, (_, o)) => (fs, o)
      end
  end.

(** *** The header check *)

Lemma testbit_31_small n : 0 <= n < 2 ^ 31 -> Z.testbit n 31 = false.
Proof.
  intros Hn. destruct (decide (n = 0)) as [->|]; [done|].
  apply Z.bits_above_log2; [lia|]. apply Z.log2_lt_pow2; lia.
Qed.

Lemma land_lor_flag n : 0 <= n < 2 ^ 31 -> Z.land (Z.lor n BINARY_FLAG) BINARY_FLAG = 2 ^ 31.
Proof.
  intros Hn. change BINARY_FLAG with (2 ^ 31). apply Z.bits_inj'. intros k Hk.
  rewrite Z.land_spec, Z.lor_spec, Z.pow2_bits_eqb by lia.
  destruct (31 =? k) eqn:E; by rewrite ?orb_true_r, ?andb_false_r.
Qed.

Lemma land_flag_small n : 0 <= n < 2 ^ 31 -> Z.land n BINARY_FLAG = 0.
Proof.
  intros Hn. change BINARY_FLAG with (2 ^ 31). apply Z.bits_inj'. intros k Hk.
  rewrite Z.land_spec, Z.pow2_bits_eqb, Z.bits_0 by lia.
  destruct (31 =? k) eqn:E; [|by rewrite andb_false_r].
  apply Z.eqb_eq in E. subst k. by rewrite testbit_31_small.
Qed.

Lemma land_lnot_flag n b :
  0 <= n < 2 ^ 31 ->
  Z.land (if b : bool then Z.lor n BINARY_FLAG else n) (Z.lnot BINARY_FLAG) = n.
Proof.
  intros Hn. change BINARY_FLAG with (2 ^ 31). apply Z.bits_inj'. intros k Hk.
  destruct b; rewrite Z.land_spec, Z.lnot_spec, ?Z.lor_spec, Z.pow2_bits_eqb by lia;
    (destruct (31 =? k) eqn:E;
      [apply Z.eqb_eq in E; subst k; by rewrite testbit_31_small
      |by rewrite ?orb_false_r, andb_true_r]).
Qed.

Lemma lor_flag_bound n : 0 <= n < 2 ^ 31 -> 0 <= Z.lor n BINARY_FLAG < 2 ^ 32.
Proof.
  intros Hn. split; [apply Z.lor_nonneg; unfold BINARY_FLAG; lia|].
  destruct (decide (n = 0)) as [->|]; [done|].
  apply Z.log2_lt_pow2; [|rewrite Z.log2_lor by (unfold BINARY_FLAG; lia)].
  - pose proof (Z.lor_nonneg n BINARY_FLAG) as [_ H].
    assert (Z.lor n BINARY_FLAG <> 0); [|unfold BINARY_FLAG in *; lia].
    rewrite Z.lor_eq_0_iff. unfold BINARY_FLAG. lia.
  - assert (Z.log2 n < 31) by (apply Z.log2_lt_pow2; lia).
    change (Z.log2 BINARY_FLAG) with 31. lia.
Qed.

(** The header [encode_frame] / [encode_binary_frame] write is read back as the
    same flag and length. *)
Lemma check_header_encoded b n :
  0 < n <= MAX_MESSAGE_SIZE ->
  check_header (be_bytes LENGTH_PREFIX_SIZE (if b : bool then Z.lor n BINARY_FLAG else n))
    = Ok (b, n).
Proof.
  intros Hn. unfold MAX_MESSAGE_SIZE in Hn. unfold check_header.
  assert (0 <= n < 2 ^ 31) as Hn' by lia.
  rewrite be_int_be_bytes.
  2: { unfold LENGTH_PREFIX_SIZE. destruct b; [by apply lor_flag_bound|lia]. }
  rewrite land_lnot_flag by done.
  replace (n =? 0) with false by (symmetry; apply Z.eqb_neq; lia).
  replace (MAX_MESSAGE_SIZE <? n) with false
    by (symmetry; apply Z.ltb_ge; unfold MAX_MESSAGE_SIZE; lia).
  destruct b; [by rewrite land_lor_flag|by rewrite land_flag_small].
Qed.

(** *** Reading more of the same stream *)

(** An open reader holding [b]. *)
Definition rd (b : bytes) : reader := {| buffer := b; eof := false |}.

Lemma feed_data_rd b c : feed_data c (rd b) = rd (b ++ c).
Proof.
  unfold feed_data, rd. simpl. case_bool_decide; [subst c|done].
  by rewrite app_nil_r.
Qed.

Lemma readexactly_rd n b :
  readexactly n (rd b) =
    if decide (length b < n)%nat then (rd b, RWait)
    else (rd (drop n b), RDone (take n b)).
Proof. done. Qed.

(** What one resumption says about the stream extended by [x]: a finished or
    failed read is unaffected, a suspended one resumes from where it stopped. *)
Definition extends {O} (resume : raw_state -> reader -> reader * O)
    (waits : O -> option raw_state) (st : raw_state) (b : bytes) : Prop :=
  exists b' o, resume st (rd b) = (rd b', o) /\ (length b' <= length b)%nat /\
    forall x, match waits o with
              | None => resume st (rd (b ++ x)) = (rd (b' ++ x), o)
              | Some st' => resume st (rd (b ++ x)) = resume st' (rd (b' ++ x))
              end.

Definition raw_waits (o : raw_outcome) : option raw_state :=
  match o with RawWait st => Some st | _ => None end.
Definition any_waits (o : any_outcome) : option raw_state :=
  match o with AnyWait st => Some st | _ => None end.

Lemma read_payload_extends f n b :
  extends (fun _ => read_payload f n) raw_waits (AwaitPayload f n) b.
Proof.
  unfold extends, read_payload. rewrite readexactly_rd. case_decide as H.
  - exists b, (RawWait (AwaitPayload f n)). simpl. eauto with lia.
  - eexists _, _. split; [done|]. rewrite length_drop. split; [lia|]. intros x. simpl.
    rewrite readexactly_rd, decide_False by (rewrite length_app; lia).
    by rewrite drop_app_le, take_app_le by lia.
Qed.

Lemma read_raw_extends st b : extends _read_raw raw_waits st b.
Proof.
  destruct st as [|f n].
  2: { destruct (read_payload_extends f n b) as (b' & o & Ho & Hl & Hx).
       exists b', o. split; [done|]. split; [done|]. intros x. specialize (Hx x).
       destruct o; simpl in *; [done|done|].
       unfold read_payload in Ho. rewrite readexactly_rd in Ho. case_decide; by simplify_eq. }
  unfold extends, _read_raw at 1. rewrite readexactly_rd. case_decide as H.
  - exists b, (RawWait AwaitHeader). simpl. eauto with lia.
  - assert (forall x, _read_raw AwaitHeader (rd (b ++ x)) =
       match check_header (take LENGTH_PREFIX_SIZE b) with
       | Err e => (rd (drop LENGTH_PREFIX_SIZE b ++ x), RawError e)
       | Ok (f, n) => read_payload f n (rd (drop LENGTH_PREFIX_SIZE b ++ x))
       end) as Hext.
    { intros x. unfold _read_raw.
      rewrite readexactly_rd, decide_False by (rewrite length_app; lia).
      by rewrite drop_app_le, take_app_le by lia. }
    destruct (check_header _) as [[f n]|e] eqn:E.
    + destruct (read_payload_extends f n (drop LENGTH_PREFIX_SIZE b))
        as (b' & o & Ho & Hl & Hx).
      exists b', o. split; [done|]. split; [rewrite length_drop in Hl; lia|].
      intros x. rewrite Hext. specialize (Hx x). destruct o; simpl in *; [done|done|].
      unfold read_payload in Ho. rewrite readexactly_rd in Ho. case_decide; by simplify_eq.
    + eexists _, _. split; [done|]. rewrite length_drop. split; [lia|]. intros x. apply Hext.
Qed.

Lemma read_any_frame_extends `{JsonText} st b : extends read_any_frame any_waits st b.
Proof.
  destruct (read_raw_extends st b) as (b' & o & Ho & Hl & Hx).
  unfold extends, read_any_frame. rewrite Ho.
  destruct o as [k p|e|st']; [destruct (finish_any k p) eqn:E| |];
    eexists _, _; (split; [done|]); (split; [done|]); intros x;
    specialize (Hx x); simpl in *; by rewrite ?Hx, ?E.
Qed.

(** A finished read consumed at least one byte, unless it was resumed for an
    empty payload (which [check_header] never lets through). *)
Lemma read_any_frame_consumes `{JsonText} b b' f :
  read_any_frame AwaitHeader (rd b) = (rd b', AnyDone f) -> (length b' < length b)%nat.
Proof.
  unfold read_any_frame, _read_raw, read_payload. rewrite readexactly_rd.
  case_decide as Hd; [done|].
  destruct (check_header _) as [[fl n]|]; [|done].
  rewrite readexactly_rd. case_decide; [done|].
  destruct (finish_any _ _); [|done]. intros [= <- _].
  rewrite !length_drop. unfold LENGTH_PREFIX_SIZE in *. lia.
Qed.

Lemma drain_frames_S `{JsonText} n st r :
  drain_frames (S n) st r =
    match read_any_frame st r with
    | (r', AnyDone f) => let '(fs, out) := drain_frames n AwaitHeader r' in (f :: fs, out)
    | (r', o) => ([], (r', o))
    end.
Proof. done. Qed.

Lemma drain_frames_fuel `{JsonText} n1 n2 b :
  (length b < n1)%nat -> (length b < n2)%nat ->
  drain_frames n1 AwaitHeader (rd b) = drain_frames n2 AwaitHeader (rd b).
Proof.
  revert n2 b. induction n1 as [|n1 IH]; intros [|n2] b H1 H2; [lia..|]. simpl.
  destruct (read_any_frame_extends AwaitHeader b) as (b' & o & Ho & _). rewrite Ho.
  destruct o; [|done..]. pose proof (read_any_frame_consumes _ _ _ Ho).
  by rewrite (IH n2) by lia.
Qed.

Lemma drain_all_unfold `{JsonText} st b :
  drain_all st (rd b) =
    match read_any_frame st (rd b) with
    | (r', AnyDone f) => let '(fs, out) := drain_all AwaitHeader r' in (f :: fs, out)
    | (r', o) => ([], (r', o))
    end.
Proof.
  unfold drain_all at 1. rewrite drain_frames_S.
  destruct (read_any_frame_extends st b) as (b' & o & Ho & Hl & _). rewrite Ho.
  destruct o as [f| |]; [|done..]. unfold drain_all.
  change (buffer (rd b)) with b. change (buffer (rd b')) with b'.
  rewrite (drain_frames_fuel (S (length b)) (S (S (length b'))) b') by lia. done.
Qed.

(** Rounds left: a suspended payload read may end without consuming bytes. *)
Definition pending_size (st : raw_state) (b : bytes) : nat :=
  match st with AwaitHeader => length b | AwaitPayload _ _ => S (length b) end.

Lemma read_any_frame_progress `{JsonText} st b b' f :
  read_any_frame st (rd b) = (rd b', AnyDone f) -> (length b' < pending_size st b)%nat.
Proof.
  destruct st as [|fl n]; [apply read_any_frame_consumes|]. intros H1.
  destruct (read_any_frame_extends (AwaitPayload fl n) b) as (c & o & Ho & Hl & _).
  rewrite Ho in H1. simplify_eq. simpl. lia.
Qed.

(** Draining a stream in two steps is draining it in one. *)
Lemma drain_all_app `{JsonText} st b x :
  exists fs b' o, drain_all st (rd b) = (fs, (rd b', o)) /\
  drain_all st (rd (b ++ x)) =
    match o with
    | AnyWait st' =>
        let '(fs', out) := drain_all st' (rd (b' ++ x)) in (fs ++ fs', out)
    | _ => (fs, (rd (b' ++ x), o))
    end.
Proof.
  remember (S (pending_size st b)) as m eqn:Hm.
  assert (pending_size st b < m)%nat as Hlt by lia. clear Hm.
  revert st b Hlt. induction m as [|m IH]; intros st b Hlt; [lia|].
  rewrite !drain_all_unfold.
  destruct (read_any_frame_extends st b) as (c & o' & Ho & Hl & Hx). specialize (Hx x).
  rewrite Ho. destruct o' as [f|e|st']; cbn [any_waits] in Hx.
  - apply read_any_frame_progress in Ho.
    destruct (IH AwaitHeader c) as (fs & b' & o & H1 & H2); [simpl; lia|].
    rewrite H1, Hx, H2. exists (f :: fs), b', o. split; [done|].
    destruct o as [| |st'']; [done|done|].
    destruct (drain_all st'' (rd (b' ++ x))) as [fs2 out2]. done.
  - rewrite Hx. by exists [], c, (AnyError e).
  - exists [], c, (AnyWait st'). split; [done|].
    rewrite Hx, <- drain_all_unfold. by destruct (drain_all _ _).
Qed.

(** A reader that has nothing more to give stays where it is. *)
Lemma drain_all_wait `{JsonText} st b fs b' st' :
  drain_all st (rd b) = (fs, (rd b', AnyWait st')) ->
  drain_all st' (rd b') = ([], (rd b', AnyWait st')).
Proof.
  intros Hd. destruct (drain_all_app st b []) as (fs1 & b1 & o1 & H1 & H2).
  rewrite !app_nil_r in H2. rewrite H1 in H2. rewrite Hd in H1.
  injection H1 as <- <- <-.
  destruct (drain_all st' (rd b')) as [fs2 out] eqn:E. injection H2 as H2 <-.
  f_equal. apply (app_inv_head fs). by rewrite app_nil_r.
Qed.

(** The frames of an encoded message list, the way the two encoders frame them. *)
Fixpoint encode_all `{JsonText} (fs : list frame) : result frame_error bytes :=
  match fs with
  | [] => Ok []
  | f :: fs' =>
      let? b := (match f with
                 | JsonFrame m => encode_frame m
                 | BinaryFrame p => encode_binary_frame p
                 end) in
      let? bs := encode_all fs' in
      Ok (b ++ bs)
  end.

(** What the peers put in frames: dicts, and non-empty binary payloads. *)
Definition sendable (f : frame) : bool :=
  match f with
  | JsonFrame (JObj kvs) => jwf (JObj kvs)
  | JsonFrame _ => false
  | BinaryFrame p => negb (bool_decide (p = []))
  end.

Lemma read_encoded_payload (b : bool) payload rest :
  0 < zlen payload <= MAX_MESSAGE_SIZE ->
  _read_raw AwaitHeader
    (rd ((be_bytes LENGTH_PREFIX_SIZE (if b then Z.lor (zlen payload) BINARY_FLAG
                                       else zlen payload) ++ payload) ++ rest))
  = (rd rest, RawDone (if b then KBinary else KJson) payload).
Proof.
  intros Hn. unfold _read_raw, rd. rewrite <- app_assoc.
  rewrite readexactly_app by apply length_be_bytes.
  rewrite check_header_encoded by done. unfold read_payload.
  by rewrite readexactly_app by (unfold zlen; lia).
Qed.

Lemma zlen_pos {A} (l : list A) : l <> [] -> 0 < zlen l.
Proof. destruct l; [done|]. unfold zlen. simpl. lia. Qed.

(** Reading back the first frame of a stream that starts with its encoding. *)
Lemma read_any_frame_encoded `{JsonTextLaws} f b rest :
  sendable f = true -> encode_all [f] = Ok b ->
  read_any_frame AwaitHeader (rd (b ++ rest)) = (rd rest, AnyDone f).
Proof.
  intros Hs He. destruct f as [[| | | | | |kvs]|p]; try discriminate Hs;
    cbn [encode_all] in He; unfold encode_frame, encode_binary_frame in He;
    (destruct (MAX_MESSAGE_SIZE <? zlen _) eqn:E; [discriminate He|]);
    cbn [rbind] in He; rewrite app_nil_r in He; apply Ok_inj in He; subst b; apply Z.ltb_ge in E;
    unfold read_any_frame.
  - rewrite (read_encoded_payload false).
    + simpl. unfold _decode_json. by rewrite json_loads_dumps.
    + split; [apply zlen_pos, json_dumps_nonempty|done].
  - rewrite (read_encoded_payload true); [done|].
    split; [apply zlen_pos|done]. by apply negb_true_iff, bool_decide_eq_false in Hs.
Qed.

Lemma drain_all_encoded `{JsonTextLaws} fs b rest :
  forallb sendable fs = true -> encode_all fs = Ok b ->
  drain_all AwaitHeader (rd (b ++ rest)) =
    let '(fs', out) := drain_all AwaitHeader (rd rest) in (fs ++ fs', out).
Proof.
  revert b. induction fs as [|f fs IH]; intros b Hs He; simpl in He.
  { injection He as <-. simpl. by destruct (drain_all AwaitHeader (rd rest)). }
  apply andb_true_iff in Hs as [Hf Hs].
  apply rbind_Ok in He as (bf & Hbf & He). apply rbind_Ok in He as (bs & Hbs & He).
  injection He as <-. rewrite <- app_assoc, drain_all_unfold.
  rewrite (read_any_frame_encoded f bf); [|done|simpl; rewrite Hbf; simpl; by rewrite app_nil_r].
  rewrite (IH bs) by done. by destruct (drain_all AwaitHeader (rd rest)).
Qed.

(** *** Feeding in pieces *)

Lemma feed_chunks_waiting `{JsonText} chunks st b :
  drain_all st (rd b) = ([], (rd b, AnyWait st)) ->
  feed_chunks st (rd b) chunks =
    let '(fs, (_, o)) := drain_all st (rd (b ++ concat chunks)) in (fs, o).
Proof.
  revert st b. induction chunks as [|c cs IH]; intros st b Hw; simpl.
  { by rewrite app_nil_r, Hw. }
  rewrite feed_data_rd, app_assoc.
  destruct (drain_all_app st (b ++ c) (concat cs)) as (fs & b' & o & H1 & H2).
  rewrite H2, H1. destruct o as [f|e|st']; [done|done|].
  rewrite (IH st' b') by by eapply drain_all_wait.
  by destruct (drain_all st' (rd (b' ++ concat cs))) as [fs' [r' o']].
Qed.

(** The payload length a suspended read waits for is one the header check
    accepted. *)
Definition state_ok (st : raw_state) : Prop :=
  match st with
  | AwaitHeader => True
  | AwaitPayload _ n => 0 < n <= MAX_MESSAGE_SIZE
  end.

Lemma check_header_bounds h b n :
  check_header h = Ok (b, n) -> 0 < n <= MAX_MESSAGE_SIZE.
Proof.
  unfold check_header. destruct (_ || _) eqn:E; [done|]. intros [= _ <-].
  bool_to_prop. pose proof (be_int_bound h).
  assert (0 <= Z.land (be_int h) (Z.lnot BINARY_FLAG)); [apply Z.land_nonneg; lia|lia].
Qed.

Lemma read_any_frame_state_ok `{JsonText} st r r' st' :
  state_ok st -> read_any_frame st r = (r', AnyWait st') -> state_ok st'.
Proof.
  intros Hs. unfold read_any_frame, _read_raw, read_payload.
  destruct st as [|b n]; repeat case_match; intros; simplify_eq; simpl in *; try done;
    by eapply check_header_bounds.
Qed.

(** *** Properties *)

(** C34: every list of sendable frames (JSON dicts and non-empty binary
    payloads, in any mix) that the encoders accept is read back by
    [read_any_frame] in order and complete, whatever pieces the network cuts the
    byte stream into, and the reader is left waiting for the next header. *)
Theorem frames_roundtrip `{JsonTextLaws} fs b chunks :
  forallb sendable fs = true -> encode_all fs = Ok b -> concat chunks = b ->
  feed_chunks AwaitHeader new_reader chunks = (fs, AnyWait AwaitHeader).
Proof.
  intros Hs He Hc. change new_reader with (rd []).
  rewrite feed_chunks_waiting by done. simpl. rewrite Hc, <- (app_nil_r b).
  rewrite (drain_all_encoded fs) by done. simpl. by rewrite app_nil_r.
Qed.

(** C35: the frames a connection reads, and the outcome its read loop stops
    with (waiting, or the error that ends it), depend only on the bytes of the
    stream and not on how they are cut into pieces, for every stream, honest or
    not. *)
Theorem feed_chunks_concat `{JsonText} chunks chunks' :
  concat chunks = concat chunks' ->
  feed_chunks AwaitHeader new_reader chunks = feed_chunks AwaitHeader new_reader chunks'.
Proof.
  intros Hc. change new_reader with (rd []).
  by rewrite !feed_chunks_waiting, Hc by done.
Qed.

(** Whatever a peer sends, a connection never waits for a payload longer
    than [MAX_MESSAGE_SIZE] or for an empty one: after any sequence of pieces the
    read loop that waits, waits in a state the header check accepted. *)
Theorem feed_chunks_bounded `{JsonText} chunks fs st :
  feed_chunks AwaitHeader new_reader chunks = (fs, AnyWait st) -> state_ok st.
Proof.
  change new_reader with (rd []). rewrite feed_chunks_waiting by done.
  unfold drain_all. remember (S (S _)) as n eqn:Hn. clear Hn.
  assert (state_ok AwaitHeader) as Hst by done. revert fs Hst.
  generalize (rd ([] ++ concat chunks)) as r. generalize AwaitHeader at 1 2 as s.
  induction n as [|n IH]; intros s r fs Hs; simpl; [by intros [= _ <-]|].
  destruct (read_any_frame s r) as [r' [f|e|s']] eqn:E; [|done|].
  - destruct (drain_frames n AwaitHeader r') as [fs' [r'' o]] eqn:E'.
    intros [= _ ->]. eapply (IH AwaitHeader r' fs'); [done|]. by rewrite E'.
  - intros [= _ <-]. by eapply read_any_frame_state_ok.
Qed.

#[local] Existing Instances BitText.text BitText.text_laws.

Definition example_frames : list frame :=
  [JsonFrame (JObj [("type", JStr "ping")]); BinaryFrame (lit "chunk")].

(** Two frames, cut in the middle of the first header. *)
Lemma frames_roundtrip_witness :
  exists b, encode_all example_frames = Ok b /\
  feed_chunks AwaitHeader new_reader [take 2 b; drop 2 b] =
    (example_frames, AnyWait AwaitHeader).
Proof.
  eexists. split; [vm_compute; reflexivity|].
  eapply frames_roundtrip; vm_compute; reflexivity.
Defined.

Lemma feed_chunks_concat_witness :
  feed_chunks AwaitHeader new_reader [lit "ab"; lit "cdef"] =
  feed_chunks AwaitHeader new_reader [lit "abcdef"].
Proof. apply feed_chunks_concat. reflexivity. Defined.

Lemma feed_chunks_bounded_witness : state_ok (AwaitPayload true 5).
Proof.
  apply (feed_chunks_bounded [be_bytes 4 (Z.lor 5 BINARY_FLAG); lit "ab"] []).
  vm_compute. reflexivity.
Defined.

End Frame.

(** ** File-data payloads *)
Module FileData.

(** *** [uuid.UUID] of the standard library *)

Definition is_brace (c : byte) : bool :=
  bool_decide (c = "{"%byte \/ c = "}"%byte).

(** The digits of [int(s, 16)], single underscores allowed between digits;
    [prev] tells whether the previous character was a digit. *)
Fixpoint hex_digits (acc : Z) (prev : bool) (s : bytes) : option Z :=
  match s with
  | [] => if prev then Some acc else None
  | c :: s' =>
      match hex_value c with
      | Some d => hex_digits (acc * 16 + d) true s'
      | None => if bool_decide (c = "_"%byte) && prev then hex_digits acc false s' else None
      end
  end.

(** The optional [0x], with the underscore that may follow it. *)
Definition hex_prefix (s : bytes) : bytes :=
  match s with
  | c0 :: c1 :: s' =>
      if bool_decide (c0 = "0"%byte) && bool_decide (c1 = "x"%byte \/ c1 = "X"%byte) then
        match s' with
        | c2 :: s'' => if bool_decide (c2 = "_"%byte) then s'' else s'
        | [] => s'
        end
      else s
  | _ => s
  end.

(** [int(s, 16)] of an ASCII string. *)
Definition int16 (s : bytes) : option Z :=
  match strip is_space s with
  | [] => None
  | c :: s' =>
      if bool_decide (c = "+"%byte) then hex_digits 0 false (hex_prefix s')
      else if bool_decide (c = "-"%byte)
      then option_map Z.opp (hex_digits 0 false (hex_prefix s'))
      else hex_digits 0 false (hex_prefix (c :: s'))
  end.

(** The Unicode tables behind [int()]: decimal digits and spaces of other
    scripts are replaced by their ASCII counterparts before parsing; an ASCII
    string is unchanged. *)
Class UnicodeTables := { decimal_and_space_to_ascii : bytes -> bytes }.
Class UnicodeTablesLaws `{UnicodeTables} : Prop := {
  decimal_and_space_ascii s : is_ascii s = true -> decimal_and_space_to_ascii s = s
}.

Definition pat_urn : bytes := lit "urn:".
Definition pat_uuid : bytes := lit "uuid:".
Definition pat_dash : bytes := lit "-".

(** [uuid.UUID(text)]: the 128-bit integer, or [ValueError]. *)
Definition uuid_of_text `{UnicodeTables} (text : bytes) : option Z :=
  let hex := remove_all pat_uuid O (remove_all pat_urn O text) in
  let hex := remove_all pat_dash O (strip is_brace hex) in
  if code_points hex =? 32 then
    match int16 (decimal_and_space_to_ascii hex) with
    | Some i => if (0 <=? i) && (i <? 2 ^ 128) then Some i else None
    | None => None
    end
  else None.

(** [str(uuid.UUID(bytes=b))]. *)
Definition uuid_text (b : bytes) : bytes :=
  let h := hex_text b in
  take 8 h ++ pat_dash ++ take 4 (drop 8 h) ++ pat_dash ++ take 4 (drop 12 h) ++ pat_dash
    ++ take 4 (drop 16 h) ++ pat_dash ++ drop 20 h.

(** *** The payload *)

Inductive data_error : Type :=
| BadTransferId (transfer_id : string)
| SequenceRange (sequence : Z)
| OffsetRange (offset : Z)
| TooShort (len : Z).

Record file_data := mk_file_data {
  transfer_id : string;
  sequence : Z;
  offset : Z;
  data : bytes
}.

Definition _HEADER_SIZE : nat := 28.

Definition encode_file_data `{UnicodeTables} (transfer_id : string) (sequence offset : Z)
    (data : bytes) : result data_error bytes :=
  match uuid_of_text (str_bytes transfer_id) with
  | None => Err (BadTransferId transfer_id)
  | Some tid =>
      let tid_bytes := be_bytes 16 tid in
      raise? (sequence <? 0) || (0xFFFFFFFF <? sequence) with SequenceRange sequence ;;
      raise? (offset <? 0) || (0xFFFFFFFFFFFFFFFF <? offset) with OffsetRange offset ;;
      let header := tid_bytes ++ be_bytes 4 sequence ++ be_bytes 8 offset in
      Ok (header ++ data)
  end.

Definition decode_file_data (payload : bytes) : result data_error file_data :=
  raise? bool_decide (length payload < _HEADER_SIZE)%nat with TooShort (zlen payload) ;;
  Ok {| transfer_id := bytes_str (uuid_text (take 16 payload));
        sequence := be_int (take 4 (drop 16 payload));
        offset := be_int (take 8 (drop 20 payload));
        data := drop _HEADER_SIZE payload |}.

(** *** The canonical text of a UUID is parsed back *)

Lemma hex_digits_hex_text bs acc p :
  (p = true \/ bs <> []) ->
  hex_digits acc p (hex_text bs) = Some (acc * 2 ^ (8 * zlen bs) + be_int bs).
Proof.
  revert acc p. induction bs as [|b bs IH]; intros acc p Hp.
  { destruct Hp as [->|]; [|done]. change (hex_digits acc true (hex_text [])) with (Some acc).
    f_equal. change (be_int []) with 0. change (2 ^ (8 * zlen (@nil byte))) with 1. lia. }
  rewrite hex_text_cons.
  destruct (hex_byte_spec b) as (c & d & h & l & -> & _ & _ & Hh & Hl & Hb).
  simpl. rewrite Hh, Hl, IH by (by left). change (b :: bs) with ([b] ++ bs).
  rewrite be_int_app, be_int_1, <- Hb.
  f_equal. unfold zlen. rewrite length_app. simpl (length [b]).
  replace (8 * Z.of_nat (1 + length bs)) with (8 + 8 * Z.of_nat (length bs)) by lia.
  rewrite Z.pow_add_r by lia. change (2 ^ 8) with 256. ring.
Qed.

Lemma remove_dash_app s1 s2 :
  remove_all pat_dash O (s1 ++ s2) = remove_all pat_dash O s1 ++ remove_all pat_dash O s2.
Proof.
  induction s1 as [|c s1 IH]; [done|]. simpl.
  case_bool_decide as H1; case_bool_decide as H2; simpl; rewrite ?IH; naive_solver.
Qed.

Lemma is_hex_cases (c : byte) :
  is_hex c = true ->
  c <> "u"%byte /\ c <> "-"%byte /\ c <> "+"%byte /\ c <> "x"%byte /\ c <> "X"%byte /\
  is_brace c = false /\ is_space c = false /\ byte.unsigned c < 128.
Proof. destruct c; first [discriminate|repeat split; easy]. Qed.

(** The characters of a canonical UUID text. *)
Definition is_uuid_char (c : byte) : bool := is_hex c || bool_decide (c = "-"%byte).

Lemma uuid_text_chars b : forallb is_uuid_char (uuid_text b) = true.
Proof.
  assert (forallb is_uuid_char (hex_text b) = true) as Hh.
  { eapply forallb_impl, hex_text_is_hex. unfold is_uuid_char. by intros x ->. }
  unfold uuid_text. rewrite !forallb_app.
  change (take 8 (hex_text b)) with (take 8 (drop 0 (hex_text b))).
  rewrite !forallb_take_drop by done.
  replace (drop 20 (hex_text b)) with (take (length (hex_text b)) (drop 20 (hex_text b))).
  - by rewrite forallb_take_drop.
  - apply take_ge. rewrite length_drop. lia.
Qed.

Lemma remove_dash_hex s : forallb is_hex s = true -> remove_all pat_dash O s = s.
Proof.
  intros Hs. apply remove_all_absent. revert Hs. apply forallb_impl. intros c Hc.
  apply is_hex_cases in Hc as (_ & Hc & _). by rewrite bool_decide_false.
Qed.

Lemma uuid_text_undash b : remove_all pat_dash O (uuid_text b) = hex_text b.
Proof.
  pose proof (hex_text_is_hex b) as Hh. set (h := hex_text b) in *.
  assert (forall n m, remove_all pat_dash O (take n (drop m h)) = take n (drop m h)) as Hp.
  { intros n m. by apply remove_dash_hex, forallb_take_drop. }
  assert (h = take 8 (drop 0 h) ++ take 4 (drop 8 h) ++ take 4 (drop 12 h)
                ++ take 4 (drop 16 h) ++ take (length h) (drop 20 h)) as Hcat.
  { rewrite (take_ge (drop 20 h)) by (rewrite length_drop; lia).
    rewrite <- (take_drop 8 h) at 1. f_equal.
    rewrite <- (take_drop 4 (drop 8 h)) at 1. f_equal. rewrite drop_drop. simpl.
    rewrite <- (take_drop 4 (drop 12 h)) at 1. f_equal. rewrite drop_drop. simpl.
    rewrite <- (take_drop 4 (drop 16 h)) at 1. f_equal. by rewrite drop_drop. }
  unfold uuid_text. fold h. rewrite !remove_dash_app.
  change (remove_all pat_dash O pat_dash) with (@nil byte). rewrite !app_nil_l.
  change (take 8 h) with (take 8 (drop 0 h)).
  rewrite <- (take_ge (drop 20 h) (length h)) by (rewrite length_drop; lia).
  by rewrite !Hp, <- Hcat.
Qed.

Lemma code_points_hex s : forallb is_hex s = true -> code_points s = zlen s.
Proof.
  intros Hs. unfold code_points. f_equal. induction s as [|c s IH]; [done|].
  simpl in *. apply andb_true_iff in Hs as [Hc Hs].
  apply is_hex_cases in Hc as (_ & _ & _ & _ & _ & _ & _ & Hc).
  replace (128 <=? byte.unsigned c) with false by (symmetry; apply Z.leb_gt; lia).
  simpl. by rewrite IH.
Qed.

Lemma int16_hex_text b :
  b <> [] -> int16 (hex_text b) = Some (be_int b).
Proof.
  intros Hb. pose proof (hex_text_is_hex b) as Hh. unfold int16.
  rewrite strip_none.
  2: { revert Hh. apply forallb_impl. intros c Hc. apply is_hex_cases in Hc.
       destruct Hc as (_ & _ & _ & _ & _ & _ & -> & _). done. }
  assert (hex_digits 0 false (hex_text b) = Some (be_int b)) as Hd.
  { by rewrite hex_digits_hex_text by auto. }
  destruct b as [|b bs]; [done|]. clear Hb. rewrite hex_text_cons in *.
  destruct (hex_byte_spec b) as (c & d & h & l & Eb & Hc & Hx & _).
  rewrite Eb in Hd |- *. cbn [app] in Hd |- *.
  apply is_hex_cases in Hc as (_ & Hm & Hp & _).
  apply is_hex_cases in Hx as (_ & _ & _ & Hx & HX & _).
  rewrite !bool_decide_false by done. unfold hex_prefix.
  rewrite (bool_decide_false (d = "x"%byte \/ d = "X"%byte)) by naive_solver.
  by rewrite andb_false_r.
Qed.

Lemma uuid_of_text_uuid_text `{UnicodeTablesLaws} b :
  length b = 16%nat -> uuid_of_text (uuid_text b) = Some (be_int b).
Proof.
  intros Hb. pose proof (uuid_text_chars b) as Hc. unfold uuid_of_text.
  assert (forallb (fun c => negb (bool_decide (c = "u"%byte))) (uuid_text b) = true) as Hu.
  { revert Hc. apply forallb_impl. intros c. by destruct c. }
  change pat_urn with ("u"%byte :: lit "rn:"). change pat_uuid with ("u"%byte :: lit "uid:").
  rewrite !(remove_all_absent "u"%byte _ (uuid_text b)) by done.
  rewrite strip_none by (revert Hc; apply forallb_impl; intros c; by destruct c).
  rewrite uuid_text_undash, code_points_hex by apply hex_text_is_hex.
  unfold zlen. rewrite length_hex_text, Hb. change (Z.of_nat (2 * 16) =? 32) with true.
  rewrite decimal_and_space_ascii, int16_hex_text.
  - pose proof (be_int_bound b) as Hbd. rewrite Hb in Hbd.
    change (8 * Z.of_nat 16) with 128 in Hbd.
    replace (0 <=? be_int b) with true by (symmetry; apply Z.leb_le; lia).
    by replace (be_int b <? 2 ^ 128) with true by (symmetry; apply Z.ltb_lt; lia).
  - by destruct b.
  - eapply forallb_impl, hex_text_is_hex. intros c Hx.
    apply is_hex_cases in Hx. apply Z.ltb_lt. naive_solver.
Qed.

(** *** The payload *)

Lemma decode_parts (p : bytes) :
  (_HEADER_SIZE <= length p)%nat ->
  p = (take 16 p ++ take 4 (drop 16 p) ++ take 8 (drop 20 p)) ++ drop _HEADER_SIZE p.
Proof.
  intros _. rewrite <- !app_assoc.
  rewrite <- (take_drop 16 p) at 1. f_equal.
  rewrite <- (take_drop 4 (drop 16 p)) at 1. f_equal. rewrite drop_drop.
  rewrite <- (take_drop 8 (drop (16 + 4) p)) at 1. f_equal. by rewrite drop_drop.
Qed.

Lemma decode_file_data_app t s o d :
  length t = 16%nat -> length s = 4%nat -> length o = 8%nat ->
  decode_file_data ((t ++ s ++ o) ++ d) =
    Ok {| transfer_id := bytes_str (uuid_text t); sequence := be_int s;
          offset := be_int o; data := d |}.
Proof.
  intros Ht Hs Ho. unfold decode_file_data.
  rewrite bool_decide_false by (rewrite !length_app; unfold _HEADER_SIZE; lia).
  rewrite (drop_app_exact _HEADER_SIZE) by (rewrite !length_app; unfold _HEADER_SIZE; lia).
  rewrite <- !app_assoc. rewrite (take_app_exact 16) by done.
  rewrite (drop_app_exact 16) by done. rewrite (take_app_exact 4) by done.
  rewrite (app_assoc t), (drop_app_exact 20) by (rewrite length_app; lia).
  by rewrite (take_app_exact 8).
Qed.

Lemma encode_file_data_ok `{UnicodeTables} tid s o d p :
  encode_file_data tid s o d = Ok p <->
  exists i, uuid_of_text (str_bytes tid) = Some i /\ 0 <= s < 2 ^ 32 /\ 0 <= o < 2 ^ 64 /\
    p = (be_bytes 16 i ++ be_bytes 4 s ++ be_bytes 8 o) ++ d.
Proof.
  unfold encode_file_data. destruct (uuid_of_text _) as [i|]; [|naive_solver].
  split.
  - destruct (_ || _) eqn:E1; [done|]. destruct ((o <? 0) || _) eqn:E2; [done|].
    bool_to_prop. intros Hp. apply Ok_inj in Hp. subst p.
    exists i. repeat split; lia.
  - intros (j & [= <-] & Hs & Ho & ->). by rewrite !range_ok by lia.
Qed.

Lemma uuid_of_text_range `{UnicodeTables} t i : uuid_of_text t = Some i -> 0 <= i < 2 ^ 128.
Proof.
  unfold uuid_of_text. intros Hi. split_match_in Hi. bool_to_prop. by simplify_eq.
Qed.

(** *** Properties *)

(** A payload [encode_file_data] produced decodes to the same sequence
    number, offset and chunk, and to the canonical text of the same UUID: a text
    that [uuid.UUID] reads as the transfer id it was given. *)
Theorem decode_encode_file_data `{UnicodeTablesLaws} tid s o d p :
  encode_file_data tid s o d = Ok p ->
  exists tid', decode_file_data p =
      Ok {| transfer_id := tid'; sequence := s; offset := o; data := d |} /\
    uuid_of_text (str_bytes tid') = uuid_of_text (str_bytes tid).
Proof.
  intros Hp. apply encode_file_data_ok in Hp as (i & Hi & Hs & Ho & ->).
  pose proof (uuid_of_text_range _ _ Hi) as Hr.
  rewrite decode_file_data_app by apply length_be_bytes.
  rewrite (be_int_be_bytes 4), (be_int_be_bytes 8) by done.
  eexists. split; [done|].
  rewrite String.list_byte_of_string_of_list_byte, uuid_of_text_uuid_text
    by apply length_be_bytes.
  by rewrite be_int_be_bytes, Hi.
Qed.

(** Every binary payload of at least 28 bytes decodes, and encoding the
    decoded fields gives back exactly the payload; shorter ones are refused. *)
Theorem encode_decode_file_data `{UnicodeTablesLaws} p :
  match decode_file_data p with
  | Ok fd => encode_file_data (transfer_id fd) (sequence fd) (offset fd) (data fd) = Ok p
  | Err e => e = TooShort (zlen p) /\ zlen p < 28
  end.
Proof.
  unfold decode_file_data. case_bool_decide as Hl; simpl.
  { split; [done|]. unfold zlen, _HEADER_SIZE in *. lia. }
  assert (forall n m, (n + m <= 28)%nat -> length (take n (drop m p)) = n) as Hlen.
  { intros n m Hnm. rewrite length_take, length_drop. unfold _HEADER_SIZE in Hl. lia. }
  apply encode_file_data_ok. exists (be_int (take 16 p)).
  rewrite String.list_byte_of_string_of_list_byte, uuid_of_text_uuid_text
    by (apply (Hlen 16 0)%nat; lia).
  pose proof (be_int_bound (take 4 (drop 16 p))) as H4. rewrite Hlen in H4 by lia.
  pose proof (be_int_bound (take 8 (drop 20 p))) as H8. rewrite Hlen in H8 by lia.
  split; [done|]. split; [done|]. split; [done|].
  rewrite (decode_parts p) at 1 by lia.
  pose proof (be_bytes_be_int (take 16 (drop 0 p))) as E16. rewrite Hlen in E16 by lia.
  pose proof (be_bytes_be_int (take 4 (drop 16 p))) as E4. rewrite Hlen in E4 by lia.
  pose proof (be_bytes_be_int (take 8 (drop 20 p))) as E8. rewrite Hlen in E8 by lia.
  change (drop 0 p) with p in E16. by rewrite E16, E4, E8.
Qed.

(** Tables without any digit beyond ASCII. *)
#[local] Instance ascii_tables : UnicodeTables := {| decimal_and_space_to_ascii s := s |}.
#[local] Instance ascii_tables_laws : UnicodeTablesLaws.
Proof. by split. Qed.

Definition example_payload : result data_error bytes :=
  encode_file_data "{0123456789ABCDEF-0123456789abcdef}" 7 (2 ^ 40) (lit "chunk").

Lemma decode_encode_file_data_witness :
  exists p tid', example_payload = Ok p /\
    decode_file_data p =
      Ok {| transfer_id := tid'; sequence := 7; offset := 2 ^ 40; data := lit "chunk" |}.
Proof.
  eexists _, _. split; [vm_compute; reflexivity|].
  edestruct (decode_encode_file_data "{0123456789ABCDEF-0123456789abcdef}" 7 (2 ^ 40)
               (lit "chunk")) as (tid' & Hd & _).
  { vm_compute. reflexivity. }
  rewrite Hd. vm_compute in Hd. injection Hd as <-. reflexivity.
Defined.

Lemma encode_decode_file_data_witness :
  encode_file_data "00000000-0000-0000-0000-000000000001" 2 3 (lit "x") =
    Ok (be_bytes 16 1 ++ be_bytes 4 2 ++ be_bytes 8 3 ++ lit "x").
Proof.
  exact (encode_decode_file_data (be_bytes 16 1 ++ be_bytes 4 2 ++ be_bytes 8 3 ++ lit "x")).
Defined.

End FileData.
