(* ===== verification/Messages.v ===== *)
(** * Messages and their validation

    Models [core/protocol/error_codes.py] (module [Errors]) and
    [core/protocol/messages.py] (modules [Factories] and [Validation]): the closed
    set of application errors, the message factories, and the schema check every
    received message goes through.

    A message is the item list of its dict.  The clock and the fresh identifiers
    are arguments of the factories.  In Python [bool] is a subtype of [int], so
    [isinstance(x, int)] holds of a boolean; the model keeps that. *)

From Corelib Require Import SpecFloat.
From S2P Require Import Prelude Text Json.
Local Open Scope peerc_scope.
Local Open Scope Z_scope.

(** [isinstance(v, int)] and the value compared. *)
Definition as_int (v : json) : option Z :=
  match v with JInt z => Some z | JBool b => Some (Z.b2z b) | _ => None end.

Definition is_str (v : json) : bool := match v with JStr _ => true | _ => false end.
Definition is_bool (v : json) : bool := match v with JBool _ => true | _ => false end.
Definition is_list (v : json) : bool := match v with JList _ => true | _ => false end.
Definition is_dict (v : json) : bool := match v with JObj _ => true | _ => false end.

(** [isinstance(v, str) and v]. *)
Definition nonempty_str (v : json) : bool :=
  match v with JStr s => negb (bool_decide (s = ""%string)) | _ => false end.

(** [isinstance(v, (int, float))]. *)
Definition is_numeric (v : json) : bool :=
  match v with JInt _ | JFloat _ | JBool _ => true | _ => false end.

(** The same with [bool] excluded. *)
Definition is_number (v : json) : bool :=
  match v with JInt _ | JFloat _ => true | _ => false end.

(** [v == z] in Python: [True] and [1.0] equal [1]. *)
Definition equals_int (z : Z) (v : json) : bool :=
  match v with
  | JInt n => n =? z
  | JBool b => Z.b2z b =? z
  | JFloat f => SFeqb f (binary_normalize 53 1024 z 0 false)
  | _ => false
  end.

(** ** Application errors *)
Module Errors.

Definition MAX_ERROR_MESSAGE_LEN : Z := 512.
Definition MAX_SENT_MESSAGE_LEN : nat := 200.
Definition MAX_CODE_LEN : Z := 64.
Definition MAX_CONTEXT_ID_LEN : nat := 128.

Inductive ErrorCode : Type :=
| AUTH_FAILED | POLICY_DENIED | PROTOCOL_MISMATCH | INVALID_FRAME | INVALID_STATE
| TRANSFER_NOT_FOUND | SIZE_EXCEEDED | DISK_FULL | CHECKSUM_MISMATCH | TRANSFER_EXPIRED
| RATE_LIMITED | INTERNAL_ERROR.

#[global] Instance error_code_eq : EqDecision ErrorCode.
Proof. solve_decision. Defined.

Definition all_codes : list ErrorCode :=
  [AUTH_FAILED; POLICY_DENIED; PROTOCOL_MISMATCH; INVALID_FRAME; INVALID_STATE;
   TRANSFER_NOT_FOUND; SIZE_EXCEEDED; DISK_FULL; CHECKSUM_MISMATCH; TRANSFER_EXPIRED;
   RATE_LIMITED; INTERNAL_ERROR].

(** [ErrorCode.value]. *)
Definition code_value (c : ErrorCode) : string :=
  match c with
  | AUTH_FAILED => "AUTH_FAILED"
  | POLICY_DENIED => "POLICY_DENIED"
  | PROTOCOL_MISMATCH => "PROTOCOL_MISMATCH"
  | INVALID_FRAME => "INVALID_FRAME"
  | INVALID_STATE => "INVALID_STATE"
  | TRANSFER_NOT_FOUND => "TRANSFER_NOT_FOUND"
  | SIZE_EXCEEDED => "SIZE_EXCEEDED"
  | DISK_FULL => "DISK_FULL"
  | CHECKSUM_MISMATCH => "CHECKSUM_MISMATCH"
  | TRANSFER_EXPIRED => "TRANSFER_EXPIRED"
  | RATE_LIMITED => "RATE_LIMITED"
  | INTERNAL_ERROR => "INTERNAL_ERROR"
  end.

(** [ErrorCode(value)]. *)
Definition code_of_value (s : string) : option ErrorCode :=
  List.find (fun c => bool_decide (code_value c = s)) all_codes.

Record ErrorContract := mk_contract {
  text : string;
  retryable : bool;
  terminal : bool;
  retry_hint : option string
}.

Definition CONTRACTS (c : ErrorCode) : ErrorContract :=
  match c with
  | AUTH_FAILED => mk_contract "The peer did not permit that request." false true None
  | POLICY_DENIED =>
      mk_contract "A policy on the peer's side denied that request." false true
        (Some "This needs a policy change before it can work."%string)
  | PROTOCOL_MISMATCH =>
      mk_contract "The peer cannot process that request with its current version." false true
        (Some "Reconnect after both sides are on a compatible version."%string)
  | INVALID_FRAME =>
      mk_contract "The peer could not understand a message that was sent to it." false true None
  | INVALID_STATE =>
      mk_contract "That request does not fit what the peer is currently doing." true false
        (Some "Check the current state, then try again."%string)
  | TRANSFER_NOT_FOUND =>
      mk_contract "The requested transfer is no longer available." false true None
  | SIZE_EXCEEDED =>
      mk_contract "That transfer is larger than the peer allows." false true
        (Some "Choose a smaller file."%string)
  | DISK_FULL =>
      mk_contract "The peer does not have enough free space." true true
        (Some "Try again once the peer has freed up space."%string)
  | CHECKSUM_MISMATCH =>
      mk_contract "The received file failed verification." false true
        (Some "Send the file again to restart the transfer."%string)
  | TRANSFER_EXPIRED =>
      mk_contract "That transfer offer has expired." true true
        (Some "Start a new offer."%string)
  | RATE_LIMITED =>
      mk_contract "The peer is temporarily limiting requests." true false
        (Some "Wait a moment, then try again."%string)
  | INTERNAL_ERROR => mk_contract "The peer hit an unexpected problem." false true None
  end.

(** *** Context filtering *)

Definition _ID_KEYS : list string := ["message_id"; "transfer_id"; "group_id"]%string.

Definition id_char (c : byte) : bool :=
  let n := byte.unsigned c in
  (65 <=? n) && (n <=? 90) || (97 <=? n) && (n <=? 122) || (48 <=? n) && (n <=? 57)
  || bool_decide (c = "_"%byte) || bool_decide (c = "."%byte) || bool_decide (c = ":"%byte)
  || bool_decide (c = "-"%byte).

Definition id_word (s : bytes) : bool :=
  forallb id_char s && bool_decide (1 <= length s <= MAX_CONTEXT_ID_LEN)%nat.

(** [_ID_RE.match(val)]: the [$] of the pattern also matches before a final
    newline. *)
Definition id_match (s : bytes) : bool :=
  id_word s ||
  match rev s with
  | c :: s' => bool_decide (c = Byte.x0a) && id_word (rev s')
  | [] => false
  end.

(** 3600.0 in its canonical form. *)
Definition f3600 : spec_float := S754_finite false 7916483719987200 (-41).

(** [0 < retry <= MAX_RETRY_AFTER_SECONDS] for a number that is not a bool. *)
Definition retry_in_range (v : json) : bool :=
  match v with
  | JInt z => (0 <? z) && (z <=? 3600)
  | JFloat f => SFltb (S754_zero false) f && SFleb f f3600
  | _ => false
  end.

Definition filter_context (context : json) : dict :=
  match context with
  | JObj kvs =>
      omap (fun key => match jget key kvs with
                       | Some (JStr s) => if id_match (str_bytes s) then Some (key, JStr s) else None
                       | _ => None
                       end) _ID_KEYS
      ++ match jget "retry_after" kvs with
         | Some v => if retry_in_range v then [("retry_after"%string, v)] else []
         | None => []
         end
  | _ => []
  end.

(** *** Message text *)

(** [_CONTROL_RE] on one character: U+0000..U+001F, U+007F..U+009F. *)
Definition is_control (ch : bytes) : bool :=
  match ch with
  | [c] => (byte.unsigned c <? 32) || (byte.unsigned c =? 127)
  | [c; d] => (byte.unsigned c =? 194) && (byte.unsigned d <? 160)
  | _ => false
  end.

(** [sanitize_for_log] of a [str]. *)
Definition sanitize_for_log (value : bytes) (limit : nat) : bytes :=
  let text := map (fun ch => if is_control ch then lit "?" else ch) (chars value) in
  if bool_decide (limit < length text)%nat then unchars (take limit text) ++ lit "..."
  else unchars text.

(** *** Sender and receiver *)

Section Build.
(** [is_safe_message]: the screen of a sender-supplied text. *)
Context (is_safe_message : string -> bool).

Definition build_error (code : ErrorCode) (message : option string) (context : option dict)
    (version : Z) : dict :=
  let text' := match message with
               | Some m => if is_safe_message m then m else text (CONTRACTS code)
               | None => text (CONTRACTS code)
               end in
  let ctx := match context with Some c => filter_context (JObj c) | None => [] end in
  [("type", JStr "error"); ("version", JInt version); ("code", JStr (code_value code));
   ("message", JStr text')]%string
  ++ (if bool_decide (ctx = []) then [] else [("context"%string, JObj ctx)]).

End Build.

Record ErrorInfo := mk_error_info {
  code : ErrorCode;
  raw_code : string;
  known : bool;
  peer_message : bytes;
  context : dict
}.

Definition display_text (i : ErrorInfo) : string := text (CONTRACTS (code i)).

(** [None] is the [ProtocolError]. *)
Definition parse_error_message (message : dict) : option ErrorInfo :=
  if negb (match jget "type" message with Some (JStr s) => bool_decide (s = "error"%string)
                                        | _ => false end) then None
  else match jget "code" message with
  | Some (JStr rc) =>
      if bool_decide (rc = ""%string) || (MAX_CODE_LEN <? code_points (str_bytes rc)) then None
      else match jget "message" message with
      | Some (JStr pm) =>
          if MAX_ERROR_MESSAGE_LEN <? code_points (str_bytes pm) then None
          else
            let finish raw_context :=
              let '(c, k) := match code_of_value rc with
                             | Some c => (c, true)
                             | None => (INTERNAL_ERROR, false)
                             end in
              Some {| code := c; raw_code := rc; known := k;
                      peer_message := sanitize_for_log (str_bytes pm) MAX_SENT_MESSAGE_LEN;
                      context := filter_context raw_context |} in
            match jget "context" message with
            | None | Some JNull => finish JNull
            | Some (JObj kvs) => finish (JObj kvs)
            | Some _ => None
            end
      | _ => None
      end
  | _ => None
  end.

End Errors.

(** ** Factories *)
Module Factories.

Definition PROTOCOL_VERSION : Z := 2.
Definition MIN_SUPPORTED_VERSION : Z := 1.

Definition header (type : string) : dict :=
  [("type", JStr type); ("version", JInt PROTOCOL_VERSION)]%string.

Definition opt_str (s : option string) : json :=
  match s with Some s => JStr s | None => JNull end.
Definition opt_dict (d : option dict) : json :=
  match d with Some d => JObj d | None => JNull end.

(** [time.time() if timestamp is None else timestamp]. *)
Definition stamp (now : spec_float) (timestamp : option spec_float) : json :=
  JFloat (default now timestamp).

Local Open Scope string_scope.
Local Open Scope list_scope.
Section Factories.
Context (now : spec_float) (new_message_id : string).

Definition make_chat_message (sender_id sender_name text : string) : dict :=
  header "chat" ++
  [("message_id", JStr new_message_id); ("sender_id", JStr sender_id);
   ("sender_name", JStr sender_name); ("text", JStr text); ("timestamp", JFloat now)].

Definition make_chat_ack (message_id : string) : dict :=
  header "chat_ack" ++ [("message_id", JStr message_id); ("timestamp", JFloat now)].

Definition make_file_offer (transfer_id sender_id sender_name filename : string) (size : Z)
    (checksum : string) : dict :=
  header "file_offer" ++
  [("transfer_id", JStr transfer_id); ("sender_id", JStr sender_id);
   ("sender_name", JStr sender_name); ("filename", JStr filename); ("size", JInt size);
   ("checksum", JStr checksum); ("timestamp", JFloat now)].

(** [None] is the [ValueError] for a negative offset. *)
Definition make_file_accept (transfer_id : string) (resume_offset : Z) : option dict :=
  if (resume_offset <? 0)%Z then None
  else Some (header "file_accept" ++
    [("transfer_id", JStr transfer_id); ("timestamp", JFloat now)] ++
    (if (resume_offset =? 0)%Z then [] else [("resume_offset", JInt resume_offset)])).

Definition make_file_reject (transfer_id : string) : dict :=
  header "file_reject" ++ [("transfer_id", JStr transfer_id); ("timestamp", JFloat now)].

Definition make_file_chunk (transfer_id : string) (chunk_index : Z) (data_b64 : string)
    (is_last : bool) : dict :=
  header "file_chunk" ++
  [("transfer_id", JStr transfer_id); ("chunk_index", JInt chunk_index);
   ("data", JStr data_b64); ("is_last", JBool is_last)].

Definition make_file_done (transfer_id checksum : string) : dict :=
  header "file_done" ++ [("transfer_id", JStr transfer_id); ("checksum", JStr checksum)].

Definition make_file_complete_ack (transfer_id : string) (success : bool) (detail : string)
    : dict :=
  header "file_complete_ack" ++
  [("transfer_id", JStr transfer_id); ("success", JBool success); ("detail", JStr detail)].

Definition make_error (is_safe_message : string -> bool) (code : Errors.ErrorCode)
    (message : option string) (context : option dict) : dict :=
  Errors.build_error is_safe_message code message context PROTOCOL_VERSION.

Definition make_hello (peer_id sender_name : string) (tcp_port : Z) : dict :=
  header "hello" ++
  [("peer_id", JStr peer_id); ("sender_name", JStr sender_name); ("tcp_port", JInt tcp_port);
   ("timestamp", JFloat now)].

Definition make_hello_ack (peer_id sender_name : string) (tcp_port : Z) : dict :=
  header "hello_ack" ++
  [("peer_id", JStr peer_id); ("sender_name", JStr sender_name); ("tcp_port", JInt tcp_port);
   ("timestamp", JFloat now)].

Definition make_endpoint_update (device_id kind host : string) (port : Z)
    (timestamp : spec_float) (nonce signature : string) : dict :=
  header "endpoint_update" ++
  [("device_id", JStr device_id); ("kind", JStr kind); ("host", JStr host);
   ("port", JInt port); ("timestamp", JFloat timestamp); ("nonce", JStr nonce);
   ("signature", JStr signature)].

Definition make_handshake_init (device_id public_key ephemeral_key nonce sender_name : string)
    : dict :=
  header "handshake_init" ++
  [("device_id", JStr device_id); ("public_key", JStr public_key);
   ("ephemeral_key", JStr ephemeral_key); ("nonce", JStr nonce);
   ("sender_name", JStr sender_name); ("timestamp", JFloat now)].

Definition make_handshake_response (device_id public_key ephemeral_key nonce sender_name
    signature : string) : dict :=
  header "handshake_response" ++
  [("device_id", JStr device_id); ("public_key", JStr public_key);
   ("ephemeral_key", JStr ephemeral_key); ("nonce", JStr nonce);
   ("sender_name", JStr sender_name); ("signature", JStr signature); ("timestamp", JFloat now)].

Definition make_handshake_finish (signature : string) : dict :=
  header "handshake_finish" ++ [("signature", JStr signature); ("timestamp", JFloat now)].

Definition make_group_join_request (request_id group_id device_id device_public_key
    requested_role : string) (requested_permissions : list string) (signature : string)
    (reason : option string) (timestamp : option spec_float) : dict :=
  header "group_join_request" ++
  [("request_id", JStr request_id); ("group_id", JStr group_id); ("device_id", JStr device_id);
   ("device_public_key", JStr device_public_key); ("requested_role", JStr requested_role);
   ("requested_permissions", JList (map JStr requested_permissions));
   ("reason", opt_str reason); ("timestamp", stamp now timestamp);
   ("signature", JStr signature)].

Definition make_group_join_response (request_id group_id device_id : string) (approved : bool)
    (admin_device_id signature : string) (certificate : option dict) (reason : option string)
    (timestamp : option spec_float) : dict :=
  header "group_join_response" ++
  [("request_id", JStr request_id); ("group_id", JStr group_id); ("device_id", JStr device_id);
   ("approved", JBool approved); ("admin_device_id", JStr admin_device_id);
   ("certificate", opt_dict certificate); ("reason", opt_str reason);
   ("timestamp", stamp now timestamp); ("signature", JStr signature)].

Definition make_group_leave_request (request_id group_id device_id signature : string)
    (reason : option string) (timestamp : option spec_float) : dict :=
  header "group_leave_request" ++
  [("request_id", JStr request_id); ("group_id", JStr group_id); ("device_id", JStr device_id);
   ("reason", opt_str reason); ("timestamp", stamp now timestamp);
   ("signature", JStr signature)].

Definition make_group_leave_response (request_id group_id device_id : string) (approved : bool)
    (admin_device_id signature : string) (revocation : option dict) (reason : option string)
    (timestamp : option spec_float) : dict :=
  header "group_leave_response" ++
  [("request_id", JStr request_id); ("group_id", JStr group_id); ("device_id", JStr device_id);
   ("approved", JBool approved); ("admin_device_id", JStr admin_device_id);
   ("revocation", opt_dict revocation); ("reason", opt_str reason);
   ("timestamp", stamp now timestamp); ("signature", JStr signature)].

Definition make_group_membership_revoke (revocation_id group_id device_id revoked_by
    signature : string) (reason : option string) (timestamp : option spec_float) : dict :=
  header "group_membership_revoke" ++
  [("revocation_id", JStr revocation_id); ("group_id", JStr group_id);
   ("device_id", JStr device_id); ("revoked_by", JStr revoked_by); ("reason", opt_str reason);
   ("timestamp", stamp now timestamp); ("signature", JStr signature)].

Definition make_group_export_request (request_id group_id device_id device_public_key file_id
    signature action : string) (reason : option string) (timestamp : option spec_float) : dict :=
  header "group_export_request" ++
  [("request_id", JStr request_id); ("group_id", JStr group_id); ("device_id", JStr device_id);
   ("device_public_key", JStr device_public_key); ("file_id", JStr file_id);
   ("action", JStr action); ("reason", opt_str reason); ("timestamp", stamp now timestamp);
   ("signature", JStr signature)].

Definition make_group_export_capability (capability_id request_id group_id device_id
    file_id : string) (issued_at expires_at : spec_float)
    (nonce admin_device_id signature action : string) : dict :=
  header "group_export_capability" ++
  [("capability_id", JStr capability_id); ("request_id", JStr request_id);
   ("group_id", JStr group_id); ("device_id", JStr device_id); ("file_id", JStr file_id);
   ("action", JStr action); ("issued_at", JFloat issued_at); ("expires_at", JFloat expires_at);
   ("nonce", JStr nonce); ("admin_device_id", JStr admin_device_id);
   ("signature", JStr signature)].

Definition make_rendezvous_register (group_id : string) (endpoint_update : dict) : dict :=
  header "rendezvous_register" ++
  [("group_id", JStr group_id); ("endpoint_update", JObj endpoint_update);
   ("timestamp", JFloat now)].

Definition make_rendezvous_lookup (group_id target_device_id : string) : dict :=
  header "rendezvous_lookup" ++
  [("group_id", JStr group_id); ("target_device_id", JStr target_device_id);
   ("timestamp", JFloat now)].

Definition make_rendezvous_lookup_response (group_id target_device_id : string)
    (endpoint_update : option dict) : dict :=
  header "rendezvous_lookup_response" ++
  [("group_id", JStr group_id); ("target_device_id", JStr target_device_id);
   ("endpoint_update", opt_dict endpoint_update); ("timestamp", JFloat now)].

Definition make_relay_request (group_id target_device_id : string) : dict :=
  header "relay_request" ++
  [("group_id", JStr group_id); ("target_device_id", JStr target_device_id);
   ("timestamp", JFloat now)].

Definition make_relay_candidate_query (group_id : string) : dict :=
  header "relay_candidate_query" ++ [("group_id", JStr group_id); ("timestamp", JFloat now)].

Definition make_relay_candidate_response (group_id : string) (available : bool) : dict :=
  header "relay_candidate_response" ++
  [("group_id", JStr group_id); ("available", JBool available); ("timestamp", JFloat now)].

Definition make_relay_response (group_id target_device_id : string) (accepted : bool) : dict :=
  header "relay_response" ++
  [("group_id", JStr group_id); ("target_device_id", JStr target_device_id);
   ("accepted", JBool accepted); ("timestamp", JFloat now)].

End Factories.
End Factories.

(** ** Validation *)
Module Validation.
Import Factories.
Local Open Scope string_scope.
Local Open Scope list_scope.

Definition MAX_CHAT_TEXT_SIZE : Z := 64 * 1024.

Definition REQUIRED_FIELDS : list (string * list string) := [
  ("chat", ["message_id"; "sender_id"; "sender_name"; "text"]);
  ("chat_ack", ["message_id"]);
  ("file_offer", ["transfer_id"; "filename"; "size"; "checksum"]);
  ("file_accept", ["transfer_id"]);
  ("file_reject", ["transfer_id"]);
  ("file_chunk", ["transfer_id"; "chunk_index"; "data"; "is_last"]);
  ("file_done", ["transfer_id"; "checksum"]);
  ("file_complete_ack", ["transfer_id"; "success"]);
  ("hello", ["peer_id"; "sender_name"; "tcp_port"]);
  ("hello_ack", ["peer_id"; "sender_name"; "tcp_port"]);
  ("handshake_init", ["device_id"; "public_key"; "ephemeral_key"; "nonce"; "sender_name"]);
  ("handshake_response",
    ["device_id"; "public_key"; "ephemeral_key"; "nonce"; "sender_name"; "signature"]);
  ("handshake_finish", ["signature"]);
  ("group_join_request",
    ["request_id"; "group_id"; "device_id"; "device_public_key"; "requested_role";
     "requested_permissions"; "timestamp"; "signature"]);
  ("group_join_response",
    ["request_id"; "group_id"; "device_id"; "approved"; "admin_device_id"; "timestamp";
     "signature"]);
  ("group_leave_request", ["request_id"; "group_id"; "device_id"; "timestamp"; "signature"]);
  ("group_leave_response",
    ["request_id"; "group_id"; "device_id"; "approved"; "admin_device_id"; "timestamp";
     "signature"]);
  ("group_membership_revoke",
    ["revocation_id"; "group_id"; "device_id"; "revoked_by"; "timestamp"; "signature"]);
  ("group_export_request",
    ["request_id"; "group_id"; "device_id"; "device_public_key"; "file_id"; "timestamp";
     "signature"]);
  ("group_export_capability",
    ["capability_id"; "request_id"; "group_id"; "device_id"; "file_id"; "issued_at";
     "expires_at"; "nonce"; "admin_device_id"; "signature"]);
  ("endpoint_update",
    ["device_id"; "kind"; "host"; "port"; "timestamp"; "nonce"; "signature"]);
  ("rendezvous_register", ["group_id"; "endpoint_update"; "timestamp"]);
  ("rendezvous_lookup", ["group_id"; "target_device_id"; "timestamp"]);
  ("rendezvous_lookup_response",
    ["group_id"; "target_device_id"; "endpoint_update"; "timestamp"]);
  ("relay_request", ["group_id"; "target_device_id"; "timestamp"]);
  ("relay_response", ["group_id"; "target_device_id"; "accepted"; "timestamp"]);
  ("relay_candidate_query", ["group_id"; "timestamp"]);
  ("relay_candidate_response", ["group_id"; "available"; "timestamp"]);
  ("error", ["code"; "message"])
].

Fixpoint fields_of (t : string) (table : list (string * list string)) : option (list string) :=
  match table with
  | [] => None
  | (t', fs) :: rest => if decide (t = t') then Some fs else fields_of t rest
  end.

(** The exceptions validation may end with; a subscript [message["f"]] raises
    [KeyError] when the field is missing. *)
Inductive exn : Type := ProtocolError | KeyError (field : string).

Definition check := dict -> result exn unit.

Definition item (f : string) (m : dict) : result exn json :=
  match jget f m with Some v => Ok v | None => Err (KeyError f) end.

(** [if not p(message[f]): raise ProtocolError]. *)
Definition field (f : string) (p : json -> bool) : check := fun m =>
  let? v := item f m in
  raise? negb (p v) with ProtocolError ;; Ok ().

(** [if f in message and not p(message[f]): raise ProtocolError]. *)
Definition field_if_present (f : string) (p : json -> bool) : check := fun m =>
  if jhas f m then field f p m else Ok ().

Definition ok : check := fun _ => Ok ().

Definition both (c1 c2 : check) : check := fun m => let? _ := c1 m in c2 m.

Fixpoint all (cs : list check) : check :=
  match cs with
  | [] => ok
  | c :: cs' => both c (all cs')
  end.

Definition each (fs : list string) (p : json -> bool) : check := all (map (fun f => field f p) fs).

(** [isinstance(v, int) and lo <= v]. *)
Definition int_from (lo : Z) (v : json) : bool :=
  match as_int v with Some z => (lo <=? z)%Z | None => false end.

Definition is_port (v : json) : bool :=
  match as_int v with Some z => (0 <? z)%Z && (z <? 65536)%Z | None => false end.

Definition KINDS : list string := ["direct-v4"; "direct-v6"; "rendezvous"].

Definition is_kind (v : json) : bool :=
  match v with JStr s => bool_decide (s ∈ KINDS) | _ => false end.

(** A nested lookup with [eu.get(f)]: a missing field is [None]. *)
Definition get_or_null (f : string) (m : dict) : json := default JNull (jget f m).

Definition _validate_endpoint_update_dict (eu : dict) : result exn unit :=
  raise? negb (forallb (fun f => nonempty_str (get_or_null f eu))
                 ["device_id"; "kind"; "host"; "nonce"; "signature"]) with ProtocolError ;;
  raise? negb (is_port (get_or_null "port" eu)) with ProtocolError ;;
  raise? negb (is_kind (get_or_null "kind" eu)) with ProtocolError ;;
  raise? negb (is_number (get_or_null "timestamp" eu)) with ProtocolError ;;
  Ok ().

Definition on_type (types : list string) (msg_type : string) (c : check) : check :=
  if decide (msg_type ∈ types) then c else ok.

Definition starts_with (p s : string) : bool := String.prefix p s.

(** The blocks of [validate_message] after the required fields, in order. *)
Definition v_error : check := fun m =>
  match Errors.parse_error_message m with Some _ => Ok () | None => Err ProtocolError end.

Definition v_chat : check :=
  all [field "text" is_str;
       field "text" (fun v => match v with
                              | JStr s => (zlen (str_bytes s) <=? MAX_CHAT_TEXT_SIZE)%Z
                              | _ => true
                              end)].

Definition v_file_offer : check :=
  all [field "filename" nonempty_str; field "size" (int_from 0);
       field "checksum" nonempty_str].

Definition v_file_accept : check :=
  field_if_present "resume_offset"
    (fun v => match v with JInt z => (0 <=? z)%Z | _ => false end).

Definition v_file_chunk : check := all [field "chunk_index" (int_from 0); field "data" is_str].

Definition v_endpoint_update : check := all [field "port" is_port; field "kind" is_kind].

Definition v_handshake : check :=
  both (each ["device_id"; "public_key"; "ephemeral_key"; "nonce"] nonempty_str)
       (field "sender_name" is_str).

Definition v_group : check :=
  all [field_if_present "group_id" nonempty_str; field_if_present "device_id" nonempty_str;
       field_if_present "signature" nonempty_str; field_if_present "timestamp" is_numeric].

Definition all_str (l : list json) : bool := forallb is_str l.

Definition v_group_join_request : check :=
  all [field "device_public_key" nonempty_str; field "requested_role" nonempty_str;
       field "requested_permissions" is_list;
       field "requested_permissions"
         (fun v => match v with JList l => all_str l | _ => true end)].

(** [approved] and, when it is true, the object that goes with it. *)
Definition v_group_response (msg_type : string) : check := fun m =>
  let? _ := field "approved" is_bool m in
  let? _ := field "admin_device_id" nonempty_str m in
  let? approved := item "approved" m in
  let yes := match approved with JBool b => b | _ => false end in
  raise? bool_decide (msg_type = "group_join_response") && yes
         && negb (is_dict (get_or_null "certificate" m)) with ProtocolError ;;
  raise? bool_decide (msg_type = "group_leave_response") && yes
         && negb (is_dict (get_or_null "revocation" m)) with ProtocolError ;;
  Ok ().

Definition v_group_membership_revoke : check := each ["revocation_id"; "revoked_by"] nonempty_str.

Definition v_group_export_request : check := each ["device_public_key"; "file_id"] nonempty_str.

Definition v_group_export_capability : check :=
  both (each ["capability_id"; "file_id"; "nonce"; "admin_device_id"] nonempty_str)
       (each ["issued_at"; "expires_at"] is_number).

Definition v_rendezvous_register : check := fun m =>
  let? _ := field "group_id" nonempty_str m in
  let? eu := item "endpoint_update" m in
  match eu with
  | JObj d => _validate_endpoint_update_dict d
  | _ => Err ProtocolError
  end.

Definition v_rendezvous_lookup_response : check := fun m =>
  let? _ := each ["group_id"; "target_device_id"] nonempty_str m in
  let? eu := item "endpoint_update" m in
  match eu with
  | JNull => Ok ()
  | JObj d => _validate_endpoint_update_dict d
  | _ => Err ProtocolError
  end.

Definition blocks (t : string) : list check := [
  on_type ["error"] t v_error;
  on_type ["chat"] t v_chat;
  on_type ["file_offer"] t v_file_offer;
  on_type ["file_accept"] t v_file_accept;
  on_type ["file_chunk"] t v_file_chunk;
  on_type ["hello"; "hello_ack"] t (field "tcp_port" is_port);
  on_type ["endpoint_update"] t v_endpoint_update;
  on_type ["handshake_init"; "handshake_response"] t v_handshake;
  on_type ["handshake_response"; "handshake_finish"] t (field "signature" nonempty_str);
  (if starts_with "group_" t then v_group else ok);
  on_type ["group_join_request"] t v_group_join_request;
  on_type ["group_join_response"; "group_leave_response"] t (v_group_response t);
  on_type ["group_membership_revoke"] t v_group_membership_revoke;
  on_type ["group_export_request"] t v_group_export_request;
  on_type ["group_export_capability"] t v_group_export_capability;
  on_type ["rendezvous_register"] t v_rendezvous_register;
  on_type ["rendezvous_lookup"] t (each ["group_id"; "target_device_id"] nonempty_str);
  on_type ["rendezvous_lookup_response"] t v_rendezvous_lookup_response;
  on_type ["relay_request"] t (each ["group_id"; "target_device_id"] nonempty_str);
  on_type ["relay_response"] t
    (both (each ["group_id"; "target_device_id"] nonempty_str) (field "accepted" is_bool));
  on_type ["relay_candidate_query"] t (field "group_id" nonempty_str);
  on_type ["relay_candidate_response"] t
    (both (field "group_id" nonempty_str) (field "available" is_bool))
].

Definition validate_message (message : json) : result exn dict :=
  match message with
  | JObj m =>
      match jget "type" m with
      | Some (JStr msg_type) =>
          raise? bool_decide (msg_type = "") with ProtocolError ;;
          raise? negb (int_from MIN_SUPPORTED_VERSION (default (JInt 1) (jget "version" m)))
            with ProtocolError ;;
          match fields_of msg_type REQUIRED_FIELDS with
          | None => Ok m
          | Some required =>
              raise? negb (forallb (fun f => jhas f m) required) with ProtocolError ;;
              let? _ := all (blocks msg_type) m in
              Ok m
          end
      | _ => Err ProtocolError
      end
  | _ => Err ProtocolError
  end.

End Validation.
