(* ===== verification/ErrorTheory.v ===== *)
(** * What a received application error is reduced to

    The theorems about [Messages.Errors]: sanitised text, filtered context and the
    closed set of displayed messages. *)

From S2P Require Import Prelude Text Json Messages.
Local Open Scope peerc_scope.
Local Open Scope Z_scope.
Local Open Scope string_scope.
Local Open Scope list_scope.

(** ** Received errors *)

(** A character: a first byte and its continuation bytes. *)
Definition is_char (g : bytes) : Prop :=
  exists c ds, g = c :: ds /\ forallb is_cont ds = true.
Definition is_start (g : bytes) : Prop :=
  exists c ds, g = c :: ds /\ is_cont c = false /\ forallb is_cont ds = true.

Lemma is_start_char g : is_start g -> is_char g.
Proof. intros (c & ds & -> & _ & Hd). by exists c, ds. Qed.

(** The groups [chars] makes: characters, all but the first starting afresh. *)
Definition well_grouped (gs : list bytes) : Prop :=
  match gs with [] => True | g :: gs' => is_char g /\ Forall is_start gs' end.

Lemma chars_well_grouped s : well_grouped (chars s).
Proof.
  induction s as [|c s IH]; simpl; [done|].
  destruct (chars s) as [|[|d g] rest]; simpl in *.
  - split; [by exists c, []|done].
  - destruct IH as [(? & ? & ? & _) _]. done.
  - destruct IH as [(d' & ds & [= <- <-] & Hds) Hr]. destruct (is_cont d) eqn:Ed; simpl.
    + split; [|done]. exists c, (d :: g). simpl. by rewrite Ed.
    + split; [by exists c, []|]. constructor; [|done]. by exists d, g.
Qed.

Lemma chars_conts ds s :
  forallb is_cont ds = true ->
  forall c, chars (c :: ds ++ s) =
    match chars s with
    | (d :: g) :: rest => if is_cont d then (c :: ds ++ d :: g) :: rest else (c :: ds) :: (d :: g) :: rest
    | r => (c :: ds) :: r
    end.
Proof.
  induction ds as [|d ds IH]; intros Hd c; [done|]. simpl in Hd.
  apply andb_true_iff in Hd as [Hd Hds]. cbn [chars app] in *. rewrite (IH Hds d).
  destruct (chars s) as [|[|e g] rest]; simpl; rewrite ?Hd; try done.
  destruct (is_cont e); by rewrite Hd.
Qed.

Lemma chars_grouped gs : well_grouped gs -> chars (unchars gs) = gs.
Proof.
  induction gs as [|g gs IH]; [done|]. intros [(c & ds & -> & Hds) Hgs].
  unfold unchars in *. cbn [concat]. rewrite <- app_comm_cons, chars_conts by done.
  rewrite IH.
  - destruct gs as [|g gs]; [done|]. apply Forall_cons in Hgs as [(d & es & -> & Hd & _) _].
    by rewrite Hd.
  - destruct gs as [|g gs]; [done|]. apply Forall_cons in Hgs as [Hg Hgs].
    split; [by apply is_start_char|done].
Qed.

Definition clean (ch : bytes) : bytes := if Errors.is_control ch then lit "?" else ch.

Lemma clean_start g : is_start g -> is_start (clean g).
Proof. unfold clean. destruct (Errors.is_control g); [|done]. by exists "?"%byte, []. Qed.

Lemma clean_well_grouped gs : well_grouped gs -> well_grouped (map clean gs).
Proof.
  destruct gs as [|g gs]; [done|]. intros [Hg Hgs]. split.
  - unfold clean. destruct (Errors.is_control g); [by exists "?"%byte, []|done].
  - apply Forall_fmap. eapply Forall_impl; [exact Hgs|]. apply clean_start.
Qed.

Lemma well_grouped_take n gs : well_grouped gs -> well_grouped (take n gs).
Proof.
  destruct n, gs; simpl; try done. intros [Hg Hgs]. split; [done|]. by apply Forall_take.
Qed.

Lemma well_grouped_app gs hs :
  well_grouped gs -> Forall is_start hs -> well_grouped (gs ++ hs).
Proof.
  destruct gs as [|g gs]; simpl.
  - destruct hs as [|h hs]; [done|]. intros _ Hh. apply Forall_cons in Hh as [Hh Hhs].
    split; [by apply is_start_char|done].
  - intros [Hg Hgs] Hh. split; [done|]. by apply Forall_app.
Qed.

Definition dots : list bytes := [lit "."; lit "."; lit "."].

Lemma sanitize_chars v n :
  exists gs, chars (Errors.sanitize_for_log v n) = gs /\
    Forall (fun g => Errors.is_control g = false) gs /\ (length gs <= n + 3)%nat.
Proof.
  assert (Forall (fun g => Errors.is_control g = false) (map clean (chars v))) as Hc.
  { apply Forall_fmap, Forall_true. intros g. unfold compose, clean.
    by destruct (Errors.is_control g) eqn:E. }
  pose proof (clean_well_grouped _ (chars_well_grouped v)) as Hw.
  unfold Errors.sanitize_for_log. fold clean. case_bool_decide as Hl.
  - exists (take n (map clean (chars v)) ++ dots). 
    replace (unchars (take n (map clean (chars v))) ++ lit "...")
      with (unchars (take n (map clean (chars v)) ++ dots))
      by (unfold unchars; by rewrite concat_app).
    split; [apply chars_grouped, well_grouped_app; [by apply well_grouped_take|]|split].
    + repeat constructor; by eexists _, [].
    + apply Forall_app. split; [by apply Forall_take|]. repeat constructor.
    + rewrite length_app, length_take. simpl. lia.
  - exists (map clean (chars v)). split; [by apply chars_grouped|]. split; [done|]. lia.
Qed.

Lemma filter_context_allowed c k v :
  In (k, v) (Errors.filter_context c) ->
  (In k Errors._ID_KEYS /\ exists s, v = JStr s /\ Errors.id_match (str_bytes s) = true) \/
  (k = "retry_after" /\ Errors.retry_in_range v = true).
Proof.
  destruct c as [| | | | | |kvs]; try done. unfold Errors.filter_context.
  intros Hin. apply in_app_or in Hin as [Hin|Hin].
  - left. apply list_elem_of_In, list_elem_of_omap in Hin as (k' & Hk' & E).
    destruct (jget k' kvs) as [[]|]; try done. destruct (Errors.id_match _) eqn:Em; [|done].
    injection E as <- <-. split; [by apply list_elem_of_In|eauto].
  - right. destruct (jget "retry_after" kvs) as [w|]; [|done].
    destruct (Errors.retry_in_range w) eqn:Er; [|done]. by destruct Hin as [[= <- <-]|[]].
Qed.

(** What a received application error is reduced to.  Whatever the peer
    sent, if the message parses, the text displayed is the local text of one of the
    known codes; the logged text has no control character and at most 203
    characters; and the context holds only the three correlation identifiers, each
    matching the identifier pattern, and a retry delay in range. *)
Theorem parsed_error_safe m info :
  Errors.parse_error_message m = Some info ->
  (exists c, Errors.display_text info = Errors.text (Errors.CONTRACTS c)) /\
  Forall (fun g => Errors.is_control g = false) (chars (Errors.peer_message info)) /\
  (length (chars (Errors.peer_message info)) <= 203)%nat /\
  forall k v, In (k, v) (Errors.context info) ->
    (In k Errors._ID_KEYS /\ exists s, v = JStr s /\ Errors.id_match (str_bytes s) = true) \/
    (k = "retry_after" /\ Errors.retry_in_range v = true).
Proof.
  intros Hp. assert (exists pm c, Errors.peer_message info
      = Errors.sanitize_for_log pm Errors.MAX_SENT_MESSAGE_LEN /\
      Errors.context info = Errors.filter_context c) as (pm & c & Hm & Hc).
  { unfold Errors.parse_error_message in Hp. repeat case_match; try discriminate Hp;
    apply (inj Some) in Hp; subst info; eexists _, _; split; reflexivity. }
  destruct (sanitize_chars pm Errors.MAX_SENT_MESSAGE_LEN) as (gs & Hg & Hn & Hl).
  rewrite Hm, Hg, Hc. split; [by eexists|]. split; [done|]. split; [done|].
  apply filter_context_allowed.
Qed.

Definition example_error : dict :=
  [("type", JStr "error"); ("code", JStr "NEW_CODE"); ("message", JStr "what");
   ("context", JObj [("message_id", JStr "m-1"); ("path", JStr "/etc/x")])].

Lemma parsed_error_safe_witness :
  exists info, Errors.parse_error_message example_error = Some info /\
    exists c, Errors.display_text info = Errors.text (Errors.CONTRACTS c).
Proof.
  eexists. split; [vm_compute; reflexivity|].
  eapply (parsed_error_safe example_error). vm_compute. reflexivity.
Defined.

(** The pattern [^[...]{1,128}$] also accepts an identifier followed by a newline,
    so such a value stays in a filtered context. *)
Lemma context_newline_kept :
  let id := bytes_str (lit "abc" ++ [Byte.x0a]) in
  Errors.filter_context (JObj [("message_id", JStr id)]) = [("message_id", JStr id)].
Proof. vm_compute. reflexivity. Qed.
