(* ===== verification/MessageTheory.v ===== *)
(** * What validation guarantees

    The theorems about [Messages.Validation] and [Messages.Errors]: validation
    never raises anything but [ProtocolError], accepts what the factories build,
    and a received application error is reduced to safe values. *)

From Corelib Require Import SpecFloat.
From S2P Require Import Prelude Text Json Messages.
Import Factories Validation.
Local Open Scope peerc_scope.
Local Open Scope Z_scope.
Local Open Scope string_scope.
Local Open Scope list_scope.

(** ** No [KeyError] *)

(** A check that does not subscript a missing field. *)
Definition safe (c : check) (m : dict) : Prop := forall f, c m <> Err (KeyError f).

Lemma item_present f m : jhas f m = true -> exists v, item f m = Ok v.
Proof. unfold jhas, item. destruct (jget f m); [eauto|done]. Qed.

Lemma safe_field f p m : jhas f m = true -> safe (field f p) m.
Proof.
  intros Hf g. unfold field. destruct (item_present f m Hf) as [v ->]. simpl.
  by destruct (negb (p v)).
Qed.

Lemma safe_field_if_present f p m : safe (field_if_present f p) m.
Proof.
  intros g. unfold field_if_present. destruct (jhas f m) eqn:E; [|done]. by apply safe_field.
Qed.

Lemma safe_ok m : safe ok m.
Proof. done. Qed.

Lemma safe_both c1 c2 m : safe c1 m -> safe c2 m -> safe (both c1 c2) m.
Proof.
  intros H1 H2 f. unfold both. destruct (c1 m) as [[]|e] eqn:E; simpl; [apply H2|].
  intros Hf. apply (H1 f). by rewrite E.
Qed.

Lemma safe_all cs m : Forall (fun c => safe c m) cs -> safe (all cs) m.
Proof. induction 1; simpl; [apply safe_ok|by apply safe_both]. Qed.

Lemma safe_each fs p m : forallb (fun f => jhas f m) fs = true -> safe (each fs p) m.
Proof.
  intros Hf. apply safe_all. apply Forall_forall. intros c Hc.
  apply list_elem_of_fmap in Hc as (f & -> & Hin). apply safe_field.
  rewrite forallb_forall in Hf. by apply Hf, list_elem_of_In.
Qed.

Lemma safe_error m : safe v_error m.
Proof. intros f. unfold v_error. by destruct (Errors.parse_error_message m). Qed.

Lemma validate_endpoint_no_key eu f : _validate_endpoint_update_dict eu <> Err (KeyError f).
Proof. unfold _validate_endpoint_update_dict. repeat case_match; done. Qed.

Lemma safe_group_response t m :
  jhas "approved" m = true -> jhas "admin_device_id" m = true -> safe (v_group_response t) m.
Proof.
  intros H1 H2 f. unfold v_group_response.
  pose proof (safe_field "approved" is_bool m H1) as S1.
  pose proof (safe_field "admin_device_id" nonempty_str m H2) as S2.
  destruct (field "approved" is_bool m) as [[]|e] eqn:E1; [|simpl; intros E; apply (S1 f); by rewrite E1].
  destruct (field "admin_device_id" nonempty_str m) as [[]|e] eqn:E2;
    [|simpl; intros E; apply (S2 f); by rewrite E2].
  simpl. destruct (item_present "approved" m H1) as [v ->]. simpl. by repeat case_match.
Qed.

Lemma safe_rendezvous_register m :
  jhas "group_id" m = true -> jhas "endpoint_update" m = true -> safe v_rendezvous_register m.
Proof.
  intros H1 H2 f. unfold v_rendezvous_register.
  pose proof (safe_field "group_id" nonempty_str m H1) as S1.
  destruct (field "group_id" nonempty_str m) as [[]|e] eqn:E1;
    [|simpl; intros E; apply (S1 f); by rewrite E1].
  simpl. destruct (item_present "endpoint_update" m H2) as [v ->]. simpl.
  destruct v; try done. apply validate_endpoint_no_key.
Qed.

Lemma safe_rendezvous_lookup_response m :
  jhas "group_id" m = true -> jhas "target_device_id" m = true ->
  jhas "endpoint_update" m = true -> safe v_rendezvous_lookup_response m.
Proof.
  intros H1 H2 H3 f. unfold v_rendezvous_lookup_response.
  assert (safe (each ["group_id"; "target_device_id"] nonempty_str) m) as S1
    by (apply safe_each; simpl; by rewrite H1, H2).
  destruct (each _ _ m) as [[]|e] eqn:E1; [|simpl; intros E; apply (S1 f); by rewrite E1].
  simpl. destruct (item_present "endpoint_update" m H3) as [v ->]. simpl.
  destruct v; try done. apply validate_endpoint_no_key.
Qed.

(** Every row of the table, one case each. *)
Ltac table_cases H :=
  cbn [fields_of REQUIRED_FIELDS] in H;
  repeat match type of H with
         | (if decide (?t = ?s) then _ else _) = _ =>
             destruct (decide (t = s)) as [->|]; [injection H as <-|]
         end; [..|discriminate H].

Lemma safe_on_type types t c m :
  (bool_decide (t ∈ types) = true -> safe c m) -> safe (on_type types t c) m.
Proof.
  intros Hc. unfold on_type. case_decide as H; [|apply safe_ok].
  apply Hc. by apply bool_decide_eq_true.
Qed.

Ltac solve_safe :=
  repeat first
    [ apply safe_ok | apply safe_error | apply safe_field_if_present
    | apply safe_group_response; assumption
    | apply safe_rendezvous_register; assumption
    | apply safe_rendezvous_lookup_response; assumption
    | apply safe_on_type; let H := fresh in intros H; vm_compute in H;
      first [discriminate H|clear H]
    | apply safe_all; repeat apply List.Forall_cons; [..|apply List.Forall_nil]
    | apply safe_both
    | apply safe_each; simpl; by repeat (apply andb_true_iff; split)
    | apply safe_field; assumption ].

Lemma blocks_safe t required m :
  fields_of t REQUIRED_FIELDS = Some required ->
  forallb (fun f => jhas f m) required = true -> safe (all (blocks t)) m.
Proof.
  intros Ht Hr. apply safe_all. unfold blocks.
  table_cases Ht; cbn [forallb] in Hr; bool_to_prop;
    repeat apply List.Forall_cons; try apply List.Forall_nil; solve_safe.
Qed.

(** ** Messages the program builds *)

(** The arguments of a factory call. *)
Inductive built : Type :=
| BChat (id sender_id sender_name text : string)
| BChatAck (message_id : string)
| BFileOffer (transfer_id sender_id sender_name filename : string) (size : Z) (checksum : string)
| BFileAccept (transfer_id : string) (resume_offset : Z)
| BFileReject (transfer_id : string)
| BFileChunk (transfer_id : string) (chunk_index : Z) (data : string) (is_last : bool)
| BFileDone (transfer_id checksum : string)
| BFileCompleteAck (transfer_id : string) (success : bool) (detail : string)
| BHello (peer_id sender_name : string) (tcp_port : Z)
| BHelloAck (peer_id sender_name : string) (tcp_port : Z)
| BEndpointUpdate (device_id kind host : string) (port : Z) (ts : spec_float)
    (nonce signature : string)
| BHandshakeInit (device_id public_key ephemeral_key nonce sender_name : string)
| BHandshakeResponse (device_id public_key ephemeral_key nonce sender_name signature : string)
| BHandshakeFinish (signature : string)
| BJoinRequest (request_id group_id device_id key role : string) (permissions : list string)
    (signature : string) (reason : option string) (ts : option spec_float)
| BJoinResponse (request_id group_id device_id : string) (approved : bool)
    (admin signature : string) (certificate : option dict) (reason : option string)
    (ts : option spec_float)
| BLeaveRequest (request_id group_id device_id signature : string) (reason : option string)
    (ts : option spec_float)
| BLeaveResponse (request_id group_id device_id : string) (approved : bool)
    (admin signature : string) (revocation : option dict) (reason : option string)
    (ts : option spec_float)
| BMembershipRevoke (revocation_id group_id device_id revoked_by signature : string)
    (reason : option string) (ts : option spec_float)
| BExportRequest (request_id group_id device_id key file_id signature action : string)
    (reason : option string) (ts : option spec_float)
| BExportCapability (capability_id request_id group_id device_id file_id : string)
    (issued_at expires_at : spec_float) (nonce admin signature action : string)
| BRendezvousLookup (group_id target : string)
| BRelayRequest (group_id target : string)
| BRelayCandidateQuery (group_id : string)
| BRelayCandidateResponse (group_id : string) (available : bool)
| BRelayResponse (group_id target : string) (accepted : bool).

Definition build (now : spec_float) (b : built) : option dict :=
  match b with
  | BChat id s n t => Some (make_chat_message now id s n t)
  | BChatAck id => Some (make_chat_ack now id)
  | BFileOffer a b c d e f => Some (make_file_offer now a b c d e f)
  | BFileAccept a b => make_file_accept now a b
  | BFileReject a => Some (make_file_reject now a)
  | BFileChunk a b c d => Some (make_file_chunk a b c d)
  | BFileDone a b => Some (make_file_done a b)
  | BFileCompleteAck a b c => Some (make_file_complete_ack a b c)
  | BHello a b c => Some (make_hello now a b c)
  | BHelloAck a b c => Some (make_hello_ack now a b c)
  | BEndpointUpdate a b c d e f g => Some (make_endpoint_update a b c d e f g)
  | BHandshakeInit a b c d e => Some (make_handshake_init now a b c d e)
  | BHandshakeResponse a b c d e f => Some (make_handshake_response now a b c d e f)
  | BHandshakeFinish a => Some (make_handshake_finish now a)
  | BJoinRequest a b c d e f g h i => Some (make_group_join_request now a b c d e f g h i)
  | BJoinResponse a b c d e f g h i => Some (make_group_join_response now a b c d e f g h i)
  | BLeaveRequest a b c d e f => Some (make_group_leave_request now a b c d e f)
  | BLeaveResponse a b c d e f g h i => Some (make_group_leave_response now a b c d e f g h i)
  | BMembershipRevoke a b c d e f g => Some (make_group_membership_revoke now a b c d e f g)
  | BExportRequest a b c d e f g h i => Some (make_group_export_request now a b c d e f g h i)
  | BExportCapability a b c d e f g h i j k =>
      Some (make_group_export_capability a b c d e f g h i j k)
  | BRendezvousLookup a b => Some (make_rendezvous_lookup now a b)
  | BRelayRequest a b => Some (make_relay_request now a b)
  | BRelayCandidateQuery a => Some (make_relay_candidate_query now a)
  | BRelayCandidateResponse a b => Some (make_relay_candidate_response now a b)
  | BRelayResponse a b c => Some (make_relay_response now a b c)
  end.

Definition filled (s : string) : bool := nonempty_str (JStr s).

(** What the arguments have to satisfy: non-empty identifiers and signatures,
    non-negative sizes and offsets, ports in range, a chat text within the limit,
    and the certificate or revocation that an approval carries. *)
Definition sound (b : built) : bool :=
  match b with
  | BChat _ _ _ t => (zlen (str_bytes t) <=? MAX_CHAT_TEXT_SIZE)%Z
  | BFileOffer _ _ _ filename size checksum =>
      filled filename && (0 <=? size)%Z && filled checksum
  | BFileAccept _ off => (0 <=? off)%Z
  | BFileChunk _ i _ _ => (0 <=? i)%Z
  | BHello _ _ p | BHelloAck _ _ p => is_port (JInt p)
  | BEndpointUpdate _ kind _ port _ _ _ => is_port (JInt port) && is_kind (JStr kind)
  | BHandshakeInit a b c d _ => filled a && filled b && filled c && filled d
  | BHandshakeResponse a b c d _ f => filled a && filled b && filled c && filled d && filled f
  | BHandshakeFinish a => filled a
  | BJoinRequest _ b c d e _ g _ _ => filled b && filled c && filled d && filled e && filled g
  | BJoinResponse _ b c ap e f o _ _ | BLeaveResponse _ b c ap e f o _ _ =>
      filled b && filled c && filled e && filled f
      && (negb ap || match o with Some _ => true | None => false end)
  | BLeaveRequest _ b c d _ _ => filled b && filled c && filled d
  | BMembershipRevoke a b c d e _ _ => filled a && filled b && filled c && filled d && filled e
  | BExportRequest _ b c d e f _ _ _ => filled b && filled c && filled d && filled e && filled f
  | BExportCapability a _ c d e _ _ h i j _ =>
      filled a && filled c && filled d && filled e && filled h && filled i && filled j
  | BRendezvousLookup a b | BRelayRequest a b | BRelayResponse a b _ => filled a && filled b
  | BRelayCandidateQuery a | BRelayCandidateResponse a _ => filled a
  | _ => true
  end.

(** Evaluate the validation of a concrete message shape. *)
Ltac validate_run :=
  let Hv := fresh in pose proof (eq_refl : (1 <=? 2)%Z = true) as Hv;
  repeat (lazy -[nonempty_str is_port is_kind Z.leb zlen String.list_byte_of_string
                 MAX_CHAT_TEXT_SIZE all_str];
          match goal with
          | H : ?x = true |- context [?x] => rewrite H
          end);
  reflexivity.

Lemma all_str_map l : all_str (map JStr l) = true.
Proof. by induction l. Qed.

(** ** Properties *)

(** C39: validation of any decoded JSON value ends in acceptance or in
    [ProtocolError]: no combination of types and missing fields makes it raise
    [KeyError]. *)
Theorem validate_message_no_key_error message f :
  validate_message message <> Err (KeyError f).
Proof.
  unfold validate_message. destruct message as [| | | | | |m]; try done.
  destruct (jget "type" m) as [[]|]; try done.
  destruct (bool_decide _); [done|]. destruct (negb (int_from _ _)); [done|].
  destruct (fields_of s REQUIRED_FIELDS) as [required|] eqn:Ef; [|done].
  destruct (forallb _ required) eqn:Er; [|done]. cbn [negb].
  pose proof (blocks_safe _ _ _ Ef Er) as Hs.
  destruct (all (blocks s) m) as [[]|e] eqn:E; cbn [rbind]; [done|].
  intros [= ->]. by apply (Hs f).
Qed.

(** Every message the factories build from sound arguments passes the
    validation of the receiving peer, unchanged. *)
Theorem built_messages_validate now b :
  sound b = true ->
  exists m, build now b = Some m /\ validate_message (JObj m) = Ok m.
Proof.
  intros Hs. destruct b; cbn [sound] in Hs; unfold filled in Hs;
    repeat match goal with H : (_ && _)%bool = true |- _ => apply andb_true_iff in H as [? ?] end;
    cbn [build]; unfold make_file_accept.
  4: { replace (resume_offset <? 0)%Z with false by (symmetry; apply Z.ltb_ge; by apply Z.leb_le).
       eexists. split; [reflexivity|]. destruct (resume_offset =? 0)%Z; validate_run. }
  all: eexists; (split; [reflexivity|]).
  14: { pose proof (all_str_map permissions) as Hp. unfold make_group_join_request.
        generalize dependent (map JStr permissions). intros l Hp. validate_run. }
  14: destruct approved, certificate; try discriminate; validate_run.
  15: destruct approved, revocation; try discriminate; validate_run.
  all: validate_run.
Qed.

Lemma built_messages_validate_witness :
  exists m, build (S754_zero false) (BFileOffer "t" "s" "n" "a.txt" 10 "abc") = Some m /\
    validate_message (JObj m) = Ok m.
Proof. apply built_messages_validate. vm_compute. reflexivity. Defined.
