(* ===== verification/Channel.v ===== *)
(** * The encrypted channel

    Models [core/crypto/kdf.py] (module [Kdf]), [core/crypto/encryption.py]
    (module [Encryption]), [core/transport/tcp.py] (module [Tcp]) and
    [core/transport/secure.py] (module [Secure]): directional session keys, the
    sequence-numbered AEAD channel, and the encrypted framing over a TCP
    connection.

    A connection is its incoming byte stream (a [Stream.reader] with the state
    of the suspended read), the bytes written so far and the closing flags.  The
    outcome of [writer.drain()] (fine, or a lost connection) is an argument of
    every send. *)

From S2P Require Import Prelude Text Json Crypto Wire.
Local Open Scope peerc_scope.
Local Open Scope Z_scope.

(** ** Session keys *)
Module Kdf.

Definition KEY_LEN : nat := 32.
Definition SESSION_ID_LEN : nat := 16.
Definition INFO_INIT_TO_RESP : bytes := lit "peerc-v2:initiator-to-responder".
Definition INFO_RESP_TO_INIT : bytes := lit "peerc-v2:responder-to-initiator".
Definition INFO_SESSION_ID : bytes := lit "peerc-v2:session-id".

Record SessionKeys := mk_keys {
  send_key : bytes;
  recv_key : bytes;
  session_id : bytes     (** hexadecimal text *)
}.

Inductive kdf_error : Type :=
| BadSecretLength (len : Z)
| BadSaltLength (len : Z).

Definition _hkdf_expand `{Hkdf} (ikm salt info : bytes) (length : nat) : bytes :=
  hkdf_derive ikm salt info length.

Definition derive_session_keys `{Hkdf} (shared_secret salt : bytes) (is_initiator : bool)
    : result kdf_error SessionKeys :=
  raise? negb (zlen shared_secret =? 32) with BadSecretLength (zlen shared_secret) ;;
  raise? negb (zlen salt =? 32) with BadSaltLength (zlen salt) ;;
  let init_to_resp_key := _hkdf_expand shared_secret salt INFO_INIT_TO_RESP KEY_LEN in
  let resp_to_init_key := _hkdf_expand shared_secret salt INFO_RESP_TO_INIT KEY_LEN in
  let session_id_bytes := _hkdf_expand shared_secret salt INFO_SESSION_ID SESSION_ID_LEN in
  let session_id := hex_text session_id_bytes in
  if is_initiator then
    Ok {| send_key := init_to_resp_key; recv_key := resp_to_init_key;
          session_id := session_id |}
  else
    Ok {| send_key := resp_to_init_key; recv_key := init_to_resp_key;
          session_id := session_id |}.

(** What the two ends of one session hold: each sends under the key the other
    receives with, and both name the session alike. *)
Definition paired (a b : SessionKeys) : Prop :=
  send_key a = recv_key b /\ recv_key a = send_key b /\ session_id a = session_id b.

Definition keys_ok (k : SessionKeys) : Prop :=
  length (send_key k) = 32%nat /\ length (recv_key k) = 32%nat /\
  length (session_id k) = 32%nat.

Lemma derive_session_keys_total `{HkdfLaws} secret salt i :
  length secret = 32%nat -> length salt = 32%nat ->
  exists k, derive_session_keys secret salt i = Ok k /\ keys_ok k.
Proof.
  intros Hs Hl. unfold derive_session_keys, zlen. rewrite Hs, Hl. simpl.
  destruct i; (eexists; split; [done|]);
    unfold keys_ok, _hkdf_expand; cbn [send_key recv_key session_id];
    by rewrite length_hex_text, !hkdf_length.
Qed.

Lemma derive_session_keys_paired `{Hkdf} secret salt i a b :
  derive_session_keys secret salt i = Ok a ->
  derive_session_keys secret salt (negb i) = Ok b ->
  paired a b.
Proof.
  unfold derive_session_keys. destruct (negb _); [done|]. destruct (negb _); [done|].
  destruct i; simpl; intros Ha Hb; apply Ok_inj in Ha, Hb; by subst.
Qed.

End Kdf.

(** ** The AEAD channel *)
Module Encryption.
Import Kdf.

Definition NONCE_LEN : nat := 12.
Definition MAX_SEQUENCE : Z := Z.shiftl 1 (Z.of_nat NONCE_LEN * 8) - 1.

Inductive encryption_error : Type :=
| BadKeyLength
| SequenceExhausted (sequence : Z)
| ReplayOrReorder (expected got : Z)
| DecryptionFailed
| DataOverflow.        (** [OverflowError] of the cipher *)

Definition _construct_nonce (sequence : Z) : result encryption_error bytes :=
  raise? (sequence <? 0) || (MAX_SEQUENCE <? sequence) with SequenceExhausted sequence ;;
  Ok (be_bytes NONCE_LEN sequence).

Record EncryptedFrame := mk_eframe { sequence : Z; ciphertext : bytes }.

Record SecureChannel := mk_channel {
  session_keys : SessionKeys;
  _send_sequence : Z;
  _expected_recv_sequence : Z
}.

(** [SecureChannel(session_keys)] with its [__post_init__]. *)
Definition new_channel (keys : SessionKeys) : result encryption_error SecureChannel :=
  raise? negb (zlen (send_key keys) =? 32) || negb (zlen (recv_key keys) =? 32)
    with BadKeyLength ;;
  Ok {| session_keys := keys; _send_sequence := 0; _expected_recv_sequence := 0 |}.

(** [associated_data or None]. *)
Definition or_none (ad : bytes) : option bytes :=
  match ad with [] => None | _ => Some ad end.

(** The channel after the call, and the frame or the exception. *)
Definition encrypt `{Aead} (ch : SecureChannel) (plaintext ad : bytes)
    : SecureChannel * result encryption_error EncryptedFrame :=
  match _construct_nonce (_send_sequence ch) with
  | Err e => (ch, Err e)
  | Ok nonce =>
      match aead_encrypt (send_key (session_keys ch)) nonce plaintext (or_none ad) with
      | None => (ch, Err DataOverflow)
      | Some c =>
          ({| session_keys := session_keys ch;
              _send_sequence := _send_sequence ch + 1;
              _expected_recv_sequence := _expected_recv_sequence ch |},
           Ok {| sequence := _send_sequence ch; ciphertext := c |})
      end
  end.

Definition decrypt `{Aead} (ch : SecureChannel) (sequence : Z) (ciphertext ad : bytes)
    : SecureChannel * result encryption_error bytes :=
  if negb (sequence =? _expected_recv_sequence ch) then
    (ch, Err (ReplayOrReorder (_expected_recv_sequence ch) sequence))
  else
    match _construct_nonce sequence with
    | Err e => (ch, Err e)
    | Ok nonce =>
        match aead_decrypt (recv_key (session_keys ch)) nonce ciphertext (or_none ad) with
        | None => (ch, Err DecryptionFailed)
        | Some p =>
            ({| session_keys := session_keys ch;
                _send_sequence := _send_sequence ch;
                _expected_recv_sequence := _expected_recv_sequence ch + 1 |}, Ok p)
        end
    end.

(** A sequence of [encrypt] calls, whatever each returns, and the frames they
    produced. *)
Fixpoint encrypt_all `{Aead} (ch : SecureChannel) (requests : list (bytes * bytes))
    : SecureChannel * list EncryptedFrame :=
  match requests with
  | [] => (ch, [])
  | (p, ad) :: rest =>
      let '(ch1, r) := encrypt ch p ad in
      let '(ch2, fs) := encrypt_all ch1 rest in
      (ch2, match r with Ok f => f :: fs | Err _ => fs end)
  end.

End Encryption.

(** ** The TCP connection *)
Module Tcp.
Import Stream Frame.

(** [suspended] is the read that is waiting for data, if one is. *)
Record TCPConnection := mk_tcp {
  reader : Stream.reader;
  suspended : option raw_state;
  out : bytes;                  (** everything written to the writer *)
  writer_closing : bool;        (** [writer.is_closing()] *)
  _closed : bool;
  _peer_ip : string;
  _peer_port : Z
}.

(** [TCPConnection(reader, writer)] with the writer's peer name. *)
Definition new_tcp (peername : option (string * Z)) : TCPConnection :=
  {| reader := new_reader; suspended := None; out := []; writer_closing := false;
     _closed := false;
     _peer_ip := match peername with Some (ip, _) => ip | None => "0.0.0.0" end;
     _peer_port := match peername with Some (_, port) => port | None => 0 end |}.

Definition addr_key (c : TCPConnection) : string :=
  (_peer_ip c +:+ ":" +:+ pretty.pretty (_peer_port c))%string.

Definition is_closing (c : TCPConnection) : bool := _closed c || writer_closing c.

Inductive transport_error : Type :=
| ConnectionClosed
| FrameReadError (e : frame_error)
| FrameWriteError (e : frame_error).

Definition set_read (c : TCPConnection) (r : Stream.reader) (s : option raw_state)
    (closed : bool) : TCPConnection :=
  {| reader := r; suspended := s; out := out c; writer_closing := writer_closing c;
     _closed := closed; _peer_ip := _peer_ip c; _peer_port := _peer_port c |}.

Definition set_out (c : TCPConnection) (o : bytes) (closed : bool) : TCPConnection :=
  {| reader := reader c; suspended := suspended c; out := o;
     writer_closing := writer_closing c;
     _closed := closed; _peer_ip := _peer_ip c; _peer_port := _peer_port c |}.

Inductive read_result : Type :=
| ReadDone (f : frame)
| ReadError (e : transport_error)
| ReadWait.

(** [read_frame] with a local reader: started when nothing is suspended (the
    closing check is made then), resumed otherwise. *)
Definition read_frame `{JsonText} (c : TCPConnection) : TCPConnection * read_result :=
  let go st :=
    match read_any_frame st (reader c) with
    | (r', AnyDone f) => (set_read c r' None (_closed c), ReadDone f)
    | (r', AnyError (Incomplete _)) => (set_read c r' None true, ReadError ConnectionClosed)
    | (r', AnyError e) => (set_read c r' None (_closed c), ReadError (FrameReadError e))
    | (r', AnyWait st') => (set_read c r' (Some st') (_closed c), ReadWait)
    end in
  match suspended c with
  | None => if is_closing c then (c, ReadError ConnectionClosed) else go AwaitHeader
  | Some st => go st
  end.

(** What [await writer.drain()] does. *)
Inductive drain_io : Type := DrainOk | DrainLost.

Definition write_payload (io : drain_io) (encoded : result frame_error bytes)
    (c : TCPConnection) : TCPConnection * result transport_error unit :=
  if is_closing c then (c, Err ConnectionClosed)
  else match encoded with
       | Err e => (c, Err (FrameWriteError e))
       | Ok b =>
           match io with
           | DrainOk => (set_out c (out c ++ b) (_closed c), Ok ())
           | DrainLost => (set_out c (out c ++ b) true, Err ConnectionClosed)
           end
       end.

Definition write_frame `{JsonText} (io : drain_io) (message : json) (c : TCPConnection) :=
  write_payload io (encode_frame message) c.

Definition write_binary_frame (io : drain_io) (payload : bytes) (c : TCPConnection) :=
  write_payload io (encode_binary_frame payload) c.

Definition tcp_close (c : TCPConnection) : TCPConnection :=
  if _closed c then c
  else {| reader := reader c; suspended := suspended c; out := out c;
          writer_closing := true; _closed := true;
          _peer_ip := _peer_ip c; _peer_port := _peer_port c |}.

(** The event loop delivers bytes to the connection's reader. *)
Definition deliver (data : bytes) (c : TCPConnection) : TCPConnection :=
  set_read c (feed_data data (reader c)) (suspended c) (_closed c).

End Tcp.

(** ** The encrypted transport *)
Module Secure.
Import Kdf Encryption Stream Frame Tcp.

Definition TYPE_JSON : bytes := lit "J".
Definition TYPE_BINARY : bytes := lit "B".
Definition TYPE_RELAY : bytes := lit "R".
Definition SEQUENCE_SIZE : nat := 8.
Definition MIN_ENCRYPTED_PAYLOAD_LEN : nat := SEQUENCE_SIZE + 16.

Record EncryptedTransport := mk_transport { tcp : TCPConnection; channel : SecureChannel }.

(** The exceptions the transport's methods raise. *)
Inductive secure_error : Type :=
| NotADict                              (** [TransportError]: expected dict message *)
| Exhausted                             (** [TransportError]: session sequence exhausted *)
| EncryptFailed (e : encryption_error)  (** [TransportError]: frame encryption failed *)
| CipherOverflow                        (** [OverflowError] of the cipher *)
| StructError                           (** [struct.error]: the sequence exceeds 8 bytes *)
| Transport (e : transport_error)       (** raised by the TCP connection *)
| PlainFrame                            (** [TransportError]: plain JSON frame *)
| ShortFrame                            (** [TransportError]: wire frame too short *)
| Crypto (e : encryption_error)         (** [DecryptionError], [ReplayOrReorderError] *)
| EmptyPayload                          (** [TransportError]: empty payload marker *)
| MalformedJsonBody.                    (** [TransportError]: JSON frame malformed *)

Definition secure_close (t : EncryptedTransport) : EncryptedTransport :=
  {| tcp := tcp_close (tcp t); channel := channel t |}.

Definition _send_encrypted `{Aead} (io : drain_io) (inner_payload ad : bytes)
    (t : EncryptedTransport) : EncryptedTransport * result secure_error unit :=
  let '(ch, r) := encrypt (channel t) inner_payload ad in
  let t1 := {| tcp := tcp t; channel := ch |} in
  match r with
  | Err (SequenceExhausted _) => (secure_close t1, Err Exhausted)
  | Err DataOverflow => (t1, Err CipherOverflow)
  | Err e => (t1, Err (EncryptFailed e))
  | Ok f =>
      if (sequence f <? 0) || (2 ^ 64 <=? sequence f) then (t1, Err StructError)
      else
        let seq_header := be_bytes SEQUENCE_SIZE (sequence f) in
        let wire_payload := seq_header ++ ciphertext f in
        match write_binary_frame io wire_payload (tcp t) with
        | (c', Ok _) => ({| tcp := c'; channel := ch |}, Ok ())
        | (c', Err e) => ({| tcp := c'; channel := ch |}, Err (Transport e))
        end
  end.

Definition send_message `{Aead, JsonText} (io : drain_io) (message : json) (ad : bytes)
    (t : EncryptedTransport) : EncryptedTransport * result secure_error unit :=
  match message with
  | JObj _ => _send_encrypted io (TYPE_JSON ++ json_dumps message) ad t
  | _ => (t, Err NotADict)
  end.

Definition send_binary `{Aead} (io : drain_io) (payload ad : bytes) (t : EncryptedTransport)
    : EncryptedTransport * result secure_error unit :=
  _send_encrypted io (TYPE_BINARY ++ payload) ad t.

Definition send_relay `{Aead} (io : drain_io) (payload ad : bytes) (t : EncryptedTransport)
    : EncryptedTransport * result secure_error unit :=
  _send_encrypted io (TYPE_RELAY ++ payload) ad t.

(** What [receive_frame] returns: [("json", dict)], [("binary", bytes)],
    [("relay", bytes)] or [("raw", bytes)]. *)
Inductive received : Type :=
| GotJson (m : json)
| GotBinary (b : bytes)
| GotRelay (b : bytes)
| GotRaw (b : bytes).

(** [receive_frame] after the decryption: the marker byte and the body. *)
Definition parse_inner `{JsonText} (plaintext : bytes) : result secure_error received :=
  match plaintext with
  | [] => Err EmptyPayload
  | _ :: body =>
      let marker := take 1 plaintext in
      if decide (marker = TYPE_JSON) then
        match json_loads body with
        | Some m => Ok (GotJson m)
        | None => Err MalformedJsonBody
        end
      else if decide (marker = TYPE_BINARY) then Ok (GotBinary body)
      else if decide (marker = TYPE_RELAY) then Ok (GotRelay body)
      else Ok (GotRaw plaintext)
  end.

(** [receive_frame] from the frame the TCP connection returned. *)
Definition open_frame `{Aead, JsonText} (ad : bytes) (ch : SecureChannel) (f : frame)
    : SecureChannel * result secure_error received :=
  match f with
  | JsonFrame _ => (ch, Err PlainFrame)
  | BinaryFrame wire_payload =>
      if decide (length wire_payload < MIN_ENCRYPTED_PAYLOAD_LEN)%nat then (ch, Err ShortFrame)
      else
        let sequence := be_int (take SEQUENCE_SIZE wire_payload) in
        let ciphertext := drop SEQUENCE_SIZE wire_payload in
        match decrypt ch sequence ciphertext ad with
        | (ch', Err e) => (ch', Err (Crypto e))
        | (ch', Ok plaintext) => (ch', parse_inner plaintext)
        end
  end.

Inductive receive_result : Type :=
| Received (m : received)
| ReceiveError (e : secure_error)
| ReceiveWait.

Definition receive_frame `{Aead, JsonText} (ad : bytes) (t : EncryptedTransport)
    : EncryptedTransport * receive_result :=
  match read_frame (tcp t) with
  | (c', ReadWait) => ({| tcp := c'; channel := channel t |}, ReceiveWait)
  | (c', ReadError e) => ({| tcp := c'; channel := channel t |}, ReceiveError (Transport e))
  | (c', ReadDone f) =>
      match open_frame ad (channel t) f with
      | (ch', Ok m) => ({| tcp := c'; channel := ch' |}, Received m)
      | (ch', Err e) => ({| tcp := c'; channel := ch' |}, ReceiveError e)
      end
  end.

(** [SecureChannel(session_keys)] and [EncryptedTransport(tcp_conn, channel)] after
    a handshake, as [core/transport/session.py] wraps a connection. *)
Inductive session_error : Type :=
| SessionKdf (e : kdf_error)
| SessionChannel (e : encryption_error).

Definition wrap_connection `{Hkdf} (c : TCPConnection) (shared_secret transcript_hash : bytes)
    (is_initiator : bool) : result session_error EncryptedTransport :=
  match derive_session_keys shared_secret transcript_hash is_initiator with
  | Err e => Err (SessionKdf e)
  | Ok keys =>
      match new_channel keys with
      | Err e => Err (SessionChannel e)
      | Ok ch => Ok {| tcp := c; channel := ch |}
      end
  end.

(** *** Runs *)

(** A message the application sends. *)
Inductive message : Type :=
| SendJson (kvs : list (string * json))
| SendBinary (b : bytes)
| SendRelay (b : bytes).

Definition send `{Aead, JsonText} (io : drain_io) (m : message) (t : EncryptedTransport)
    : EncryptedTransport * result secure_error unit :=
  match m with
  | SendJson kvs => send_message io (JObj kvs) [] t
  | SendBinary b => send_binary io b [] t
  | SendRelay b => send_relay io b [] t
  end.

Definition as_received (m : message) : received :=
  match m with
  | SendJson kvs => GotJson (JObj kvs)
  | SendBinary b => GotBinary b
  | SendRelay b => GotRelay b
  end.

(** Sending in order, each send awaited; the first exception ends the run. *)
Fixpoint send_all `{Aead, JsonText} (ms : list message) (t : EncryptedTransport)
    : EncryptedTransport * result secure_error unit :=
  match ms with
  | [] => (t, Ok ())
  | m :: ms' =>
      match send DrainOk m t with
      | (t', Ok _) => send_all ms' t'
      | (t', Err e) => (t', Err e)
      end
  end.

(** The read loop: frames are received until the stream has to be waited for
    ([None]) or an exception ends it. *)
Fixpoint receive_loop `{Aead, JsonText} (fuel : nat) (t : EncryptedTransport)
    : list received * (EncryptedTransport * option secure_error) :=
  match fuel with
  | O => ([], (t, None))
  | S fuel' =>
      match receive_frame [] t with
      | (t', Received m) => let '(ms, out) := receive_loop fuel' t' in (m :: ms, out)
      | (t', ReceiveError e) => ([], (t', Some e))
      | (t', ReceiveWait) => ([], (t', None))
      end
  end.

Definition receive_all `{Aead, JsonText} (t : EncryptedTransport) :=
  receive_loop (S (S (length (buffer (reader (tcp t)))))) t.

(** The read loop with the network delivering the stream in pieces. *)
Fixpoint receive_chunks `{Aead, JsonText} (t : EncryptedTransport) (chunks : list bytes)
    : list received * option secure_error :=
  match chunks with
  | [] => ([], None)
  | c :: cs =>
      match receive_all {| tcp := deliver c (tcp t); channel := channel t |} with
      | (ms, (t', None)) => let '(ms', e) := receive_chunks t' cs in (ms ++ ms', e)
      | (ms, (_, Some e)) => (ms, Some e)
      end
  end.

(** The same on the frames of the stream. *)
Fixpoint open_frames `{Aead, JsonText} (ch : SecureChannel) (fs : list frame)
    : list received * (SecureChannel * option secure_error) :=
  match fs with
  | [] => ([], (ch, None))
  | f :: fs' =>
      match open_frame [] ch f with
      | (ch', Ok m) => let '(ms, out) := open_frames ch' fs' in (m :: ms, out)
      | (ch', Err e) => ([], (ch', Some e))
      end
  end.

(** *** The receiving side, frame by frame *)

Definition cur (c : TCPConnection) : raw_state := default AwaitHeader (suspended c).

Definition read_failure (e : frame_error) : secure_error :=
  match e with
  | Incomplete _ => Transport ConnectionClosed
  | _ => Transport (FrameReadError e)
  end.

(** How a frame-level run (frames [fs], outcome [o]) and the opening of its
    frames determine the run of the read loop. *)
Definition loop_result `{Aead, JsonText} (ch : SecureChannel)
    (fs : list frame) (r' : Stream.reader) (o : any_outcome)
    (res : list received * (EncryptedTransport * option secure_error)) : Prop :=
  let '(ms, (ch', e)) := open_frames ch fs in
  exists t', match e, o with
    | Some e, _ => res = (ms, (t', Some e))
    | None, AnyError e => res = (ms, (t', Some (read_failure e)))
    | None, AnyWait st =>
        res = (ms, (t', None)) /\ reader (tcp t') = r' /\ cur (tcp t') = st /\
        is_closing (tcp t') = false /\ channel t' = ch'
    | None, AnyDone _ => False
    end.

Lemma read_frame_open `{JsonText} c :
  is_closing c = false ->
  read_frame c =
    match read_any_frame (cur c) (reader c) with
    | (r', AnyDone f) => (set_read c r' None (_closed c), ReadDone f)
    | (r', AnyError (Incomplete _)) => (set_read c r' None true, ReadError ConnectionClosed)
    | (r', AnyError e) => (set_read c r' None (_closed c), ReadError (FrameReadError e))
    | (r', AnyWait st') => (set_read c r' (Some st') (_closed c), ReadWait)
    end.
Proof. intros Hc. unfold read_frame, cur. destruct (suspended c); [done|by rewrite Hc]. Qed.

Lemma receive_loop_frames `{Aead, JsonText} fuel t fs r' o :
  is_closing (tcp t) = false ->
  drain_frames fuel (cur (tcp t)) (reader (tcp t)) = (fs, (r', o)) ->
  loop_result (channel t) fs r' o (receive_loop fuel t).
Proof.
  revert t fs. induction fuel as [|fuel IH]; intros t fs Hc Hd; simpl in Hd.
  { injection Hd as <- <- <-. exists t. by destruct t. }
  unfold loop_result. cbn [receive_loop]. unfold receive_frame.
  rewrite read_frame_open by done.
  destruct (read_any_frame _ _) as [r1 [f|e|st]].
  - destruct (drain_frames fuel AwaitHeader r1) as [fs1 [r2 o1]] eqn:E1.
    injection Hd as <- <- <-. cbn [open_frames].
    destruct (open_frame [] (channel t) f) as [ch1 [m|e]]; [|by eexists].
    set (t1 := {| tcp := set_read (tcp t) r1 None (_closed (tcp t)); channel := ch1 |}).
    specialize (IH t1 fs1 Hc E1). unfold loop_result in IH. simpl channel in IH.
    destruct (open_frames ch1 fs1) as [ms [ch2 e2]].
    destruct IH as [t2 IH]. exists t2.
    destruct e2; [by rewrite IH|]. destruct o1; [done|by rewrite IH|].
    destruct IH as [-> IH]. done.
  - injection Hd as <- <- <-. destruct e; by eexists.
  - injection Hd as <- <- <-. eexists. split; [done|]. done.
Qed.

Lemma open_frames_app `{Aead, JsonText} ch fs1 fs2 :
  open_frames ch (fs1 ++ fs2) =
    match open_frames ch fs1 with
    | (ms, (ch', None)) => let '(ms', out) := open_frames ch' fs2 in (ms ++ ms', out)
    | r => r
    end.
Proof.
  revert ch. induction fs1 as [|f fs1 IH]; intros ch; simpl.
  { by destruct (open_frames ch fs2). }
  destruct (open_frame [] ch f) as [ch1 [m|e]]; [|done]. rewrite IH.
  destruct (open_frames ch1 fs1) as [ms [ch2 [e|]]]; [done|].
  by destruct (open_frames ch2 fs2).
Qed.

(** Receiving in pieces is opening the frames of the concatenated stream. *)
Lemma receive_chunks_frames `{Aead, JsonText} chunks t b fs o :
  is_closing (tcp t) = false -> reader (tcp t) = rd b ->
  feed_chunks (cur (tcp t)) (rd b) chunks = (fs, o) ->
  receive_chunks t chunks =
    let '(ms, (_, e)) := open_frames (channel t) fs in
    (ms, match e, o with
         | None, AnyError e' => Some (read_failure e')
         | _, _ => e
         end).
Proof.
  revert t b fs. induction chunks as [|c cs IH]; intros t b fs Hc Hr Hf; simpl in Hf.
  { by injection Hf as <- <-. }
  cbn [receive_chunks]. rewrite feed_data_rd in Hf. unfold receive_all.
  set (t0 := {| tcp := deliver c (tcp t); channel := channel t |}).
  assert (reader (tcp t0) = rd (b ++ c)) as Hr0 by (simpl; by rewrite Hr, feed_data_rd).
  destruct (drain_all_app (cur (tcp t)) (b ++ c) []) as (fs1 & b1 & o1 & E1 & _).
  rewrite E1 in Hf. change (cur (tcp t)) with (cur (tcp t0)) in E1.
  unfold drain_all in E1. rewrite <- Hr0 in E1.
  apply receive_loop_frames in E1; [|done]. unfold loop_result in E1.
  change (channel t0) with (channel t) in E1.
  destruct (open_frames (channel t) fs1) as [ms1 [ch1 e1]] eqn:Eo.
  destruct E1 as [t1 E1]. destruct e1 as [e1|].
  - rewrite E1. destruct o1 as [| |st1]; [| |destruct (feed_chunks st1 (rd b1) cs)];
      injection Hf as <- <-; by rewrite ?open_frames_app, Eo.
  - destruct o1 as [| |st1]; [done| |].
    + rewrite E1. injection Hf as <- <-. by rewrite Eo.
    + destruct E1 as (-> & Hr1 & Hst & Hc1 & Hch).
      destruct (feed_chunks st1 (rd b1) cs) as [fs2 o2] eqn:E2. injection Hf as <- <-.
      rewrite open_frames_app, Eo. subst st1 ch1.
      rewrite (IH t1 b1 fs2 Hc1 Hr1 E2).
      by destruct (open_frames (channel t1) fs2) as [ms2 [ch2 e2]].
Qed.

(** *** One message through the channel *)

Definition inner `{JsonText} (m : message) : bytes :=
  match m with
  | SendJson kvs => TYPE_JSON ++ json_dumps (JObj kvs)
  | SendBinary b => TYPE_BINARY ++ b
  | SendRelay b => TYPE_RELAY ++ b
  end.

(** A message whose encrypted frame fits the frame size limit. *)
Definition fits `{JsonText} (m : message) : bool :=
  match m with SendJson kvs => jwf (JObj kvs) | _ => true end &&
  (zlen (inner m) + 24 <=? MAX_MESSAGE_SIZE).

Lemma send_inner `{Aead, JsonText} io m t :
  send io m t = _send_encrypted io (inner m) [] t.
Proof. by destruct m. Qed.

Lemma parse_inner_inner `{JsonTextLaws} m :
  match m with SendJson kvs => jwf (JObj kvs) | _ => true end = true ->
  parse_inner (inner m) = Ok (as_received m).
Proof. destruct m; simpl; intros Hm; [by rewrite json_loads_dumps|done..]. Qed.

Lemma construct_nonce_ok s :
  0 <= s <= MAX_SEQUENCE -> _construct_nonce s = Ok (be_bytes NONCE_LEN s).
Proof. intros Hs. unfold _construct_nonce. by rewrite range_ok by lia. Qed.

Lemma max_sequence_64 : 2 ^ 64 <= MAX_SEQUENCE.
Proof. vm_compute. discriminate. Qed.

(** The test of [struct.pack(">Q", _)]. *)
Lemma sequence_fits s : 0 <= s < 2 ^ 64 -> (s <? 0) || (2 ^ 64 <=? s) = false.
Proof. intros Hs. apply orb_false_iff. split; [apply Z.ltb_ge|apply Z.leb_gt]; lia. Qed.

Lemma encrypt_fits `{AeadLaws} ch p :
  length (send_key (session_keys ch)) = 32%nat ->
  0 <= _send_sequence ch <= MAX_SEQUENCE -> zlen p < 2 ^ 31 ->
  exists c, length c = (length p + 16)%nat /\
    encrypt ch p [] =
      ({| session_keys := session_keys ch; _send_sequence := _send_sequence ch + 1;
          _expected_recv_sequence := _expected_recv_sequence ch |},
       Ok {| sequence := _send_sequence ch; ciphertext := c |}) /\
    aead_decrypt (send_key (session_keys ch)) (be_bytes NONCE_LEN (_send_sequence ch)) c
      (or_none []) = Some p.
Proof.
  intros Hk Hs Hp. unfold encrypt. rewrite construct_nonce_ok by done.
  destruct (aead_encrypt_fits (send_key (session_keys ch))
              (be_bytes NONCE_LEN (_send_sequence ch)) p (or_none []))
    as [c Hc]; [done|apply length_be_bytes|done|].
  exists c. rewrite Hc. split; [by eapply aead_encrypt_length|]. split; [done|].
  by eapply aead_decrypt_encrypt.
Qed.

(** Sending a message that fits appends one binary frame to the stream, which
    the matching receiver opens to the message. *)
Lemma send_step `{AeadLaws, JsonTextLaws} m t :
  fits m = true -> is_closing (tcp t) = false ->
  length (send_key (session_keys (channel t))) = 32%nat ->
  0 <= _send_sequence (channel t) < 2 ^ 64 ->
  exists p b t', send DrainOk m t = (t', Ok ()) /\
    encode_binary_frame p = Ok b /\ p <> [] /\
    out (tcp t') = out (tcp t) ++ b /\ is_closing (tcp t') = false /\
    session_keys (channel t') = session_keys (channel t) /\
    _send_sequence (channel t') = _send_sequence (channel t) + 1 /\
    be_int (take SEQUENCE_SIZE p) = _send_sequence (channel t) /\
    (MIN_ENCRYPTED_PAYLOAD_LEN <= length p)%nat /\
    forall ch, recv_key (session_keys ch) = send_key (session_keys (channel t)) ->
      _expected_recv_sequence ch = _send_sequence (channel t) ->
      open_frame [] ch (BinaryFrame p) =
        ({| session_keys := session_keys ch; _send_sequence := _send_sequence ch;
            _expected_recv_sequence := _expected_recv_sequence ch + 1 |},
         Ok (as_received m)).
Proof.
  intros Hf Hc Hk Hs. unfold fits in Hf. apply andb_true_iff in Hf as [Hj Hl].
  apply Z.leb_le in Hl. pose proof max_sequence_64 as Hmax.
  destruct (encrypt_fits (channel t) (inner m)) as (c & Hlen & Henc & Hdec);
    [done|lia|unfold MAX_MESSAGE_SIZE in Hl; lia|].
  rewrite send_inner. unfold _send_encrypted. rewrite Henc. cbn [sequence ciphertext].
  rewrite sequence_fits by done.
  set (p := be_bytes SEQUENCE_SIZE (_send_sequence (channel t)) ++ c).
  assert (length p = length (inner m) + 24)%nat as Hpl.
  { unfold p. rewrite length_app, length_be_bytes, Hlen. unfold SEQUENCE_SIZE. lia. }
  assert ((MAX_MESSAGE_SIZE <? zlen p) = false) as Hp.
  { apply Z.ltb_ge. unfold zlen in *. lia. }
  assert (be_int (take SEQUENCE_SIZE p) = _send_sequence (channel t)) as Hq.
  { unfold p. rewrite take_app_exact by apply length_be_bytes. by rewrite be_int_be_bytes. }
  unfold write_binary_frame, write_payload, encode_binary_frame. rewrite Hc, Hp.
  eexists p, _, _. split; [reflexivity|]. rewrite Hp. split; [reflexivity|].
  assert (MIN_ENCRYPTED_PAYLOAD_LEN <= length p)%nat as Hmin
    by (unfold MIN_ENCRYPTED_PAYLOAD_LEN, SEQUENCE_SIZE; lia).
  split; [intros E; rewrite E in Hpl; simpl in Hpl; lia|].
  repeat (split; [done|]). intros ch Hkr He. unfold open_frame.
  rewrite decide_False, Hq by lia. unfold p. rewrite drop_app_exact by apply length_be_bytes.
  unfold decrypt. rewrite He, Z.eqb_refl, construct_nonce_ok, Hkr by lia.
  simpl negb. cbv iota. by rewrite Hdec, parse_inner_inner.
Qed.

(** A list of messages that fit: the stream grows by their frames, and the
    matching receiver opens them all. *)
Lemma send_all_frames `{AeadLaws, JsonTextLaws} ms t :
  forallb fits ms = true -> is_closing (tcp t) = false ->
  length (send_key (session_keys (channel t))) = 32%nat ->
  0 <= _send_sequence (channel t) ->
  _send_sequence (channel t) + zlen ms <= 2 ^ 64 ->
  exists fs b t', send_all ms t = (t', Ok ()) /\
    encode_all fs = Ok b /\ forallb sendable fs = true /\
    out (tcp t') = out (tcp t) ++ b /\
    forall ch, recv_key (session_keys ch) = send_key (session_keys (channel t)) ->
      _expected_recv_sequence ch = _send_sequence (channel t) ->
      exists ch', open_frames ch fs = (map as_received ms, (ch', None)).
Proof.
  revert t. induction ms as [|m ms IH]; intros t Hf Hc Hk Hpos Hn.
  { exists [], [], t. rewrite app_nil_r. repeat split; try done. by eexists. }
  simpl in Hf. apply andb_true_iff in Hf as [Hm Hf].
  change (m :: ms) with ([m] ++ ms) in Hn. rewrite zlen_app in Hn.
  change (zlen [m]) with 1 in Hn. pose proof (zlen_nonneg ms).
  destruct (send_step m t) as (p & b & t1 & Hs & He & Hp & Ho & Hc1 & Hk1 & Hq1 & _ & _ & Hop);
    [done|done|done|lia|].
  destruct (IH t1) as (fs & bs & t2 & Hs2 & He2 & Hs3 & Ho2 & Hop2);
    [done|done|by rewrite Hk1|lia|lia|].
  exists (BinaryFrame p :: fs), (b ++ bs), t2. cbn [send_all]. rewrite Hs.
  split; [done|]. split; [cbn [encode_all]; by rewrite He, He2|].
  split; [simpl; by rewrite bool_decide_false, Hs3|].
  split; [by rewrite Ho2, Ho, app_assoc|].
  intros ch Hr Hx. cbn [open_frames]. rewrite Hop by done.
  destruct (Hop2 {| session_keys := session_keys ch; _send_sequence := _send_sequence ch;
            _expected_recv_sequence := _expected_recv_sequence ch + 1 |}) as [ch' Hch'].
  - simpl. by rewrite Hr, Hk1.
  - simpl. by rewrite Hx, Hq1.
  - exists ch'. by rewrite Hch'.
Qed.

Lemma decrypt_ok `{Aead} ch s c ad ch' p :
  decrypt ch s c ad = (ch', Ok p) ->
  s = _expected_recv_sequence ch /\
  _expected_recv_sequence ch' = _expected_recv_sequence ch + 1.
Proof.
  unfold decrypt. intros Hd. split_match_in Hd; simplify_eq; bool_to_prop. by split.
Qed.

Lemma open_frame_ok `{Aead, JsonText} ad ch f ch' m :
  open_frame ad ch f = (ch', Ok m) ->
  exists p, f = BinaryFrame p /\
    be_int (take SEQUENCE_SIZE p) = _expected_recv_sequence ch /\
    _expected_recv_sequence ch' = _expected_recv_sequence ch + 1.
Proof.
  destruct f as [|p]; [done|]. unfold open_frame. case_decide; [done|].
  destruct (decrypt _ _ _ _) as [ch1 [q|e]] eqn:E; [|done]. intros [= <- _].
  apply decrypt_ok in E. by exists p.
Qed.

(** The sequence numbers the opened frames carried. *)
Lemma open_frames_sequences `{Aead, JsonText} ch fs ms ch' e i m :
  open_frames ch fs = (ms, (ch', e)) -> ms !! i = Some m ->
  exists p, fs !! i = Some (BinaryFrame p) /\
    be_int (take SEQUENCE_SIZE p) = _expected_recv_sequence ch + Z.of_nat i.
Proof.
  revert ch ms i. induction fs as [|f fs IH]; intros ch ms i Ho Hi; simpl in Ho.
  { by injection Ho as <- <- <-. }
  destruct (open_frame [] ch f) as [ch1 [m1|e1]] eqn:E1.
  2: { by injection Ho as <- <- <-. }
  destruct (open_frames ch1 fs) as [ms1 [ch2 e2]] eqn:E2. injection Ho as <- <- <-.
  apply open_frame_ok in E1 as (p & -> & Hp & Hx).
  destruct i as [|i]; simpl in *.
  - exists p. split; [done|lia].
  - destruct (IH _ _ _ E2 Hi) as (q & Hq & Hs). exists q. split; [done|lia].
Qed.

(** *** Sessions *)

Lemma wrap_connection_ok `{HkdfLaws} c secret salt i :
  length secret = 32%nat -> length salt = 32%nat ->
  exists k, derive_session_keys secret salt i = Ok k /\ keys_ok k /\
    wrap_connection c secret salt i =
      Ok {| tcp := c; channel := {| session_keys := k; _send_sequence := 0;
                                    _expected_recv_sequence := 0 |} |}.
Proof.
  intros Hs Hl. destruct (derive_session_keys_total secret salt i Hs Hl) as (k & Hk & Hok).
  exists k. split; [done|]. split; [done|]. unfold wrap_connection, new_channel. rewrite Hk.
  destruct Hok as (H1 & H2 & _). unfold zlen. by rewrite H1, H2.
Qed.

Lemma encrypt_sequence `{Aead} ch p ad ch' r :
  encrypt ch p ad = (ch', r) ->
  match r with
  | Ok f => sequence f = _send_sequence ch /\ 0 <= sequence f <= MAX_SEQUENCE /\
      _send_sequence ch' = _send_sequence ch + 1
  | Err _ => ch' = ch
  end.
Proof.
  unfold encrypt, _construct_nonce. destruct (_ || _) eqn:E; [by intros [= <- <-]|].
  bool_to_prop. destruct (aead_encrypt _ _ _ _); intros [= <- <-]; simpl; lia || done.
Qed.

Lemma encrypt_all_sequences `{Aead} reqs ch ch' fs :
  encrypt_all ch reqs = (ch', fs) ->
  _send_sequence ch <= _send_sequence ch' /\
  (forall f, In f fs -> _send_sequence ch <= sequence f <= MAX_SEQUENCE /\ 0 <= sequence f) /\
  NoDup (map sequence fs).
Proof.
  revert ch fs. induction reqs as [|[p ad] reqs IH]; intros ch fs He; simpl in He.
  { injection He as <- <-. split; [lia|]. split; [done|constructor]. }
  destruct (encrypt ch p ad) as [ch1 r] eqn:E1. apply encrypt_sequence in E1.
  destruct (encrypt_all ch1 reqs) as [ch2 fs2] eqn:E2. injection He as <- <-.
  destruct (IH _ _ E2) as (Hle & Hin & Hnd). destruct r as [f|e].
  - destruct E1 as (Hs & Hb & Hn). split; [lia|]. split.
    + intros g [<-|Hg]; [lia|]. apply Hin in Hg. lia.
    + simpl. constructor; [|done]. rewrite list_elem_of_In, in_map_iff.
      intros (g & Hg & Hgin). apply Hin in Hgin. lia.
  - by subst ch1.
Qed.

(** *** Properties *)

(** C4: end-to-end delivery.  Two peers that hold the same shared secret and
    transcript hash, in opposite roles, get transports over which any sequence of
    JSON messages, binary chunks and relay chunks that fit the frame limit (up to
    2^64 of them) is sent without error and received in order, complete and with
    the right kind, however the network cuts the byte stream. *)
Theorem secure_delivery `{HkdfLaws, AeadLaws, JsonTextLaws} secret salt role pa pb ms chunks :
  length secret = 32%nat -> length salt = 32%nat ->
  forallb fits ms = true -> zlen ms <= 2 ^ 64 ->
  exists ta tb ta',
    wrap_connection (new_tcp pa) secret salt role = Ok ta /\
    wrap_connection (new_tcp pb) secret salt (negb role) = Ok tb /\
    send_all ms ta = (ta', Ok ()) /\
    (concat chunks = out (tcp ta') ->
     receive_chunks tb chunks = (map as_received ms, None)).
Proof.
  intros Hs Hl Hf Hn.
  destruct (wrap_connection_ok (new_tcp pa) secret salt role Hs Hl) as (ka & Ha & Hka & ->).
  destruct (wrap_connection_ok (new_tcp pb) secret salt (negb role) Hs Hl)
    as (kb & Hb & Hkb & ->).
  destruct (derive_session_keys_paired _ _ _ _ _ Ha Hb) as (Hp & _ & _).
  set (ta := {| tcp := new_tcp pa; channel := _ |}).
  set (tb := {| tcp := new_tcp pb; channel := _ |}).
  destruct (send_all_frames ms ta) as (fs & b & ta' & Hsend & He & Hsd & Ho & Hop);
    [done|done|by destruct Hka|simpl; lia|simpl; lia|].
  exists ta, tb, ta'. split; [done|]. split; [done|]. split; [done|]. intros Hc.
  destruct (Hop (channel tb)) as [ch' Hch']; [by symmetry|done|].
  rewrite (receive_chunks_frames chunks tb [] fs (AnyWait AwaitHeader)).
  - by rewrite Hch'.
  - done.
  - done.
  - change (cur (tcp tb)) with AwaitHeader. rewrite feed_chunks_waiting by done.
    rewrite app_nil_l, Hc, Ho. simpl. rewrite <- (app_nil_r b).
    rewrite (drain_all_encoded fs) by done. simpl. by rewrite app_nil_r.
Qed.



(** A send that is refused because its frame is too large still consumes a
    sequence number.  The bytes are not written and the connection stays open, but
    the next message, whatever it is, is refused by the peer as out of order. *)
Theorem oversize_send_desyncs `{AeadLaws, JsonTextLaws} payload t m ch :
  is_closing (tcp t) = false ->
  length (send_key (session_keys (channel t))) = 32%nat ->
  0 <= _send_sequence (channel t) < 2 ^ 64 - 1 ->
  MAX_MESSAGE_SIZE - 25 < zlen payload < 2 ^ 31 - 1 ->
  fits m = true ->
  _expected_recv_sequence ch = _send_sequence (channel t) ->
  exists t1 e t2 p b,
    send_binary DrainOk payload [] t = (t1, Err (Transport (FrameWriteError e))) /\
    out (tcp t1) = out (tcp t) /\ is_closing (tcp t1) = false /\
    send DrainOk m t1 = (t2, Ok ()) /\
    encode_binary_frame p = Ok b /\ out (tcp t2) = out (tcp t) ++ b /\
    open_frame [] ch (BinaryFrame p) =
      (ch, Err (Crypto (ReplayOrReorder (_send_sequence (channel t))
                          (_send_sequence (channel t) + 1)))).
Proof.
  intros Hc Hk Hs Hp Hm Hx. unfold MAX_MESSAGE_SIZE in Hp. pose proof max_sequence_64.
  destruct (encrypt_fits (channel t) (TYPE_BINARY ++ payload)) as (c & Hlen & Henc & _);
    [done|lia|rewrite zlen_app; change (zlen TYPE_BINARY) with 1; lia|].
  unfold send_binary at 1, _send_encrypted. rewrite Henc. cbn [sequence ciphertext].
  rewrite sequence_fits by lia.
  unfold write_binary_frame, write_payload, encode_binary_frame. rewrite Hc.
  replace (MAX_MESSAGE_SIZE <? _) with true.
  2: { symmetry. apply Z.ltb_lt. rewrite zlen_app. unfold zlen in *.
       rewrite Hlen, length_be_bytes, length_app. unfold MAX_MESSAGE_SIZE, SEQUENCE_SIZE.
       change (length TYPE_BINARY) with 1%nat. lia. }
  eexists _, _. set (t1 := {| tcp := tcp t; channel := _ |}).
  destruct (send_step m t1) as (p & b & t2 & Hsend & He & _ & Ho & _ & _ & _ & Hq & Hl & _);
    [done|done|done|simpl; lia|].
  exists t2, p, b. repeat (split; [done|]).
  unfold open_frame. rewrite decide_False by lia. rewrite Hq. unfold decrypt.
  rewrite Hx. simpl. replace (_ =? _) with false by (symmetry; apply Z.eqb_neq; lia). done.
Qed.

(** The wire carries the sequence number in 8 bytes, the nonce in 12.
    When a direction reaches 2^64 messages the send fails with [struct.error]:
    the [SequenceExhaustedError] handler that closes the session is not reached
    and the session stays open. *)
Theorem sequence_exhaustion_unreachable `{AeadLaws} io payload t :
  is_closing (tcp t) = false ->
  length (send_key (session_keys (channel t))) = 32%nat ->
  2 ^ 64 <= _send_sequence (channel t) <= MAX_SEQUENCE -> zlen payload < 2 ^ 31 - 1 ->
  exists t', send_binary io payload [] t = (t', Err StructError) /\ tcp t' = tcp t.
Proof.
  intros Hc Hk Hs Hp. 
  destruct (encrypt_fits (channel t) (TYPE_BINARY ++ payload)) as (c & Hlen & Henc & _);
    [done|lia|rewrite zlen_app; change (zlen TYPE_BINARY) with 1; lia|].
  unfold send_binary, _send_encrypted. rewrite Henc. cbn [sequence ciphertext].
  replace (_ || _) with true; [by eexists|].
  symmetry. apply orb_true_iff. right. apply Z.leb_le. lia.
Qed.

(** *** Evaluations *)

#[local] Existing Instances BitText.text BitText.text_laws Sample.aead Sample.aead_laws
  Sample.hkdf Sample.hkdf_laws.

Definition example_secret : bytes := be_bytes 32 123456789.
Definition example_hash : bytes := be_bytes 32 987654321.
Definition example_messages : list message :=
  [SendJson [("type", JStr "chat")]; SendBinary (lit "chunk"); SendRelay (lit "tunnel")].

Lemma secure_delivery_witness :
  exists ta tb ta',
    wrap_connection (new_tcp None) example_secret example_hash true = Ok ta /\
    wrap_connection (new_tcp None) example_secret example_hash false = Ok tb /\
    send_all example_messages ta = (ta', Ok ()) /\
    receive_chunks tb [out (tcp ta')] = (map as_received example_messages, None).
Proof.
  edestruct (secure_delivery example_secret example_hash true None None example_messages)
    with (chunks := [] : list bytes) as (ta & tb & ta' & Ha & Hb & Hs & _);
    [apply length_be_bytes|apply length_be_bytes|vm_compute; reflexivity|vm_compute; discriminate|].
  edestruct (secure_delivery example_secret example_hash true None None example_messages)
    with (chunks := [out (tcp ta')]) as (ta2 & tb2 & ta2' & Ha2 & Hb2 & Hs2 & Hr);
    [apply length_be_bytes|apply length_be_bytes|vm_compute; reflexivity|vm_compute; discriminate|].
  exists ta2, tb2, ta2'. repeat (split; [assumption|]).
  rewrite Ha in Ha2. apply Ok_inj in Ha2. subst ta2. rewrite Hs in Hs2.
  assert (ta' = ta2') as <- by congruence.
  apply Hr. cbn [concat]. apply app_nil_r.
Defined.

Definition example_transport : EncryptedTransport :=
  {| tcp := new_tcp None;
     channel := {| session_keys := {| send_key := be_bytes 32 1; recv_key := be_bytes 32 1;
                                      session_id := lit "00" |};
                   _send_sequence := 0; _expected_recv_sequence := 0 |} |}.


Lemma oversize_send_desyncs_witness :
  exists t1 e t2 p b,
    send_binary DrainOk (replicate (Z.to_nat MAX_MESSAGE_SIZE) "x"%byte) [] example_transport
      = (t1, Err (Transport (FrameWriteError e))) /\
    out (tcp t1) = out (tcp example_transport) /\ is_closing (tcp t1) = false /\
    send DrainOk (SendBinary (lit "next")) t1 = (t2, Ok ()) /\
    encode_binary_frame p = Ok b /\ out (tcp t2) = out (tcp example_transport) ++ b /\
    open_frame [] (channel example_transport) (BinaryFrame p) =
      (channel example_transport, Err (Crypto (ReplayOrReorder 0 1))).
Proof.
  apply (oversize_send_desyncs (replicate (Z.to_nat MAX_MESSAGE_SIZE) "x"%byte)
           example_transport (SendBinary (lit "next")) (channel example_transport)).
  - reflexivity.
  - apply length_be_bytes.
  - split; [discriminate|reflexivity].
  - unfold zlen. rewrite length_replicate, Z2Nat.id by discriminate. split; reflexivity.
  - vm_compute. reflexivity.
  - reflexivity.
Defined.

Definition exhausted_transport : EncryptedTransport :=
  {| tcp := new_tcp None;
     channel := {| session_keys := session_keys (channel example_transport);
                   _send_sequence := 2 ^ 64; _expected_recv_sequence := 0 |} |}.

Lemma sequence_exhaustion_unreachable_witness :
  exists t', send_binary DrainOk (lit "late") [] exhausted_transport = (t', Err StructError)
             /\ tcp t' = tcp exhausted_transport.
Proof.
  apply (sequence_exhaustion_unreachable DrainOk (lit "late") exhausted_transport).
  - reflexivity.
  - apply length_be_bytes.
  - split; vm_compute; discriminate.
  - vm_compute. reflexivity.
Defined.

End Secure.
