(* ===== verification/Lifecycle.v ===== *)
(** * Connection and transfer lifecycles

    Models [core/connection_state.py] (module [Connection]) and
    [core/transfer_state.py] (modules [Outgoing] and [Incoming]).  The three state
    machines share one mechanism, a table of allowed transitions and the
    [transition_to] method, written here once over a class of tables; a run is a
    sequence of [transition_to] calls, refused ones included. *)

From S2P Require Import Prelude.

(** ** Table machines *)

Class Table (S : Type) := { allowed : S -> list S; initial : S }.

Section Machine.
Context {S : Type} `{EqDecision S} `{Table S}.

(** [transition_to]: the new state, or [None] for the exception, the state
    being unchanged then. *)
Definition transition_to (current new_state : S) : option S :=
  if decide (new_state ∈ allowed current) then Some new_state else None.

(** [is_terminal] of a transfer: the only next state is the state itself. *)
Definition is_terminal (s : S) : bool :=
  bool_decide (s ∈ allowed s) && forallb (fun s' => bool_decide (s' = s)) (allowed s).

(** A sequence of calls, each one caught when it raises: the states entered, in
    order, and the final state. *)
Fixpoint attempts (s : S) (requests : list S) : list S * S :=
  match requests with
  | [] => ([], s)
  | r :: rs =>
      match transition_to s r with
      | Some s' => let '(h, e) := attempts s' rs in (s' :: h, e)
      | None => attempts s rs
      end
  end.

(** The history of a machine from state [s] to state [e]. *)
Inductive path : S -> list S -> S -> Prop :=
| path_nil s : path s [] s
| path_cons s s' h e : s' ∈ allowed s -> path s' h e -> path s (s' :: h) e.

Lemma attempts_path s rs : path s (fst (attempts s rs)) (snd (attempts s rs)).
Proof.
  revert s. induction rs as [|r rs IH]; intros s; simpl; [constructor|].
  unfold transition_to. case_decide; [|done].
  specialize (IH r). destruct (attempts r rs). by constructor.
Qed.

Lemma path_terminal s h e : is_terminal s = true -> path s h e -> e = s /\ Forall (eq s) h.
Proof.
  intros Ht Hp. induction Hp as [|s s' h e Hin Hp IH]; [done|].
  unfold is_terminal in Ht. apply andb_true_iff in Ht as [Hs Hall].
  rewrite forallb_forall in Hall. apply list_elem_of_In, Hall, bool_decide_eq_true in Hin.
  subst s'. destruct IH as [-> IH]; [by unfold is_terminal; rewrite Hs; apply forallb_forall|].
  auto.
Qed.

Lemma path_snoc s h e : path s h e -> h = [] /\ e = s \/ exists h', h = h' ++ [e].
Proof.
  induction 1 as [|s s' h e Hin Hp IH]; [by left|]. right.
  destruct IH as [[-> ->]|[h' ->]]; [by exists []|by exists (s' :: h')].
Qed.

End Machine.

(** The successors of a concrete state, as cases. *)
Ltac succ_cases :=
  repeat match goal with
         | H : ?x ∈ allowed ?s |- _ =>
             let l := eval lazy in (allowed s) in change (x ∈ l) in H
         | H : _ ∈ _ :: _ |- _ => apply elem_of_cons in H as [->|H]
         | H : _ ∈ [] |- _ => apply not_elem_of_nil in H as []
         end.

(** ** Connections *)
Module Connection.

Inductive ConnectionState : Type :=
| NEW | TCP_CONNECTED | HANDSHAKING | AUTHENTICATED | ESTABLISHED | CLOSING | CLOSED.

#[global] Instance connection_state_eq : EqDecision ConnectionState.
Proof. solve_decision. Defined.

Definition _ALLOWED_TRANSITIONS (s : ConnectionState) : list ConnectionState :=
  match s with
  | NEW => [TCP_CONNECTED; CLOSING]
  | TCP_CONNECTED => [HANDSHAKING; CLOSING]
  | HANDSHAKING => [AUTHENTICATED; CLOSING]
  | AUTHENTICATED => [ESTABLISHED; CLOSING]
  | ESTABLISHED => [CLOSING]
  | CLOSING => [CLOSING; CLOSED]
  | CLOSED => [CLOSED]
  end.

#[global] Instance table : Table ConnectionState := {|
  allowed := _ALLOWED_TRANSITIONS;
  initial := NEW
|}.

Definition is_established (s : ConnectionState) : bool := bool_decide (s = ESTABLISHED).

Definition closing_or_closed (s : ConnectionState) : bool :=
  bool_decide (s = CLOSING \/ s = CLOSED).

(** [require_established]: [None] is the exception. *)
Definition require_established (s : ConnectionState) : option unit :=
  if is_established s then Some () else None.

(** The steps between a state and ESTABLISHED. *)
Definition remaining (s : ConnectionState) : list ConnectionState :=
  match s with
  | NEW => [TCP_CONNECTED; HANDSHAKING; AUTHENTICATED; ESTABLISHED]
  | TCP_CONNECTED => [HANDSHAKING; AUTHENTICATED; ESTABLISHED]
  | HANDSHAKING => [AUTHENTICATED; ESTABLISHED]
  | AUTHENTICATED => [ESTABLISHED]
  | _ => []
  end.

Lemma path_closing s h e :
  closing_or_closed s = true -> path s h e -> closing_or_closed e = true.
Proof.
  intros Hs Hp. induction Hp as [|s s' h e Hin Hp IH]; [done|]. apply IH.
  destruct s; try discriminate Hs; succ_cases; done.
Qed.

Lemma path_established s h : path s h ESTABLISHED -> h = remaining s.
Proof.
  intros Hp. remember ESTABLISHED as e eqn:He. induction Hp as [|s s' h e Hin Hp IH].
  - by subst.
  - specialize (IH He). subst e.
    destruct s; succ_cases; simpl; try by rewrite IH.
    all: apply path_closing in Hp; [discriminate Hp|done].
Qed.

(** No step is skipped.  Whatever sequence of transitions is requested of a
    new connection, one that ends ESTABLISHED has entered exactly TCP_CONNECTED,
    HANDSHAKING, AUTHENTICATED and ESTABLISHED, in that order and once each, so an
    application frame accepted by [require_established] comes after the handshake. *)
Theorem established_history requests u :
  require_established (snd (attempts (initial : ConnectionState) requests)) = Some u ->
  fst (attempts (initial : ConnectionState) requests)
    = [TCP_CONNECTED; HANDSHAKING; AUTHENTICATED; ESTABLISHED].
Proof.
  pose proof (attempts_path (initial : ConnectionState) requests) as Hp.
  unfold require_established, is_established. case_bool_decide as He; [|done]. intros _.
  rewrite He in Hp. apply (path_established NEW _ Hp).
Qed.

Lemma established_history_witness :
  fst (attempts (initial : ConnectionState)
         [ESTABLISHED; TCP_CONNECTED; HANDSHAKING; TCP_CONNECTED; AUTHENTICATED; ESTABLISHED;
          HANDSHAKING])
    = [TCP_CONNECTED; HANDSHAKING; AUTHENTICATED; ESTABLISHED].
Proof. apply (established_history _ tt). vm_compute. reflexivity. Defined.

(** A connection that is CLOSING or CLOSED is never revived: after any
    further requests it is still CLOSING or CLOSED, and no application frame is
    accepted. *)
Theorem closing_never_revived s requests :
  closing_or_closed s = true ->
  closing_or_closed (snd (attempts s requests)) = true /\
  require_established (snd (attempts s requests)) = None.
Proof.
  intros Hs. pose proof (path_closing _ _ _ Hs (attempts_path s requests)) as He.
  split; [done|]. by destruct (snd (attempts s requests)).
Qed.

Lemma closing_never_revived_witness :
  closing_or_closed (snd (attempts CLOSING [TCP_CONNECTED; CLOSED; ESTABLISHED])) = true /\
  require_established (snd (attempts CLOSING [TCP_CONNECTED; CLOSED; ESTABLISHED])) = None.
Proof. apply closing_never_revived. reflexivity. Defined.

End Connection.

(** ** Outgoing transfers *)
Module Outgoing.

Inductive OutgoingTransferState : Type :=
| OFFERED | WAITING_FOR_ACCEPT | SENDING | WAITING_FOR_COMPLETE_ACK
| COMPLETED | FAILED | REJECTED | CANCELLED.

#[global] Instance outgoing_state_eq : EqDecision OutgoingTransferState.
Proof. solve_decision. Defined.

Definition _OUTGOING_TRANSITIONS (s : OutgoingTransferState) : list OutgoingTransferState :=
  match s with
  | OFFERED => [WAITING_FOR_ACCEPT]
  | WAITING_FOR_ACCEPT => [SENDING; FAILED; REJECTED; CANCELLED]
  | SENDING => [WAITING_FOR_COMPLETE_ACK; FAILED; CANCELLED]
  | WAITING_FOR_COMPLETE_ACK => [COMPLETED; FAILED; CANCELLED]
  | COMPLETED => [COMPLETED]
  | FAILED => [FAILED]
  | REJECTED => [REJECTED]
  | CANCELLED => [CANCELLED]
  end.

#[global] Instance table : Table OutgoingTransferState := {|
  allowed := _OUTGOING_TRANSITIONS;
  initial := OFFERED
|}.

(** The steps between a state and COMPLETED. *)
Definition remaining (s : OutgoingTransferState) : list OutgoingTransferState :=
  match s with
  | OFFERED => [WAITING_FOR_ACCEPT; SENDING; WAITING_FOR_COMPLETE_ACK; COMPLETED]
  | WAITING_FOR_ACCEPT => [SENDING; WAITING_FOR_COMPLETE_ACK; COMPLETED]
  | SENDING => [WAITING_FOR_COMPLETE_ACK; COMPLETED]
  | WAITING_FOR_COMPLETE_ACK => [COMPLETED]
  | _ => []
  end.

Lemma outgoing_path_completed s h :
  path s h COMPLETED -> exists n, h = remaining s ++ replicate n COMPLETED.
Proof.
  intros Hp. remember COMPLETED as e eqn:He. induction Hp as [|s s' h e Hin Hp IH].
  - subst. by exists O.
  - destruct (IH He) as [n Hn]. subst e.
    destruct s; succ_cases; simpl; try (exists n; by rewrite Hn); try by exists (S n); rewrite Hn.
    all: apply path_terminal in Hp as [Hp _]; [discriminate Hp|done].
Qed.

(** An outgoing transfer that is COMPLETED was accepted, sent and
    acknowledged: whatever transitions were requested (duplicate accepts, late
    acks, cancellations), the states entered are WAITING_FOR_ACCEPT, SENDING,
    WAITING_FOR_COMPLETE_ACK and COMPLETED in that order, followed only by
    repeated completions. *)
Theorem completed_history requests :
  snd (attempts (initial : OutgoingTransferState) requests) = COMPLETED ->
  exists n, fst (attempts (initial : OutgoingTransferState) requests)
    = [WAITING_FOR_ACCEPT; SENDING; WAITING_FOR_COMPLETE_ACK; COMPLETED]
        ++ replicate n COMPLETED.
Proof.
  intros He. pose proof (attempts_path (initial : OutgoingTransferState) requests) as Hp.
  rewrite He in Hp. apply (outgoing_path_completed OFFERED _ Hp).
Qed.

Lemma completed_history_witness :
  exists n, fst (attempts (initial : OutgoingTransferState)
      [WAITING_FOR_ACCEPT; SENDING; SENDING; WAITING_FOR_COMPLETE_ACK; COMPLETED; FAILED;
       COMPLETED])
    = [WAITING_FOR_ACCEPT; SENDING; WAITING_FOR_COMPLETE_ACK; COMPLETED]
        ++ replicate n COMPLETED.
Proof. apply completed_history. vm_compute. reflexivity. Defined.

End Outgoing.

(** ** Incoming transfers *)
Module Incoming.

Inductive IncomingTransferState : Type :=
| OFFERED | ACCEPTED | RECEIVING | PAUSED | RESUMING | VERIFYING
| COMPLETED | REJECTED | CANCELLED | FAILED | EXPIRED.

#[global] Instance incoming_state_eq : EqDecision IncomingTransferState.
Proof. solve_decision. Defined.

Definition _INCOMING_TERMINAL_OUTCOMES : list IncomingTransferState :=
  [REJECTED; CANCELLED; FAILED; EXPIRED].

Definition _INCOMING_TRANSITIONS (s : IncomingTransferState) : list IncomingTransferState :=
  match s with
  | OFFERED => ACCEPTED :: _INCOMING_TERMINAL_OUTCOMES
  | ACCEPTED => RECEIVING :: _INCOMING_TERMINAL_OUTCOMES
  | RECEIVING => [RECEIVING; VERIFYING; PAUSED] ++ _INCOMING_TERMINAL_OUTCOMES
  | PAUSED => RESUMING :: _INCOMING_TERMINAL_OUTCOMES
  | RESUMING => RECEIVING :: _INCOMING_TERMINAL_OUTCOMES
  | VERIFYING => COMPLETED :: _INCOMING_TERMINAL_OUTCOMES
  | s => [s]
  end.

#[global] Instance table : Table IncomingTransferState := {|
  allowed := _INCOMING_TRANSITIONS;
  initial := OFFERED
|}.

(** A state between acceptance and verification. *)
Definition in_progress (s : IncomingTransferState) : bool :=
  match s with RECEIVING | PAUSED | RESUMING => true | _ => false end.

(** The shape of the histories from a state to COMPLETED. *)
Definition completes (s : IncomingTransferState) (h : list IncomingTransferState) : Prop :=
  let tail h := exists n, h = VERIFYING :: COMPLETED :: replicate n COMPLETED in
  match s with
  | OFFERED => exists m t, h = ACCEPTED :: RECEIVING :: m ++ t /\
                           forallb in_progress m = true /\ tail t
  | ACCEPTED => exists m t, h = RECEIVING :: m ++ t /\
                           forallb in_progress m = true /\ tail t
  | RECEIVING | PAUSED | RESUMING =>
      exists m t, h = m ++ t /\ forallb in_progress m = true /\ tail t
  | VERIFYING => exists n, h = COMPLETED :: replicate n COMPLETED
  | COMPLETED => exists n, h = replicate n COMPLETED
  | _ => False
  end.

Lemma completes_step s s' h : s' ∈ allowed s -> completes s' h -> completes s (s' :: h).
Proof.
  intros Hin Hc. destruct s; succ_cases; simpl in *; try done;
    try (destruct Hc as (m & t & -> & Hm & Ht));
    try (destruct Hc as [n ->]); try (by exists m, t); try (by exists n).
  - by exists (RECEIVING :: m), t.
  - exists [], (VERIFYING :: COMPLETED :: replicate n COMPLETED). eauto.
  - by exists (PAUSED :: m), t.
  - by exists (RESUMING :: m), t.
  - by exists (RECEIVING :: m), t.
  - by exists (S n).
Qed.

Lemma incoming_path_completed s h : path s h COMPLETED -> completes s h.
Proof.
  intros Hp. remember COMPLETED as e eqn:He. induction Hp as [|s s' h e Hin Hp IH].
  - subst. by exists O.
  - by apply completes_step; auto.
Qed.

(** An incoming transfer that is COMPLETED was accepted, received and
    verified: whatever transitions were requested, the states entered are ACCEPTED
    and RECEIVING, then only receiving, paused or resuming states, then VERIFYING
    and COMPLETED. *)
Theorem completed_after_verification requests :
  snd (attempts (initial : IncomingTransferState) requests) = COMPLETED ->
  exists m n, fst (attempts (initial : IncomingTransferState) requests)
      = [ACCEPTED; RECEIVING] ++ m ++ [VERIFYING; COMPLETED] ++ replicate n COMPLETED /\
    forallb in_progress m = true.
Proof.
  intros He. pose proof (attempts_path (initial : IncomingTransferState) requests) as Hp.
  rewrite He in Hp. apply incoming_path_completed in Hp as (m & t & -> & Hm & n & ->).
  by exists m, n.
Qed.

Lemma completed_after_verification_witness :
  exists m n, fst (attempts (initial : IncomingTransferState)
      [ACCEPTED; RECEIVING; VERIFYING; COMPLETED; RECEIVING])
      = [ACCEPTED; RECEIVING] ++ m ++ [VERIFYING; COMPLETED] ++ replicate n COMPLETED /\
    forallb in_progress m = true.
Proof. apply completed_after_verification. vm_compute. reflexivity. Defined.

End Incoming.

(** ** Outcomes *)

(** The first outcome of a machine is its last: once a state is terminal,
    no sequence of requests changes it, in any of the machines. *)
Theorem terminal_is_final {S} `{EqDecision S} `{Table S} (s : S) requests :
  is_terminal s = true -> snd (attempts s requests) = s.
Proof. intros Hs. by apply (path_terminal s _ _ Hs (attempts_path s requests)). Qed.

Lemma terminal_is_final_witness :
  snd (attempts Outgoing.CANCELLED [Outgoing.COMPLETED; Outgoing.SENDING]) = Outgoing.CANCELLED.
Proof. apply terminal_is_final. vm_compute. reflexivity. Defined.
