(* ===== verification/Trust.v ===== *)
(** * Device identities, key rotation and the trust store

    Models [core/identity/device_identity.py] (module [Identity]),
    [core/identity/rotation.py] (module [Rotation]), [core/trust/device.py],
    [core/trust/store.py] and [core/trust/revocation.py] (module [Store]).

    The two SQLite tables are finite maps on their primary keys; a method of
    [TrustStore] is a stateful operation over the tables and the log of emitted
    security events.  The clock, the signing keys and the group policy hook are
    arguments. *)

From Corelib Require Import SpecFloat.
From S2P Require Import Prelude Text Crypto.
Local Open Scope peerc_scope.
Local Open Scope Z_scope.

(** ** Device identity *)
Module Identity.
Section Identity.
Context `{Ed25519, Sha256}.

Definition compute_device_id (public_key_bytes : bytes) : string :=
  bytes_str (hex_text (sha256 public_key_bytes)).

Record DeviceKeypair := mk_keypair { private_key : ed_private; device_id : string }.

Definition public_key_bytes (k : DeviceKeypair) : bytes := ed_public (private_key k).
Definition sign (k : DeviceKeypair) (data : bytes) : bytes := ed_sign (private_key k) data.

Definition _keypair_from_private_key (private_key : ed_private) : DeviceKeypair :=
  {| private_key := private_key;
     device_id := compute_device_id (ed_public private_key) |}.

(** [Ed25519PublicKey.from_public_bytes]: 32 bytes, or [ValueError]. *)
Definition public_key_from_bytes (data : bytes) : option bytes :=
  if decide (length data = 32%nat) then Some data else None.

End Identity.
End Identity.

(** ** Security events *)

Inductive SecurityEventType : Type :=
| IDENTITY_CHANGED | REVOKED_DEVICE_ATTEMPT | INVALID_ROTATION | KEY_ROTATION.

Record SecurityEvent := mk_event { event_type : SecurityEventType; event_device : string }.

(** ** Transition certificates *)
Module Rotation.
Import Identity.
Section Rotation.
Context `{Ed25519, Sha256}.

Definition _ROTATION_DOMAIN : bytes := lit "peerc-key-rotation" ++ [Byte.x00].

Record TransitionCertificate := mk_cert {
  old_device_id : string;
  old_public_key : string;      (** base64 *)
  new_device_id : string;
  new_public_key : string;      (** base64 *)
  timestamp : spec_float;
  signature : string            (** base64 *)
}.

Definition _build_payload (old_device_id new_device_id old_public_key_b64
    new_public_key_b64 : string) (timestamp : spec_float) : bytes :=
  _ROTATION_DOMAIN ++ str_bytes old_device_id ++ [Byte.x00]
    ++ str_bytes new_device_id ++ [Byte.x00]
    ++ str_bytes old_public_key_b64 ++ [Byte.x00]
    ++ str_bytes new_public_key_b64 ++ [Byte.x00]
    ++ pack_double timestamp.

Definition b64_text (bs : bytes) : string := bytes_str (b64encode bs).

(** [None] is the [RotationError] for equal device ids; [ts] is the clock. *)
Definition create_transition_certificate (old_keypair new_keypair : DeviceKeypair)
    (ts : spec_float) : option TransitionCertificate :=
  if decide (device_id old_keypair = device_id new_keypair) then None
  else
    let old_pub_b64 := b64_text (public_key_bytes old_keypair) in
    let new_pub_b64 := b64_text (public_key_bytes new_keypair) in
    let payload := _build_payload (device_id old_keypair) (device_id new_keypair)
                     old_pub_b64 new_pub_b64 ts in
    let sig_bytes := sign old_keypair payload in
    Some {| old_device_id := device_id old_keypair;
            old_public_key := old_pub_b64;
            new_device_id := device_id new_keypair;
            new_public_key := new_pub_b64;
            timestamp := ts;
            signature := b64_text sig_bytes |}.

(** The verdict; the event emitted on failure is added by the caller's log. *)
Definition verify_transition_certificate (cert : TransitionCertificate) : bool :=
  match b64decode (str_bytes (old_public_key cert)),
        b64decode (str_bytes (signature cert)) with
  | Some old_pub_bytes, Some sig_bytes =>
      match public_key_from_bytes old_pub_bytes with
      | Some old_pub_key =>
          ed_verify old_pub_key sig_bytes
            (_build_payload (old_device_id cert) (new_device_id cert)
               (old_public_key cert) (new_public_key cert) (timestamp cert))
      | None => false
      end
  | _, _ => false
  end.

End Rotation.
End Rotation.

(** ** The trust store *)
Module Store.
Import Identity Rotation.

Inductive TrustStatus : Type := PENDING | TRUSTED | REVOKED.

#[global] Instance trust_status_eq : EqDecision TrustStatus.
Proof. solve_decision. Defined.

(** A row of [trusted_devices], under its primary key [device_id]. *)
Record TrustedDevice := mk_device {
  public_key : string;
  name : string;
  first_seen : spec_float;
  last_seen : spec_float;
  status : TrustStatus;
  revoked_by : option string;
  revoked_at : option spec_float;
  revoke_reason : option string
}.

Inductive TrustDecision : Type :=
| D_UNKNOWN | D_PENDING | D_TRUSTED | D_KEY_CHANGED | D_REVOKED.

#[global] Instance trust_decision_eq : EqDecision TrustDecision.
Proof. solve_decision. Defined.

Inductive trust_error : Type :=
| VaultLocked                    (** [RuntimeError]: no active connection *)
| AlreadyKnown (id : string)     (** [ValueError] of [record_first_seen] *)
| PolicyDenied (id : string)     (** [ExternalTrustDeniedError] *)
| CannotApprove (id : string)    (** [ValueError] of [approve] *)
| CannotRevoke (id : string)     (** [ValueError] / [RevocationError] *)
| RotationError
| IntegrityError.                (** a NaN timestamp in a NOT NULL column *)

(** A row of [identity_transitions], under (old_device_id, new_device_id). *)
Record Transition := mk_transition {
  t_cert : TransitionCertificate;
  recorded_at : spec_float
}.

Record db := mk_db {
  connected : bool;
  devices : gmap string TrustedDevice;
  transitions : gmap (string * string) Transition;
  events : list SecurityEvent
}.

Abbreviation op := (stm db trust_error).

Definition set_devices (f : gmap string TrustedDevice -> gmap string TrustedDevice) (d : db)
    : db :=
  {| connected := connected d; devices := f (devices d);
     transitions := transitions d; events := events d |}.

Definition emit (t : SecurityEventType) (device_id : string) : op unit :=
  modify (fun d => {| connected := connected d; devices := devices d;
                      transitions := transitions d;
                      events := events d ++ [mk_event t device_id] |}).

Definition _require_conn : op unit := fun d =>
  if connected d then (d, Ok ()) else (d, Err VaultLocked).

Definition adopt_conn (c : bool) : op unit :=
  modify (fun d => {| connected := c; devices := devices d;
                      transitions := transitions d; events := events d |}).

Definition get_device (device_id : string) : op (option TrustedDevice) :=
  _require_conn ;; gets (fun d => devices d !! device_id).

Definition check (device_id public_key' : string) : op TrustDecision :=
  device ← get_device device_id;
  match device with
  | None => mret D_UNKNOWN
  | Some dev =>
      if negb (bool_decide (public_key dev = public_key')) then
        emit IDENTITY_CHANGED device_id ;; mret D_KEY_CHANGED
      else match status dev with
           | REVOKED => emit REVOKED_DEVICE_ATTEMPT device_id ;; mret D_REVOKED
           | TRUSTED => mret D_TRUSTED
           | PENDING => mret D_PENDING
           end
  end.

Definition new_device (public_key name : string) (now : spec_float) (s : TrustStatus)
    : TrustedDevice :=
  {| public_key := public_key; name := name; first_seen := now; last_seen := now;
     status := s; revoked_by := None; revoked_at := None; revoke_reason := None |}.

(** [policy] is [PolicyEnforcer.check_external_trust] when one is wired: whether
    it raises [ExternalTrustDeniedError]. *)
Definition record_first_seen (policy : option (string -> bool)) (now : spec_float)
    (device_id public_key name : string) : op unit :=
  device ← get_device device_id;
  raise_if (bool_decide (is_Some device)) (AlreadyKnown device_id) ;;
  raise_if (match policy with Some denies => denies device_id | None => false end)
    (PolicyDenied device_id) ;;
  _require_conn ;;
  modify (set_devices <[device_id := new_device public_key name now PENDING]>).

Definition update_device (device_id : string) (f : TrustedDevice -> TrustedDevice) : op unit :=
  _require_conn ;; modify (set_devices (alter f device_id)).

Definition touch_last_seen (now : spec_float) (device_id : string) : op unit :=
  update_device device_id (fun dev =>
    {| public_key := public_key dev; name := name dev; first_seen := first_seen dev;
       last_seen := now; status := status dev; revoked_by := revoked_by dev;
       revoked_at := revoked_at dev; revoke_reason := revoke_reason dev |}).

Definition set_status (s : TrustStatus) (dev : TrustedDevice) : TrustedDevice :=
  {| public_key := public_key dev; name := name dev; first_seen := first_seen dev;
     last_seen := last_seen dev; status := s; revoked_by := revoked_by dev;
     revoked_at := revoked_at dev; revoke_reason := revoke_reason dev |}.

Definition approve (device_id : string) : op unit :=
  device ← get_device device_id;
  match device with
  | None => raise (CannotApprove device_id)
  | Some dev =>
      raise_if (bool_decide (status dev = REVOKED)) (CannotApprove device_id) ;;
      update_device device_id (set_status TRUSTED)
  end.

Definition _set_revoked (now : spec_float) (device_id revoked_by : string)
    (reason : option string) : op unit :=
  device ← get_device device_id;
  match device with
  | None => raise (CannotRevoke device_id)
  | Some _ =>
      update_device device_id (fun dev =>
        {| public_key := public_key dev; name := name dev; first_seen := first_seen dev;
           last_seen := last_seen dev; status := REVOKED; revoked_by := Some revoked_by;
           revoked_at := Some now; revoke_reason := reason |})
  end.

Definition revoke_device (now : spec_float) (device_id revoked_by : string)
    (reason : option string) : op unit :=
  device ← get_device device_id;
  match device with
  | None => raise (CannotRevoke device_id)
  | Some dev =>
      raise_if (bool_decide (status dev = REVOKED)) (CannotRevoke device_id) ;;
      _set_revoked now device_id revoked_by reason
  end.

Definition is_revoked (device_id : string) : op bool :=
  device ← get_device device_id;
  mret (match device with Some dev => bool_decide (status dev = REVOKED) | None => false end).

(** *** Key rotation *)

Definition put_transition (now : spec_float) (cert : TransitionCertificate) : op unit :=
  modify (fun d =>
    {| connected := connected d; devices := devices d;
       transitions := <[(old_device_id cert, new_device_id cert)
                        := {| t_cert := cert; recorded_at := now |}]> (transitions d);
       events := events d |}).

(** The carry-over of TRUSTED to the new device id. *)
Definition carry_trust (now : spec_float) (cert : TransitionCertificate)
    (old_device : TrustedDevice) : op unit :=
  existing_new ← get_device (new_device_id cert);
  match existing_new with
  | None =>
      modify (set_devices
        <[new_device_id cert := new_device (new_public_key cert) (name old_device) now TRUSTED]>)
  | Some dev =>
      match status dev with
      | TRUSTED | REVOKED => mret ()
      | PENDING =>
          update_device (new_device_id cert) (fun dev =>
            {| public_key := public_key dev; name := name dev; first_seen := first_seen dev;
               last_seen := now; status := TRUSTED; revoked_by := revoked_by dev;
               revoked_at := revoked_at dev; revoke_reason := revoke_reason dev |})
      end
  end.

Section Rotations.
Context `{Ed25519}.

Definition record_rotation (now : spec_float) (cert : TransitionCertificate) : op unit :=
  if negb (verify_transition_certificate cert) then
    emit INVALID_ROTATION (old_device_id cert) ;;
    emit INVALID_ROTATION (old_device_id cert) ;;
    raise RotationError
  else
    old_device ← get_device (old_device_id cert);
    match old_device with
    | Some dev =>
        if decide (status dev = REVOKED) then
          emit REVOKED_DEVICE_ATTEMPT (old_device_id cert) ;; raise RotationError
        else
          _require_conn ;;
          raise_if (is_nan (timestamp cert)) IntegrityError ;;
          put_transition now cert ;;
          (if decide (status dev = TRUSTED) then carry_trust now cert dev else mret ()) ;;
          emit KEY_ROTATION (new_device_id cert)
    | None =>
        _require_conn ;;
        raise_if (is_nan (timestamp cert)) IntegrityError ;;
        put_transition now cert ;;
        emit KEY_ROTATION (new_device_id cert)
    end.

End Rotations.

(** The two queries of the chain walk. *)
Definition successors (ts : list (string * string)) (current : string) : list string :=
  map snd (List.filter (fun e => bool_decide (fst e = current)) ts).
Definition predecessors (ts : list (string * string)) (current : string) : list string :=
  map fst (List.filter (fun e => bool_decide (snd e = current)) ts).

(** The walk of [get_rotation_chain]: [queue] is used as a stack, its last
    element in front here. *)
Fixpoint walk (ts : list (string * string)) (fuel : nat) (visited queue : list string)
    : option (list string) :=
  match queue with
  | [] => Some visited
  | current :: queue' =>
      match fuel with
      | O => None
      | S fuel' =>
          if decide (current ∈ visited) then walk ts fuel' visited queue'
          else walk ts fuel' (current :: visited)
                 (rev (successors ts current ++ predecessors ts current) ++ queue')
      end
  end.

Definition edges (d : db) : list (string * string) := map fst (map_to_list (transitions d)).

(** The sort key of a chain member: the timestamp of a transition that introduced
    it (the row the query meets first), [0.0] when there is none. *)
Definition _order_key (d : db) (did : string) : spec_float :=
  match List.find (fun e => bool_decide (snd (fst e) = did)) (map_to_list (transitions d)) with
  | Some (_, t) => timestamp (t_cert t)
  | None => S754_zero false
  end.

Definition older (d : db) (a b : string) : bool := SFltb (_order_key d a) (_order_key d b).

Definition get_rotation_chain (device_id : string) : op (list string) :=
  _require_conn ;;
  gets (fun d =>
    sort_by (older d) (default [] (walk (edges d) (1 + 2 * length (edges d)) [] [device_id]))).

(** The loop of [check_with_rotation] over the chain: the ancestor that taints
    it, or whether a trusted device was met. *)
Fixpoint scan_chain (ds : gmap string TrustedDevice) (chain : list string)
    (chain_has_trusted : bool) : string + bool :=
  match chain with
  | [] => inr chain_has_trusted
  | chain_id :: rest =>
      match ds !! chain_id with
      | None => scan_chain ds rest chain_has_trusted
      | Some node =>
          match status node with
          | REVOKED => inl chain_id
          | TRUSTED => scan_chain ds rest true
          | PENDING => scan_chain ds rest chain_has_trusted
          end
      end
  end.

Definition check_with_rotation (device_id public_key : string) : op TrustDecision :=
  direct ← check device_id public_key;
  if decide (direct = D_KEY_CHANGED) then mret direct
  else
    chain ← get_rotation_chain device_id;
    r ← gets (fun d => scan_chain (devices d) chain false);
    match r with
    | inl _ =>
        (if decide (direct = D_REVOKED) then mret ()
         else emit REVOKED_DEVICE_ATTEMPT device_id) ;;
        mret D_REVOKED
    | inr true => mret D_TRUSTED
    | inr false => mret direct
    end.

(** *** The chain walk *)

(** The edges of which one end is still to be visited, counted per end. *)
Definition unvisited (ts : list (string * string)) (visited : list string) : nat :=
  length (List.filter (fun e => negb (bool_decide (fst e ∈ visited))) ts) +
  length (List.filter (fun e => negb (bool_decide (snd e ∈ visited))) ts).

Lemma filter_visit (f : string * string -> string) (ts : list (string * string)) c visited :
  c ∉ visited ->
  (length (List.filter (fun e => negb (bool_decide (f e ∈ c :: visited))) ts)
   + length (List.filter (fun e => bool_decide (f e = c)) ts)
   = length (List.filter (fun e => negb (bool_decide (f e ∈ visited))) ts))%nat.
Proof.
  intros Hc. induction ts as [|e ts IH]; [done|]. simpl.
  destruct (decide (f e = c)) as [He|He].
  - rewrite (bool_decide_true (f e ∈ c :: visited)) by set_solver.
    rewrite (bool_decide_true (f e = c)) by done.
    rewrite (bool_decide_false (f e ∈ visited)) by (by rewrite He). simpl. lia.
  - rewrite (bool_decide_false (f e = c)) by done.
    assert (bool_decide (f e ∈ c :: visited) = bool_decide (f e ∈ visited)) as ->
      by (apply bool_decide_ext; set_solver).
    destruct (bool_decide (f e ∈ visited)); simpl; lia.
Qed.

Lemma unvisited_visit ts c visited :
  c ∉ visited ->
  (unvisited ts (c :: visited) + length (successors ts c) + length (predecessors ts c)
   = unvisited ts visited)%nat.
Proof.
  intros Hc. unfold unvisited, successors, predecessors. rewrite !length_map.
  pose proof (filter_visit fst ts c visited Hc). pose proof (filter_visit snd ts c visited Hc).
  lia.
Qed.

(** Every step takes one element off the sum of the queue and the unvisited
    ends, so the fuel of [get_rotation_chain] is enough. *)
Lemma walk_enough ts fuel visited queue :
  (length queue + unvisited ts visited <= fuel)%nat ->
  exists r, walk ts fuel visited queue = Some r.
Proof.
  revert visited queue. induction fuel as [|fuel IH]; intros visited [|c queue] Hf; simpl in *;
    try (by eexists); [lia|].
  case_decide as Hc; [apply IH; lia|]. apply IH.
  pose proof (unvisited_visit ts c visited Hc).
  rewrite length_app, length_rev, length_app. lia.
Qed.

Lemma unvisited_nil ts : (unvisited ts [] <= 2 * length ts)%nat.
Proof.
  unfold unvisited.
  pose proof (List.filter_length_le (fun e => negb (bool_decide (fst e ∈ @nil string))) ts).
  pose proof (List.filter_length_le (fun e => negb (bool_decide (snd e ∈ @nil string))) ts).
  lia.
Qed.

(** One rotation in either direction. *)
Definition linked (ts : list (string * string)) (a b : string) : Prop :=
  (a, b) ∈ ts \/ (b, a) ∈ ts.

Lemma elem_of_neighbours ts c x :
  x ∈ successors ts c ++ predecessors ts c <-> linked ts c x.
Proof.
  unfold linked, successors, predecessors. rewrite elem_of_app, !list_elem_of_In, !in_map_iff.
  split.
  - intros [([a b] & <- & Hin)|([a b] & <- & Hin)]; apply filter_In in Hin as [Hin Heq];
      apply bool_decide_eq_true in Heq; simpl in *; subst; auto.
  - intros [Hin|Hin]; [left; exists (c, x)|right; exists (x, c)]; split; try done;
      apply filter_In; split; try done; by apply bool_decide_eq_true.
Qed.

Lemma walk_spec ts fuel visited queue r start :
  walk ts fuel visited queue = Some r ->
  NoDup visited ->
  (forall x, x ∈ visited \/ x ∈ queue -> rtc (linked ts) start x) ->
  (forall v x, v ∈ visited -> linked ts v x -> x ∈ visited \/ x ∈ queue) ->
  NoDup r /\ (forall x, x ∈ r -> rtc (linked ts) start x) /\
  (forall x, x ∈ visited \/ x ∈ queue -> x ∈ r) /\
  (forall v x, v ∈ r -> linked ts v x -> x ∈ r).
Proof.
  revert visited queue. induction fuel as [|fuel IH];
    intros visited [|c queue] Hw Hnd Hs Hcl; simpl in Hw; simplify_eq.
  1, 2: split_and!; [done|by auto|by intros x [?|?%elem_of_nil]|];
    intros v x Hv Hl; by destruct (Hcl v x Hv Hl) as [?|?%elem_of_nil].
  case_decide as Hc.
  - destruct (IH _ _ Hw Hnd) as (H1 & H2 & H3 & H4); [set_solver| |].
    { intros v x Hv Hl. destruct (Hcl v x Hv Hl) as [|Hx]; [by left|].
      apply elem_of_cons in Hx as [->|]; auto. }
    split_and!; [done|done| |done].
    intros x [Hx|Hx]; [by apply H3; left|].
    apply elem_of_cons in Hx as [->|Hx]; apply H3; auto.
  - assert (forall x, x ∈ rev (successors ts c ++ predecessors ts c) ++ queue <->
                      linked ts c x \/ x ∈ queue) as Hq.
    { intros x. rewrite elem_of_app, <- elem_of_neighbours, !list_elem_of_In, <- in_rev. done. }
    destruct (IH _ _ Hw) as (H1 & H2 & H3 & H4).
    + by constructor.
    + intros x. rewrite Hq, elem_of_cons. intros [[->|Hx]|[Hx|Hx]]; [apply Hs; set_solver
        |by apply Hs; left| |apply Hs; set_solver].
      eapply rtc_r; [|exact Hx]. apply Hs. set_solver.
    + intros v x. rewrite Hq, !elem_of_cons. intros [->|Hv] Hl; [by auto|].
      destruct (Hcl v x Hv Hl) as [|Hx]; [by auto|].
      apply elem_of_cons in Hx as [->|]; auto.
    + split_and!; [done|done| |done].
      intros x Hx. apply H3. rewrite elem_of_cons in Hx. rewrite Hq, elem_of_cons.
      naive_solver.
Qed.

Lemma get_rotation_chain_spec d device_id :
  connected d = true ->
  exists chain, get_rotation_chain device_id d = (d, Ok chain) /\ NoDup chain /\
    (forall x, x ∈ chain <-> rtc (linked (edges d)) device_id x) /\ in_order (older d) chain.
Proof.
  intros Hc. unfold get_rotation_chain, _require_conn, mbind, stm_bind. rewrite Hc.
  destruct (walk_enough (edges d) (1 + 2 * length (edges d)) [] [device_id]) as [r Hr].
  { pose proof (unvisited_nil (edges d)). simpl. lia. }
  unfold gets. rewrite Hr. exists (sort_by (older d) r). split; [done|].
  destruct (walk_spec _ _ _ _ _ device_id Hr) as (H1 & H2 & H3 & H4).
  - constructor.
  - intros x [?%elem_of_nil|Hx%list_elem_of_singleton]; [done|]. by subst.
  - by intros v x ?%elem_of_nil.
  - split; [by rewrite sort_by_perm|]. split; [|apply sort_by_in_order, (fun _ _ => SFltb_asym _ _)].
    intros x. cbn [default]. rewrite sort_by_perm. split; [apply H2|].
    intros Hx. assert (device_id ∈ r) as Hd by (apply H3; right; by apply list_elem_of_singleton).
    clear Hr H1 H2 H3. induction Hx as [|y z w Hyz _ IH]; [done|].
    apply IH. by eapply H4.
Qed.

Lemma elem_of_edges d a b : (a, b) ∈ edges d <-> is_Some (transitions d !! (a, b)).
Proof.
  unfold edges. rewrite list_elem_of_fmap. split.
  - intros ([k t] & -> & Hin). apply elem_of_map_to_list in Hin. by eexists.
  - intros [t Ht]. exists ((a, b), t). split; [done|]. by apply elem_of_map_to_list.
Qed.

(** *** What every operation keeps *)

(** A known device stays known, under the same public key, and stays revoked. *)
Definition keeps (d d' : db) : Prop :=
  forall id dev, devices d !! id = Some dev ->
    exists dev', devices d' !! id = Some dev' /\ public_key dev' = public_key dev /\
      (status dev = REVOKED -> status dev' = REVOKED).

#[export] Instance keeps_preorder : PreOrder keeps.
Proof.
  split.
  - intros d id dev Hd. by exists dev.
  - intros d1 d2 d3 H12 H23 id dev Hd.
    destruct (H12 _ _ Hd) as (dev2 & Hd2 & Hk2 & Hs2).
    destruct (H23 _ _ Hd2) as (dev3 & Hd3 & Hk3 & Hs3).
    exists dev3. split; [done|]. split; [congruence|auto].
Qed.

Lemma keeps_same_devices d d' : devices d' = devices d -> keeps d d'.
Proof. intros E id dev Hd. exists dev. by rewrite E. Qed.

Lemma within_require_conn : within keeps _require_conn.
Proof. intros d. unfold _require_conn. by destruct (connected d). Qed.

Lemma within_emit t id : within keeps (emit t id).
Proof. intros d. by apply keeps_same_devices. Qed.

Lemma within_get_device id : within keeps (get_device id).
Proof. unfold get_device. within_steps. apply within_require_conn. Qed.

Lemma keeps_alter f id d d' :
  devices d' = alter f id (devices d) ->
  (forall dev, devices d !! id = Some dev ->
     public_key (f dev) = public_key dev /\ (status dev = REVOKED -> status (f dev) = REVOKED)) ->
  keeps d d'.
Proof.
  intros E Hf id' dev Hd. rewrite E. destruct (decide (id = id')) as [->|Hne].
  - exists (f dev). rewrite lookup_alter_eq, Hd. by split; [|apply Hf].
  - exists dev. by rewrite lookup_alter_ne.
Qed.

Lemma keeps_insert id dev d d' :
  devices d' = <[id := dev]> (devices d) -> devices d !! id = None -> keeps d d'.
Proof.
  intros E Hn id' dev' Hd. exists dev'. rewrite E.
  by rewrite lookup_insert_ne by congruence.
Qed.

(** Run an operation on a state, one case per lookup and per test. *)
Ltac run_db :=
  unfold approve, revoke_device, _set_revoked, is_revoked, record_first_seen, touch_last_seen,
    check, adopt_conn, record_rotation, carry_trust, put_transition, update_device, emit,
    get_device, _require_conn, raise_if, raise, gets, modify, mbind, stm_bind, mret, stm_ret;
  repeat (cbn [negb fst snd connected devices transitions events set_devices];
    match goal with
    | |- context [if connected ?d then _ else _] => destruct (connected d) eqn:?
    | |- context [match devices ?d !! ?k with _ => _ end] => destruct (devices d !! k) eqn:?
    | p : option (string -> bool) |- _ => destruct p
    | |- context [if negb ?b then _ else _] => destruct b eqn:?
    | |- context [if ?b then _ else _] =>
        lazymatch b with context [match _ with _ => _ end] => fail | _ => destruct b eqn:? end
    | |- context [match status ?x with _ => _ end] => destruct (status x) eqn:?
    | |- context [match walk ?a ?b ?c ?e with _ => _ end] => destruct (walk a b c e) eqn:?
    | |- context [match scan_chain ?a ?b ?c with _ => _ end] => destruct (scan_chain a b c) eqn:?
    end);
  cbn [negb fst snd connected devices transitions events set_devices].

(** *** Commands *)

(** The calls the rest of the program makes on a store. *)
Inductive cmd : Type :=
| Check (device_id public_key : string)
| RecordFirstSeen (policy : option (string -> bool)) (now : spec_float)
    (device_id public_key name : string)
| TouchLastSeen (now : spec_float) (device_id : string)
| Approve (device_id : string)
| Revoke (now : spec_float) (device_id revoked_by : string) (reason : option string)
| RecordRotation (now : spec_float) (cert : TransitionCertificate)
| CheckWithRotation (device_id public_key : string)
| AdoptConn (c : bool).

Section Commands.
Context `{Ed25519}.

Definition exec (c : cmd) (d : db) : db :=
  match c with
  | Check id pk => fst (check id pk d)
  | RecordFirstSeen policy now id pk n => fst (record_first_seen policy now id pk n d)
  | TouchLastSeen now id => fst (touch_last_seen now id d)
  | Approve id => fst (approve id d)
  | Revoke now id by_ reason => fst (revoke_device now id by_ reason d)
  | RecordRotation now cert => fst (record_rotation now cert d)
  | CheckWithRotation id pk => fst (check_with_rotation id pk d)
  | AdoptConn c => fst (adopt_conn c d)
  end.

(** A sequence of calls, whatever each returns or raises. *)
Definition exec_all (cs : list cmd) (d : db) : db := fold_left (fun d c => exec c d) cs d.

(** The decision [check] makes from the device table. *)
Definition direct_decision (ds : gmap string TrustedDevice) (device_id public_key' : string)
    : TrustDecision :=
  match ds !! device_id with
  | None => D_UNKNOWN
  | Some dev =>
      if bool_decide (public_key dev = public_key') then
        match status dev with PENDING => D_PENDING | TRUSTED => D_TRUSTED | REVOKED => D_REVOKED end
      else D_KEY_CHANGED
  end.

(** Two states that differ only in the events logged. *)
Definition same_tables (d d' : db) : Prop :=
  connected d' = connected d /\ devices d' = devices d /\ transitions d' = transitions d.

Lemma check_run id pk d :
  exists d', same_tables d d' /\
    check id pk d = (d', if connected d then Ok (direct_decision (devices d) id pk)
                         else Err VaultLocked).
Proof.
  unfold direct_decision. run_db; (eexists; split; [|reflexivity]); done.
Qed.

Lemma scan_chain_spec ds chain b :
  match scan_chain ds chain b with
  | inl x => x ∈ chain /\ exists dev, ds !! x = Some dev /\ status dev = REVOKED
  | inr t =>
      (forall x dev, x ∈ chain -> ds !! x = Some dev -> status dev <> REVOKED) /\
      (t = true <-> b = true \/
        exists x dev, x ∈ chain /\ ds !! x = Some dev /\ status dev = TRUSTED)
  end.
Proof.
  revert b. induction chain as [|c chain IH]; intros b; simpl.
  { split; [by intros x dev ?%elem_of_nil|]. split; [by left|].
    intros [|(x & dev & ?%elem_of_nil & _)]; done. }
  assert (forall b' t, (forall dev, ds !! c = Some dev -> status dev <> REVOKED) ->
    (b' = true <-> b = true \/ exists dev, ds !! c = Some dev /\ status dev = TRUSTED) ->
    scan_chain ds chain b' = t ->
    match t with
    | inl x => x ∈ c :: chain /\ exists dev, ds !! x = Some dev /\ status dev = REVOKED
    | inr t =>
        (forall x dev, x ∈ c :: chain -> ds !! x = Some dev -> status dev <> REVOKED) /\
        (t = true <-> b = true \/
          exists x dev, x ∈ c :: chain /\ ds !! x = Some dev /\ status dev = TRUSTED)
    end) as Hstep.
  { intros b' t Hc Hb <-. specialize (IH b'). destruct (scan_chain ds chain b') as [x|t'].
    - destruct IH as [Hx Hr]. split; [by apply list_elem_of_further|done].
    - destruct IH as [Hn Ht]. split.
      + intros x dev Hx Hd. apply elem_of_cons in Hx as [->|Hx]; eauto.
      + rewrite Ht, Hb. split.
        * intros [[Hb'|(dev & Hd)]|(x & dev & Hx & Hd)]; [by left|right..].
          -- exists c, dev. split; [apply list_elem_of_here|done].
          -- exists x, dev. split; [by apply list_elem_of_further|done].
        * intros [Hb'|(x & dev & Hx & Hd)]; [by left; left|].
          apply elem_of_cons in Hx as [->|Hx]; [left; right; eauto|right; eauto]. }
  destruct (ds !! c) as [node|] eqn:Ec; [destruct (status node) eqn:Es|].
  - apply (Hstep b); [intros ? [= <-]; congruence| |done].
    split; [by left|]. intros [|(dev & [= <-] & ?)]; congruence.
  - apply (Hstep true); [intros ? [= <-]; congruence| |done].
    split; [|done]. right. by exists node.
  - split; [by apply list_elem_of_here|]. by exists node.
  - apply (Hstep b); [done| |done]. split; [by left|]. by intros [|(dev & ? & _)].
Qed.

Lemma check_with_rotation_run id pk d :
  exists d', same_tables d d' /\
    if connected d then
      exists chain, (forall x, x ∈ chain <-> rtc (linked (edges d)) id x) /\
      check_with_rotation id pk d =
        (d', Ok (if decide (direct_decision (devices d) id pk = D_KEY_CHANGED)
                 then D_KEY_CHANGED
                 else match scan_chain (devices d) chain false with
                      | inl _ => D_REVOKED
                      | inr true => D_TRUSTED
                      | inr false => direct_decision (devices d) id pk
                      end))
    else check_with_rotation id pk d = (d', Err VaultLocked).
Proof.
  destruct (check_run id pk d) as (d1 & Hs & Hrun). pose proof Hs as (Hc & Hd & Ht).
  destruct (connected d) eqn:Ed.
  2: { exists d1. split; [done|].
       unfold check_with_rotation, mbind, stm_bind. by rewrite Hrun. }
  destruct (get_rotation_chain_spec d1 id) as (chain & Hg & _ & Hch & _); [done|].
  assert (edges d1 = edges d) as He by (unfold edges; by rewrite Ht). rewrite He in Hch.
  unfold check_with_rotation, mbind, stm_bind. rewrite Hrun.
  case_decide as Hk; [rewrite Hk; exists d1; split; [done|by exists chain]|].
  rewrite Hg. unfold gets. rewrite Hd.
  destruct (scan_chain (devices d) chain false) as [x|[]] eqn:Esc.
  - case_decide; (eexists; split; [|exists chain; split; [done|rewrite Esc; reflexivity]]);
      [exact Hs|by rewrite <- Ed in Hc].
  - exists d1. split; [done|]. exists chain. by rewrite Esc.
  - exists d1. split; [done|]. exists chain. by rewrite Esc.
Qed.

Lemma check_devices id pk d : devices (fst (check id pk d)) = devices d.
Proof. destruct (check_run id pk d) as (d' & (_ & Hd & _) & ->). done. Qed.

Lemma check_with_rotation_devices id pk d :
  devices (fst (check_with_rotation id pk d)) = devices d.
Proof.
  destruct (check_with_rotation_run id pk d) as (d' & (_ & Hd & _) & Hr).
  destruct (connected d); [destruct Hr as (chain & _ & ->)|rewrite Hr]; done.
Qed.

(** Close a goal [keeps d d'] from the form of the new device table. *)
Ltac solve_keeps :=
  first
    [ by apply keeps_same_devices
    | eapply keeps_insert; [reflexivity|];
      first [assumption|bool_to_prop; by apply eq_None_not_Some]
    | eapply keeps_alter; [reflexivity|]; intros dev Hd; simplify_eq; bool_to_prop;
      split; [done|]; intros; first [done|congruence] ].

Lemma exec_keeps c d : keeps d (exec c d).
Proof.
  destruct c; simpl;
    try (apply keeps_same_devices; first [apply check_devices|apply check_with_rotation_devices]).
  all: run_db; solve_keeps.
Qed.

Lemma exec_all_keeps cs d : keeps d (exec_all cs d).
Proof.
  revert d. induction cs as [|c cs IH]; intros d; simpl; [done|].
  transitivity (exec c d); [apply exec_keeps|apply IH].
Qed.

End Commands.

(** *** Certificates *)

(** A byte string without NUL is delimited by the NUL that follows it. *)
Lemma nul_split a b x y :
  ~ In Byte.x00 a -> ~ In Byte.x00 b ->
  a ++ [Byte.x00] ++ x = b ++ [Byte.x00] ++ y -> a = b /\ x = y.
Proof.
  revert b. induction a as [|c a IH]; intros [|c' b] Ha Hb E; simpl in *; simplify_eq.
  - done.
  - exfalso. apply Hb. by left.
  - exfalso. apply Ha. by left.
  - destruct (IH b) as [-> ->]; [tauto|tauto|done|done].
Qed.

Definition nul_free (s : string) : Prop := ~ In Byte.x00 (str_bytes s).

Lemma build_payload_inj o1 n1 ok1 nk1 t1 o2 n2 ok2 nk2 t2 :
  nul_free o1 -> nul_free n1 -> nul_free ok1 -> nul_free nk1 ->
  nul_free o2 -> nul_free n2 -> nul_free ok2 -> nul_free nk2 ->
  _build_payload o1 n1 ok1 nk1 t1 = _build_payload o2 n2 ok2 nk2 t2 ->
  o1 = o2 /\ n1 = n2 /\ ok1 = ok2 /\ nk1 = nk2 /\ pack_double t1 = pack_double t2.
Proof.
  intros Ho1 Hn1 Hok1 Hnk1 Ho2 Hn2 Hok2 Hnk2 E. unfold _build_payload in E.
  apply app_inv_head in E.
  apply nul_split in E as [E1 E]; [|done..]. apply nul_split in E as [E2 E]; [|done..].
  apply nul_split in E as [E3 E]; [|done..]. apply nul_split in E as [E4 E]; [|done..].
  apply str_bytes_inj in E1, E2, E3, E4. done.
Qed.

Lemma verify_signed `{Ed25519Laws} sk old_id new_id new_pk ts :
  verify_transition_certificate
    {| old_device_id := old_id; old_public_key := b64_text (ed_public sk);
       new_device_id := new_id; new_public_key := new_pk; timestamp := ts;
       signature := b64_text (ed_sign sk
         (_build_payload old_id new_id (b64_text (ed_public sk)) new_pk ts)) |} = true.
Proof.
  unfold verify_transition_certificate, b64_text. cbn [old_public_key signature].
  rewrite !String.list_byte_of_string_of_list_byte, !b64decode_b64encode.
  unfold public_key_from_bytes. rewrite decide_True by apply ed_public_length.
  apply ed_verify_sign.
Qed.

(** A verified certificate from a trusted device makes an unknown one trusted. *)
Lemma record_rotation_trusts `{Ed25519} now cert d old :
  verify_transition_certificate cert = true -> is_nan (timestamp cert) = false ->
  connected d = true ->
  devices d !! old_device_id cert = Some old -> status old = TRUSTED ->
  devices d !! new_device_id cert = None ->
  snd (record_rotation now cert d) = Ok () /\
  direct_decision (devices (fst (record_rotation now cert d))) (new_device_id cert)
    (new_public_key cert) = D_TRUSTED.
Proof.
  intros Hv Hnan Hc Hd Hs Hn.
  assert (exists d', record_rotation now cert d = (d', Ok ()) /\
    devices d' !! new_device_id cert
      = Some (new_device (new_public_key cert) (name old) now TRUSTED)) as (d' & -> & Hd').
  { run_db; try congruence. simplify_eq. eexists. split; [reflexivity|].
    apply lookup_insert_eq. }
  split; [done|]. unfold direct_decision. simpl. by rewrite Hd', bool_decide_true.
Qed.

(** A certificate naming [victim] as the old device, signed with another key. *)
Definition forged_cert `{Ed25519} (victim : string) (attacker_sk : ed_private)
    (new_id new_pk : string) (ts : spec_float) : TransitionCertificate :=
  {| old_device_id := victim; old_public_key := b64_text (ed_public attacker_sk);
     new_device_id := new_id; new_public_key := new_pk; timestamp := ts;
     signature := b64_text (ed_sign attacker_sk
       (_build_payload victim new_id (b64_text (ed_public attacker_sk)) new_pk ts)) |}.

(** Some device of the rotation chain of [id] has status [s]. *)
Definition chain_has (d : db) (id : string) (s : TrustStatus) : Prop :=
  exists x dev, rtc (linked (edges d)) id x /\ devices d !! x = Some dev /\ status dev = s.

(** *** Properties *)

(** C36: revocation is permanent.  After any sequence of calls on the store
    (approvals, first sightings, rotations with any certificate, further
    revocations, a locked and unlocked vault), a device that was REVOKED is still
    there under the same public key and REVOKED, and [check_with_rotation] never
    answers TRUSTED for it. *)
Theorem revoked_forever `{Ed25519} d id dev cs pk :
  devices d !! id = Some dev -> status dev = REVOKED ->
  (exists dev', devices (exec_all cs d) !! id = Some dev' /\
     public_key dev' = public_key dev /\ status dev' = REVOKED) /\
  snd (check_with_rotation id pk (exec_all cs d)) <> Ok D_TRUSTED.
Proof.
  intros Hd Hs. destruct (exec_all_keeps cs d _ _ Hd) as (dev' & Hd' & Hk & Hr).
  specialize (Hr Hs). split; [by exists dev'|].
  destruct (check_with_rotation_run id pk (exec_all cs d)) as (d2 & _ & Hrun).
  destruct (connected _); [destruct Hrun as (chain & Hch & ->)|by rewrite Hrun].
  simpl. case_decide; [done|].
  pose proof (scan_chain_spec (devices (exec_all cs d)) chain false) as Hsc.
  destruct (scan_chain _ _ _) as [x|t]; [done|]. destruct Hsc as [Hn _].
  destruct (Hn id dev' (proj2 (Hch id) (rtc_refl _ _)) Hd' Hr).
Qed.


(** The rotation chain.  [get_rotation_chain] always terminates, returns each
    device id once, returns exactly the device ids connected to the given one by
    recorded rotations, in either direction, and lists them from the oldest to the
    newest. *)
Theorem rotation_chain_component d device_id :
  connected d = true ->
  exists chain, get_rotation_chain device_id d = (d, Ok chain) /\ NoDup chain /\
    (forall x, x ∈ chain <->
      rtc (fun a b => is_Some (transitions d !! (a, b)) \/ is_Some (transitions d !! (b, a)))
        device_id x) /\
    in_order (older d) chain.
Proof.
  intros Hc. destruct (get_rotation_chain_spec d device_id Hc) as (chain & Hg & Hnd & Hch & Ho).
  exists chain. split; [done|]. split; [done|]. split; [|done]. intros x. rewrite Hch.
  split; apply rtc_subrel; intros a b; unfold linked; by rewrite !elem_of_edges.
Qed.

(** What [check_with_rotation] decides: KEY_CHANGED for another key than
    the stored one; otherwise REVOKED if and only if some device of the rotation
    chain is revoked; otherwise TRUSTED if some device of the chain is trusted;
    otherwise what [check] says.  The tables are not changed. *)
Theorem check_with_rotation_spec d id pk :
  connected d = true ->
  exists d' dec, check_with_rotation id pk d = (d', Ok dec) /\ same_tables d d' /\
    (direct_decision (devices d) id pk = D_KEY_CHANGED -> dec = D_KEY_CHANGED) /\
    (direct_decision (devices d) id pk <> D_KEY_CHANGED ->
       (dec = D_REVOKED <-> chain_has d id REVOKED) /\
       (~ chain_has d id REVOKED ->
          (chain_has d id TRUSTED -> dec = D_TRUSTED) /\
          (~ chain_has d id TRUSTED -> dec = direct_decision (devices d) id pk))).
Proof.
  intros Hc. destruct (check_with_rotation_run id pk d) as (d' & Hs & Hrun).
  rewrite Hc in Hrun. destruct Hrun as (chain & Hch & Hrun).
  eexists d', _. split; [exact Hrun|]. split; [done|].
  pose proof (scan_chain_spec (devices d) chain false) as Hsc.
  case_decide as Hk; [done|]. split; [done|]. intros _.
  destruct (scan_chain (devices d) chain false) as [x|t].
  - destruct Hsc as (Hx & dev & Hd & Hr). apply Hch in Hx.
    assert (chain_has d id REVOKED) by (by exists x, dev). by split.
  - destruct Hsc as [Hn Ht].
    assert (~ chain_has d id REVOKED) as Hnr.
    { intros (x & dev & Hx & Hd & Hr). apply Hch in Hx. by destruct (Hn x dev). }
    assert (chain_has d id TRUSTED <-> t = true) as Htt.
    { rewrite Ht. split.
      - intros (x & dev & Hx & Hd). right. exists x, dev. by rewrite Hch.
      - intros [|(x & dev & Hx & Hd)]; [done|]. exists x, dev. by rewrite <- Hch. }
    split.
    + split; [|by intros ?%Hnr]. destruct t; [done|]. intros Hd.
      destruct (devices d !! id) as [dev|] eqn:Ed; unfold direct_decision in Hd; rewrite Ed in Hd;
        [|done]. exists id, dev. split; [by constructor|]. split; [done|].
      case_bool_decide; [|done]. by destruct (status dev).
    + intros _. rewrite Htt. by destruct t; split; intros.
Qed.

(** A rotation certificate the program creates for two different devices
    verifies, and the store that trusts the old device then trusts the new one
    under its own key. *)
Theorem rotation_carries_trust `{Ed25519Laws, Sha256} old_sk new_sk old_keypair new_keypair
    ts now d old :
  old_keypair = _keypair_from_private_key old_sk ->
  new_keypair = _keypair_from_private_key new_sk ->
  device_id old_keypair <> device_id new_keypair -> is_nan ts = false ->
  connected d = true ->
  devices d !! device_id old_keypair = Some old -> status old = TRUSTED ->
  devices d !! device_id new_keypair = None ->
  exists cert, create_transition_certificate old_keypair new_keypair ts = Some cert /\
    verify_transition_certificate cert = true /\
    snd (record_rotation now cert d) = Ok () /\
    direct_decision (devices (fst (record_rotation now cert d))) (device_id new_keypair)
      (b64_text (public_key_bytes new_keypair)) = D_TRUSTED.
Proof.
  intros Hold Hnew Hne Hnan Hc Hd Hs Hn.
  unfold create_transition_certificate. rewrite decide_False by done.
  eexists. split; [reflexivity|]. set (cert := mk_cert _ _ _ _ _ _).
  assert (verify_transition_certificate cert = true) as Hv by (subst; apply verify_signed).
  split; [done|]. by apply (record_rotation_trusts now cert d old).
Qed.

(** A rotation certificate is checked against the public key it carries,
    never against the key stored for the old device.  Whoever owns any key pair can
    take the device id of a TRUSTED device, sign a certificate with their own key,
    and the store trusts the new device id of their choice under their own key. *)
Theorem forged_rotation_accepted `{Ed25519Laws} d victim old attacker_sk new_id new_pk ts now :
  connected d = true ->
  devices d !! victim = Some old -> status old = TRUSTED ->
  devices d !! new_id = None -> is_nan ts = false ->
  snd (record_rotation now (forged_cert victim attacker_sk new_id new_pk ts) d) = Ok () /\
  direct_decision
    (devices (fst (record_rotation now (forged_cert victim attacker_sk new_id new_pk ts) d)))
    new_id new_pk = D_TRUSTED.
Proof.
  intros Hc Hd Hs Hn Hnan.
  apply (record_rotation_trusts now (forged_cert victim attacker_sk new_id new_pk ts) d old);
    try done. apply verify_signed.
Qed.

(** *** Evaluations *)

#[local] Existing Instances Sample.ed25519 Sample.ed25519_laws Sample.sha Sample.sha_laws.

Definition zero : spec_float := S754_zero false.

Definition example_db (known : list (string * TrustedDevice)) : db :=
  {| connected := true; devices := list_to_map known; transitions := ∅; events := [] |}.

Definition revoked_dev : TrustedDevice := new_device "k" "n" zero REVOKED.

Lemma revoked_forever_witness :
  (exists dev', devices (exec_all [Approve "a"; RecordFirstSeen None zero "a" "k2" "m"]
                           (example_db [("a"%string, revoked_dev)])) !! "a"%string = Some dev' /\
     public_key dev' = "k"%string /\ status dev' = REVOKED) /\
  snd (check_with_rotation "a" "k"
         (exec_all [Approve "a"; RecordFirstSeen None zero "a" "k2" "m"]
            (example_db [("a"%string, revoked_dev)]))) <> Ok D_TRUSTED.
Proof. apply (revoked_forever _ "a" revoked_dev); vm_compute; reflexivity. Defined.

Definition pending_dev : TrustedDevice := new_device "k" "n" zero PENDING.
Definition trusted_dev : TrustedDevice := new_device "k" "n" zero TRUSTED.


Lemma rotation_chain_component_witness :
  exists chain, get_rotation_chain "a" (example_db []) = (example_db [], Ok chain) /\
    NoDup chain /\
    (forall x, x ∈ chain <->
      rtc (fun a b => is_Some (transitions (example_db []) !! (a, b)) \/
                      is_Some (transitions (example_db []) !! (b, a))) "a"%string x) /\
    in_order (older (example_db [])) chain.
Proof. apply rotation_chain_component. reflexivity. Defined.

Lemma check_with_rotation_spec_witness :
  exists d' dec, check_with_rotation "a" "k" (example_db [("a"%string, trusted_dev)]) = (d', Ok dec).
Proof.
  edestruct (check_with_rotation_spec (example_db [("a"%string, trusted_dev)]) "a" "k")
    as (d' & dec & Hrun & _); [reflexivity|eauto].
Defined.

Definition sample_key (z : Z) : @ed_private Sample.ed25519 := z.

Definition alice : DeviceKeypair := _keypair_from_private_key (sample_key 7).
Definition alice2 : DeviceKeypair := _keypair_from_private_key (sample_key 8).

Lemma rotation_carries_trust_witness :
  exists cert, create_transition_certificate alice alice2 zero = Some cert /\
    verify_transition_certificate cert = true /\
    snd (record_rotation zero cert (example_db [(device_id alice, trusted_dev)])) = Ok () /\
    direct_decision
      (devices (fst (record_rotation zero cert (example_db [(device_id alice, trusted_dev)]))))
      (device_id alice2) (b64_text (public_key_bytes alice2)) = D_TRUSTED.
Proof.
  apply (rotation_carries_trust (sample_key 7) (sample_key 8) alice alice2 zero zero
           (example_db [(device_id alice, trusted_dev)]) trusted_dev).
  - exact eq_refl.
  - exact eq_refl.
  - intros E. vm_compute in E. discriminate E.
  - exact eq_refl.
  - exact eq_refl.
  - vm_compute. exact eq_refl.
  - exact eq_refl.
  - vm_compute. exact eq_refl.
Defined.

Lemma forged_rotation_accepted_witness :
  snd (record_rotation zero (forged_cert "victim" (sample_key 666) "attacker" "key" zero)
         (example_db [("victim"%string, trusted_dev)])) = Ok () /\
  direct_decision
    (devices (fst (record_rotation zero
       (forged_cert "victim" (sample_key 666) "attacker" "key" zero)
       (example_db [("victim"%string, trusted_dev)])))) "attacker" "key" = D_TRUSTED.
Proof.
  apply (forged_rotation_accepted (example_db [("victim"%string, trusted_dev)]) "victim"
           trusted_dev (sample_key 666) "attacker" "key" zero zero);
    vm_compute; reflexivity.
Defined.

End Store.
