(* ===== verification/Group.v ===== *)
(** * Group authority: the signed objects

    Models [core/group/membership.py] (module [Membership]), [core/group/admin.py]
    (module [Admin]), [core/group/audit.py] (module [Audit]), the policy schema of
    [core/group/policy.py] (module [Policy]), [core/group/export_auth.py] (module
    [ExportAuth]) and [core/group/protocol.py] (module [Protocol]).  The store and the
    enforcement of policies are in [GroupStore] and [GroupPolicy].

    A dataclass is a record in a module of its own, so that fields keep their names.
    The clock and the fresh identifiers are arguments.  A [verify_] function gives its
    verdict; the security event it emits on failure is added by the caller. *)

From Corelib Require Import SpecFloat.
From S2P Require Import Prelude Text Json Crypto Canonical Security Messages Trust.
Import Identity Rotation.
Local Open Scope peerc_scope.
Local Open Scope Z_scope.

Definition opt_time (t : option spec_float) : json :=
  match t with Some f => JFloat f | None => JNull end.

(** [base64.b64decode] of a text. *)
Definition decode_text (s : string) : option bytes := b64decode (str_bytes s).

(** [public_key_from_bytes(pk).verify(b64decode(sig), payload)], [false] when any of
    the three raises. *)
Definition signature_valid `{Ed25519} (public_key : bytes) (signature_b64 : string)
    (payload : bytes) : bool :=
  match public_key_from_bytes public_key, decode_text signature_b64 with
  | Some pk, Some sig => ed_verify pk sig payload
  | _, _ => false
  end.

(** ** Membership certificates *)
Module Membership.

Definition _MEMBERSHIP_DOMAIN : bytes := lit "peerc-group-membership" ++ NUL.
Definition DEFAULT_ROLE : string := "member".

Module Grp.
Record Group := mk {
  group_id : string;
  name : string;
  admin_device_id : string;
  admin_public_key : string;
  created_at : spec_float
}.
End Grp.

Module Cert.
Record MembershipCertificate := mk {
  device_id : string;
  device_public_key : string;
  group_id : string;
  role : string;
  permissions : list string;
  issued_at : spec_float;
  expires_at : option spec_float;
  admin_device_id : string;
  signature : string;
  status : string
}.

Definition to_dict (c : MembershipCertificate) : dict :=
  [("device_id", JStr (device_id c)); ("device_public_key", JStr (device_public_key c));
   ("group_id", JStr (group_id c)); ("role", JStr (role c));
   ("permissions", JList (map JStr (permissions c))); ("issued_at", JFloat (issued_at c));
   ("expires_at", opt_time (expires_at c)); ("admin_device_id", JStr (admin_device_id c));
   ("signature", JStr (signature c))]%string.

Definition from_dict : read MembershipCertificate := fun d =>
  let? device_id := text_at "device_id" d in
  let? device_public_key := text_at "device_public_key" d in
  let? group_id := text_at "group_id" d in
  let? role := text_at "role" d in
  let? permissions := texts_or_nil "permissions" d in
  let? issued_at := float_at "issued_at" d in
  let? expires_at := opt_float "expires_at" d in
  let? admin_device_id := text_at "admin_device_id" d in
  let? signature := text_or "signature" "" d in
  let? status := text_or "status" "active" d in
  Ok (mk device_id device_public_key group_id role permissions issued_at expires_at
        admin_device_id signature status).
End Cert.

Abbreviation Group := Grp.Group.
Abbreviation MembershipCertificate := Cert.MembershipCertificate.

Definition minus_one : spec_float := S754_finite true 4503599627370496 (-52).

Definition _build_payload (device_id device_public_key_b64 group_id role : string)
    (permissions : list string) (issued_at : spec_float) (expires_at : option spec_float)
    (admin_device_id : string) : bytes :=
  let permissions_str := join "," (sort_strings permissions) in
  let expires_marker := default minus_one expires_at in
  _MEMBERSHIP_DOMAIN ++ str_bytes device_id ++ NUL ++ str_bytes device_public_key_b64 ++ NUL
    ++ str_bytes group_id ++ NUL ++ str_bytes role ++ NUL ++ str_bytes permissions_str ++ NUL
    ++ str_bytes admin_device_id ++ NUL ++ pack_double issued_at ++ pack_double expires_marker.

Definition cert_payload (c : MembershipCertificate) : bytes :=
  _build_payload (Cert.device_id c) (Cert.device_public_key c) (Cert.group_id c) (Cert.role c)
    (Cert.permissions c) (Cert.issued_at c) (Cert.expires_at c) (Cert.admin_device_id c).

(** [time.time() > cert.expires_at], when there is an expiry. *)
Definition is_membership_expired (now : spec_float) (c : MembershipCertificate) : bool :=
  match Cert.expires_at c with Some e => SFltb e now | None => false end.

Section Crypto.
Context `{Ed25519, Sha256}.

Definition create_group (now : spec_float) (fresh_id : string) (admin_keypair : DeviceKeypair)
    (name : string) (group_id : option string) : Group :=
  {| Grp.group_id := or_empty (or_text group_id (Some fresh_id));
     Grp.name := name;
     Grp.admin_device_id := device_id admin_keypair;
     Grp.admin_public_key := b64_text (public_key_bytes admin_keypair);
     Grp.created_at := now |}.

(** [None] is the [MembershipError]. *)
Definition issue_membership_certificate (now : spec_float) (admin_keypair : DeviceKeypair)
    (dev_id : string) (device_public_key : bytes) (group_id role : string)
    (permissions : list string) (ttl_seconds : option spec_float)
    : option MembershipCertificate :=
  if text_is_empty dev_id || text_is_empty group_id then None
  else
    let device_pub_b64 := b64_text device_public_key in
    let expires_at := (fun ttl => SFadd 53 1024 now ttl) <$> ttl_seconds in
    let payload := _build_payload dev_id device_pub_b64 group_id role permissions now
                     expires_at (device_id admin_keypair) in
    Some {| Cert.device_id := dev_id; Cert.device_public_key := device_pub_b64;
            Cert.group_id := group_id; Cert.role := role; Cert.permissions := permissions;
            Cert.issued_at := now; Cert.expires_at := expires_at;
            Cert.admin_device_id := device_id admin_keypair;
            Cert.signature := b64_text (sign admin_keypair payload);
            Cert.status := "active" |}.

Definition verify_membership_certificate (c : MembershipCertificate) (admin_public_key : bytes)
    : bool :=
  signature_valid admin_public_key (Cert.signature c) (cert_payload c).

End Crypto.
End Membership.

(** ** Administrators and threshold approvals *)
Module Admin.

Definition _ADMIN_APPROVAL_DOMAIN : bytes := lit "peerc-group-admin-approval" ++ NUL.

Inductive AdminStatus : Type := ACTIVE | REMOVED.

#[global] Instance admin_status_eq : EqDecision AdminStatus.
Proof. solve_decision. Defined.

Record AdminRecord := mk_admin {
  group_id : string;
  admin_id : string;              (** [device_id] *)
  public_key : string;
  added_at : spec_float;
  added_by : option string;
  status : AdminStatus;
  removed_at : option spec_float;
  removed_by : option string
}.

Module Approval.
Record ThresholdApproval := mk {
  group_id : string;
  action_id : string;
  action_payload : bytes;
  required_threshold : Z;
  signatures : list (string * string);
  created_at : spec_float
}.
End Approval.
Abbreviation ThresholdApproval := Approval.ThresholdApproval.

Inductive AdminError : Type := BadThreshold | MissingIds | AlreadySigned | PayloadTooLong.

Definition create_threshold_approval (now : spec_float) (group_id action_id : string)
    (action_payload : bytes) (required_threshold : Z) : result AdminError ThresholdApproval :=
  raise? required_threshold <? 1 with BadThreshold ;;
  raise? text_is_empty group_id || text_is_empty action_id with MissingIds ;;
  Ok (Approval.mk group_id action_id action_payload required_threshold [] now).

Definition _approval_payload (group_id action_id : string) (action_payload : bytes)
    : option bytes :=
  cat [Some _ADMIN_APPROVAL_DOMAIN; prefixed (str_bytes group_id);
       prefixed (str_bytes action_id); prefixed action_payload].

(** [approval.signatures.get(device_id)]. *)
Fixpoint sig_get (k : string) (l : list (string * string)) : option string :=
  match l with
  | [] => None
  | (k', v) :: l' => if decide (k = k') then Some v else sig_get k l'
  end.

Section Crypto.
Context `{Ed25519, Sha256}.

Definition approval_payload (a : ThresholdApproval) : option bytes :=
  _approval_payload (Approval.group_id a) (Approval.action_id a) (Approval.action_payload a).

Definition sign_approval (a : ThresholdApproval) (admin_keypair : DeviceKeypair)
    : result AdminError ThresholdApproval :=
  match sig_get (device_id admin_keypair) (Approval.signatures a) with
  | Some _ => Err AlreadySigned
  | None =>
      match approval_payload a with
      | None => Err PayloadTooLong
      | Some payload =>
          Ok (Approval.mk (Approval.group_id a) (Approval.action_id a)
                (Approval.action_payload a) (Approval.required_threshold a)
                (Approval.signatures a
                   ++ [(device_id admin_keypair, b64_text (sign admin_keypair payload))])
                (Approval.created_at a))
      end
  end.

Definition verify_approval_signature (a : ThresholdApproval) (dev_id : string)
    (public_key : bytes) : bool :=
  match sig_get dev_id (Approval.signatures a), approval_payload a with
  | Some sig, Some payload => signature_valid public_key sig payload
  | _, _ => false
  end.

(** [active_admins] by its items, in order. *)
Definition count_valid_signatures (a : ThresholdApproval) (active_admins : list (string * bytes))
    : Z :=
  zlen (List.filter (fun dk => verify_approval_signature a (fst dk) (snd dk)) active_admins).

Definition is_approved (a : ThresholdApproval) (active_admins : list (string * bytes)) : bool :=
  Approval.required_threshold a <=? count_valid_signatures a active_admins.

End Crypto.
End Admin.

(** ** Signed audit events *)
Module Audit.
Import Security.

Section Crypto.
Context `{Ed25519, Sha256, LowerCase, CompactJson}.

Definition sign_audit_event (e : SecurityEvent) (admin_keypair : DeviceKeypair) : SecurityEvent :=
  {| event_type := event_type e; severity := severity e; description := description e;
     Security.device_id := Security.device_id e; timestamp := timestamp e;
     details := details e;
     signature := Some (b64_text (sign admin_keypair (canonical_payload e)));
     signer_device_id := Some (Identity.device_id admin_keypair) |}.

Definition verify_audit_event (e : SecurityEvent) (admin_public_key : bytes) : bool :=
  match or_text (signature e) None with
  | None => false
  | Some sig =>
      match or_text (signer_device_id e) None with
      | Some signer =>
          bool_decide (signer = compute_device_id admin_public_key)
          && signature_valid admin_public_key sig (canonical_payload e)
      | None => signature_valid admin_public_key sig (canonical_payload e)
      end
  end.

(** [None] is the [AuditError]. *)
Definition create_group_audit_event (now : spec_float) (group_id : string)
    (event_type : SecurityEventType) (description : string) (severity : SecuritySeverity)
    (dev_id actor_device_id : option string) (extra : dict)
    (admin_keypair : option DeviceKeypair) : option SecurityEvent :=
  if text_is_empty group_id then None
  else
    let event_details := [("group_id", JStr group_id)]%string in
    let event_details :=
      match or_text actor_device_id None with
      | Some actor => dict_set "actor_device_id" (JStr actor) event_details
      | None => event_details
      end in
    let event_details := dict_update event_details extra in
    let ev := make_event (type_value event_type) severity description
                (or_text dev_id actor_device_id) now event_details in
    Some (match admin_keypair with Some k => sign_audit_event ev k | None => ev end).

(** [active_admins.get(signer)], a key that is not empty. *)
Fixpoint key_get (k : string) (l : list (string * bytes)) : option bytes :=
  match l with
  | [] => None
  | (k', v) :: l' => if decide (k = k') then Some v else key_get k l'
  end.

Definition verify_group_audit_event (e : SecurityEvent) (active_admins : list (string * bytes))
    : bool :=
  match or_text (signature e) None, or_text (signer_device_id e) None with
  | Some _, Some signer =>
      match key_get signer active_admins with
      | None | Some [] => false
      | Some admin_pub => verify_audit_event e admin_pub
      end
  | _, _ => false
  end.

End Crypto.
End Audit.

(** ** Policies *)
Module Policy.

Definition _POLICY_DOMAIN : bytes := lit "peerc-group-policy" ++ NUL.

Inductive PolicyEffect : Type := ALLOW | DENY.

#[global] Instance policy_effect_eq : EqDecision PolicyEffect.
Proof. solve_decision. Defined.

Definition effect_value (e : PolicyEffect) : string :=
  match e with ALLOW => "allow" | DENY => "deny" end%string.

(** [PolicyEffect(text)], [None] for [ValueError]. *)
Definition effect_of (s : string) : option PolicyEffect :=
  if decide (s = "allow"%string) then Some ALLOW
  else if decide (s = "deny"%string) then Some DENY else None.

Definition effect_or (f : string) : read PolicyEffect := fun d =>
  let? s := text_or f (effect_value ALLOW) d in
  match effect_of s with Some e => Ok e | None => Err (BadValue f) end.

Module Rule.
Record CommunicationRule := mk {
  source : string;
  destination : string;
  action : string;
  effect : PolicyEffect
}.

Definition to_dict (r : CommunicationRule) : dict :=
  [("source", JStr (source r)); ("destination", JStr (destination r));
   ("action", JStr (action r)); ("effect", JStr (effect_value (effect r)))]%string.

Definition from_dict : read CommunicationRule := fun d =>
  let? source := text_at "source" d in
  let? destination := text_at "destination" d in
  let? action := text_or "action" "*" d in
  let? effect := effect_or "effect" d in
  Ok (mk source destination action effect).
End Rule.
Abbreviation CommunicationRule := Rule.CommunicationRule.

(** One communication attempt: who talks to whom, and about what. *)
Record attempt := mk_attempt {
  at_action : string;
  source_device_id : string;
  dest_device_id : string;
  source_role : option string;
  dest_role : option string;
  source_group_id : option string;
  dest_group_id : option string
}.

(** One side of a rule against a device, its role and its group. *)
Definition side_matches `{LowerCase} (pattern device : string) (role group : option string)
    : bool :=
  let p := str_lower pattern in
  bool_decide (p = "*"%string) || bool_decide (p = str_lower device)
  || match role with Some r => bool_decide (p = str_lower r) | None => false end
  || match group with Some g => bool_decide (p = str_lower g) | None => false end.

Definition matches `{LowerCase} (r : CommunicationRule) (a : attempt) : bool :=
  if negb (bool_decide (Rule.action r = "*"%string))
     && negb (bool_decide (str_lower (Rule.action r) = str_lower (at_action a))) then false
  else if negb (side_matches (Rule.source r) (source_device_id a) (source_role a)
                  (source_group_id a)) then false
  else side_matches (Rule.destination r) (dest_device_id a) (dest_role a) (dest_group_id a).

Module Pol.
Record GroupPolicy := mk {
  group_id : string;
  allow_external_trust : bool;
  allow_export : bool;
  leave_requires_admin : bool;
  allow_inter_group : bool;
  communication_matrix : list CommunicationRule;
  default_communication_effect : PolicyEffect;
  version : Z;
  updated_at : spec_float;
  admin_device_id : option string;
  signature : option string
}.

Definition matrix_json (p : GroupPolicy) : json :=
  JList (map (fun r => JObj (Rule.to_dict r)) (communication_matrix p)).

Definition to_dict (p : GroupPolicy) : dict :=
  [("group_id", JStr (group_id p)); ("allow_external_trust", JBool (allow_external_trust p));
   ("allow_export", JBool (allow_export p));
   ("leave_requires_admin", JBool (leave_requires_admin p));
   ("allow_inter_group", JBool (allow_inter_group p));
   ("communication_matrix", matrix_json p);
   ("default_communication_effect", JStr (effect_value (default_communication_effect p)));
   ("version", JInt (version p)); ("updated_at", JFloat (updated_at p));
   ("admin_device_id", Factories.opt_str (admin_device_id p));
   ("signature", Factories.opt_str (signature p))]%string.

(** [[from_dict(r) if isinstance(r, dict) else r for r in l]] and the filter of
    [__post_init__]: what is not a dict is dropped. *)
Fixpoint parse_rules (l : list json) : result dict_error (list CommunicationRule) :=
  match l with
  | [] => Ok []
  | JObj d :: l' => let? r := Rule.from_dict d in let? rs := parse_rules l' in Ok (r :: rs)
  | _ :: l' => parse_rules l'
  end.

Definition rules_at (f : string) : read (list CommunicationRule) := fun d =>
  match jget f d with
  | None => Ok []
  | Some (JList l) => parse_rules l
  | Some _ => Err (NotAnnotated f)
  end.

Definition int_or (f : string) (default : Z) : read Z := fun d =>
  match jget f d with
  | None => Ok default
  | Some (JInt z) => Ok z
  | Some (JBool b) => Ok (Z.b2z b)
  | Some _ => Err (NotAnnotated f)
  end.

Definition from_dict (now : spec_float) : read GroupPolicy := fun d =>
  let? rules := rules_at "communication_matrix" d in
  let? group_id := text_at "group_id" d in
  let? allow_external_trust := bool_or "allow_external_trust" true d in
  let? allow_export := bool_or "allow_export" true d in
  let? leave_requires_admin := bool_or "leave_requires_admin" false d in
  let? allow_inter_group := bool_or "allow_inter_group" true d in
  let? effect := effect_or "default_communication_effect" d in
  let? version := int_or "version" 1 d in
  let? updated_at := float_or "updated_at" now d in
  let? admin_device_id := opt_text "admin_device_id" d in
  let? signature := opt_text "signature" d in
  Ok (mk group_id allow_external_trust allow_export leave_requires_admin allow_inter_group
        rules effect version updated_at admin_device_id signature).

Definition flags (p : GroupPolicy) : Z :=
  Z.lor (Z.lor (Z.lor (Z.b2z (allow_external_trust p)) (Z.shiftl (Z.b2z (allow_export p)) 1))
           (Z.shiftl (Z.b2z (leave_requires_admin p)) 2))
        (Z.shiftl (Z.b2z (allow_inter_group p)) 3).

(** [None] is the [struct.error] of a version outside 32 bits. *)
Definition canonical_payload `{CompactJson} (p : GroupPolicy) : option bytes :=
  cat [Some _POLICY_DOMAIN; prefixed (str_bytes (group_id p)); pack_u32 (version p);
       pack_u32 (flags p);
       Some (str_bytes (effect_value (default_communication_effect p)) ++ NUL);
       prefixed (str_bytes (or_empty (admin_device_id p)));
       prefixed (canonical_json (matrix_json p))].
End Pol.
Abbreviation GroupPolicy := Pol.GroupPolicy.

End Policy.

(** ** Export authorization *)
Module ExportAuth.

Definition _REQUEST_DOMAIN : bytes := lit "peerc-group-export-request" ++ NUL.
Definition _CAPABILITY_DOMAIN : bytes := lit "peerc-group-export-capability" ++ NUL.
Definition ACTION_EXPORT : string := "EXPORT".

(** [300.0]. *)
Definition DEFAULT_CAPABILITY_TTL : spec_float := S754_finite false 5277655813324800 (-44).

Module Req.
Record ExportRequest := mk {
  request_id : string;
  device_id : string;
  device_public_key : string;
  group_id : string;
  file_id : string;
  action : string;
  timestamp : spec_float;
  reason : option string;
  signature : option string
}.

Definition canonical_payload (r : ExportRequest) : option bytes :=
  cat [Some _REQUEST_DOMAIN; prefixed (str_bytes (request_id r));
       prefixed (str_bytes (device_id r)); prefixed (str_bytes (group_id r));
       prefixed (str_bytes (file_id r)); prefixed (str_bytes (action r));
       Some (pack_double (timestamp r)); prefixed (str_bytes (or_empty (reason r)))].

Definition to_dict (r : ExportRequest) : dict :=
  [("request_id", JStr (request_id r)); ("device_id", JStr (device_id r));
   ("device_public_key", JStr (device_public_key r)); ("group_id", JStr (group_id r));
   ("file_id", JStr (file_id r)); ("action", JStr (action r));
   ("timestamp", JFloat (timestamp r)); ("reason", Factories.opt_str (reason r));
   ("signature", Factories.opt_str (signature r))]%string.

Definition from_dict : read ExportRequest := fun d =>
  let? request_id := text_at "request_id" d in
  let? device_id := text_at "device_id" d in
  let? device_public_key := text_at "device_public_key" d in
  let? group_id := text_at "group_id" d in
  let? file_id := text_at "file_id" d in
  let? action := text_or "action" ACTION_EXPORT d in
  let? timestamp := float_at "timestamp" d in
  let? reason := opt_text "reason" d in
  let? signature := opt_text "signature" d in
  Ok (mk request_id device_id device_public_key group_id file_id action timestamp reason
        signature).
End Req.
Abbreviation ExportRequest := Req.ExportRequest.

Module Cap.
Record ExportCapability := mk {
  capability_id : string;
  request_id : string;
  device_id : string;
  group_id : string;
  file_id : string;
  action : string;
  issued_at : spec_float;
  expires_at : spec_float;
  nonce : string;
  admin_device_id : option string;
  signature : option string
}.

Definition canonical_payload (c : ExportCapability) : option bytes :=
  cat [Some _CAPABILITY_DOMAIN; prefixed (str_bytes (capability_id c));
       prefixed (str_bytes (request_id c)); prefixed (str_bytes (device_id c));
       prefixed (str_bytes (group_id c)); prefixed (str_bytes (file_id c));
       prefixed (str_bytes (action c));
       Some (pack_double (issued_at c) ++ pack_double (expires_at c));
       prefixed (str_bytes (nonce c)); prefixed (str_bytes (or_empty (admin_device_id c)))].

Definition is_expired (now : spec_float) (c : ExportCapability) : bool :=
  SFleb (expires_at c) now.

Definition matches (c : ExportCapability) (dev_id file group : string) : bool :=
  bool_decide (device_id c = dev_id) && bool_decide (group_id c = group)
  && (bool_decide (file_id c = "*"%string) || bool_decide (file_id c = file)).

Definition to_dict (c : ExportCapability) : dict :=
  [("capability_id", JStr (capability_id c)); ("request_id", JStr (request_id c));
   ("device_id", JStr (device_id c)); ("group_id", JStr (group_id c));
   ("file_id", JStr (file_id c)); ("action", JStr (action c));
   ("issued_at", JFloat (issued_at c)); ("expires_at", JFloat (expires_at c));
   ("nonce", JStr (nonce c)); ("admin_device_id", Factories.opt_str (admin_device_id c));
   ("signature", Factories.opt_str (signature c))]%string.

Definition from_dict : read ExportCapability := fun d =>
  let? capability_id := text_at "capability_id" d in
  let? request_id := text_at "request_id" d in
  let? device_id := text_at "device_id" d in
  let? group_id := text_at "group_id" d in
  let? file_id := text_at "file_id" d in
  let? action := text_or "action" ACTION_EXPORT d in
  let? issued_at := float_at "issued_at" d in
  let? expires_at := float_at "expires_at" d in
  let? nonce := text_at "nonce" d in
  let? admin_device_id := opt_text "admin_device_id" d in
  let? signature := opt_text "signature" d in
  Ok (mk capability_id request_id device_id group_id file_id action issued_at expires_at
        nonce admin_device_id signature).
End Cap.
Abbreviation ExportCapability := Cap.ExportCapability.

Section Crypto.
Context `{Ed25519, Sha256}.

(** [None] is the [struct.error] of a text of 4 GiB or more. *)
Definition create_export_request (now : spec_float) (fresh_id : string)
    (device_private_key : ed_private) (dev_id device_public_key_b64 group_id file_id : string)
    (reason : option string) : option ExportRequest :=
  let req := Req.mk fresh_id dev_id device_public_key_b64 group_id file_id ACTION_EXPORT now
               reason None in
  payload ← Req.canonical_payload req;
  Some (Req.mk fresh_id dev_id device_public_key_b64 group_id file_id ACTION_EXPORT now reason
          (Some (b64_text (ed_sign device_private_key payload)))).

Definition verify_export_request (r : ExportRequest) : bool :=
  match Req.signature r, decode_text (Req.device_public_key r), Req.canonical_payload r with
  | Some sig, Some raw_pub, Some payload => signature_valid raw_pub sig payload
  | _, _, _ => false
  end.

Definition issue_export_capability (now : spec_float) (fresh_id nonce : string)
    (admin_private_key : ed_private) (admin_device_id : string) (r : ExportRequest)
    (ttl : spec_float) : option ExportCapability :=
  let cap sig :=
    Cap.mk fresh_id (Req.request_id r) (Req.device_id r) (Req.group_id r) (Req.file_id r)
      ACTION_EXPORT now (SFadd 53 1024 now ttl) nonce (Some admin_device_id) sig in
  payload ← Cap.canonical_payload (cap None);
  Some (cap (Some (b64_text (ed_sign admin_private_key payload)))).

(** One of the keys verifies the signature. *)
Definition signed_by_one_of (keys_b64 : list string) (sig_bytes payload : bytes) : bool :=
  existsb (fun pub_b64 =>
    match decode_text pub_b64 with
    | Some raw => match public_key_from_bytes raw with
                  | Some pk => ed_verify pk sig_bytes payload
                  | None => false
                  end
    | None => false
    end) keys_b64.

(** [None] is the [struct.error] raised outside the [try]. *)
Definition verify_export_capability (now : spec_float) (c : ExportCapability)
    (admin_public_keys_b64 : list string) : option bool :=
  match Cap.signature c with
  | None => Some false
  | Some sig =>
      if Cap.is_expired now c then Some false
      else
        payload ← Cap.canonical_payload c;
        Some (match decode_text sig with
              | None => false
              | Some sig_bytes => signed_by_one_of admin_public_keys_b64 sig_bytes payload
              end)
  end.

End Crypto.
End ExportAuth.

(** ** Join, leave and revocation messages *)
Module Protocol.
Import Membership.

Definition _JOIN_REQUEST_DOMAIN : bytes := lit "peerc-group-join-request" ++ NUL.
Definition _JOIN_RESPONSE_DOMAIN : bytes := lit "peerc-group-join-response" ++ NUL.
Definition _LEAVE_REQUEST_DOMAIN : bytes := lit "peerc-group-leave-request" ++ NUL.
Definition _LEAVE_RESPONSE_DOMAIN : bytes := lit "peerc-group-leave-response" ++ NUL.
Definition _REVOCATION_DOMAIN : bytes := lit "peerc-group-membership-revoke" ++ NUL.

Definition _json_payload `{CompactJson} (d : dict) : bytes := canonical_json (JObj d).

(** [_cert_to_dict] writes the fields of [to_dict]. *)
Definition _cert_to_dict (c : option MembershipCertificate) : json :=
  match c with Some c => JObj (Cert.to_dict c) | None => JNull end.

(** As [Cert.from_dict], with a required signature and the default status. *)
Definition _cert_from_dict : read MembershipCertificate := fun d =>
  let? device_id := text_at "device_id" d in
  let? device_public_key := text_at "device_public_key" d in
  let? group_id := text_at "group_id" d in
  let? role := text_at "role" d in
  let? permissions := texts_or_nil "permissions" d in
  let? issued_at := float_at "issued_at" d in
  let? expires_at := opt_float "expires_at" d in
  let? admin_device_id := text_at "admin_device_id" d in
  let? signature := text_at "signature" d in
  Ok (Cert.mk device_id device_public_key group_id role permissions issued_at expires_at
        admin_device_id signature "active").

Module JoinReq.
Record GroupJoinRequest := mk {
  request_id : string;
  group_id : string;
  device_id : string;
  device_public_key : string;
  requested_role : string;
  requested_permissions : list string;
  reason : option string;
  timestamp : spec_float;
  signature : string
}.

(** What [_join_request_payload] signs. *)
Definition signed_fields (r : GroupJoinRequest) : dict :=
  [("request_id", JStr (request_id r)); ("group_id", JStr (group_id r));
   ("device_id", JStr (device_id r)); ("device_public_key", JStr (device_public_key r));
   ("requested_role", JStr (requested_role r));
   ("requested_permissions", JList (map JStr (sort_strings (requested_permissions r))));
   ("reason", Factories.opt_str (reason r)); ("timestamp", JFloat (timestamp r))]%string.

Definition to_dict (r : GroupJoinRequest) : dict :=
  [("request_id", JStr (request_id r)); ("group_id", JStr (group_id r));
   ("device_id", JStr (device_id r)); ("device_public_key", JStr (device_public_key r));
   ("requested_role", JStr (requested_role r));
   ("requested_permissions", JList (map JStr (requested_permissions r)));
   ("reason", Factories.opt_str (reason r)); ("timestamp", JFloat (timestamp r));
   ("signature", JStr (signature r))]%string.

Definition from_dict (now : spec_float) : read GroupJoinRequest := fun d =>
  let? request_id := text_at "request_id" d in
  let? group_id := text_at "group_id" d in
  let? device_id := text_at "device_id" d in
  let? device_public_key := text_at "device_public_key" d in
  let? requested_role := text_or "requested_role" DEFAULT_ROLE d in
  let? requested_permissions := texts_or_nil "requested_permissions" d in
  let? reason := opt_text "reason" d in
  let? timestamp := float_or "timestamp" now d in
  let? signature := text_or "signature" "" d in
  Ok (mk request_id group_id device_id device_public_key requested_role requested_permissions
        reason timestamp signature).
End JoinReq.
Abbreviation GroupJoinRequest := JoinReq.GroupJoinRequest.

Module JoinRes.
Record GroupJoinResponse := mk {
  request_id : string;
  group_id : string;
  device_id : string;
  approved : bool;
  admin_device_id : string;
  certificate : option MembershipCertificate;
  reason : option string;
  timestamp : spec_float;
  signature : string
}.

Definition signed_fields (r : GroupJoinResponse) : dict :=
  [("request_id", JStr (request_id r)); ("group_id", JStr (group_id r));
   ("device_id", JStr (device_id r)); ("approved", JBool (approved r));
   ("admin_device_id", JStr (admin_device_id r));
   ("certificate", _cert_to_dict (certificate r));
   ("reason", Factories.opt_str (reason r)); ("timestamp", JFloat (timestamp r))]%string.

Definition to_dict (r : GroupJoinResponse) : dict :=
  (signed_fields r ++ [("signature"%string, JStr (signature r))])%list.

Definition from_dict (now : spec_float) : read GroupJoinResponse := fun d =>
  let? request_id := text_at "request_id" d in
  let? group_id := text_at "group_id" d in
  let? device_id := text_at "device_id" d in
  let? approved := bool_at "approved" d in
  let? admin_device_id := text_at "admin_device_id" d in
  let? certificate := opt_object "certificate" _cert_from_dict d in
  let? reason := opt_text "reason" d in
  let? timestamp := float_or "timestamp" now d in
  let? signature := text_or "signature" "" d in
  Ok (mk request_id group_id device_id approved admin_device_id certificate reason timestamp
        signature).
End JoinRes.
Abbreviation GroupJoinResponse := JoinRes.GroupJoinResponse.

Module LeaveReq.
Record GroupLeaveRequest := mk {
  request_id : string;
  group_id : string;
  device_id : string;
  reason : option string;
  timestamp : spec_float;
  signature : string
}.

Definition signed_fields (r : GroupLeaveRequest) : dict :=
  [("request_id", JStr (request_id r)); ("group_id", JStr (group_id r));
   ("device_id", JStr (device_id r)); ("reason", Factories.opt_str (reason r));
   ("timestamp", JFloat (timestamp r))]%string.

Definition to_dict (r : GroupLeaveRequest) : dict :=
  (signed_fields r ++ [("signature"%string, JStr (signature r))])%list.

Definition from_dict (now : spec_float) : read GroupLeaveRequest := fun d =>
  let? request_id := text_at "request_id" d in
  let? group_id := text_at "group_id" d in
  let? device_id := text_at "device_id" d in
  let? reason := opt_text "reason" d in
  let? timestamp := float_or "timestamp" now d in
  let? signature := text_or "signature" "" d in
  Ok (mk request_id group_id device_id reason timestamp signature).
End LeaveReq.
Abbreviation GroupLeaveRequest := LeaveReq.GroupLeaveRequest.

Module Revoc.
Record MembershipRevocation := mk {
  revocation_id : string;
  group_id : string;
  device_id : string;
  revoked_by : string;
  reason : option string;
  timestamp : spec_float;
  signature : string
}.

Definition signed_fields (r : MembershipRevocation) : dict :=
  [("revocation_id", JStr (revocation_id r)); ("group_id", JStr (group_id r));
   ("device_id", JStr (device_id r)); ("revoked_by", JStr (revoked_by r));
   ("reason", Factories.opt_str (reason r)); ("timestamp", JFloat (timestamp r))]%string.

Definition to_dict (r : MembershipRevocation) : dict :=
  (signed_fields r ++ [("signature"%string, JStr (signature r))])%list.

Definition from_dict (now : spec_float) : read MembershipRevocation := fun d =>
  let? revocation_id := text_at "revocation_id" d in
  let? group_id := text_at "group_id" d in
  let? device_id := text_at "device_id" d in
  let? revoked_by := text_at "revoked_by" d in
  let? reason := opt_text "reason" d in
  let? timestamp := float_or "timestamp" now d in
  let? signature := text_or "signature" "" d in
  Ok (mk revocation_id group_id device_id revoked_by reason timestamp signature).
End Revoc.
Abbreviation MembershipRevocation := Revoc.MembershipRevocation.

Module LeaveRes.
Record GroupLeaveResponse := mk {
  request_id : string;
  group_id : string;
  device_id : string;
  approved : bool;
  admin_device_id : string;
  revocation : option MembershipRevocation;
  reason : option string;
  timestamp : spec_float;
  signature : string
}.

Definition signed_fields (r : GroupLeaveResponse) : dict :=
  [("request_id", JStr (request_id r)); ("group_id", JStr (group_id r));
   ("device_id", JStr (device_id r)); ("approved", JBool (approved r));
   ("admin_device_id", JStr (admin_device_id r));
   ("revocation", Factories.opt_dict (Revoc.to_dict <$> revocation r));
   ("reason", Factories.opt_str (reason r)); ("timestamp", JFloat (timestamp r))]%string.

Definition to_dict (r : GroupLeaveResponse) : dict :=
  (signed_fields r ++ [("signature"%string, JStr (signature r))])%list.

Definition from_dict (now now' : spec_float) : read GroupLeaveResponse := fun d =>
  let? request_id := text_at "request_id" d in
  let? group_id := text_at "group_id" d in
  let? device_id := text_at "device_id" d in
  let? approved := bool_at "approved" d in
  let? admin_device_id := text_at "admin_device_id" d in
  let? revocation := opt_object "revocation" (Revoc.from_dict now') d in
  let? reason := opt_text "reason" d in
  let? timestamp := float_or "timestamp" now d in
  let? signature := text_or "signature" "" d in
  Ok (mk request_id group_id device_id approved admin_device_id revocation reason timestamp
        signature).
End LeaveRes.
Abbreviation GroupLeaveResponse := LeaveRes.GroupLeaveResponse.

Section Crypto.
Context `{Ed25519, Sha256, CompactJson}.

Definition _join_request_payload (r : GroupJoinRequest) : bytes :=
  _JOIN_REQUEST_DOMAIN ++ _json_payload (JoinReq.signed_fields r).
Definition _join_response_payload (r : GroupJoinResponse) : bytes :=
  _JOIN_RESPONSE_DOMAIN ++ _json_payload (JoinRes.signed_fields r).
Definition _leave_request_payload (r : GroupLeaveRequest) : bytes :=
  _LEAVE_REQUEST_DOMAIN ++ _json_payload (LeaveReq.signed_fields r).
Definition _revocation_payload (r : MembershipRevocation) : bytes :=
  _REVOCATION_DOMAIN ++ _json_payload (Revoc.signed_fields r).
Definition _leave_response_payload (r : GroupLeaveResponse) : bytes :=
  _LEAVE_RESPONSE_DOMAIN ++ _json_payload (LeaveRes.signed_fields r).

Definition _sign (k : DeviceKeypair) (payload : bytes) : string := b64_text (sign k payload).

(** [_verify] inside the [try] of its callers. *)
Definition _verify (public_key : bytes) (signature_b64 : string) (payload : bytes) : bool :=
  signature_valid public_key signature_b64 payload.

(** [None] is the [GroupProtocolError]. *)
Definition create_join_request (now : spec_float) (fresh_id : string) (k : DeviceKeypair)
    (group_id requested_role : string) (requested_permissions : list string)
    (reason request_id : option string) : option GroupJoinRequest :=
  if text_is_empty group_id then None
  else
    let req sig :=
      JoinReq.mk (or_empty (or_text request_id (Some fresh_id))) group_id (device_id k)
        (b64_text (public_key_bytes k)) requested_role requested_permissions reason now sig in
    Some (req (_sign k (_join_request_payload (req ""%string)))).

Definition verify_join_request (r : GroupJoinRequest) : bool :=
  match decode_text (JoinReq.device_public_key r) with
  | None => false
  | Some public_key =>
      bool_decide (compute_device_id public_key = JoinReq.device_id r)
      && _verify public_key (JoinReq.signature r) (_join_request_payload r)
  end.

Definition create_join_response (now : spec_float) (k : DeviceKeypair) (r : GroupJoinRequest)
    (approved : bool) (certificate : option MembershipCertificate) (reason : option string)
    : option GroupJoinResponse :=
  if approved && negb (bool_decide (is_Some certificate)) then None
  else
    let res sig :=
      JoinRes.mk (JoinReq.request_id r) (JoinReq.group_id r) (JoinReq.device_id r) approved
        (device_id k) certificate reason now sig in
    Some (res (_sign k (_join_response_payload (res ""%string)))).

Definition verify_join_response (r : GroupJoinResponse) (admin_public_key : bytes) : bool :=
  _verify admin_public_key (JoinRes.signature r) (_join_response_payload r).

Definition create_leave_request (now : spec_float) (fresh_id : string) (k : DeviceKeypair)
    (group_id : string) (reason request_id : option string) : option GroupLeaveRequest :=
  if text_is_empty group_id then None
  else
    let req sig :=
      LeaveReq.mk (or_empty (or_text request_id (Some fresh_id))) group_id (device_id k)
        reason now sig in
    Some (req (_sign k (_leave_request_payload (req ""%string)))).

Definition verify_leave_request (r : GroupLeaveRequest) (member_public_key : bytes) : bool :=
  bool_decide (compute_device_id member_public_key = LeaveReq.device_id r)
  && _verify member_public_key (LeaveReq.signature r) (_leave_request_payload r).

Definition create_membership_revocation (now : spec_float) (fresh_id : string)
    (k : DeviceKeypair) (group_id dev_id : string) (reason revocation_id : option string)
    : option MembershipRevocation :=
  if text_is_empty group_id || text_is_empty dev_id then None
  else
    let rev sig :=
      Revoc.mk (or_empty (or_text revocation_id (Some fresh_id))) group_id dev_id (device_id k)
        reason now sig in
    Some (rev (_sign k (_revocation_payload (rev ""%string)))).

Definition verify_membership_revocation (r : MembershipRevocation) (admin_public_key : bytes)
    : bool :=
  _verify admin_public_key (Revoc.signature r) (_revocation_payload r).

Definition create_leave_response (now : spec_float) (k : DeviceKeypair) (r : GroupLeaveRequest)
    (approved : bool) (revocation : option MembershipRevocation) (reason : option string)
    : option GroupLeaveResponse :=
  if approved && negb (bool_decide (is_Some revocation)) then None
  else
    let res sig :=
      LeaveRes.mk (LeaveReq.request_id r) (LeaveReq.group_id r) (LeaveReq.device_id r) approved
        (device_id k) revocation reason now sig in
    Some (res (_sign k (_leave_response_payload (res ""%string)))).

Definition verify_leave_response (r : GroupLeaveResponse) (admin_public_key : bytes) : bool :=
  _verify admin_public_key (LeaveRes.signature r) (_leave_response_payload r).

End Crypto.
End Protocol.
