(* ===== verification/GroupStore.v ===== *)
(** * The group store

    Models [core/group/store.py]: the six SQLite tables as finite maps on their primary
    keys, the conversions between rows and objects, and every method of [GroupStore] as
    a stateful operation that may raise.  A column [REAL NOT NULL] refuses a NaN
    ([IntegrityError]) and a nullable one turns it into NULL, as SQLite does; an
    operation that raises after a write keeps what it wrote.

    The readings of the clock and the fresh identifiers are in the [clock] of a call.
    The events emitted on the way are kept in order; the text of an alert is not. *)

From Corelib Require Import SpecFloat.
From S2P Require Import Prelude Text Json Crypto Canonical Security Trust Group.
Import Identity Rotation Membership Admin Audit Policy ExportAuth Protocol.
Local Open Scope peerc_scope.
Local Open Scope Z_scope.

(** ** Rows *)

Inductive MembershipStatus : Type := M_ACTIVE | M_REVOKED.

#[global] Instance membership_status_eq : EqDecision MembershipStatus.
Proof. solve_decision. Defined.

Definition membership_status_value (s : MembershipStatus) : string :=
  match s with M_ACTIVE => "active" | M_REVOKED => "revoked" end%string.

(** A row of [group_memberships], under (group_id, device_id). *)
Record membership_row := mk_membership_row {
  m_public_key : string;
  m_role : string;
  m_permissions : string;
  m_issued_at : spec_float;
  m_expires_at : option spec_float;
  m_admin : string;
  m_signature : string;
  m_status : MembershipStatus;
  m_revoked_by : option string;
  m_revoked_at : option spec_float;
  m_revoke_reason : option string
}.

(** A row of [group_policies], under group_id. *)
Record policy_row := mk_policy_row {
  p_allow_external_trust : bool;
  p_allow_export : bool;
  p_leave_requires_admin : bool;
  p_allow_inter_group : bool;
  p_matrix : bytes;
  p_default_effect : string;
  p_version : Z;
  p_updated_at : spec_float;
  p_admin : option string;
  p_signature : option string
}.

(** A row of [group_audit_log], under event_id. *)
Record audit_row := mk_audit_row {
  a_group : string;
  a_type : string;
  a_severity : Security.SecuritySeverity;
  a_description : string;
  a_device : option string;
  a_timestamp : spec_float;
  a_details : bytes;
  a_signature : option string;
  a_signer : option string
}.

(** A row of [export_capabilities], under capability_id. *)
Record capability_row := mk_capability_row {
  row_cap : ExportCapability;
  used : bool;
  used_at : option spec_float
}.

Module RevocationRecord.
Record MembershipRevocationRecord := mk {
  group_id : string;
  device_id : string;
  revoked_by : option string;
  revoked_at : spec_float;
  reason : option string
}.
End RevocationRecord.
Abbreviation MembershipRevocationRecord := RevocationRecord.MembershipRevocationRecord.

(** ** State and errors *)

Inductive refusal : Type :=
| GroupExists (g : string)
| UnknownGroup (g : string)
| NotActiveAdmin (g d : string)
| BadSignature (d : string)
| MembershipExists (g d : string)
| NotApproved (r : string)
| MissingAttachment
| TargetMismatch
| IssuerMismatch
| UnknownMembership (g d : string)
| InactiveMembership (g d : string)
| AdminExists (g d : string)
| LastAdmin (g d : string)
| EmptyGroupId
| AuditUnverifiable (g : string)
| CapabilityExpired (c : string)
| CapabilityUnverifiable (c : string).

Inductive store_error : Type :=
| VaultLocked                       (** [RuntimeError]: no active connection *)
| GroupStoreError (why : refusal)
| LeaveRequiresAdminError
| AuditError                        (** of [create_group_audit_event] *)
| IntegrityError                    (** [sqlite3.IntegrityError] *)
| KeyTextError                      (** [binascii.Error] of a stored key *)
| RowTextError                      (** a JSON column that does not parse *)
| StructError                       (** [struct.error] of a 4 GiB text *)
| UnsupportedValue.                 (** an [event_id] that is not a text *)

(** What is emitted: a recorded audit event, or an alert without its text. *)
Inductive notice : Type :=
| Recorded (e : Security.SecurityEvent)
| Alert (t : Security.SecurityEventType) (s : Security.SecuritySeverity)
    (device : option string) (details : dict).

Record gdb := mk_gdb {
  connected : bool;
  groups : gmap string Group;
  memberships : gmap (string * string) membership_row;
  policies : gmap string policy_row;
  admins : gmap (string * string) AdminRecord;
  audit_log : gmap string audit_row;
  capabilities : gmap string capability_row;
  emitted : list notice
}.

Definition empty_gdb : gdb := mk_gdb true ∅ ∅ ∅ ∅ ∅ ∅ [].

Abbreviation gop := (stm gdb store_error).

(** The clock readings of a call and the identifier [uuid4] yields in it. *)
Record clock := mk_clock {
  now : spec_float;           (** for the row *)
  audit_now : spec_float;     (** for the audit event *)
  fresh : string
}.

Definition set_groups (f : gmap string Group -> gmap string Group) (s : gdb) : gdb :=
  mk_gdb (connected s) (f (groups s)) (memberships s) (policies s) (admins s) (audit_log s)
    (capabilities s) (emitted s).
Definition set_memberships (f : gmap (string * string) membership_row ->
    gmap (string * string) membership_row) (s : gdb) : gdb :=
  mk_gdb (connected s) (groups s) (f (memberships s)) (policies s) (admins s) (audit_log s)
    (capabilities s) (emitted s).
Definition set_policies (f : gmap string policy_row -> gmap string policy_row) (s : gdb) : gdb :=
  mk_gdb (connected s) (groups s) (memberships s) (f (policies s)) (admins s) (audit_log s)
    (capabilities s) (emitted s).
Definition set_admins (f : gmap (string * string) AdminRecord ->
    gmap (string * string) AdminRecord) (s : gdb) : gdb :=
  mk_gdb (connected s) (groups s) (memberships s) (policies s) (f (admins s)) (audit_log s)
    (capabilities s) (emitted s).
Definition set_audit_log (f : gmap string audit_row -> gmap string audit_row) (s : gdb) : gdb :=
  mk_gdb (connected s) (groups s) (memberships s) (policies s) (admins s) (f (audit_log s))
    (capabilities s) (emitted s).
Definition set_capabilities (f : gmap string capability_row -> gmap string capability_row)
    (s : gdb) : gdb :=
  mk_gdb (connected s) (groups s) (memberships s) (policies s) (admins s) (audit_log s)
    (f (capabilities s)) (emitted s).
Definition set_emitted (f : list notice -> list notice) (s : gdb) : gdb :=
  mk_gdb (connected s) (groups s) (memberships s) (policies s) (admins s) (audit_log s)
    (capabilities s) (f (emitted s)).

Definition emit (n : notice) : gop unit := modify (set_emitted (fun l => l ++ [n])).

Definition refuse {A} (why : refusal) : gop A := raise (GroupStoreError why).
Definition refuse_if (b : bool) (why : refusal) : gop unit := raise_if b (GroupStoreError why).

Definition _require_conn : gop unit := fun s =>
  if connected s then (s, Ok ()) else (s, Err VaultLocked).

Definition adopt_conn (c : bool) : gop unit :=
  modify (fun s => mk_gdb c (groups s) (memberships s) (policies s) (admins s) (audit_log s)
                     (capabilities s) (emitted s)).

(** [REAL NOT NULL] and [REAL]. *)
Definition real_not_null (f : spec_float) : gop unit := raise_if (is_nan f) IntegrityError.
Definition real_or_null (f : spec_float) : option spec_float :=
  if is_nan f then None else Some f.

Definition decode_key (s : string) : gop bytes :=
  match decode_text s with Some b => mret b | None => raise KeyTextError end.

(** ** Rows and objects *)

Definition _row_to_cert (g d : string) (r : membership_row) : MembershipCertificate :=
  Cert.mk d (m_public_key r) g (m_role r)
    (if text_is_empty (m_permissions r) then [] else split_commas (m_permissions r))
    (m_issued_at r) (m_expires_at r) (m_admin r) (m_signature r)
    (membership_status_value (m_status r)).

Definition _row_to_revocation (g d : string) (r : membership_row)
    : option MembershipRevocationRecord :=
  match m_status r, m_revoked_at r with
  | M_REVOKED, Some t =>
      Some (RevocationRecord.mk g d (m_revoked_by r) t (m_revoke_reason r))
  | _, _ => None
  end.

Definition _row_to_capability (r : capability_row) : ExportCapability := row_cap r.

Section Rows.
Context `{JsonText, LowerCase}.

(** [None] when the text columns do not parse. *)
Definition _row_to_policy (g : string) (r : policy_row) : option GroupPolicy :=
  matrix ← (match p_matrix r with [] => Some (JList []) | t => json_loads t end);
  rules ← (match matrix with
           | JList l => match Pol.parse_rules l with Ok rs => Some rs | Err _ => None end
           | _ => None
           end);
  effect ← effect_of (p_default_effect r);
  Some (Pol.mk g (p_allow_external_trust r) (p_allow_export r) (p_leave_requires_admin r)
          (p_allow_inter_group r) rules effect (p_version r) (p_updated_at r) (p_admin r)
          (p_signature r)).

Definition _row_to_audit_event (r : audit_row) : option Security.SecurityEvent :=
  details ← (match a_details r with
             | [] => Some []
             | t => match json_loads t with Some (JObj d) => Some d | _ => None end
             end);
  let e := Security.make_event (a_type r) (a_severity r) (a_description r) (a_device r)
             (a_timestamp r) details in
  Some (Security.mk_event (Security.event_type e) (Security.severity e)
          (Security.description e) (Security.device_id e) (Security.timestamp e)
          (Security.details e) (a_signature r) (a_signer r)).

End Rows.

(** ** Queries *)

Definition get_group (g : string) : gop (option Group) :=
  _require_conn ;; gets (fun s => groups s !! g).

(** [ORDER BY created_at DESC]. *)
Definition list_groups : gop (list Group) :=
  _require_conn ;;
  gets (fun s => sort_by (fun a b => SFltb (Grp.created_at b) (Grp.created_at a))
                   (map snd (map_to_list (groups s)))).

Definition get_membership (g d : string) : gop (option MembershipCertificate) :=
  _require_conn ;; gets (fun s => _row_to_cert g d <$> memberships s !! (g, d)).

Definition get_membership_status (g d : string) : gop (option MembershipStatus) :=
  _require_conn ;; gets (fun s => m_status <$> memberships s !! (g, d)).

Definition get_membership_revocation (g d : string)
    : gop (option MembershipRevocationRecord) :=
  _require_conn ;;
  gets (fun s => memberships s !! (g, d) ≫= _row_to_revocation g d).

(** [ORDER BY issued_at DESC]. *)
Definition list_memberships (g : string) (status : option MembershipStatus)
    : gop (list MembershipCertificate) :=
  _require_conn ;;
  gets (fun s =>
    map (fun kr => _row_to_cert g (snd (fst kr)) (snd kr))
      (sort_by (fun a b => SFltb (m_issued_at (snd b)) (m_issued_at (snd a)))
         (List.filter (fun kr => bool_decide (fst (fst kr) = g)
             && match status with Some st => bool_decide (m_status (snd kr) = st) | None => true end)
           (map_to_list (memberships s))))).

Definition get_admin (g d : string) : gop (option AdminRecord) :=
  _require_conn ;; gets (fun s => admins s !! (g, d)).

Definition get_admin_status (g d : string) : gop (option AdminStatus) :=
  _require_conn ;; gets (fun s => Admin.status <$> admins s !! (g, d)).

Definition is_active (s : option AdminStatus) : bool := bool_decide (s = Some ACTIVE).

Definition is_admin (g d : string) : gop bool :=
  status ← get_admin_status g d; mret (is_active status).

(** The rows of the query, [ORDER BY added_at ASC]. *)
Definition admin_rows (s : gdb) (g : string) (status : option AdminStatus) : list AdminRecord :=
  sort_by (fun a b => SFltb (added_at a) (added_at b))
    (map snd (List.filter (fun kr => bool_decide (fst (fst kr) = g)
         && match status with Some st => bool_decide (Admin.status (snd kr) = st) | None => true end)
       (map_to_list (admins s)))).

Definition list_admins (g : string) (status : option AdminStatus) : gop (list AdminRecord) :=
  _require_conn ;; gets (fun s => admin_rows s g status).

Fixpoint decode_keys (l : list AdminRecord) : gop (list (string * bytes)) :=
  match l with
  | [] => mret []
  | a :: l' =>
      k ← decode_key (public_key a);
      ks ← decode_keys l';
      mret ((admin_id a, k) :: ks)
  end.

Definition get_active_admin_public_keys (g : string) : gop (list (string * bytes)) :=
  l ← list_admins g (Some ACTIVE); decode_keys l.

(** ** The audit log *)
Section Store.
Context `{Ed25519, Sha256, JsonText, CompactJson, LowerCase}.

(** [event.details.get("event_id")] or a fresh identifier. *)
Definition event_id_of (c : clock) (details : dict) : gop string :=
  match jget "event_id" details with
  | None => mret (fresh c)
  | Some v =>
      if truthy v then match v with JStr s => mret s | _ => raise UnsupportedValue end
      else mret (fresh c)
  end.

Definition record_audit_event (c : clock) (g : string) (e : Security.SecurityEvent)
    (verify_with_admins : bool) : gop unit :=
  refuse_if (text_is_empty g) EmptyGroupId ;;
  group ← get_group g;
  refuse_if (negb (bool_decide (is_Some group))) (UnknownGroup g) ;;
  (if verify_with_admins && bool_decide (is_Some (or_text (Security.signature e) None)) then
     active_admins ← get_active_admin_public_keys g;
     refuse_if (negb (verify_group_audit_event e active_admins)) (AuditUnverifiable g)
   else mret ()) ;;
  event_id ← event_id_of c (Security.details e);
  _require_conn ;;
  taken ← gets (fun s => bool_decide (is_Some (audit_log s !! event_id)));
  raise_if taken IntegrityError ;;
  real_not_null (Security.timestamp e) ;;
  modify (set_audit_log <[event_id :=
    {| a_group := g; a_type := Security.event_type e; a_severity := Security.severity e;
       a_description := Security.description e; a_device := Security.device_id e;
       a_timestamp := Security.timestamp e;
       a_details := json_dumps (jsort (JObj (Security.details e)));
       a_signature := Security.signature e; a_signer := Security.signer_device_id e |}]>) ;;
  emit (Recorded e).

(** [record_audit_event(g, create_group_audit_event(...))]. *)
Definition audit (c : clock) (g : string) (t : Security.SecurityEventType) (text : string)
    (severity : Security.SecuritySeverity) (dev actor : option string) (extra : dict)
    : gop unit :=
  match create_group_audit_event (audit_now c) g t text severity dev actor extra None with
  | None => raise AuditError
  | Some e => record_audit_event c g e false
  end.

(** [WHERE group_id = ? ...  ORDER BY timestamp ASC LIMIT ?]; a negative limit is no
    limit. *)
Definition audit_rows (s : gdb) (g : string) (limit : option Z) (event_type : option string)
    (severity : option Security.SecuritySeverity) (since : option spec_float)
    : list audit_row :=
  let rows :=
    sort_by (fun a b => SFltb (a_timestamp a) (a_timestamp b))
      (List.filter (fun r => bool_decide (a_group r = g)
           && match or_text event_type None with
              | Some t => bool_decide (a_type r = t) | None => true end
           && match severity with Some v => bool_decide (a_severity r = v) | None => true end
           && match since with Some t => SFleb t (a_timestamp r) | None => true end)
        (map snd (map_to_list (audit_log s)))) in
  match limit with
  | Some n => if n <? 0 then rows else take (Z.to_nat n) rows
  | None => rows
  end.

Fixpoint parse_events (l : list audit_row) : gop (list Security.SecurityEvent) :=
  match l with
  | [] => mret []
  | r :: l' =>
      match _row_to_audit_event r with
      | None => raise RowTextError
      | Some e => es ← parse_events l'; mret (e :: es)
      end
  end.

Definition list_audit_events (g : string) (limit : option Z) (event_type : option string)
    (severity : option Security.SecuritySeverity) (since : option spec_float)
    : gop (list Security.SecurityEvent) :=
  _require_conn ;;
  rows ← gets (fun s => audit_rows s g limit event_type severity since);
  parse_events rows.

Definition get_audit_event (event_id : string) : gop (option Security.SecurityEvent) :=
  _require_conn ;;
  row ← gets (fun s => audit_log s !! event_id);
  match row with
  | None => mret None
  | Some r => match _row_to_audit_event r with
              | Some e => mret (Some e) | None => raise RowTextError end
  end.

(** ** Groups *)

Definition short (s : string) : string := bytes_str (str_prefix 8 (str_bytes s)).

Definition new_admin (g d key : string) (t : spec_float) (by_ : option string) : AdminRecord :=
  {| Admin.group_id := g; admin_id := d; public_key := key; added_at := t; added_by := by_;
     Admin.status := ACTIVE; removed_at := None; removed_by := None |}.

(** [INSERT INTO group_admins]. *)
Definition insert_admin (a : AdminRecord) : gop unit :=
  _require_conn ;;
  taken ← gets (fun s => bool_decide (is_Some (admins s !! (Admin.group_id a, admin_id a))));
  raise_if taken IntegrityError ;;
  real_not_null (added_at a) ;;
  modify (set_admins <[(Admin.group_id a, admin_id a) := a]>).

Definition create_group (c : clock) (group : Group) : gop unit :=
  let g := Grp.group_id group in
  existing ← get_group g;
  refuse_if (bool_decide (is_Some existing)) (GroupExists g) ;;
  _require_conn ;;
  real_not_null (Grp.created_at group) ;;
  modify (set_groups <[g := group]>) ;;
  insert_admin (new_admin g (Grp.admin_device_id group) (Grp.admin_public_key group)
                  (Grp.created_at group) None) ;;
  audit c g Security.GROUP_CREATED ("Group '" +:+ Grp.name group +:+ "' created by founder")
    Security.INFO None (Some (Grp.admin_device_id group))
    [("name", JStr (Grp.name group));
     ("admin_device_id", JStr (Grp.admin_device_id group))]%string.

(** ** Memberships *)

(** The record and its status in one check: an admin that is active now. *)
Definition active_admin (g d : string) : gop AdminRecord :=
  admin ← get_admin g d;
  status ← get_admin_status g d;
  match admin with
  | Some a => if is_active status then mret a else refuse (NotActiveAdmin g d)
  | None => refuse (NotActiveAdmin g d)
  end.

(** A verdict, with the alert emitted when it is negative. *)
Definition check_signature (verdict : bool) (alert : notice) (why : refusal) : gop unit :=
  if verdict then mret () else emit alert ;; refuse why.

(** [_emit_invalid]. *)
Definition invalid_chain (kind device group : string) : notice :=
  Alert Security.INVALID_AUTHORITY_CHAIN Security.CRITICAL (Some device)
    [("group_id", JStr group); ("message_kind", JStr kind)]%string.

Definition stored_permissions (l : list string) : string := join "," (sort_strings l).

(** The row the [INSERT] writes. *)
Definition member_row (cert : MembershipCertificate) : membership_row :=
  {| m_public_key := Cert.device_public_key cert; m_role := Cert.role cert;
     m_permissions := stored_permissions (Cert.permissions cert);
     m_issued_at := Cert.issued_at cert;
     m_expires_at := Cert.expires_at cert ≫= real_or_null;
     m_admin := Cert.admin_device_id cert; m_signature := Cert.signature cert;
     m_status := M_ACTIVE; m_revoked_by := None; m_revoked_at := None;
     m_revoke_reason := None |}.

Definition insert_membership (cert : MembershipCertificate) : gop unit :=
  let k := (Cert.group_id cert, Cert.device_id cert) in
  _require_conn ;;
  taken ← gets (fun s => bool_decide (is_Some (memberships s !! k)));
  raise_if taken IntegrityError ;;
  real_not_null (Cert.issued_at cert) ;;
  modify (set_memberships <[k := member_row cert]>).

Definition record_membership (c : clock) (cert : MembershipCertificate) : gop unit :=
  let g := Cert.group_id cert in
  let d := Cert.device_id cert in
  group ← get_group g;
  refuse_if (negb (bool_decide (is_Some group))) (UnknownGroup g) ;;
  admin ← active_admin g (Cert.admin_device_id cert);
  admin_public_key ← decode_key (public_key admin);
  check_signature (verify_membership_certificate cert admin_public_key)
    (Alert Security.INVALID_AUTHORITY_CHAIN Security.CRITICAL (Some d) []) (BadSignature d) ;;
  existing ← get_membership g d;
  refuse_if (bool_decide (is_Some existing)) (MembershipExists g d) ;;
  insert_membership cert ;;
  audit c g Security.MEMBERSHIP_ISSUED
    ("Membership recorded for device " +:+ short d +:+ " (role=" +:+ Cert.role cert +:+ ")")
    Security.INFO (Some d) (Some (Cert.admin_device_id cert))
    [("role", JStr (Cert.role cert));
     ("permissions", JList (map JStr (Cert.permissions cert)))]%string.

(** [revoked_at or time.time()]. *)
Definition or_now (t : option spec_float) (now : spec_float) : spec_float :=
  match t with Some (S754_zero _) | None => now | Some f => f end.

Definition mark_row (revoked_by : string) (at_ : spec_float) (reason : option string)
    (r : membership_row) : membership_row :=
  {| m_public_key := m_public_key r; m_role := m_role r; m_permissions := m_permissions r;
     m_issued_at := m_issued_at r; m_expires_at := m_expires_at r; m_admin := m_admin r;
     m_signature := m_signature r; m_status := M_REVOKED; m_revoked_by := Some revoked_by;
     m_revoked_at := real_or_null at_; m_revoke_reason := reason |}.

Definition _mark_membership_revoked (c : clock) (g d revoked_by : string)
    (reason : option string) (revoked_at : option spec_float) : gop unit :=
  cert ← get_membership g d;
  refuse_if (negb (bool_decide (is_Some cert))) (UnknownMembership g d) ;;
  status ← get_membership_status g d;
  refuse_if (negb (bool_decide (status = Some M_ACTIVE))) (InactiveMembership g d) ;;
  _require_conn ;;
  modify (set_memberships (alter (mark_row revoked_by (or_now revoked_at (now c)) reason) (g, d))) ;;
  audit c g Security.MEMBERSHIP_REVOKED ("Membership revoked for device " +:+ short d)
    Security.WARNING (Some d) (Some revoked_by)
    [("reason", JStr (or_empty reason)); ("revoked_by", JStr revoked_by)]%string.

Definition revoke_membership (c : clock) (g d revoked_by : string) (reason : option string)
    : gop unit :=
  status ← get_admin_status g revoked_by;
  refuse_if (negb (is_active status)) (NotActiveAdmin g revoked_by) ;;
  _mark_membership_revoked c g d revoked_by reason None.

Definition process_join_response (c : clock) (r : GroupJoinResponse) : gop unit :=
  refuse_if (negb (JoinRes.approved r)) (NotApproved (JoinRes.request_id r)) ;;
  match JoinRes.certificate r with
  | None => refuse MissingAttachment
  | Some cert =>
      admin ← active_admin (JoinRes.group_id r) (JoinRes.admin_device_id r);
      key ← decode_key (public_key admin);
      check_signature (verify_join_response r key)
        (invalid_chain "join response" (JoinRes.device_id r) (JoinRes.group_id r))
        (BadSignature (JoinRes.request_id r)) ;;
      refuse_if (negb (bool_decide (Cert.group_id cert = JoinRes.group_id r))
                 || negb (bool_decide (Cert.device_id cert = JoinRes.device_id r)))
        TargetMismatch ;;
      refuse_if (negb (bool_decide (Cert.admin_device_id cert = JoinRes.admin_device_id r)))
        IssuerMismatch ;;
      record_membership c cert
  end.

(** ** Policies *)

Definition get_policy (g : string) : gop (option GroupPolicy) :=
  _require_conn ;;
  row ← gets (fun s => policies s !! g);
  match row with
  | None => mret None
  | Some r => match _row_to_policy g r with
              | Some p => mret (Some p) | None => raise RowTextError end
  end.

Fixpoint parse_policies (l : list (string * policy_row)) : gop (list GroupPolicy) :=
  match l with
  | [] => mret []
  | (g, r) :: l' =>
      match _row_to_policy g r with
      | None => raise RowTextError
      | Some p => ps ← parse_policies l'; mret (p :: ps)
      end
  end.

(** [ORDER BY updated_at DESC]. *)
Definition list_policies : gop (list GroupPolicy) :=
  _require_conn ;;
  rows ← gets (fun s =>
    sort_by (fun a b => SFltb (p_updated_at (snd b)) (p_updated_at (snd a)))
      (map_to_list (policies s)));
  parse_policies rows.

Definition policy_to_row (p : GroupPolicy) : policy_row :=
  {| p_allow_external_trust := Pol.allow_external_trust p;
     p_allow_export := Pol.allow_export p;
     p_leave_requires_admin := Pol.leave_requires_admin p;
     p_allow_inter_group := Pol.allow_inter_group p;
     p_matrix := json_dumps (Pol.matrix_json p);
     p_default_effect := effect_value (Pol.default_communication_effect p);
     p_version := Pol.version p; p_updated_at := Pol.updated_at p;
     p_admin := Pol.admin_device_id p; p_signature := Pol.signature p |}.

Definition set_policy (c : clock) (p : GroupPolicy) : gop unit :=
  let g := Pol.group_id p in
  group ← get_group g;
  refuse_if (negb (bool_decide (is_Some group))) (UnknownGroup g) ;;
  (match or_text (Pol.admin_device_id p) None with
   | Some d =>
       status ← get_admin_status g d;
       refuse_if (negb (is_active status)) (NotActiveAdmin g d)
   | None => mret ()
   end) ;;
  _require_conn ;;
  real_not_null (Pol.updated_at p) ;;
  modify (set_policies <[g := policy_to_row p]>) ;;
  audit c g Security.POLICY_CHANGED
    ("Policy version " +:+ pretty (Pol.version p) +:+ " updated for group " +:+ g)
    Security.INFO None (Pol.admin_device_id p)
    [("version", JInt (Pol.version p));
     ("allow_external_trust", JBool (Pol.allow_external_trust p));
     ("allow_export", JBool (Pol.allow_export p));
     ("leave_requires_admin", JBool (Pol.leave_requires_admin p))]%string.

(** ** Leaving and revocation *)

Definition process_leave_request (c : clock) (r : GroupLeaveRequest) : gop unit :=
  let g := LeaveReq.group_id r in
  let d := LeaveReq.device_id r in
  cert ← get_membership g d;
  match cert with
  | None => refuse (UnknownMembership g d)
  | Some cert =>
      status ← get_membership_status g d;
      refuse_if (negb (bool_decide (status = Some M_ACTIVE))) (InactiveMembership g d) ;;
      key ← decode_key (Cert.device_public_key cert);
      check_signature (verify_leave_request r key) (invalid_chain "leave request" d g)
        (BadSignature d) ;;
      policy ← get_policy g;
      raise_if (match policy with Some p => Pol.leave_requires_admin p | None => false end)
        LeaveRequiresAdminError ;;
      _mark_membership_revoked c g d d
        (or_text (LeaveReq.reason r) (Some "member left group"%string))
        (Some (LeaveReq.timestamp r))
  end.

Definition record_revocation (c : clock) (r : MembershipRevocation) : gop unit :=
  admin ← active_admin (Revoc.group_id r) (Revoc.revoked_by r);
  key ← decode_key (public_key admin);
  check_signature (verify_membership_revocation r key)
    (invalid_chain "membership revocation" (Revoc.device_id r) (Revoc.group_id r))
    (BadSignature (Revoc.device_id r)) ;;
  _mark_membership_revoked c (Revoc.group_id r) (Revoc.device_id r) (Revoc.revoked_by r)
    (Revoc.reason r) (Some (Revoc.timestamp r)).

Definition process_leave_response (c : clock) (r : GroupLeaveResponse) : gop unit :=
  refuse_if (negb (LeaveRes.approved r)) (NotApproved (LeaveRes.request_id r)) ;;
  match LeaveRes.revocation r with
  | None => refuse MissingAttachment
  | Some revocation =>
      admin ← active_admin (LeaveRes.group_id r) (LeaveRes.admin_device_id r);
      key ← decode_key (public_key admin);
      check_signature (verify_leave_response r key)
        (invalid_chain "leave response" (LeaveRes.device_id r) (LeaveRes.group_id r))
        (BadSignature (LeaveRes.request_id r)) ;;
      refuse_if (negb (bool_decide (Revoc.group_id revocation = LeaveRes.group_id r))
                 || negb (bool_decide (Revoc.device_id revocation = LeaveRes.device_id r)))
        TargetMismatch ;;
      refuse_if (negb (bool_decide (Revoc.revoked_by revocation = LeaveRes.admin_device_id r)))
        IssuerMismatch ;;
      record_revocation c revocation
  end.

(** ** Administrators *)

Definition add_admin (c : clock) (g d : string) (key : bytes) (added_by : string)
    : gop AdminRecord :=
  group ← get_group g;
  refuse_if (negb (bool_decide (is_Some group))) (UnknownGroup g) ;;
  status ← get_admin_status g added_by;
  refuse_if (negb (is_active status)) (NotActiveAdmin g added_by) ;;
  existing ← get_admin g d;
  refuse_if (bool_decide (is_Some existing)) (AdminExists g d) ;;
  let record := new_admin g d (b64_text key) (now c) (Some added_by) in
  insert_admin record ;;
  audit c g Security.ADMIN_ADDED ("Admin " +:+ short d +:+ " added to group " +:+ g)
    Security.INFO (Some d) (Some added_by) [] ;;
  mret record.

Definition mark_removed (by_ : string) (t : spec_float) (a : AdminRecord) : AdminRecord :=
  {| Admin.group_id := Admin.group_id a; admin_id := admin_id a; public_key := public_key a;
     added_at := added_at a; added_by := added_by a; Admin.status := REMOVED;
     removed_at := real_or_null t; removed_by := Some by_ |}.

Definition remove_admin (c : clock) (g d removed_by : string) (reason : option string)
    : gop unit :=
  status ← get_admin_status g d;
  refuse_if (negb (is_active status)) (NotActiveAdmin g d) ;;
  active ← list_admins g (Some ACTIVE);
  refuse_if (zlen active <=? 1) (LastAdmin g d) ;;
  _require_conn ;;
  modify (set_admins (alter (mark_removed removed_by (now c)) (g, d))) ;;
  audit c g Security.ADMIN_REMOVED ("Admin " +:+ short d +:+ " removed from group " +:+ g)
    Security.WARNING (Some d) (Some removed_by)
    [("reason", JStr (or_empty reason)); ("removed_by", JStr removed_by)]%string.

(** ** Export capabilities *)

(** The alert [verify_export_capability] emits for an expired capability. *)
Definition expired_alert (cap : ExportCapability) : notice :=
  Alert Security.POLICY_VIOLATION Security.WARNING (Some (Cap.device_id cap))
    [("capability_id", JStr (Cap.capability_id cap)); ("group_id", JStr (Cap.group_id cap));
     ("file_id", JStr (Cap.file_id cap)); ("expired_at", JFloat (Cap.expires_at cap))]%string.

(** [verify_export_capability(cap, keys)] at the time [t]. *)
Definition verify_capability (t : spec_float) (cap : ExportCapability) (keys : list string)
    : gop bool :=
  match verify_export_capability t cap keys with
  | None => raise StructError
  | Some b =>
      (if bool_decide (is_Some (Cap.signature cap)) && Cap.is_expired t cap
       then emit (expired_alert cap) else mret ()) ;;
      mret b
  end.

(** The row [INSERT OR REPLACE] writes: unused. *)
Definition capability_to_row (cap : ExportCapability) : capability_row :=
  {| row_cap :=
       Cap.mk (Cap.capability_id cap) (Cap.request_id cap) (Cap.device_id cap)
         (Cap.group_id cap) (Cap.file_id cap) (Cap.action cap) (Cap.issued_at cap)
         (Cap.expires_at cap) (Cap.nonce cap) (Some (or_empty (Cap.admin_device_id cap)))
         (Some (or_empty (Cap.signature cap)));
     used := false; used_at := None |}.

Definition store_capability (c : clock) (cap : ExportCapability) : gop unit :=
  refuse_if (Cap.is_expired (now c) cap) (CapabilityExpired (Cap.capability_id cap)) ;;
  active ← list_admins (Cap.group_id cap) (Some ACTIVE);
  ok ← verify_capability (audit_now c) cap (map public_key active);
  refuse_if (negb ok) (CapabilityUnverifiable (Cap.capability_id cap)) ;;
  _require_conn ;;
  real_not_null (Cap.issued_at cap) ;;
  real_not_null (Cap.expires_at cap) ;;
  modify (set_capabilities <[Cap.capability_id cap := capability_to_row cap]>).

(** The rows of the query, [ORDER BY expires_at DESC]. *)
Definition valid_rows (s : gdb) (t : spec_float) (g d file : string) : list capability_row :=
  sort_by (fun a b => SFltb (Cap.expires_at (row_cap b)) (Cap.expires_at (row_cap a)))
    (List.filter (fun r =>
        let cap := row_cap r in
        bool_decide (Cap.group_id cap = g) && bool_decide (Cap.device_id cap = d)
        && negb (used r) && SFltb t (Cap.expires_at cap)
        && (bool_decide (Cap.file_id cap = file) || bool_decide (Cap.file_id cap = "*"%string)))
      (map snd (map_to_list (capabilities s)))).

Definition get_valid_capability (t : spec_float) (g d file : string)
    : gop (option ExportCapability) :=
  _require_conn ;;
  gets (fun s => _row_to_capability <$> head (valid_rows s t g d file)).

Definition burn (t : spec_float) (r : capability_row) : capability_row :=
  {| row_cap := row_cap r; used := true; used_at := real_or_null t |}.

Definition mark_capability_used (t : spec_float) (capability_id : string) : gop unit :=
  _require_conn ;; modify (set_capabilities (alter (burn t) capability_id)).

(** [ORDER BY issued_at DESC]. *)
Definition list_capabilities (t : spec_float) (g : string) (dev : option string)
    (include_expired include_used : bool) : gop (list ExportCapability) :=
  _require_conn ;;
  gets (fun s =>
    map _row_to_capability
      (sort_by (fun a b => SFltb (Cap.issued_at (row_cap b)) (Cap.issued_at (row_cap a)))
        (List.filter (fun r =>
            let cap := row_cap r in
            bool_decide (Cap.group_id cap = g)
            && match dev with Some d => bool_decide (Cap.device_id cap = d) | None => true end
            && (include_expired || SFltb t (Cap.expires_at cap))
            && (include_used || negb (used r)))
          (map snd (map_to_list (capabilities s)))))).

(** Whether a row survives the purge. *)
Definition kept (t : spec_float) (r : capability_row) : bool :=
  negb (SFleb (Cap.expires_at (row_cap r)) t || used r).

Definition purge_expired_capabilities (t : spec_float) : gop Z :=
  _require_conn ;;
  deleted ← gets (fun s =>
    zlen (List.filter (fun kr => negb (kept t (snd kr))) (map_to_list (capabilities s))));
  modify (set_capabilities (filter (fun kr : string * capability_row => kept t kr.2 = true))) ;;
  mret deleted.

End Store.
