(* ===== verification/GroupPolicy.v ===== *)
(** * Enforcement of group policies

    Models the class [PolicyEnforcer] of [core/group/policy.py] over the store of
    [GroupStore]: external trust, export, leave, inter-group and communication checks.
    An enforcer may have no store ([has_store] false).  A check either returns or raises
    the denial, with the alert it emits; an error of the store passes through, except
    where the source catches it.

    A loop over groups reads the clock once per group: the readings are functions of the
    group identifier. *)

From Corelib Require Import SpecFloat.
From S2P Require Import Prelude Text Json Crypto Canonical Security Messages Trust Group GroupStore.
Import Identity Rotation Membership Admin Audit Policy ExportAuth Protocol.
Local Open Scope peerc_scope.
Local Open Scope Z_scope.

Inductive policy_error : Type :=
| ExternalTrustDeniedError (g : string)
| ExportDeniedError (g : string)
| LeaveDeniedError (g : string)        (** [LeaveRequiresAdminError] *)
| InterGroupDeniedError (g : string)
| CommunicationDeniedError (g : string)
| StoreFailure (e : store_error).

Abbreviation eop := (stm gdb policy_error).

(** A call on the store. *)
Definition on_gdb {A} (m : gop A) : eop A := fun s =>
  match m s with
  | (s', Ok a) => (s', Ok a)
  | (s', Err e) => (s', Err (StoreFailure e))
  end.

Definition violation (device : option string) (details : dict) : notice :=
  Alert Security.POLICY_VIOLATION Security.HIGH device details.

(** Emit the alert and raise the denial. *)
Definition deny {A} (n : notice) (e : policy_error) : eop A :=
  on_gdb (emit n) ;; raise e.

(** The clock in one round of the export loop. *)
Record readings := mk_readings {
  t_lookup : spec_float;
  t_verify : spec_float;
  t_burn : spec_float
}.

Section Enforcer.
Context `{Ed25519, Sha256, JsonText, CompactJson, LowerCase}.
Context (has_store : bool).

(** ** External trust *)

(** [is_member] of the loop. *)
Definition counts_as_member (t : spec_float) (group : Group) (device_id : string) : eop bool :=
  if decide (device_id = Grp.admin_device_id group) then mret true
  else
    cert ← on_gdb (get_membership (Grp.group_id group) device_id);
    match cert with
    | None => mret false
    | Some cert =>
        status ← on_gdb (get_membership_status (Grp.group_id group) device_id);
        mret (bool_decide (status = Some M_ACTIVE) && negb (is_membership_expired t cert))
    end.

Fixpoint external_trust_loop (t : string -> spec_float) (device_id : string)
    (gs : list Group) : eop unit :=
  match gs with
  | [] => mret ()
  | group :: gs' =>
      let g := Grp.group_id group in
      policy ← on_gdb (get_policy g);
      match policy with
      | None => external_trust_loop t device_id gs'
      | Some p =>
          if Pol.allow_external_trust p then external_trust_loop t device_id gs'
          else
            is_member ← counts_as_member (t g) group device_id;
            if (is_member : bool) then external_trust_loop t device_id gs'
            else deny (violation (Some device_id)
                   [("group_id", JStr g); ("group_name", JStr (Grp.name group));
                    ("policy", JStr "allow_external_trust");
                    ("action", JStr "trust_first_seen")]%string) (ExternalTrustDeniedError g)
      end
  end.

Definition check_external_trust (t : string -> spec_float) (device_id : string) : eop unit :=
  if negb has_store then mret ()
  else fun s =>
    match list_groups s with
    | (s', Err _) => (s', Ok ())       (** [except Exception: return] *)
    | (s', Ok gs) => external_trust_loop t device_id gs s'
    end.

Definition is_external_trust_allowed (t : string -> spec_float) (device_id : string)
    : eop bool := fun s =>
  match check_external_trust t device_id s with
  | (s', Ok _) => (s', Ok true)
  | (s', Err (ExternalTrustDeniedError _)) => (s', Ok false)
  | (s', Err e) => (s', Err e)
  end.

(** ** Export *)

(** The keys in use after the fetch: those given, or the group's own. *)
Definition export_keys (g : string) (active_admin_keys : option (list string))
    : eop (list string) :=
  match active_admin_keys with
  | Some keys => mret keys
  | None =>
      keys ← on_gdb (get_active_admin_public_keys g);
      mret (map (fun dk => b64_text (snd dk)) keys)
  end.

Definition export_denied (group : Group) (device_id : option string) : eop unit :=
  let g := Grp.group_id group in
  deny (violation device_id
    [("group_id", JStr g); ("group_name", JStr (Grp.name group));
     ("policy", JStr "allow_export"); ("action", JStr "export");
     ("has_capability", JBool false)]%string) (ExportDeniedError g).

Definition export_authorized (group : Group) (device_id file_id : string)
    (cap : ExportCapability) : eop unit :=
  on_gdb (emit (Alert Security.POLICY_CHANGED Security.INFO (Some device_id)
    [("group_id", JStr (Grp.group_id group)); ("capability_id", JStr (Cap.capability_id cap));
     ("admin_device_id", Factories.opt_str (Cap.admin_device_id cap));
     ("file_id", JStr file_id)]%string)).

(** The loop over groups; [active_admin_keys] is the variable of the function, set in
    the first round that needs it and kept for the next ones. *)
Fixpoint export_loop (t : string -> readings) (device_id file_id : option string)
    (gs : list Group) (active_admin_keys : option (list string)) : eop unit :=
  match gs with
  | [] => mret ()
  | group :: gs' =>
      let g := Grp.group_id group in
      policy ← on_gdb (get_policy g);
      match policy with
      | None => export_loop t device_id file_id gs' active_admin_keys
      | Some p =>
          if Pol.allow_export p then export_loop t device_id file_id gs' active_admin_keys
          else
            match device_id, file_id with
            | Some d, Some f =>
                cap ← on_gdb (get_valid_capability (t_lookup (t g)) g d f);
                match cap with
                | None => export_denied group device_id
                | Some cap =>
                    keys ← export_keys g active_admin_keys;
                    ok ← on_gdb (verify_capability (t_verify (t g)) cap keys);
                    if (ok : bool) then
                      on_gdb (mark_capability_used (t_burn (t g)) (Cap.capability_id cap)) ;;
                      export_authorized group d f cap ;;
                      export_loop t device_id file_id gs' (Some keys)
                    else export_denied group device_id
                end
            | _, _ => export_denied group device_id
            end
      end
  end.

Definition check_export (t : string -> readings) (group_id device_id file_id : option string)
    (active_admin_keys : option (list string)) : eop unit :=
  if negb has_store then mret ()
  else
    gs ← (match or_text group_id None with
          | Some g =>
              group ← on_gdb (get_group g);
              mret (match group with Some x => [x] | None => [] end)
          | None => on_gdb list_groups
          end);
    export_loop t device_id file_id gs active_admin_keys.

Definition is_export_allowed (t : string -> readings) (group_id device_id file_id : option string)
    (active_admin_keys : option (list string)) : eop bool := fun s =>
  match check_export t group_id device_id file_id active_admin_keys s with
  | (s', Ok _) => (s', Ok true)
  | (s', Err (ExportDeniedError _)) => (s', Ok false)
  | (s', Err e) => (s', Err e)
  end.

(** ** Leave *)

Definition check_leave (g device_id : string) (is_admin : bool) : eop unit :=
  if negb has_store || is_admin then mret ()
  else
    policy ← on_gdb (get_policy g);
    if match policy with Some p => Pol.leave_requires_admin p | None => false end then
      deny (violation (Some device_id)
        [("group_id", JStr g); ("policy", JStr "leave_requires_admin");
         ("action", JStr "group_leave")]%string) (LeaveDeniedError g)
    else mret ().

Definition is_leave_allowed (g device_id : string) (is_admin : bool) : eop bool := fun s =>
  match check_leave g device_id is_admin s with
  | (s', Ok _) => (s', Ok true)
  | (s', Err (LeaveDeniedError _)) => (s', Ok false)
  | (s', Err e) => (s', Err e)
  end.

(** ** Communication between groups *)

Fixpoint inter_group_loop (src dst : string) (gids : list string) : eop unit :=
  match gids with
  | [] => mret ()
  | gid :: gids' =>
      policy ← on_gdb (get_policy gid);
      if match policy with Some p => negb (Pol.allow_inter_group p) | None => false end then
        deny (violation None
          [("source_group_id", JStr src); ("target_group_id", JStr dst);
           ("restricting_group", JStr gid); ("policy", JStr "allow_inter_group")]%string)
          (InterGroupDeniedError gid)
      else inter_group_loop src dst gids'
  end.

Definition check_inter_group (src dst : string) : eop unit :=
  if bool_decide (src = dst) || negb has_store then mret ()
  else inter_group_loop src dst [src; dst].

Definition is_inter_group_allowed (src dst : string) : eop bool := fun s =>
  match check_inter_group src dst s with
  | (s', Ok _) => (s', Ok true)
  | (s', Err (InterGroupDeniedError _)) => (s', Ok false)
  | (s', Err e) => (s', Err e)
  end.

(** ** The communication matrix *)

(** The first rule that matches. *)
Fixpoint first_match (a : attempt) (rules : list CommunicationRule)
    : option CommunicationRule :=
  match rules with
  | [] => None
  | r :: rules' => if matches r a then Some r else first_match a rules'
  end.

(** The matrix of one policy, then its default. *)
Definition check_policy (a : attempt) (p : GroupPolicy) : eop unit :=
  match first_match a (Pol.communication_matrix p) with
  | Some r =>
      if decide (Rule.effect r = DENY) then
        deny (violation (Some (source_device_id a))
          [("group_id", JStr (Pol.group_id p)); ("source", JStr (Rule.source r));
           ("destination", JStr (Rule.destination r)); ("action", JStr (at_action a));
           ("effect", JStr "deny")]%string) (CommunicationDeniedError (Pol.group_id p))
      else mret ()
  | None =>
      if decide (Pol.default_communication_effect p = DENY) then
        deny (violation (Some (source_device_id a))
          [("group_id", JStr (Pol.group_id p)); ("action", JStr (at_action a));
           ("default_effect", JStr "deny")]%string) (CommunicationDeniedError (Pol.group_id p))
      else mret ()
  end.

Fixpoint policies_loop (a : attempt) (ps : list GroupPolicy) : eop unit :=
  match ps with
  | [] => mret ()
  | p :: ps' => check_policy a p ;; policies_loop a ps'
  end.

(** The policies that exist among the given groups. *)
Fixpoint collect_policies (gids : list string) : eop (list GroupPolicy) :=
  match gids with
  | [] => mret []
  | g :: gids' =>
      p ← on_gdb (get_policy g);
      ps ← collect_policies gids';
      mret (match p with Some p => p :: ps | None => ps end)
  end.

(** The set of the group identifiers of an attempt, in the order a Python set yields
    them: [swap] says which of two comes first. *)
Definition target_group_ids (swap : bool) (a : attempt) : list string :=
  match or_text (source_group_id a) None, or_text (dest_group_id a) None with
  | Some x, Some y => if decide (x = y) then [x] else if swap then [y; x] else [x; y]
  | Some x, None => [x]
  | None, Some y => [y]
  | None, None => []
  end.

Definition check_communication (swap : bool) (a : attempt) : eop unit :=
  (match or_text (source_group_id a) None, or_text (dest_group_id a) None with
   | Some x, Some y => if decide (x = y) then mret () else check_inter_group x y
   | _, _ => mret ()
   end) ;;
  if negb has_store then mret ()
  else
    ps ← (match target_group_ids swap a with
          | [] => on_gdb list_policies
          | gids => collect_policies gids
          end);
    policies_loop a ps.

Definition is_communication_allowed (swap : bool) (a : attempt) : eop bool := fun s =>
  match check_communication swap a s with
  | (s', Ok _) => (s', Ok true)
  | (s', Err (CommunicationDeniedError _ | InterGroupDeniedError _)) => (s', Ok false)
  | (s', Err e) => (s', Err e)
  end.

End Enforcer.
