(* ===== verification/GroupPolicyTheory.v ===== *)
(** * What policy enforcement guarantees

    Theorems about [GroupPolicy] on the states the group store can reach: policies survive
    storage, external devices are kept out of the trust store, the communication matrix is
    decided by its first matching rule in every policy in scope, and an export past a
    restricting group consumes a capability of that group. *)

From Corelib Require Import SpecFloat.
From S2P Require Import Prelude Text Json Crypto Canonical Security Messages Trust Group GroupStore.
From S2P Require Import GroupPolicy GroupTheory.
Import Identity Rotation Membership Admin Audit Policy ExportAuth Protocol.
Local Open Scope peerc_scope.
Local Open Scope Z_scope.

(** ** Policies survive storage *)

Lemma rule_roundtrip r : Rule.from_dict (Rule.to_dict r) = Ok r.
Proof. by destruct r as [? ? ? []]. Qed.

Lemma parse_rules_roundtrip l :
  Pol.parse_rules (map (fun r => JObj (Rule.to_dict r)) l) = Ok l.
Proof.
  induction l as [|r l IH]; [done|]. cbn [map Pol.parse_rules].
  by rewrite rule_roundtrip, IH.
Qed.

Lemma matrix_wf p : jwf (Pol.matrix_json p) = true.
Proof.
  unfold Pol.matrix_json. cbn [jwf]. apply forallb_forall. intros j.
  rewrite in_map_iff. intros (r & <- & _). by destruct r.
Qed.

Lemma effect_of_value e : effect_of (effect_value e) = Some e.
Proof. by destruct e. Qed.

Section Theory.
Context `{Ed25519, Sha256, !JsonText, !JsonTextLaws, CompactJson, LowerCase}.

Lemma row_to_policy_roundtrip p : _row_to_policy (Pol.group_id p) (policy_to_row p) = Some p.
Proof.
  unfold _row_to_policy, policy_to_row. cbn [p_matrix p_default_effect].
  pose proof (json_loads_dumps (Pol.matrix_json p) (matrix_wf p)) as E.
  destruct (json_dumps (Pol.matrix_json p)) eqn:Ed; [by apply json_dumps_nonempty in Ed|].
  rewrite E. cbn [mbind option_bind]. unfold Pol.matrix_json. rewrite parse_rules_roundtrip.
  cbn [mbind option_bind]. rewrite effect_of_value. by destruct p.
Qed.

(** The policy of a group, read back. *)
Definition policy_of (s : gdb) (g : string) : option GroupPolicy :=
  policies s !! g ≫= _row_to_policy g.

(** Every stored row parses. *)
Definition policies_parse (s : gdb) : Prop :=
  forall g r, policies s !! g = Some r -> is_Some (_row_to_policy g r).

Lemma policies_parse_step s s' :
  authorized any_capability s s' -> policies_parse s -> policies_parse s'.
Proof.
  intros Hs Hp g r. destruct Hs; try apply Hp; simpl.
  - rewrite (quiet_policies _ _ H5). apply Hp.
  - rewrite lookup_insert_Some. intros [[<- <-]|[_ E]]; [|by apply Hp].
    rewrite row_to_policy_roundtrip. eauto.
Qed.

Lemma policies_parse_run calls : policies_parse (run empty_gdb calls).
Proof. apply (run_keeps any_capability); [apply policies_parse_step|done|by intros ? ?]. Qed.

Lemma get_policy_run s g :
  connected s = true -> policies_parse s -> get_policy g s = (s, Ok (policy_of s g)).
Proof.
  intros Hc Hp. unfold get_policy, policy_of, mbind, stm_bind, _require_conn, gets. rewrite Hc.
  destruct (policies s !! g) as [r|] eqn:E; [|done].
  destruct (Hp _ _ E) as [p Ep]. simpl. by rewrite Ep.
Qed.

Lemma on_gdb_Ok {A} (m : gop A) s s' a : m s = (s', Ok a) -> on_gdb m s = (s', Ok a).
Proof. unfold on_gdb. by intros ->. Qed.

Lemma policy_run {A} s g (k : option GroupPolicy -> eop A) :
  connected s = true -> policies_parse s ->
  (on_gdb (get_policy g) ≫= k) s = k (policy_of s g) s.
Proof. intros Hc Hp. by rewrite (bind_run _ _ s s _ (on_gdb_Ok _ _ _ _ (get_policy_run s g Hc Hp))). Qed.

(** A policy survives storage.  When [set_policy] returns, [get_policy] gives back the
    same policy, rule by rule, whatever was stored for the group before. *)
Theorem set_get_policy c p s s' :
  set_policy c p s = (s', Ok ()) -> get_policy (Pol.group_id p) s' = (s', Ok (Some p)).
Proof.
  intros E.
  cut (wp (set_policy c p)
         (fun _ s' => connected s' = true /\ policies s' !! Pol.group_id p = Some (policy_to_row p))
         (fun _ => True) s).
  { unfold wp. rewrite E. intros [Hc Hp].
    unfold get_policy, mbind, stm_bind, _require_conn, gets. rewrite Hc, Hp. simpl.
    by rewrite row_to_policy_roundtrip. }
  unfold set_policy. gsteps.
  destruct (or_text (Pol.admin_device_id p) None); gsteps;
    (apply (wp_run _ quiet); [apply audit_quiet|done|]; intros [] s1 [-> _ _ -> _ _ _ _];
     split; [done|apply lookup_insert_eq]).
Qed.

(** ** External trust *)

Lemma groups_listed s gs :
  connected s = true -> list_groups s = (s, Ok gs) ->
  forall group, group ∈ gs <-> exists g, groups s !! g = Some group.
Proof.
  unfold list_groups, mbind, stm_bind, _require_conn, gets. intros -> [= <-] group.
  rewrite sort_by_perm, list_elem_of_fmap. split.
  - intros ([g grp] & -> & Hin). exists g. by apply elem_of_map_to_list.
  - intros [g E]. exists (g, group). split; [done|]. by apply elem_of_map_to_list.
Qed.

(** The founder, or an active member whose certificate has not expired. *)
Definition belongs (s : gdb) (t : spec_float) (group : Group) (d : string) : Prop :=
  d = Grp.admin_device_id group \/
  exists r, memberships s !! (Grp.group_id group, d) = Some r /\ m_status r = M_ACTIVE /\
    match m_expires_at r with Some e => SFltb e t = false | None => True end.

Lemma counts_as_member_run s t group d :
  connected s = true ->
  exists b, counts_as_member t group d s = (s, Ok b) /\ (b = true <-> belongs s t group d).
Proof.
  intros Hc. unfold counts_as_member, belongs. case_decide as Hd; [by exists true; split; [|tauto]|].
  unfold get_membership, get_membership_status, mbind, stm_bind, on_gdb, _require_conn, gets.
  rewrite Hc. simpl. destruct (memberships s !! (Grp.group_id group, d)) as [r|] eqn:E; simpl.
  - rewrite Hc. eexists. split; [done|]. rewrite andb_true_iff, bool_decide_eq_true, negb_true_iff.
    unfold is_membership_expired. rewrite E. simpl. split.
    + intros [Hs He]. right. exists r. split; [done|]. split; [by apply (inj Some) in Hs|].
      by destruct (m_expires_at r).
    + intros [?|(r' & [= <-] & Hs & He)]; [done|]. split; [by rewrite <- Hs|].
      by destruct (m_expires_at r).
  - exists false. split; [done|]. split; [done|]. intros [?|(r & ? & _)]; done.
Qed.

(** The groups that keep a device out. *)
Definition excludes (s : gdb) (t : string -> spec_float) (group : Group) (d : string) : Prop :=
  exists p, policy_of s (Grp.group_id group) = Some p /\ Pol.allow_external_trust p = false /\
    ~ belongs s (t (Grp.group_id group)) group d.

Lemma external_trust_loop_run s t d gs :
  connected s = true -> policies_parse s ->
  (external_trust_loop t d gs s = (s, Ok ()) /\ forall group, group ∈ gs -> ~ excludes s t group d) \/
  (exists s' group, external_trust_loop t d gs s = (s', Err (ExternalTrustDeniedError (Grp.group_id group)))
     /\ group ∈ gs /\ excludes s t group d).
Proof.
  intros Hc Hp. induction gs as [|group gs IH]; [left; split; [done|set_solver]|].
  cbn [external_trust_loop]. rewrite policy_run by done.
  assert (~ excludes s t group d ->
    external_trust_loop t d (group :: gs) s = external_trust_loop t d gs s ->
    (external_trust_loop t d gs s = (s, Ok ()) /\
      forall group', group' ∈ group :: gs -> ~ excludes s t group' d) \/
    (exists s' group', external_trust_loop t d gs s = (s', Err (ExternalTrustDeniedError (Grp.group_id group')))
     /\ group' ∈ group :: gs /\ excludes s t group' d)) as Hnext.
  { intros Hn _. destruct IH as [[E Hall]|(s' & g' & E & Hin & Hex)].
    - left. split; [done|]. intros g'. rewrite elem_of_cons. intros [-> | ?]; auto.
    - right. exists s', g'. rewrite elem_of_cons. auto. }
  cbn [external_trust_loop] in Hnext. rewrite policy_run in Hnext by done.
  destruct (policy_of s (Grp.group_id group)) as [p|] eqn:Ep.
  - destruct (Pol.allow_external_trust p) eqn:Ea.
    { apply Hnext; [|done]. intros (p' & Ep' & ? & _). congruence. }
    destruct (counts_as_member_run s (t (Grp.group_id group)) group d Hc) as ([] & Em & Hb);
      rewrite (bind_run _ _ s s _ Em) in *.
    { apply Hnext; [|done]. intros (p' & _ & _ & Hnb). apply Hnb, Hb. done. }
    right. eexists _, group. split; [reflexivity|]. split; [by left|].
    exists p. split_and!; try done. rewrite <- Hb. done.
  - apply Hnext; [|done]. intros (p' & Ep' & _). congruence.
Qed.

Lemma list_groups_run s : connected s = true -> exists gs, list_groups s = (s, Ok gs).
Proof.
  intros Hc. unfold list_groups, mbind, stm_bind, _require_conn, gets. rewrite Hc. eauto.
Qed.

Lemma check_external_trust_run s t d :
  connected s = true -> policies_parse s -> inv s ->
  is_ok (snd (check_external_trust true t d s)) = false <->
  exists g group, groups s !! g = Some group /\ excludes s t group d.
Proof.
  intros Hc Hp Hi. unfold check_external_trust. cbn [negb].
  destruct (list_groups_run s Hc) as [gs Egs]. rewrite Egs.
  pose proof (groups_listed s gs Hc Egs) as Hgs.
  destruct (external_trust_loop_run s t d gs Hc Hp) as [[-> Hall]|(s' & group & -> & Hin & Hex)];
    simpl; split; try done.
  - intros (g & group & E & Hex). exfalso. apply (Hall group); [|done]. apply Hgs. eauto.
  - intros _. apply Hgs in Hin as [g E]. eauto.
Qed.



(** ** The communication matrix *)

(** What a policy says of an attempt: the first rule that matches decides, then the
    default. *)
Definition decides (a : attempt) (p : GroupPolicy) (e : PolicyEffect) : Prop :=
  (exists l1 r l2, Pol.communication_matrix p = l1 ++ r :: l2 /\
     Forall (fun x => matches x a = false) l1 /\ matches r a = true /\ e = Rule.effect r) \/
  (Forall (fun x => matches x a = false) (Pol.communication_matrix p) /\
   e = Pol.default_communication_effect p).

Definition verdict (a : attempt) (p : GroupPolicy) : PolicyEffect :=
  match first_match a (Pol.communication_matrix p) with
  | Some r => Rule.effect r
  | None => Pol.default_communication_effect p
  end.

Lemma first_match_Some a l r :
  first_match a l = Some r <-> exists l1 l2, l = l1 ++ r :: l2 /\
    Forall (fun x => matches x a = false) l1 /\ matches r a = true.
Proof.
  induction l as [|x l IH]; simpl; [split; [done|by intros ([] & ? & ? & _)]|].
  destruct (matches x a) eqn:Ex.
  - split.
    + intros [= <-]. by exists [], l.
    + intros ([|y l1] & l2 & E & Hl & Hr); simplify_eq/=; [done|].
      apply Forall_cons in Hl as [? _]. congruence.
  - rewrite IH. split.
    + intros (l1 & l2 & -> & ? & ?). exists (x :: l1), l2. auto.
    + intros ([|y l1] & l2 & E & Hl & Hr); simplify_eq/=; [congruence|].
      apply Forall_cons in Hl as [_ ?]. eauto.
Qed.

Lemma first_match_None a l :
  first_match a l = None <-> Forall (fun x => matches x a = false) l.
Proof.
  induction l as [|x l IH]; simpl; [done|]. rewrite Forall_cons.
  destruct (matches x a); [naive_solver|]. rewrite IH. tauto.
Qed.

Lemma decides_verdict a p e : decides a p e <-> e = verdict a p.
Proof.
  unfold decides, verdict. destruct (first_match a (Pol.communication_matrix p)) as [r|] eqn:E.
  - split.
    + intros [(l1 & r' & l2 & El & ? & ? & ->)|[Hn ->]].
      * assert (first_match a (Pol.communication_matrix p) = Some r') as E'
          by (apply first_match_Some; eauto). congruence.
      * apply first_match_None in Hn. congruence.
    + intros ->. left. apply first_match_Some in E as (l1 & l2 & ? & ? & ?). eauto 10.
  - split.
    + intros [(l1 & r' & l2 & El & ? & ? & ->)|[Hn ->]]; [|done].
      assert (first_match a (Pol.communication_matrix p) = Some r') as E'
        by (apply first_match_Some; eauto). congruence.
    + intros ->. right. by apply first_match_None in E.
Qed.

Lemma check_policy_run a p s :
  (check_policy a p s = (s, Ok ()) /\ verdict a p = ALLOW) \/
  (exists s', check_policy a p s = (s', Err (CommunicationDeniedError (Pol.group_id p))) /\
     verdict a p = DENY).
Proof.
  unfold check_policy, verdict. destruct (first_match a (Pol.communication_matrix p)) as [r|];
    case_decide as He; try (right; eexists; split; [reflexivity|done]); left; (split; [done|]);
    [by destruct (Rule.effect r)|by destruct (Pol.default_communication_effect p)].
Qed.

Lemma policies_loop_run a ps s :
  (policies_loop a ps s = (s, Ok ()) /\ forall p, p ∈ ps -> verdict a p = ALLOW) \/
  (exists s' g p, policies_loop a ps s = (s', Err (CommunicationDeniedError g)) /\ p ∈ ps /\
     verdict a p = DENY).
Proof.
  induction ps as [|p ps IH]; [left; split; [done|set_solver]|]. cbn [policies_loop].
  destruct (check_policy_run a p s) as [[E Hv]|(s' & E & Hv)].
  - rewrite (bind_run _ _ _ _ _ E). destruct IH as [[-> Hall]|(s' & g & p' & -> & Hin & ?)].
    + left. split; [done|]. intros p'. rewrite elem_of_cons. intros [-> | ?]; auto.
    + right. exists s', g, p'. rewrite elem_of_cons. auto.
  - right. exists s', (Pol.group_id p), p. unfold mbind, stm_bind. rewrite E, elem_of_cons. auto.
Qed.

Lemma collect_policies_run s gids :
  connected s = true -> policies_parse s ->
  collect_policies gids s = (s, Ok (omap (policy_of s) gids)).
Proof.
  intros Hc Hp. induction gids as [|g gids IH]; [done|]. cbn [collect_policies].
  rewrite policy_run, (bind_run _ _ _ _ _ IH) by done. cbn [omap list_omap].
  by destruct (policy_of s g).
Qed.

Lemma parse_policies_run s l :
  (forall g r, (g, r) ∈ l -> policies s !! g = Some r) -> policies_parse s ->
  parse_policies l s = (s, Ok (omap (fun gr => _row_to_policy (fst gr) (snd gr)) l)).
Proof.
  intros Hl Hp. induction l as [|[g r] l IH]; [done|]. cbn [parse_policies omap list_omap fst snd].
  destruct (Hp g r) as [p Ep]; [apply Hl; by left|]. rewrite Ep.
  rewrite (bind_run _ _ s s _ (IH (fun g r Hin => Hl g r (list_elem_of_further _ _ _ Hin)))). done.
Qed.

Lemma list_policies_run s :
  connected s = true -> policies_parse s ->
  exists ps, list_policies s = (s, Ok ps) /\
    forall p, p ∈ ps <-> exists g, policy_of s g = Some p.
Proof.
  intros Hc Hp. unfold list_policies, mbind at 1, stm_bind at 1, _require_conn. rewrite Hc.
  pose (newer := fun a b : string * policy_row => SFltb (p_updated_at (snd b)) (p_updated_at (snd a))).
  set (l := sort_by newer (map_to_list (policies s))).
  assert (forall g r, (g, r) ∈ l <-> policies s !! g = Some r) as Hl.
  { intros g r. unfold l. rewrite sort_by_perm. apply elem_of_map_to_list. }
  eexists. split.
  - erewrite (bind_run _ _ s s l) by reflexivity.
    apply parse_policies_run; [|done]. intros g r. apply Hl.
  - intros p. rewrite list_elem_of_omap. unfold policy_of. split.
    + intros ([g r] & Hin & Ep). exists g. apply Hl in Hin. by rewrite Hin.
    + intros (g & Ep). apply bind_Some in Ep as (r & Er & Ep). exists (g, r).
      split; [by apply Hl|done].
Qed.

Definition inter_group_open (s : gdb) (g : string) : Prop :=
  forall p, policy_of s g = Some p -> Pol.allow_inter_group p = true.

Lemma inter_group_loop_run s x y gids :
  connected s = true -> policies_parse s ->
  (inter_group_loop x y gids s = (s, Ok ()) /\ forall g, g ∈ gids -> inter_group_open s g) \/
  (exists s' g, inter_group_loop x y gids s = (s', Err (InterGroupDeniedError g)) /\ g ∈ gids /\
     ~ inter_group_open s g).
Proof.
  intros Hc Hp. induction gids as [|g gids IH]; [left; split; [done|set_solver]|].
  cbn [inter_group_loop]. rewrite policy_run by done.
  destruct (match policy_of s g with Some p => negb (Pol.allow_inter_group p) | None => false end) eqn:Eb.
  - right. eexists _, g. split; [reflexivity|]. split; [by left|]. intros Ho.
    destruct (policy_of s g) as [p|] eqn:Ep; [|done]. by rewrite (Ho p) in Eb.
  - assert (inter_group_open s g) as Hg.
    { intros p Ep. rewrite Ep in Eb. by apply negb_false_iff in Eb. }
    destruct IH as [[-> Hall]|(s' & g' & -> & ? & ?)].
    + left. split; [done|]. intros g'. rewrite elem_of_cons. intros [-> | ?]; auto.
    + right. exists s', g'. rewrite elem_of_cons. auto.
Qed.

(** The groups whose policies an attempt is held against: those it names, or all. *)
Definition in_scope (a : attempt) (g : string) : Prop :=
  match or_text (source_group_id a) None, or_text (dest_group_id a) None with
  | None, None => True
  | x, y => x = Some g \/ y = Some g
  end.

Lemma target_group_ids_scope swap a g :
  target_group_ids swap a <> [] -> g ∈ target_group_ids swap a <-> in_scope a g.
Proof.
  unfold target_group_ids, in_scope.
  destruct (or_text (source_group_id a) None) as [x|], (or_text (dest_group_id a) None) as [y|];
    try case_decide; try destruct swap; try done; intros _; set_solver.
Qed.

(** The second half of the check: the policies in scope, each by its own matrix. *)
Lemma matrices_run s swap a :
  connected s = true -> policies_parse s ->
  let m := (match target_group_ids swap a with
            | [] => on_gdb list_policies
            | gids => collect_policies gids
            end) ≫= (fun ps => policies_loop a ps) in
  (m s = (s, Ok ()) /\ forall g p, in_scope a g -> policy_of s g = Some p -> verdict a p = ALLOW) \/
  (exists s' g0 g p, m s = (s', Err (CommunicationDeniedError g0)) /\ in_scope a g /\
     policy_of s g = Some p /\ verdict a p = DENY).
Proof.
  intros Hc Hp m.
  assert (exists ps, m s = policies_loop a ps s /\
    forall p, p ∈ ps <-> exists g, in_scope a g /\ policy_of s g = Some p) as (ps & Em & Hps).
  { unfold m. destruct (target_group_ids swap a) as [|g0 gids] eqn:Et.
    - destruct (list_policies_run s Hc Hp) as (ps & El & Hps). exists ps.
      rewrite (bind_run _ _ _ _ _ (on_gdb_Ok _ _ _ _ El)). split; [done|].
      intros p. rewrite Hps. unfold target_group_ids, in_scope in *.
      destruct (or_text (source_group_id a) None), (or_text (dest_group_id a) None);
        try case_decide; try destruct swap; try done; naive_solver.
    - eexists. rewrite (bind_run _ _ _ _ _ (collect_policies_run s (g0 :: gids) Hc Hp)).
      split; [done|]. intros p. rewrite list_elem_of_omap. rewrite <- Et.
      pose proof (fun g => target_group_ids_scope swap a g ltac:(by rewrite Et)) as Hsc.
      split; intros (g & Hg & Ep); exists g; by rewrite ?Hsc in *. }
  rewrite Em. destruct (policies_loop_run a ps s) as [[E Hall]|(s' & g0 & p & E & Hin & Hv)].
  - left. split; [done|]. intros g p Hg Ep. apply Hall, Hps. eauto.
  - right. apply Hps in Hin as (g & Hg & Ep). eauto 10.
Qed.

(** Two different groups named by the attempt are both open. *)
Definition groups_open (s : gdb) (a : attempt) : Prop :=
  forall x y, or_text (source_group_id a) None = Some x ->
    or_text (dest_group_id a) None = Some y -> x <> y ->
    inter_group_open s x /\ inter_group_open s y.

(** The first half of the check. *)
Lemma inter_phase_run s a :
  connected s = true -> policies_parse s ->
  let m := match or_text (source_group_id a) None, or_text (dest_group_id a) None with
           | Some x, Some y => if decide (x = y) then mret () else check_inter_group true x y
           | _, _ => mret ()
           end in
  (m s = (s, Ok ()) /\ groups_open s a) \/
  (exists s' g, m s = (s', Err (InterGroupDeniedError g)) /\ ~ groups_open s a).
Proof.
  intros Hc Hp m. unfold m, groups_open.
  destruct (or_text (source_group_id a) None) as [x|], (or_text (dest_group_id a) None) as [y|];
    try (by left; split; [|naive_solver]).
  case_decide as Hxy; [left; split; [done|naive_solver]|].
  unfold check_inter_group. rewrite bool_decide_false by done. cbn [orb negb].
  destruct (inter_group_loop_run s x y [x; y] Hc Hp) as [[E Ho]|(s' & g & E & Hin & Hn)].
  - left. split; [done|]. intros x' y' [= <-] [= <-] _. split; apply Ho; set_solver.
  - right. exists s', g. split; [done|]. intros Ho. destruct (Ho x y) as [? ?]; [done..|]. set_solver.
Qed.

(** Communication is decided by the matrix.  In any state the store can reach, the
    check gives an answer, and it is yes exactly when no policy of two different groups
    named by the attempt closes inter-group communication, and every policy in scope
    allows the attempt by its first matching rule or, when none matches, by its default.
    The order in which the set of groups is visited makes no difference. *)
Theorem communication_decided calls swap a :
  let s := run empty_gdb calls in
  connected s = true ->
  exists b, snd (is_communication_allowed true swap a s) = Ok b /\
    (b = true <->
     groups_open s a /\
     (forall g p, in_scope a g -> policy_of s g = Some p -> decides a p ALLOW)).
Proof.
  intros s Hc. pose proof (policies_parse_run calls) as Hp. fold s in Hp.
  unfold is_communication_allowed, check_communication. cbn [negb].
  pose proof (matrices_run s swap a Hc Hp) as Hm. cbv zeta in Hm.
  destruct (inter_phase_run s a Hc Hp) as [[E Ho]|(s' & g & E & Hn)]; cbv zeta in E.
  - rewrite (bind_run _ _ _ _ _ E).
    destruct Hm as [[Em Hall]|(s' & g0 & g & p & Em & Hg & Ep & Hv)];
      rewrite Em; eexists; (split; [reflexivity|]); split; try done.
    + intros _. split; [done|]. intros g p Hg Ep. apply decides_verdict. symmetry. eauto.
    + intros [_ Ha]. pose proof (Ha g p Hg Ep) as Hd. apply decides_verdict in Hd. congruence.
  - unfold mbind, stm_bind. rewrite E. exists false. split; [done|]. split; [done|]. tauto.
Qed.


(** ** Export *)

(** Only capabilities are spent, and alerts emitted. *)
Record spent (s s' : gdb) : Prop := {
  spent_connected : connected s' = connected s;
  spent_groups : groups s' = groups s;
  spent_policies : policies s' = policies s;
  spent_admins : admins s' = admins s;
  spent_back id r' : capabilities s' !! id = Some r' ->
    exists r, capabilities s !! id = Some r /\ row_cap r' = row_cap r /\
      (used r = true -> used r' = true);
  spent_forth id r : capabilities s !! id = Some r ->
    exists r', capabilities s' !! id = Some r' /\ row_cap r' = row_cap r /\
      (used r = true -> used r' = true)
}.

#[local] Instance spent_preorder : PreOrder spent.
Proof.
  split.
  - intros s. split; try done; eauto.
  - intros s1 s2 s3 [A1 A2 A3 A4 A5 A6] [B1 B2 B3 B4 B5 B6]. split; try congruence.
    + intros id r3 E3. destruct (B5 _ _ E3) as (r2 & E2 & ? & ?).
      destruct (A5 _ _ E2) as (r1 & E1 & ? & ?). exists r1. split_and!; [done|congruence|auto].
    + intros id r1 E1. destruct (A6 _ _ E1) as (r2 & E2 & ? & ?).
      destruct (B6 _ _ E2) as (r3 & E3 & ? & ?). exists r3. split_and!; [done|congruence|auto].
Qed.

Lemma spent_emit n s : spent s (set_emitted (fun l => l ++ [n]) s).
Proof. split; try done; simpl; eauto. Qed.

Lemma spent_burn t id s : spent s (set_capabilities (alter (burn t) id) s).
Proof.
  split; try done; simpl.
  - intros id' r'. rewrite lookup_alter_Some. intros [(-> & r & E & ->)|[_ E]]; eauto.
  - intros id' r E. destruct (decide (id' = id)) as [->|Hne].
    + exists (burn t r). by rewrite lookup_alter_eq, E.
    + exists r. by rewrite lookup_alter_ne by done.
Qed.

Lemma spent_keyed s s' : spent s s' -> cap_keyed s -> cap_keyed s'.
Proof.
  intros Hs Hk id r' E. destruct (spent_back _ _ Hs _ _ E) as (r & E1 & -> & _). by apply Hk.
Qed.

Lemma spent_policy_of s s' g : spent s s' -> policy_of s' g = policy_of s g.
Proof. intros Hs. unfold policy_of. by rewrite (spent_policies _ _ Hs). Qed.

Lemma spent_parse s s' : spent s s' -> policies_parse s -> policies_parse s'.
Proof. intros Hs Hp. unfold policies_parse. by rewrite (spent_policies _ _ Hs). Qed.

(** The keys of the active administrators of a group, as the loop encodes them. *)
Definition own_keys (s : gdb) (g : string) (ks : list string) : Prop :=
  exists l, get_active_admin_public_keys g s = (s, Ok l) /\
    ks = map (fun dk => b64_text (snd dk)) l.

Lemma decode_keys_moved l s s' ks :
  decode_keys l s = (s, Ok ks) -> decode_keys l s' = (s', Ok ks).
Proof.
  revert ks. induction l as [|a l IH]; intros ks; simpl.
  - unfold mret, stm_ret. by intros [= <-].
  - unfold decode_key. destruct (decode_text (public_key a)); [|done].
    unfold mbind, stm_bind, mret, stm_ret. specialize (IH).
    destruct (decode_keys l s) as [s1 [ks1|]] eqn:E1; [|done]. intros [= -> <-].
    by rewrite (IH ks1).
Qed.

Lemma own_keys_moved s s' g ks : spent s s' -> own_keys s' g ks -> own_keys s g ks.
Proof.
  intros Hs (l & E & ->). exists l. split; [|done].
  unfold get_active_admin_public_keys, list_admins, admin_rows, mbind, stm_bind, _require_conn, gets in *.
  rewrite (spent_connected _ _ Hs) in E. destruct (connected s); [|done].
  cbv beta iota in E. rewrite (spent_admins _ _ Hs) in E. by eapply decode_keys_moved.
Qed.

(** What a passed round of the loop has used for a group. *)
Definition consumed (s s' : gdb) (t : string -> readings) (keys : list string) (g : string)
    (device_id file_id : option string) : Prop :=
  exists d f id r r', device_id = Some d /\ file_id = Some f /\
    capabilities s !! id = Some r /\ used r = false /\
    Cap.matches (row_cap r) d f g = true /\
    SFltb (t_lookup (t g)) (Cap.expires_at (row_cap r)) = true /\
    verify_export_capability (t_verify (t g)) (row_cap r) keys = Some true /\
    capabilities s' !! id = Some r' /\ used r' = true.

Lemma consumed_moved s0 s s' s1 t ks g dv fl :
  spent s0 s -> spent s' s1 -> consumed s s' t ks g dv fl -> consumed s0 s1 t ks g dv fl.
Proof.
  intros H0' H1' (d & f & id & r & r' & Ed & Ef & E & Hu & Hm & Ht & Hv & E' & Hu').
  destruct (spent_back _ _ H0' _ _ E) as (r0 & E0 & Hr & Hback).
  destruct (spent_forth _ _ H1' _ _ E') as (r1 & E1 & _ & Hforth).
  exists d, f, id, r0, r1. rewrite <- Hr. split_and!; try done; [|auto].
  destruct (used r0); [|done]. rewrite <- Hu. symmetry. auto.
Qed.

Lemma verify_capability_true t cap ks s s' :
  verify_capability t cap ks s = (s', Ok true) ->
  s' = s /\ verify_export_capability t cap ks = Some true.
Proof.
  unfold verify_capability. destruct (verify_export_capability t cap ks) as [ok|] eqn:E; [|done].
  destruct (bool_decide (is_Some (Cap.signature cap)) && Cap.is_expired t cap) eqn:Ex.
  - unfold verify_export_capability in E. apply andb_true_iff in Ex as [_ Ex]. rewrite Ex in E.
    destruct (Cap.signature cap); simplify_eq; done.
  - unfold mbind, stm_bind, mret, stm_ret. by intros [= <- <-].
Qed.

Lemma on_gdb_inv {A} (m : gop A) s s' a : on_gdb m s = (s', Ok a) -> m s = (s', Ok a).
Proof. unfold on_gdb. by destruct (m s) as [s1 [b|e]]; intros [= <- <-]. Qed.

Lemma export_denied_fails group dv s s' : export_denied group dv s <> (s', Ok ()).
Proof. done. Qed.

(** One round on a group that restricts export: the keys used and the state after. *)
Lemma export_round t d f group keys s s' (rest : list string -> eop unit) :
  connected s = true -> cap_keyed s ->
  (cap ← on_gdb (get_valid_capability (t_lookup (t (Grp.group_id group))) (Grp.group_id group) d f);
   match cap with
   | None => export_denied group (Some d)
   | Some cap =>
       keys ← export_keys (Grp.group_id group) keys;
       ok ← on_gdb (verify_capability (t_verify (t (Grp.group_id group))) cap keys);
       if (ok : bool) then
         on_gdb (mark_capability_used (t_burn (t (Grp.group_id group))) (Cap.capability_id cap)) ;;
         export_authorized group d f cap ;; rest keys
       else export_denied group (Some d)
   end) s = (s', Ok ()) ->
  exists ks s1, (keys = Some ks \/ own_keys s (Grp.group_id group) ks) /\ spent s s1 /\
    consumed s s1 t ks (Grp.group_id group) (Some d) (Some f) /\ rest ks s1 = (s', Ok ()).
Proof.
  intros Hc Hk E. apply bind_Ok in E as (sa & [cap|] & Ea & E); [|done].
  apply on_gdb_inv, get_valid_capability_Some in Ea as (-> & id & r & Er & <- & Hu & Hg & Hd & Hf & Ht).
  apply bind_Ok in E as (sb & ks & Eb & E).
  assert (sb = s /\ (keys = Some ks \/ own_keys s (Grp.group_id group) ks)) as [-> Hks].
  { unfold export_keys in Eb. destruct keys as [k0|]; [injection Eb as <- <-; auto|].
    apply bind_Ok in Eb as (sc & l & Ec & El). apply on_gdb_inv in Ec.
    injection El as <- <-. assert (sc = s) as ->; [|split; [done|right; by exists l]].
    pose proof (active_keys_same (Grp.group_id group) s) as Hs. by rewrite Ec in Hs. }
  apply bind_Ok in E as (sd & ok & Ed & E). apply on_gdb_inv in Ed. destruct ok; [|done].
  apply verify_capability_true in Ed as [-> Hv].
  apply bind_Ok in E as (se & [] & Ee & E). apply on_gdb_inv in Ee.
  apply bind_Ok in E as (sf & [] & Ef & E).
  unfold mark_capability_used, mbind, stm_bind, _require_conn in Ee. rewrite Hc in Ee.
  injection Ee as <-. injection Ef as <-.
  exists ks. eexists. split; [done|]. split; [|split; [|exact E]].
  - etransitivity; [apply spent_burn|apply spent_emit].
  - exists d, f, id, r, (burn (t_burn (t (Grp.group_id group))) r). split_and!; try done.
    + unfold Cap.matches. rewrite !andb_true_iff, orb_true_iff, !bool_decide_eq_true. tauto.
    + simpl. by rewrite (Hk _ _ Er), lookup_alter_eq, Er.
Qed.

(** A group that restricts export. *)
Definition restricts_export (s : gdb) (g : string) : Prop :=
  exists p, policy_of s g = Some p /\ Pol.allow_export p = false.

Lemma export_loop_sound t dv fl gs keys s s' :
  connected s = true -> policies_parse s -> cap_keyed s ->
  export_loop t dv fl gs keys s = (s', Ok ()) ->
  spent s s' /\ forall group, group ∈ gs -> restricts_export s (Grp.group_id group) ->
    exists ks, (keys = Some ks \/ exists group', group' ∈ gs /\ own_keys s (Grp.group_id group') ks)
      /\ consumed s s' t ks (Grp.group_id group) dv fl.
Proof.
  revert keys s. induction gs as [|group gs IH]; intros keys s Hc Hp Hk E.
  { injection E as <-. split; [done|set_solver]. }
  cbn [export_loop] in E. rewrite policy_run in E by done.
  assert (forall E' : ~ restricts_export s (Grp.group_id group),
    export_loop t dv fl gs keys s = (s', Ok ()) ->
    spent s s' /\ forall group0, group0 ∈ group :: gs -> restricts_export s (Grp.group_id group0) ->
      exists ks, (keys = Some ks \/ exists group', group' ∈ group :: gs /\ own_keys s (Grp.group_id group') ks)
        /\ consumed s s' t ks (Grp.group_id group0) dv fl) as Hskip.
  { intros Hn El. destruct (IH keys s Hc Hp Hk El) as [Hs Hall]. split; [done|].
    intros group0. rewrite elem_of_cons. intros [-> | Hin] Hr; [done|].
    destruct (Hall group0 Hin Hr) as (ks & [?|(g' & ? & ?)] & ?); exists ks; split; auto.
    right. exists g'. rewrite elem_of_cons. auto. }
  destruct (policy_of s (Grp.group_id group)) as [p|] eqn:Ep.
  2: { apply Hskip; [intros (p & ? & _); congruence|done]. }
  destruct (Pol.allow_export p) eqn:Ea.
  { apply Hskip; [intros (p' & ? & ?); congruence|done]. }
  destruct dv as [d|]; [|done]. destruct fl as [f|]; [|done].
  apply (export_round t d f group keys s s' (fun ks => export_loop t (Some d) (Some f) gs (Some ks)))
    in E as (ks & s1 & Hks & Hs1 & Hcons & El); [|done..].
  destruct (IH (Some ks) s1) as [Hs' Hall]; try done.
  { by rewrite (spent_connected _ _ Hs1). } { by eapply spent_parse. } { by eapply spent_keyed. }
  split; [by etransitivity|]. intros group0. rewrite elem_of_cons. intros [-> | Hin] Hr.
  - exists ks. split; [|by apply (consumed_moved s s s1 s')].
    destruct Hks as [?|?]; [by left|right]. exists group. rewrite elem_of_cons. auto.
  - destruct (Hall group0 Hin) as (ks' & Hks' & Hc').
    { destruct Hr as (p0 & ? & ?). exists p0. by rewrite (spent_policy_of _ _ _ Hs1). }
    exists ks'. split; [|by apply (consumed_moved s s1 s' s')].
    destruct Hks' as [[= <-]|(g' & ? & Ho)].
    + destruct Hks as [?|?]; [by left|right]. exists group. rewrite elem_of_cons. auto.
    + right. exists g'. rewrite elem_of_cons. split; [auto|by eapply own_keys_moved].
Qed.

(** C14: an export past a restricting group consumes a capability.  In any state the store
    can reach, when the check returns, every group it covers that restricts export had an
    unused, unexpired capability for this device and this file (or any file), whose
    signature verifies under the keys in use, and that capability is used afterwards; the
    keys in use are those given, or those of the active administrators of one of the
    groups covered.  Nothing else of the tables has changed. *)
Theorem export_consumes_capability calls t gid dv fl keys s' g group :
  let s := run empty_gdb calls in
  connected s = true ->
  check_export true t gid dv fl keys s = (s', Ok ()) ->
  groups s !! g = Some group -> (or_text gid None = None \/ gid = Some g) ->
  restricts_export s g ->
  spent s s' /\
  exists ks, (keys = Some ks \/ exists g', is_Some (groups s !! g') /\ own_keys s g' ks) /\
    consumed s s' t ks g dv fl.
Proof.
  intros s Hc E Eg Hgid Hr.
  pose proof (inv_run calls _ inv_empty) as Hi. pose proof (policies_parse_run calls) as Hp.
  assert (cap_keyed s) as Hk.
  { apply (run_keeps any_capability); [apply cap_keyed_step|done|by intros ? ?]. }
  fold s in Hi, Hp. unfold check_export in E. cbn [negb] in E.
  apply bind_Ok in E as (s1 & gs & Egs & E).
  assert (s1 = s /\ group ∈ gs /\ forall group', group' ∈ gs -> exists g', groups s !! g' = Some group')
    as (-> & Hin & Hgs).
  { destruct (or_text gid None) as [g0|] eqn:Eo.
    - destruct Hgid as [?| ->]; [done|]. unfold or_text in Eo.
      destruct (text_is_empty g); [done|]. apply (inj Some) in Eo. subst g0.
      unfold get_group, mbind, stm_bind, on_gdb, _require_conn, gets, mret, stm_ret in Egs.
      rewrite Hc in Egs. simpl in Egs. rewrite Eg in Egs. injection Egs as <- <-.
      split; [done|]. split; [by left|]. intros g'. rewrite list_elem_of_singleton. intros ->. eauto.
    - apply on_gdb_inv in Egs. destruct (list_groups_run s Hc) as [l El]. rewrite El in Egs.
      injection Egs as <- <-. pose proof (groups_listed s l Hc El) as Hl.
      split; [done|]. split; [apply Hl; eauto|]. intros g' Hin. by apply Hl. }
  apply export_loop_sound in E as [Hs Hall]; [|done..]. split; [done|].
  destruct (Hall group Hin) as (ks & Hks & Hcons); [by rewrite (inv_key _ Hi _ _ Eg)|].
  rewrite (inv_key _ Hi _ _ Eg) in Hcons. exists ks. split; [|done].
  destruct Hks as [?|(group' & Hin' & Ho)]; [by left|right].
  destruct (Hgs _ Hin') as [g' Eg']. exists g'. split; [by eexists|].
  by rewrite <- (inv_key _ Hi _ _ Eg').
Qed.
End Theory.
