(* ===== verification/GroupScenarios.v ===== *)
(** * Group scenarios

    Two groups founded by different devices, a member, policies and capabilities: the
    concrete runs on which the theorems of [GroupTheory] and [GroupPolicyTheory] are
    instantiated, and two behaviours of capabilities the code does not mean to have. *)

From Corelib Require Import SpecFloat.
From S2P Require Import Prelude Text Json Crypto Canonical Security Messages Trust Group GroupStore.
From S2P Require Import GroupPolicy GroupTheory GroupPolicyTheory.
Import Identity Rotation Membership Admin Audit Policy ExportAuth Protocol.
Local Open Scope peerc_scope.
Local Open Scope Z_scope.

(** ** A capability delivered again *)

Section Redelivery.
Context `{Ed25519, Sha256, JsonText, CompactJson, LowerCase}.

Lemma store_capability_row c cap s s' :
  store_capability c cap s = (s', Ok ()) ->
  connected s' = true /\ capabilities s' !! Cap.capability_id cap = Some (capability_to_row cap).
Proof.
  intros E. cut (wp (store_capability c cap) (fun _ s' => connected s' = true /\
    capabilities s' !! Cap.capability_id cap = Some (capability_to_row cap)) (fun _ => True) s).
  { unfold wp. by rewrite E. }
  unfold store_capability, verify_capability. gsteps.
  destruct (verify_export_capability _ _ _) as [ok|]; gsteps.
  destruct (bool_decide _ && _); gsteps; (split; [by guards|apply lookup_insert_eq]).
Qed.

Lemma sort_by_head {A} (lt : A -> A -> bool) l x : x ∈ l -> is_Some (head (sort_by lt l)).
Proof.
  intros Hx. assert (x ∈ sort_by lt l) as Hs by by rewrite sort_by_perm.
  destruct (sort_by lt l); [by apply not_elem_of_nil in Hs|done].
Qed.

(** Delivering a capability again makes it usable again.  [store_capability] replaces
    the row of a capability that was already used by an unused one: whoever has kept the
    signed capability can have it accepted once more, and the next lookup for its file
    finds a capability. *)
Theorem redelivered_capability_usable c cap s s' r t :
  capabilities s !! Cap.capability_id cap = Some r -> used r = true ->
  store_capability c cap s = (s', Ok ()) -> SFltb t (Cap.expires_at cap) = true ->
  (exists r', capabilities s' !! Cap.capability_id cap = Some r' /\ used r' = false) /\
  exists cap', get_valid_capability t (Cap.group_id cap) (Cap.device_id cap) (Cap.file_id cap) s'
               = (s', Ok (Some cap')).
Proof.
  intros _ _ [Hc Hr]%store_capability_row Ht. split; [by eexists|].
  assert (is_Some (head (valid_rows s' t (Cap.group_id cap) (Cap.device_id cap) (Cap.file_id cap))))
    as [r' Hr'].
  { apply (sort_by_head _ _ (capability_to_row cap)), list_elem_of_In, filter_In. split.
    - apply list_elem_of_In, list_elem_of_fmap. exists (Cap.capability_id cap, capability_to_row cap).
      split; [done|]. by apply elem_of_map_to_list.
    - unfold capability_to_row. simpl. rewrite Ht, !bool_decide_eq_true_2 by done. done. }
  unfold get_valid_capability, _require_conn, mbind, stm_bind, gets. rewrite Hc.
  rewrite Hr'. by eexists.
Qed.
End Redelivery.

(** ** The cast *)

#[local] Existing Instances Sample.ed25519 Sample.ed25519_laws Sample.sha Sample.sha_laws
  BitText.text BitText.text_laws SampleText.compact SampleText.compact_laws SampleText.lower.

Definition second (z : Z) : spec_float := binary_normalize 53 1024 z 0 false.
Definition at_second (z : Z) (fresh : string) : clock := mk_clock (second z) (second z) fresh.

Definition founder : DeviceKeypair := _keypair_from_private_key (Store.sample_key 21).
Definition other_founder : DeviceKeypair := _keypair_from_private_key (Store.sample_key 22).
Definition member : DeviceKeypair := _keypair_from_private_key (Store.sample_key 23).

Definition team : Group := Membership.create_group (second 0) "" founder "team" (Some "team"%string).
Definition club : Group := Membership.create_group (second 0) "" other_founder "club" (Some "club"%string).

Definition the {A} (o : option A) (d : A) : A := default d o.

Definition no_cert : MembershipCertificate :=
  Cert.mk "" "" "" "" [] (second 0) None "" "" "".
Definition team_cert : MembershipCertificate :=
  the (issue_membership_certificate (second 0) founder (device_id member) (public_key_bytes member)
         "team" "member" ["chat"%string] None) no_cert.

(** Everything off, and only members talk. *)
Definition closed_policy (g : string) : GroupPolicy :=
  Pol.mk g false false true false
    [Rule.mk "member" "member" "chat" ALLOW] DENY 1 (second 0) None None.

(** The founder founds the team, takes the member in and closes the group. *)
Definition team_calls : list (clock * call) :=
  [(at_second 1 "e1", CreateGroup team); (at_second 2 "e2", RecordMembership team_cert);
   (at_second 3 "e3", SetPolicy (closed_policy "team"))]%string.

Abbreviation team_state := (run empty_gdb team_calls).

(** A capability of [k]'s group for the member to export any file. *)
Definition no_cap : ExportCapability := Cap.mk "" "" "" "" "" "" (second 0) (second 0) "" None None.
Definition no_req : ExportRequest := Req.mk "" "" "" "" "" "" (second 0) None None.
Definition request_for (g : string) : ExportRequest :=
  the (create_export_request (second 4) ("r-" +:+ g) (Store.sample_key 23) (device_id member)
         (b64_text (public_key_bytes member)) g "f1" None) no_req.
Definition capability_of (z : Z) (k : DeviceKeypair) (g : string) : ExportCapability :=
  the (issue_export_capability (second 4) ("c-" +:+ g) "n" (Store.sample_key z) (device_id k)
         (request_for g) (second 600)) no_cap.

(** Both groups restrict export, each administered by its own founder, and the member
    holds a capability of each. *)
Definition export_calls : list (clock * call) :=
  team_calls ++
  [(at_second 4 "e4", CreateGroup club); (at_second 5 "e5", SetPolicy (closed_policy "club"));
   (at_second 6 "e6", StoreCapability (capability_of 21 founder "team"));
   (at_second 7 "e7", StoreCapability (capability_of 22 other_founder "club"))]%string.

Abbreviation export_state := (run empty_gdb export_calls).
Definition at_eight (g : string) : readings := mk_readings (second 8) (second 8) (second 8).

Definition used_ids (s : gdb) : list string :=
  map fst (List.filter (fun kr => used (snd kr)) (map_to_list (capabilities s))).

(** An export past two restricting groups is denied although the device holds a valid
    capability of each.  The check reads the administrators' keys once, for the first group
    that needs them, and verifies the second group's capability with them; when the second
    verification fails, the first group's capability has already been consumed.  Asked for
    each group by itself, the export is allowed. *)
Theorem export_keys_of_first_group :
  let device := Some (device_id member) in
  let file := Some "f1"%string in
  let denied := check_export true at_eight None device file None export_state in
  is_ok (snd denied) = false /\ length (used_ids (fst denied)) = 1%nat /\
  is_ok (snd (check_export true at_eight (Some "team"%string) device file None export_state)) = true /\
  is_ok (snd (check_export true at_eight (Some "club"%string) device file None export_state)) = true.
Proof. vm_compute. repeat split. Qed.

(** ** Instances of the theorems *)

Lemma memberships_rooted_witness :
  exists r cert a key,
    memberships team_state !! ("team"%string, device_id member) = Some r /\
    row_of cert r /\ appointed team_state "team" (m_admin r) /\
    decode_text (public_key a) = Some key /\ verify_membership_certificate cert key = true.
Proof.
  assert (exists r, memberships team_state !! ("team"%string, device_id member) = Some r) as [r Hr].
  { vm_compute. by eexists. }
  destruct (memberships_rooted team_calls "team" (device_id member) r Hr)
    as (cert & a & key & _ & _ & Hrow & _ & Ha & Hk & Hv).
  exists r, cert, a, key. split_and!; [exact Hr|exact Hrow|exact Ha|exact Hk|exact Hv].
Defined.

(** The founder revokes the membership and issues a new certificate. *)
Definition revoked_state : gdb :=
  run team_state [(at_second 4 "e4", RevokeMembership "team" (device_id member) (device_id founder) None)]%string.


Lemma capability_one_shot_witness :
  exists cap, snd (get_valid_capability (second 9) "club" (device_id member) "f1"
      (run (fst (mark_capability_used (second 8) "c-team" export_state)) [])) = Ok (Some cap) /\
    Cap.capability_id cap <> "c-team"%string.
Proof.
  destruct (snd (get_valid_capability (second 9) "club" (device_id member) "f1"
      (run (fst (mark_capability_used (second 8) "c-team" export_state)) []))) as [[cap|]|e] eqn:E;
    [|vm_compute in E; discriminate E..].
  exists cap. split; [exact eq_refl|].
  refine (capability_one_shot export_calls [] (second 8) "c-team" (second 9) "club"
            (device_id member) "f1" cap _ _ E).
  - vm_compute. exact eq_refl.
  - intros c k cap' Hin. apply not_elem_of_nil in Hin. destruct Hin.
Defined.

Lemma set_get_policy_witness :
  get_policy "team" team_state = (team_state, Ok (Some (closed_policy "team"))).
Proof.
  refine (set_get_policy (at_second 3 "e3") (closed_policy "team")
            (run empty_gdb (take 2 team_calls)) team_state _).
  vm_compute. exact eq_refl.
Defined.

Definition stranger : string := "stranger".


Definition hello : attempt := mk_attempt "member" "guest" "chat" None None None None.

Lemma communication_decided_witness :
  snd (is_communication_allowed true false hello team_state) = Ok false.
Proof.
  destruct (communication_decided team_calls false hello) as (b & Hb & Hd).
  { vm_compute. exact eq_refl. }
  etransitivity; [exact Hb|]. apply f_equal. destruct b; [|exact eq_refl].
  destruct (proj1 Hd eq_refl) as [_ Ha].
  assert (decides hello (closed_policy "team") ALLOW) as Hd1.
  { apply (Ha "team"%string); [exact I|vm_compute; exact eq_refl]. }
  apply decides_verdict in Hd1. vm_compute in Hd1. discriminate Hd1.
Defined.

Lemma export_consumes_capability_witness :
  exists s' ks, check_export true at_eight (Some "team"%string) (Some (device_id member))
      (Some "f1"%string) None export_state = (s', Ok ()) /\
    consumed export_state s' at_eight ks "team" (Some (device_id member)) (Some "f1"%string).
Proof.
  destruct (check_export true at_eight (Some "team"%string) (Some (device_id member))
      (Some "f1"%string) None export_state) as [s' [[]|e]] eqn:E; [|vm_compute in E; discriminate E].
  destruct (export_consumes_capability export_calls at_eight (Some "team"%string)
    (Some (device_id member)) (Some "f1"%string) None s' "team" team) as (_ & ks & _ & Hc).
  - vm_compute. exact eq_refl.
  - exact E.
  - vm_compute. exact eq_refl.
  - right. exact eq_refl.
  - eexists. split; [vm_compute; exact eq_refl|exact eq_refl].
  - exists s', ks. split; [exact eq_refl|exact Hc].
Defined.

(** The team's capability is used, then delivered again. *)
Lemma redelivered_capability_usable_witness :
  let used_up := fst (mark_capability_used (second 8) "c-team" export_state) in
  let again := fst (store_capability (at_second 9 "e9") (capability_of 21 founder "team") used_up) in
  exists cap, get_valid_capability (second 10) "team" (device_id member) "f1" again
              = (again, Ok (Some cap)).
Proof.
  cbv zeta.
  destruct (capabilities (fst (mark_capability_used (second 8) "c-team" export_state))
              !! "c-team"%string) as [r|] eqn:Er; [|vm_compute in Er; discriminate Er].
  refine (proj2 (redelivered_capability_usable (at_second 9 "e9") (capability_of 21 founder "team")
    (fst (mark_capability_used (second 8) "c-team" export_state)) _ r (second 10) Er _ _ _)).
  - vm_compute in Er. injection Er as <-. exact eq_refl.
  - vm_compute. exact eq_refl.
  - vm_compute. exact eq_refl.
Defined.
