(* ===== verification/Chat.v ===== *)
(** * The event bus and the chat session

    Models the class [EventBus] of [core/events.py] (module [Bus]) and
    [core/messaging/session.py] (module [ChatSession]).

    A coroutine of the chat session is cut where it awaits: a message being written is
    [in_flight] until the connection manager answers, a message waiting for its
    acknowledgement has a timer.  What the connection manager answers is an argument, and the
    messages, events and callbacks of the session are its output. *)

From Corelib Require Import SpecFloat.
From S2P Require Import Prelude Text Json Canonical Messages.
Import Factories Errors.
Local Open Scope peerc_scope.
Local Open Scope Z_scope.

(** ** The event bus *)
Module Bus.

Section Bus.
Context {H : Type} `{EqDecision H}.

(** Subscribers by event class, in the order of the first subscription. *)
Record EventBus := mk_bus {
  _subscribers : list (string * list H);
  _wildcard_subscribers : list H
}.

Definition empty_bus : EventBus := mk_bus [] [].

(** [if h not in l: l.append(h)]. *)
Definition append_new (h : H) (l : list H) : list H := if decide (h ∈ l) then l else l ++ [h].

(** [list.remove]: the first occurrence. *)
Fixpoint remove_first (h : H) (l : list H) : list H :=
  match l with
  | [] => []
  | x :: l' => if decide (x = h) then l' else x :: remove_first h l'
  end.

Fixpoint add_to (cls : string) (h : H) (subs : list (string * list H)) : list (string * list H) :=
  match subs with
  | [] => [(cls, [h])]
  | (c, hs) :: subs' =>
      if decide (c = cls) then (c, append_new h hs) :: subs' else (c, hs) :: add_to cls h subs'
  end.

Definition subscribe (cls : string) (h : H) (b : EventBus) : EventBus :=
  mk_bus (add_to cls h (_subscribers b)) (_wildcard_subscribers b).

(** The handler removed, and the class with it when it was the last one. *)
Fixpoint drop_from (cls : string) (h : H) (subs : list (string * list H)) : list (string * list H) :=
  match subs with
  | [] => []
  | (c, hs) :: subs' =>
      if decide (c = cls) then
        match remove_first h hs with [] => subs' | hs' => (c, hs') :: subs' end
      else (c, hs) :: drop_from cls h subs'
  end.

Fixpoint handlers_of (cls : string) (subs : list (string * list H)) : list H :=
  match subs with
  | [] => []
  | (c, hs) :: subs' => if decide (c = cls) then hs else handlers_of cls subs'
  end.

Definition unsubscribe (cls : string) (h : H) (b : EventBus) : EventBus * bool :=
  if decide (h ∈ handlers_of cls (_subscribers b))
  then (mk_bus (drop_from cls h (_subscribers b)) (_wildcard_subscribers b), true)
  else (b, false).

Definition subscribe_all (h : H) (b : EventBus) : EventBus :=
  mk_bus (_subscribers b) (append_new h (_wildcard_subscribers b)).

Definition unsubscribe_all (h : H) (b : EventBus) : EventBus * bool :=
  if decide (h ∈ _wildcard_subscribers b)
  then (mk_bus (_subscribers b) (remove_first h (_wildcard_subscribers b)), true)
  else (b, false).

Definition clear (b : EventBus) : EventBus := empty_bus.

(** Every event class is a direct subclass of [Event]. *)
Definition issubclass (cls registered : string) : bool :=
  bool_decide (registered = cls) || bool_decide (registered = "Event"%string).

Definition _collect_handlers (cls : string) (b : EventBus) : list H :=
  let typed :=
    foldl (fun matched kv =>
             if issubclass cls (fst kv) then foldl (fun m h => append_new h m) matched (snd kv)
             else matched) [] (_subscribers b) in
  foldl (fun m h => append_new h m) typed (_wildcard_subscribers b).

(** [publish]: the handlers collected first, each one run; what one raises is logged. *)
Definition publish {S E} (invoke : H -> stm S E unit) (cls : string) (b : EventBus) (s : S) : S :=
  foldl (fun s h => fst (invoke h s)) s (_collect_handlers cls b).

End Bus.
Arguments EventBus : clear implicits.
End Bus.

(** ** The chat session *)
Module ChatSession.

(** A message waiting for its acknowledgement; [timeout_task]: whether its timer was started. *)
Record SentMessageState := mk_sent_state {
  addr_key : string;
  status : string;
  timeout_task : bool
}.

Inductive chat_out : Type :=
| ToPeer (addr : string) (message : dict)
| StatusChanged (id status addr : string)
| MessageSent (id addr text : string)
| Received (addr : string) (message : dict).

Record ChatSession := mk_chat {
  _pending : gmap string SentMessageState;
  in_flight : gmap string (string * string);
    (** [send_chat] awaiting the connection manager, with its address and text *)
  timers : gset string;                     (** watchers asleep *)
  sent : list chat_out                      (** what the session did, latest last *)
}.

Definition new_chat : ChatSession := mk_chat ∅ ∅ ∅ [].

Inductive chat_error : Type :=
| ChatKeyError                              (** no [message_id] *)
| ChatTypeError.                            (** a [message_id] that cannot be hashed *)

Abbreviation chat := (stm ChatSession chat_error).

Definition on_pending (f : gmap string SentMessageState -> gmap string SentMessageState)
    : chat unit :=
  modify (fun c => mk_chat (f (_pending c)) (in_flight c) (timers c) (sent c)).
Definition on_flight (f : gmap string (string * string) -> gmap string (string * string))
    : chat unit :=
  modify (fun c => mk_chat (_pending c) (f (in_flight c)) (timers c) (sent c)).
Definition on_timers (f : gset string -> gset string) : chat unit :=
  modify (fun c => mk_chat (_pending c) (in_flight c) (f (timers c)) (sent c)).
Definition emit (o : chat_out) : chat unit :=
  modify (fun c => mk_chat (_pending c) (in_flight c) (timers c) (sent c ++ [o])).

Definition _notify_status (id status addr : string) : chat unit := emit (StatusChanged id status addr).

(** [if state.timeout_task: state.timeout_task.cancel()]. *)
Definition cancel_timer (id : string) (st : SentMessageState) : chat unit :=
  if timeout_task st then on_timers (fun t => t ∖ {[id]}) else mret ().

(** [message.get("message_id")] as a key of the table: [None] when no message has it. *)
Definition id_key (j : option json) : result chat_error (option string) :=
  match j with
  | Some (JStr id) => Ok (Some id)
  | Some (JList _ | JObj _) => Err ChatTypeError
  | _ => Ok None
  end.

Definition lookup_pending (key : option string) : chat (option (string * SentMessageState)) :=
  gets (fun c => id ← key; st ← _pending c !! id; Some (id, st)).

Definition _handle_ack (message : dict) : chat unit :=
  key ← lift (id_key (jget "message_id" message));
  found ← lookup_pending key;
  match found with
  | None => mret ()
  | Some (id, st) =>
      cancel_timer id st ;;
      on_pending (delete id) ;;
      _notify_status id "delivered" (addr_key st)
  end.

Definition _handle_error (addr : string) (message : dict) : chat unit :=
  match parse_error_message message with
  | None => mret ()
  | Some info =>
      match jget "message_id" (context info) with
      | None | Some JNull => mret ()
      | Some j =>
          key ← lift (id_key (Some j));
          found ← lookup_pending key;
          match found with
          | None => mret ()
          | Some (id, st) =>
              if negb (bool_decide (addr_key st = addr)) then mret ()
              else if negb (terminal (CONTRACTS (code info))) then mret ()
              else
                cancel_timer id st ;;
                on_pending (delete id) ;;
                _notify_status id "failed" (addr_key st)
          end
      end
  end.

(** [now] dates the acknowledgement. *)
Definition _handle_incoming_chat (now : spec_float) (addr : string) (message : dict) : chat unit :=
  match jget "message_id" message with
  | None => raise ChatKeyError
  | Some id =>
      emit (ToPeer addr (header "chat_ack" ++ [("message_id"%string, id); ("timestamp"%string, JFloat now)])) ;;
      emit (Received addr message)
  end.

(** [message.get("type")]. *)
Definition has_type (t : string) (message : dict) : bool :=
  match jget "type" message with Some (JStr s) => bool_decide (s = t) | _ => false end.

Definition _on_network_message (now : spec_float) (addr : string) (message : dict) : chat unit :=
  if has_type "chat" message then _handle_incoming_chat now addr message
  else if has_type "chat_ack" message then _handle_ack message
  else if has_type "error" message then _handle_error addr message
  else mret ().

(** The watcher after its sleep. *)
Definition _timeout_watcher (id : string) : chat unit :=
  on_timers (fun t => t ∖ {[id]}) ;;
  found ← lookup_pending (Some id);
  match found with
  | None => mret ()
  | Some (_, st) =>
      on_pending (delete id) ;;
      _notify_status id "failed" (addr_key st)
  end.

(** [send_chat] up to the write, and after it: [ok] is what the manager answers. *)
Definition send_chat (now : spec_float) (id addr sender_id sender_name text : string) : chat unit :=
  let message := make_chat_message now id sender_id sender_name text in
  if Validation.MAX_CHAT_TEXT_SIZE <? zlen (str_bytes text) then _notify_status id "failed" addr
  else
    on_pending (<[id := mk_sent_state addr "sent" false]>) ;;
    emit (ToPeer addr message) ;;
    on_flight (<[id := (addr, text)]>).

Definition send_chat_written (id : string) (ok : bool) : chat unit :=
  locals ← gets (fun c => in_flight c !! id);
  match locals with
  | None => mret ()
  | Some (addr, text) =>
      on_flight (delete id) ;;
      if negb ok then
        on_pending (delete id) ;;
        _notify_status id "failed" addr
      else
        emit (MessageSent id addr text) ;;
        found ← lookup_pending (Some id);
        match found with
        | None => mret ()
        | Some (_, st) =>
            on_pending (<[id := mk_sent_state (addr_key st) (status st) true]>) ;;
            on_timers (fun t => {[id]} ∪ t)
        end
  end.

Definition get_status (id : string) (c : ChatSession) : option string := status <$> _pending c !! id.

(** [cancel_group("connection")]: every watcher ends without a word. *)
Definition cancel_watchers : chat unit := on_timers (fun _ => ∅).

End ChatSession.
