(* ===== verification/ChatTheory.v ===== *)
(** * What the chat session and the event bus guarantee

    A published event reaches each subscriber once, whatever the others raise.  Every chat
    message ends in one status, in every interleaving of writes, acknowledgements, errors and
    timers but one. *)

From Corelib Require Import SpecFloat.
From S2P Require Import Prelude Text Json Canonical Messages Chat.
Import Factories Errors.
Local Open Scope peerc_scope.
Local Open Scope Z_scope.

(** ** The event bus *)

Section Bus.
Import Bus.
Context {H : Type} `{EqDecision H}.

Lemma append_new_spec h (l : list H) :
  NoDup l -> NoDup (append_new h l) /\ forall x, x ∈ append_new h l <-> x = h \/ x ∈ l.
Proof.
  intros Hl. unfold append_new. destruct (decide (h ∈ l)) as [Hin|Hin].
  - split; [done|]. intros x. split; [auto|]. by intros [-> |].
  - split.
    + apply NoDup_app. split; [done|]. split; [|apply NoDup_singleton].
      intros x Hx ->%list_elem_of_singleton. done.
    + intros x. rewrite elem_of_app, list_elem_of_singleton. tauto.
Qed.

Lemma append_all_spec hs (l : list H) :
  NoDup l -> NoDup (foldl (fun m h => append_new h m) l hs) /\
  forall x, x ∈ foldl (fun m h => append_new h m) l hs <-> x ∈ hs \/ x ∈ l.
Proof.
  revert l. induction hs as [|h hs IH]; intros l Hl; simpl.
  - split; [done|]. intros x. split; [auto|]. intros [Hx|]; [by apply elem_of_nil in Hx|done].
  - destruct (append_new_spec h l Hl) as [Hn Hm]. destruct (IH _ Hn) as [Hn' Hm'].
    split; [done|]. intros x. rewrite Hm', Hm, elem_of_cons. tauto.
Qed.

(** Who hears an event of a class. *)
Definition hears (cls : string) (b : EventBus H) (h : H) : Prop :=
  (exists c hs, (c, hs) ∈ _subscribers b /\ h ∈ hs /\ (c = cls \/ c = "Event"%string)) \/
  h ∈ _wildcard_subscribers b.

Lemma issubclass_spec cls c : issubclass cls c = true <-> c = cls \/ c = "Event"%string.
Proof. unfold issubclass. by rewrite orb_true_iff, !bool_decide_eq_true. Qed.

Lemma typed_spec cls subs (l : list H) :
  NoDup l ->
  let r := foldl (fun matched kv =>
             if issubclass cls (fst kv) then foldl (fun m h => append_new h m) matched (snd kv)
             else matched) l subs in
  NoDup r /\ forall x, x ∈ r <->
    x ∈ l \/ exists c hs, (c, hs) ∈ subs /\ x ∈ hs /\ (c = cls \/ c = "Event"%string).
Proof.
  revert l. induction subs as [|[c hs] subs IH]; intros l Hl; simpl.
  - split; [done|]. intros x. split; [auto|]. intros [|(? & ? & Hx & _)]; [done|by apply elem_of_nil in Hx].
  - destruct (issubclass cls c) eqn:E.
    + apply issubclass_spec in E. destruct (append_all_spec hs l Hl) as [Hn Hm].
      destruct (IH _ Hn) as [Hn' Hm']. split; [done|]. intros x. rewrite Hm', Hm. split.
      * intros [[?|?]|(c' & hs' & Hin & ? & ?)]; [right; exists c, hs; rewrite elem_of_cons; auto|auto|].
        right. exists c', hs'. rewrite elem_of_cons. auto.
      * intros [?|(c' & hs' & [[= -> ->]|Hin]%elem_of_cons & ? & ?)]; [auto|auto|].
        right. by exists c', hs'.
    + destruct (IH _ Hl) as [Hn' Hm']. split; [done|]. intros x. rewrite Hm'. split.
      * intros [?|(c' & hs' & Hin & ? & ?)]; [auto|]. right. exists c', hs'. rewrite elem_of_cons. auto.
      * intros [?|(c' & hs' & [[= -> ->]|Hin]%elem_of_cons & ? & Hc)]; [auto| |right; by exists c', hs'].
        apply issubclass_spec in Hc. congruence.
Qed.

Lemma collect_spec cls (b : EventBus H) :
  NoDup (_collect_handlers cls b) /\ forall h, h ∈ _collect_handlers cls b <-> hears cls b h.
Proof.
  unfold _collect_handlers, hears. destruct (typed_spec cls (_subscribers b) [] (NoDup_nil_2)) as [Hn Hm].
  destruct (append_all_spec (_wildcard_subscribers b) _ Hn) as [Hn' Hm']. split; [done|].
  intros h. rewrite Hm', Hm. split.
  - intros [?|[Hh|?]]; [auto|by apply elem_of_nil in Hh|auto].
  - intros [?|?]; auto.
Qed.

(** A published event reaches every subscriber of its class, of [Event] and of everything exactly
    once, and nobody else, whatever the handlers raise or do to their own state: the trace of
    the handlers that ran is a list without repetitions of exactly those who hear it. *)
Theorem publish_reaches_each_once {S E} (invoke : H -> stm S E unit) cls (b : EventBus H) (s : S) :
  let traced h : stm (S * list H) E unit := fun w =>
    match invoke h (fst w) with (s', r) => ((s', snd w ++ [h]), r) end in
  let l := snd (publish traced cls b (s, [])) in
  NoDup l /\ (forall h, h ∈ l <-> hears cls b h) /\
  fst (publish traced cls b (s, [])) = publish invoke cls b s.
Proof.
  intros traced. cbv zeta. destruct (collect_spec cls b) as [Hn Hm]. unfold publish.
  assert (forall hs s t, foldl (fun w h => fst (traced h w)) (s, t) hs =
    (foldl (fun s h => fst (invoke h s)) s hs, t ++ hs)) as Hf.
  { induction hs as [|h hs IH]; intros s1 t; simpl; [by rewrite app_nil_r|].
    unfold traced at 2. simpl. destruct (invoke h s1) as [s' r] eqn:Ei. simpl. rewrite IH.
    by rewrite <- app_assoc. }
  rewrite Hf. done.
Qed.

End Bus.

(** ** Runs of the chat session *)

Import ChatSession.

Inductive cevent : Type :=
| Send (now : spec_float) (id addr sender_id sender_name text : string)
| Written (id : string) (ok : bool)
| Net (now : spec_float) (addr : string) (message : dict)
| Fires (id : string)
| Cancel.

(** The state after an event; what a handler raises is logged by the bus. *)
Definition after (e : cevent) (c : ChatSession) : ChatSession :=
  match e with
  | Send now id addr sid name text => fst (send_chat now id addr sid name text c)
  | Written id ok => fst (send_chat_written id ok c)
  | Net now addr m => fst (_on_network_message now addr m c)
  | Fires id => fst (_timeout_watcher id c)
  | Cancel => fst (cancel_watchers c)
  end.

(** The messages sent so far. *)
Definition begun (l : list cevent) (id : string) : Prop :=
  exists now addr sid name text, Send now id addr sid name text ∈ l.

(** A new message has a new identifier; a write that is done was begun; only a timer that
    runs fires. *)
Definition enabled (l : list cevent) (c : ChatSession) (e : cevent) : Prop :=
  match e with
  | Send _ id _ _ _ _ => ~ begun l id
  | Written id _ => is_Some (in_flight c !! id)
  | Fires id => id ∈ timers c
  | Net _ _ _ | Cancel => True
  end.

Inductive run : list cevent -> ChatSession -> Prop :=
| run_nil : run [] new_chat
| run_snoc l c e : run l c -> enabled l c e -> run (l ++ [e]) (after e c).

(** The statuses reported for a message. *)
Definition status_of (id : string) (o : chat_out) : option string :=
  match o with StatusChanged i s _ => if decide (i = id) then Some s else None | _ => None end.
Definition statuses (id : string) (c : ChatSession) : list string := omap (status_of id) (sent c).

(** An acknowledgement of a message. *)
Definition ack_of (id : string) (e : cevent) : Prop :=
  exists now addr m, e = Net now addr m /\ has_type "chat_ack" m = true /\
    jget "message_id" m = Some (JStr id).

Record view := mk_view {
  v_pending : option SentMessageState;
  v_flight : option (string * string);
  v_timer : bool;
  v_statuses : list string
}.

Definition view_of (id : string) (c : ChatSession) : view :=
  mk_view (_pending c !! id) (in_flight c !! id) (bool_decide (id ∈ timers c)) (statuses id c).

(** The message an event is about. *)
Definition network_id (m : dict) : option string :=
  if has_type "chat" m then None
  else if has_type "chat_ack" m then
    match jget "message_id" m with Some (JStr id) => Some id | _ => None end
  else if has_type "error" m then
    match parse_error_message m with
    | Some info => match jget "message_id" (context info) with Some (JStr id) => Some id | _ => None end
    | None => None
    end
  else None.

Definition about (e : cevent) : option string :=
  match e with
  | Send _ id _ _ _ _ | Written id _ | Fires id => Some id
  | Net _ _ m => network_id m
  | Cancel => None
  end.

(** The message of an acknowledgement or an error that ends it. *)
Inductive outcome : Type := Acked | Refused | Ignored.

Definition network_outcome (addr : string) (m : dict) (st : SentMessageState) : outcome :=
  if has_type "chat" m then Ignored
  else if has_type "chat_ack" m then Acked
  else if has_type "error" m then
    match parse_error_message m with
    | Some info =>
        if bool_decide (addr_key st = addr) && terminal (CONTRACTS (code info)) then Refused else Ignored
    | None => Ignored
    end
  else Ignored.

Lemma statuses_emit id o p f t out :
  statuses id (mk_chat p f t (out ++ [o])) =
  omap (status_of id) out ++ match status_of id o with Some s => [s] | None => [] end.
Proof. unfold statuses. simpl. by rewrite omap_app. Qed.

(** Ending a message in the table. *)
Definition resolved (id status : string) (st : SentMessageState) (c : ChatSession) : ChatSession :=
  mk_chat (delete id (_pending c)) (in_flight c)
    (if timeout_task st then timers c ∖ {[id]} else timers c)
    (sent c ++ [StatusChanged id status (addr_key st)]).

Lemma network_effect now addr m c :
  after (Net now addr m) c =
    match network_id m with
    | Some id =>
        match _pending c !! id with
        | Some st =>
            match network_outcome addr m st with
            | Acked => resolved id "delivered" st c
            | Refused => resolved id "failed" st c
            | Ignored => c
            end
        | None => c
        end
    | None => after (Net now addr m) c
    end.
Proof.
  unfold network_id, network_outcome. simpl. unfold _on_network_message.
  destruct (has_type "chat" m) eqn:E1; [done|].
  destruct (has_type "chat_ack" m) eqn:E2.
  - destruct (jget "message_id" m) as [[| | | |id| |]|] eqn:Ei; try done.
    unfold _handle_ack. rewrite Ei. cbv [mbind stm_bind lift id_key lookup_pending gets].
    cbn. destruct (_pending c !! id) as [st|] eqn:Ep; cbn; [|done].
    unfold cancel_timer, resolved, on_timers, on_pending, _notify_status, emit, modify.
    by destruct (timeout_task st).
  - destruct (has_type "error" m); [|done].
    destruct (parse_error_message m) as [info|] eqn:Ep; [|done].
    destruct (jget "message_id" (context info)) as [[| | | |id| |]|] eqn:Ei; try done.
    unfold _handle_error. rewrite Ep, Ei. cbv [mbind stm_bind lift id_key lookup_pending gets].
    cbn. destruct (_pending c !! id) as [st|] eqn:Es; cbn; [|done].
    destruct (bool_decide (addr_key st = addr)); cbn; [|done].
    destruct (terminal (CONTRACTS (code info))); cbn; [|done].
    unfold cancel_timer, resolved, on_timers, on_pending, _notify_status, emit, modify.
    by destruct (timeout_task st).
Qed.

Lemma network_none now addr m c id :
  network_id m = None -> view_of id (after (Net now addr m) c) = view_of id c.
Proof.
  unfold network_id. simpl. unfold _on_network_message.
  destruct (has_type "chat" m).
  { intros _. unfold _handle_incoming_chat. destruct (jget "message_id" m); [|done].
    cbv [mbind stm_bind emit modify]. simpl. unfold view_of, statuses. simpl.
    by rewrite !omap_app, !app_nil_r. }
  destruct (has_type "chat_ack" m).
  { unfold _handle_ack. cbv [mbind stm_bind lift id_key lookup_pending gets].
    by destruct (jget "message_id" m) as [[| | | |i| |]|]. }
  destruct (has_type "error" m); [|done]. unfold _handle_error.
  destruct (parse_error_message m) as [info|]; [|done].
  cbv [mbind stm_bind lift id_key lookup_pending gets].
  by destruct (jget "message_id" (context info)) as [[| | | |i| |]|].
Qed.

Definition no_view : view := mk_view None None false [].

(** What the statuses of a message may be. *)
Definition explained (l : list cevent) (id : string) (ss : list string) : Prop :=
  ("delivered"%string ∈ ss -> exists e, e ∈ l /\ ack_of id e) /\
  Forall (fun s => s = "delivered"%string \/ s = "failed"%string) ss /\
  (length ss = 2%nat -> Written id false ∈ l).

Inductive phase (l : list cevent) (id : string) : view -> Prop :=
| ph_flying st a : timeout_task st = false -> phase l id (mk_view (Some st) (Some a) false [])
| ph_overtaken s a : explained l id [s] -> phase l id (mk_view None (Some a) false [s])
| ph_waiting st : timeout_task st = true -> phase l id (mk_view (Some st) None true [])
| ph_stuck st : timeout_task st = true -> Cancel ∈ l -> phase l id (mk_view (Some st) None false [])
| ph_done s : explained l id [s] -> phase l id (mk_view None None false [s])
| ph_twice s : explained l id [s; "failed"%string] ->
    phase l id (mk_view None None false [s; "failed"%string]).

Lemma explained_mono l e id ss : explained l id ss -> explained (l ++ [e]) id ss.
Proof.
  intros (H1 & H2 & H3). split; [|split; [done|]].
  - intros Hd. destruct (H1 Hd) as (x & Hx & Ha). exists x. rewrite elem_of_app. auto.
  - intros Hl. rewrite elem_of_app. auto.
Qed.

Lemma phase_mono l e id v : phase l id v -> phase (l ++ [e]) id v.
Proof.
  destruct 1; constructor; auto using explained_mono. rewrite elem_of_app. auto.
Qed.

Lemma explained_failed l id : explained l id ["failed"%string].
Proof.
  split; [by intros Hd%list_elem_of_singleton|]. split; [|done]. constructor; [by right|constructor].
Qed.

Lemma explained_delivered l e id : ack_of id e -> explained (l ++ [e]) id ["delivered"%string].
Proof.
  intros Ha. split; [|split; [|done]].
  - intros _. exists e. rewrite elem_of_app, list_elem_of_singleton. auto.
  - constructor; [by left|constructor].
Qed.

(** Ending a message that is in the table. *)
Lemma resolved_view id id' status st c :
  _pending c !! id = Some st ->
  view_of id' (resolved id status st c) =
    if decide (id' = id) then
      mk_view None (in_flight c !! id)
        (if timeout_task st then false else bool_decide (id ∈ timers c)) (statuses id c ++ [status])
    else view_of id' c.
Proof.
  intros Hp. unfold view_of, resolved. simpl. rewrite statuses_emit. unfold status_of at 2.
  destruct (decide (id' = id)) as [-> |Hne].
  - rewrite lookup_delete_eq, decide_True by done. f_equal.
    destruct (timeout_task st); [|done]. apply bool_decide_eq_false. set_solver.
  - rewrite lookup_delete_ne, decide_False by congruence. rewrite app_nil_r. f_equal.
    destruct (timeout_task st); [|done]. apply bool_decide_ext. set_solver.
Qed.

Lemma begun_snoc l e id :
  begun (l ++ [e]) id <-> begun l id \/ exists now addr sid name text, e = Send now id addr sid name text.
Proof.
  unfold begun. split.
  - intros (now & addr & sid & name & text & [Hin|Hin%list_elem_of_singleton]%elem_of_app).
    + left. eauto 10.
    + right. exists now, addr, sid, name, text. done.
  - intros [(now & addr & sid & name & text & Hin)|(now & addr & sid & name & text & ->)];
      exists now, addr, sid, name, text; rewrite elem_of_app, list_elem_of_singleton; auto.
Qed.

(** Views under the events that name their message. *)
Lemma send_view now id addr sid name text c id' :
  view_of id' (after (Send now id addr sid name text) c) =
    if decide (id' = id) then
      if Validation.MAX_CHAT_TEXT_SIZE <? zlen (str_bytes text)
      then mk_view (_pending c !! id) (in_flight c !! id) (bool_decide (id ∈ timers c))
             (statuses id c ++ ["failed"%string])
      else mk_view (Some (mk_sent_state addr "sent" false)) (Some (addr, text))
             (bool_decide (id ∈ timers c)) (statuses id c)
    else view_of id' c.
Proof.
  simpl. unfold send_chat, _notify_status, emit, on_pending, on_flight, modify, mbind, stm_bind.
  destruct (Validation.MAX_CHAT_TEXT_SIZE <? zlen (str_bytes text)); simpl; unfold view_of; simpl;
    rewrite statuses_emit; unfold status_of at 2.
  - destruct (decide (id' = id)) as [-> |Hne].
    + by rewrite decide_True.
    + by rewrite decide_False, app_nil_r by congruence.
  - rewrite app_nil_r. destruct (decide (id' = id)) as [-> |Hne].
    + by rewrite !lookup_insert_eq.
    + by rewrite !lookup_insert_ne by congruence.
Qed.

Lemma written_view id ok c a id' :
  in_flight c !! id = Some a ->
  view_of id' (after (Written id ok) c) =
    if decide (id' = id) then
      if ok then
        match _pending c !! id with
        | Some st => mk_view (Some (mk_sent_state (addr_key st) (status st) true)) None true (statuses id c)
        | None => mk_view None None (bool_decide (id ∈ timers c)) (statuses id c)
        end
      else mk_view None None (bool_decide (id ∈ timers c)) (statuses id c ++ ["failed"%string])
    else view_of id' c.
Proof.
  intros Ha. simpl. unfold send_chat_written, mbind, stm_bind, gets. rewrite Ha. destruct a as [addr text].
  unfold on_flight, on_pending, on_timers, _notify_status, emit, modify, lookup_pending, gets.
  destruct ok; simpl.
  - destruct (_pending c !! id) as [st|] eqn:Ep; simpl; unfold view_of; simpl;
      rewrite ?statuses_emit, ?app_nil_r; destruct (decide (id' = id)) as [-> |Hne].
    + rewrite lookup_insert_eq, lookup_delete_eq. f_equal. apply bool_decide_eq_true. set_solver.
    + rewrite lookup_insert_ne, lookup_delete_ne by congruence. f_equal. apply bool_decide_ext. set_solver.
    + by rewrite Ep, lookup_delete_eq.
    + by rewrite lookup_delete_ne by congruence.
  - unfold view_of. simpl. rewrite statuses_emit. unfold status_of at 2.
    destruct (decide (id' = id)) as [-> |Hne].
    + by rewrite !lookup_delete_eq, decide_True.
    + by rewrite !lookup_delete_ne, decide_False, app_nil_r by congruence.
Qed.

Lemma fires_view id c id' :
  view_of id' (after (Fires id) c) =
    if decide (id' = id) then
      match _pending c !! id with
      | Some st => mk_view None (in_flight c !! id) false (statuses id c ++ ["failed"%string])
      | None => mk_view None (in_flight c !! id) false (statuses id c)
      end
    else view_of id' c.
Proof.
  simpl. unfold _timeout_watcher, mbind, stm_bind, on_timers, modify, lookup_pending, gets. simpl.
  destruct (_pending c !! id) as [st|] eqn:Ep; simpl; unfold view_of; simpl;
    destruct (decide (id' = id)) as [-> |Hne].
  - rewrite statuses_emit. unfold status_of at 2. rewrite lookup_delete_eq, decide_True by done.
    f_equal. apply bool_decide_eq_false. set_solver.
  - rewrite statuses_emit. unfold status_of at 2.
    rewrite lookup_delete_ne, decide_False, app_nil_r by congruence.
    f_equal. apply bool_decide_ext. set_solver.
  - rewrite Ep. f_equal. apply bool_decide_eq_false. set_solver.
  - f_equal. apply bool_decide_ext. set_solver.
Qed.

Definition traced (l : list cevent) (c : ChatSession) : Prop :=
  forall id, (begun l id -> phase l id (view_of id c)) /\ (~ begun l id -> view_of id c = no_view).

Lemma traced_same l e c c' :
  (forall id, begun (l ++ [e]) id <-> begun l id) -> (forall id, view_of id c' = view_of id c) ->
  traced l c -> traced (l ++ [e]) c'.
Proof.
  intros Hb Hv Ht id. rewrite Hb, Hv. destruct (Ht id) as [H1 H2].
  split; [intros Hi; by apply phase_mono, H1|done].
Qed.

(** One message changes its phase, the others keep theirs. *)
Lemma traced_one l e c c' id0 :
  (forall id, id <> id0 -> (begun (l ++ [e]) id <-> begun l id) /\ view_of id c' = view_of id c) ->
  begun (l ++ [e]) id0 -> phase (l ++ [e]) id0 (view_of id0 c') ->
  traced l c -> traced (l ++ [e]) c'.
Proof.
  intros Ho Hb Hp Ht id. destruct (decide (id = id0)) as [-> |Hne]; [by split|].
  destruct (Ho id Hne) as [Hb' Hv]. rewrite Hb', Hv. destruct (Ht id) as [H1 H2].
  split; [intros Hi; by apply phase_mono, H1|done].
Qed.

Lemma not_send_begun l e id :
  (forall now i addr sid name text, e <> Send now i addr sid name text) ->
  begun (l ++ [e]) id <-> begun l id.
Proof.
  intros He. rewrite begun_snoc. split; [|auto]. intros [?|(now & addr & sid & name & text & ->)]; [done|].
  by edestruct He.
Qed.

Lemma phase_inv l id p f t ss :
  phase l id (mk_view p f t ss) ->
  (exists st a, p = Some st /\ f = Some a /\ t = false /\ ss = [] /\ timeout_task st = false) \/
  (exists s a, p = None /\ f = Some a /\ t = false /\ ss = [s] /\ explained l id [s]) \/
  (exists st, p = Some st /\ f = None /\ t = true /\ ss = [] /\ timeout_task st = true) \/
  (exists st, p = Some st /\ f = None /\ t = false /\ ss = [] /\ timeout_task st = true /\ Cancel ∈ l) \/
  (exists s, p = None /\ f = None /\ t = false /\ ss = [s] /\ explained l id [s]) \/
  (exists s, p = None /\ f = None /\ t = false /\ ss = [s; "failed"%string] /\
     explained l id [s; "failed"%string]).
Proof.
  inversion 1; [left|right; left|right; right; left|do 3 right; left|do 4 right; left|do 5 right]; eauto 10.
Qed.

Ltac phases H :=
  let st := fresh "st" in let E1 := fresh "E1" in let E2 := fresh "E2" in let E3 := fresh "E3" in
  let E4 := fresh "E4" in
  apply phase_inv in H as [(st & ? & E1 & E2 & E3 & E4 & ?)|[(st & ? & E1 & E2 & E3 & E4 & ?)
    |[(st & E1 & E2 & E3 & E4 & ?)|[(st & E1 & E2 & E3 & E4 & ? & ?)|[(st & E1 & E2 & E3 & E4 & ?)
    |(st & E1 & E2 & E3 & E4 & ?)]]]]].

Lemma resolved_phase l e id c status st :
  phase l id (view_of id c) -> _pending c !! id = Some st ->
  explained (l ++ [e]) id [status] -> phase (l ++ [e]) id (view_of id (resolved id status st c)).
Proof.
  intros Hp Hs He. rewrite (resolved_view id id status st c Hs), decide_True by done. unfold view_of in Hp.
  phases Hp; rewrite Hs in E1; try discriminate; injection E1 as <-; rewrite E2, E4, ?E3;
    destruct (timeout_task st); try discriminate; by constructor.
Qed.

(** Whether a message was begun can be decided. *)
Lemma begun_dec l id : begun l id \/ ~ begun l id.
Proof.
  induction l as [|e l IH] using rev_ind.
  - right. intros (? & ? & ? & ? & ? & Hin). by apply elem_of_nil in Hin.
  - destruct IH as [IH|IH]; [left; rewrite begun_snoc; by left|].
    destruct e as [now i addr sid name text|i ok|now addr m|i|]; try (right; rewrite begun_snoc;
      intros [?|(? & ? & ? & ? & ? & [=])]; done).
    destruct (decide (i = id)) as [-> |Hne].
    + left. rewrite begun_snoc. right. eauto 10.
    + right. rewrite begun_snoc. intros [?|(? & ? & ? & ? & ? & [= -> -> ])]; done.
Qed.

Lemma pending_begun l c id st : traced l c -> _pending c !! id = Some st -> begun l id.
Proof.
  intros Ht Hp. destruct (begun_dec l id) as [?|Hn]; [done|]. apply (proj2 (Ht id)) in Hn.
  apply (f_equal v_pending) in Hn. simpl in Hn. congruence.
Qed.

Lemma flight_begun l c id a : traced l c -> in_flight c !! id = Some a -> begun l id.
Proof.
  intros Ht Hp. destruct (begun_dec l id) as [?|Hn]; [done|]. apply (proj2 (Ht id)) in Hn.
  apply (f_equal v_flight) in Hn. simpl in Hn. congruence.
Qed.

Lemma timer_begun l c id : traced l c -> id ∈ timers c -> begun l id.
Proof.
  intros Ht Hp. destruct (begun_dec l id) as [?|Hn]; [done|]. apply (proj2 (Ht id)) in Hn.
  apply (f_equal v_timer) in Hn. simpl in Hn. by apply bool_decide_eq_false in Hn.
Qed.

Lemma network_traced l now addr m c : traced l c -> traced (l ++ [Net now addr m]) (after (Net now addr m) c).
Proof.
  intros Ht. assert (forall id, begun (l ++ [Net now addr m]) id <-> begun l id) as Hb
    by (intros id; by apply not_send_begun).
  destruct (network_id m) as [id|] eqn:En; [|by apply (traced_same _ _ c); [|intros; apply network_none|]].
  rewrite network_effect, En. destruct (_pending c !! id) as [st|] eqn:Ep; [|by apply (traced_same _ _ c)].
  pose proof (pending_begun l c id st Ht Ep) as Hid. pose proof (proj1 (Ht id) Hid) as Hph.
  assert (forall status, explained (l ++ [Net now addr m]) id [status] ->
    traced (l ++ [Net now addr m]) (resolved id status st c)) as Hr.
  { intros status He. apply (traced_one _ _ c _ id); [|by apply Hb|by apply resolved_phase|done].
    intros id' Hne. split; [apply Hb|]. by rewrite (resolved_view id id' status st c Ep), decide_False. }
  destruct (network_outcome addr m st) eqn:Eo; [|apply Hr, explained_failed|by apply (traced_same _ _ c)].
  apply Hr, explained_delivered. exists now, addr, m. split; [done|].
  unfold network_outcome in Eo. unfold network_id in En.
  destruct (has_type "chat" m); [done|]. destruct (has_type "chat_ack" m).
  - split; [done|]. by destruct (jget "message_id" m) as [[| | | |i| |]|]; simplify_eq.
  - destruct (has_type "error" m); [|done]. destruct (parse_error_message m); [|done]. by destruct (_ && _).
Qed.

Lemma send_traced l now id addr sid name text c :
  traced l c -> ~ begun l id ->
  traced (l ++ [Send now id addr sid name text]) (after (Send now id addr sid name text) c).
Proof.
  intros Ht Hn. apply (traced_one _ _ c _ id); [| | |done].
  - intros id' Hne. split; [|by rewrite send_view, decide_False].
    rewrite begun_snoc. split; [|auto]. intros [?|(? & ? & ? & ? & ? & [= _ ? _])]; [done|congruence].
  - rewrite begun_snoc. right. eauto 10.
  - rewrite send_view, decide_True by done. pose proof (proj2 (Ht id) Hn) as Hv. unfold view_of in Hv.
    injection Hv as E1 E2 E3 E4. rewrite E1, E2, E3, E4.
    destruct (_ <? _); [|by constructor]. apply ph_done, explained_failed.
Qed.

Lemma written_traced l id ok c :
  traced l c -> is_Some (in_flight c !! id) ->
  traced (l ++ [Written id ok]) (after (Written id ok) c).
Proof.
  intros Ht [a Ha]. pose proof (flight_begun l c id a Ht Ha) as Hid.
  pose proof (proj1 (Ht id) Hid) as Hph.
  apply (traced_one _ _ c _ id); [|by apply not_send_begun| |done].
  - intros id' Hne. split; [by apply not_send_begun|]. by rewrite (written_view id ok c a), decide_False.
  - rewrite (written_view id ok c a id Ha), decide_True by done. unfold view_of in Hph.
    phases Hph; rewrite Ha in E2; try discriminate; rewrite E1, E3, E4.
    + destruct ok; [by constructor|]. apply ph_done, explained_failed.
    + rename st into s. destruct ok; [by apply ph_done, explained_mono|]. apply ph_twice.
      match goal with He : explained _ _ _ |- _ => destruct He as (He1 & He2 & _) end. split; [|split].
      * intros [Hd|Hd]%elem_of_cons.
        -- destruct He1 as (e & Hin & Ha'); [rewrite Hd; by left|]. exists e. rewrite elem_of_app. auto.
        -- by apply list_elem_of_singleton in Hd.
      * apply Forall_cons in He2 as [Hs _]. constructor; [done|]. constructor; [by right|constructor].
      * intros _. rewrite elem_of_app, list_elem_of_singleton. auto.
Qed.

Lemma fires_traced l id c :
  traced l c -> id ∈ timers c -> traced (l ++ [Fires id]) (after (Fires id) c).
Proof.
  intros Ht Hin. pose proof (timer_begun l c id Ht Hin) as Hid. pose proof (proj1 (Ht id) Hid) as Hph.
  apply (traced_one _ _ c _ id); [|by apply not_send_begun| |done].
  - intros id' Hne. split; [by apply not_send_begun|]. by rewrite fires_view, decide_False.
  - rewrite fires_view, decide_True by done. unfold view_of in Hph.
    rewrite (bool_decide_eq_true_2 (id ∈ timers c)) in Hph by done.
    phases Hph; try discriminate. rewrite E1, E2, E4. apply ph_done, explained_failed.
Qed.

Lemma cancel_traced l c : traced l c -> traced (l ++ [Cancel]) (after Cancel c).
Proof.
  intros Ht id. rewrite (not_send_begun l Cancel id) by done. destruct (Ht id) as [H1 H2].
  assert (view_of id (after Cancel c) =
    mk_view (_pending c !! id) (in_flight c !! id) false (statuses id c)) as Ev.
  { unfold view_of. simpl. f_equal. }
  rewrite Ev. split.
  - intros Hb. specialize (H1 Hb). unfold view_of in H1.
    phases H1; rewrite E1, E2, E4; constructor; auto using explained_mono;
      rewrite elem_of_app, list_elem_of_singleton; auto.
  - intros Hn. specialize (H2 Hn). unfold view_of in H2. injection H2 as E1 E2 E3 E4.
    by rewrite E1, E2, E4.
Qed.

Lemma run_traced l c : run l c -> traced l c.
Proof.
  induction 1 as [|l c e Hr IH He].
  - intros id. split; [|done]. intros (? & ? & ? & ? & ? & Hin). by apply elem_of_nil in Hin.
  - destruct e; [by apply send_traced|by apply written_traced|by apply network_traced
                |by apply fires_traced|by apply cancel_traced].
Qed.

(** C31: every chat message is reported once, and truthfully.  In every interleaving of
    writes, acknowledgements, errors and timers: a message that has no status yet is still being
    written, or its timer is running, or the timers were cancelled; it is reported delivered only
    if an acknowledgement that names it came in; the only statuses are delivered and failed; and
    there is a second one only where the write of the message was reported failed afterwards. *)
Theorem chat_outcome_reported l c id :
  run l c -> begun l id ->
  let ss := statuses id c in
  (ss = [] -> is_Some (in_flight c !! id) \/ id ∈ timers c \/ Cancel ∈ l) /\
  ("delivered"%string ∈ ss -> exists e, e ∈ l /\ ack_of id e) /\
  Forall (fun s => s = "delivered"%string \/ s = "failed"%string) ss /\
  (length ss <= 1 \/ length ss = 2 /\ Written id false ∈ l)%nat.
Proof.
  intros Hr Hb ss. pose proof (proj1 (run_traced l c Hr id) Hb) as Hp. unfold view_of in Hp. fold ss in Hp.
  assert (forall s : string, s ∉ []) as Hnil by (intros s; apply not_elem_of_nil).
  phases Hp; rewrite E4; repeat match goal with He : explained _ _ _ |- _ => destruct He as (He1 & He2 & He3) end.
  - split; [intros _; left; eauto|]. split; [intros Hd; by apply Hnil in Hd|]. split; [constructor|left; simpl; lia].
  - split; [done|]. split; [done|]. split; [done|left; simpl; lia].
  - split; [intros _; right; left; by apply bool_decide_eq_true in E3|].
    split; [intros Hd; by apply Hnil in Hd|]. split; [constructor|left; simpl; lia].
  - split; [auto|]. split; [intros Hd; by apply Hnil in Hd|]. split; [constructor|left; simpl; lia].
  - split; [done|]. split; [done|]. split; [done|left; simpl; lia].
  - split; [done|]. split; [done|]. split; [done|right; split; [done|by apply He3]].
Qed.

(** The acknowledgement of a message, as the peer sends it. *)
Definition ack_message (now : spec_float) (id : string) : dict := make_chat_ack now id.

Lemma ack_network now id : has_type "chat_ack" (ack_message now id) = true /\
  network_id (ack_message now id) = Some id.
Proof. done. Qed.

(** An acknowledgement is believed whoever sends it.  A message sent to one peer and
    acknowledged by any other is reported delivered; and if the write then fails, it is reported
    failed after that, so that the same message gets both statuses. *)
Theorem ack_from_anyone now id to from sid name text :
  (zlen (str_bytes text) <= Validation.MAX_CHAT_TEXT_SIZE) ->
  exists c, run [Send now id to sid name text; Net now from (ack_message now id); Written id false] c /\
    statuses id c = ["delivered"; "failed"]%string.
Proof.
  intros Hl. eexists. split.
  - change [Send now id to sid name text; Net now from (ack_message now id); Written id false]
      with ((([] ++ [Send now id to sid name text]) ++ [Net now from (ack_message now id)]) ++ [Written id false]).
    apply run_snoc; [apply run_snoc; [apply run_snoc; [apply run_nil|]|done]|].
    + intros (? & ? & ? & ? & ? & Hin). by apply elem_of_nil in Hin.
    + unfold enabled. rewrite network_effect. simpl. unfold send_chat.
      replace (Validation.MAX_CHAT_TEXT_SIZE <? zlen (str_bytes text)) with false by (symmetry; apply Z.ltb_ge; lia).
      simpl. rewrite lookup_insert_eq. simpl. rewrite lookup_insert_eq. by eexists.
  - set (c1 := after (Send now id to sid name text) new_chat).
    set (c2 := after (Net now from (ack_message now id)) c1).
    assert (view_of id c1 = mk_view (Some (mk_sent_state to "sent" false)) (Some (to, text)) false []) as V1.
    { unfold c1. rewrite send_view, decide_True by done.
      by replace (Validation.MAX_CHAT_TEXT_SIZE <? zlen (str_bytes text)) with false by (symmetry; apply Z.ltb_ge; lia). }
    assert (view_of id c2 = mk_view None (Some (to, text)) false ["delivered"%string]) as V2.
    { injection V1 as P1 P2 P3 P4. unfold c2. rewrite network_effect.
      rewrite (proj2 (ack_network now id)), P1. change (network_outcome from (ack_message now id) _) with Acked. cbv iota beta.
      rewrite (resolved_view id id _ _ c1 P1), decide_True by done. by rewrite P2, P3, P4. }
    injection V2 as P1 P2 P3 P4.
    pose proof (f_equal v_statuses (written_view id false c2 (to, text) id P2)) as E.
    rewrite decide_True in E by done. simpl in E. rewrite P4 in E. exact E.
Qed.

(** ** Evaluations *)

Definition a_time : spec_float := binary_normalize 53 1024 1700000000 0 false.

(** A message written, then given up by its timer. *)
Definition given_up : list cevent :=
  [Send a_time "m1" "10.0.0.2:5555" "me" "Ann" "hello"; Written "m1" true; Fires "m1"]%string.

Lemma chat_outcome_reported_witness :
  exists c, run given_up c /\ statuses "m1" c = ["failed"]%string /\
  (["failed"%string] = [] -> is_Some (in_flight c !! "m1"%string) \/ "m1"%string ∈ timers c \/ Cancel ∈ given_up) /\
  ("delivered"%string ∈ ["failed"%string] -> exists e, e ∈ given_up /\ ack_of "m1" e) /\
  Forall (fun s => s = "delivered"%string \/ s = "failed"%string) ["failed"%string] /\
  (length ["failed"%string] <= 1 \/ length ["failed"%string] = 2 /\ Written "m1" false ∈ given_up)%nat.
Proof.
  assert (run given_up (foldl (fun c e => after e c) new_chat given_up)) as Hr.
  { apply (run_snoc [Send a_time "m1" "10.0.0.2:5555" "me" "Ann" "hello"; Written "m1" true]%string).
    - apply (run_snoc [Send a_time "m1" "10.0.0.2:5555" "me" "Ann" "hello"]%string).
      + apply (run_snoc []); [apply run_nil|]. intros (? & ? & ? & ? & ? & Hin). by apply elem_of_nil in Hin.
      + vm_compute. by eexists.
    - vm_compute. done. }
  eexists. split; [exact Hr|]. split; [vm_compute; reflexivity|].
  refine (chat_outcome_reported given_up _ "m1" Hr _).
  exists a_time, "10.0.0.2:5555"%string, "me"%string, "Ann"%string, "hello"%string. by left.
Defined.

Lemma ack_from_anyone_witness :
  exists c, run [Send a_time "m1" "alice" "me" "Ann" "hello"; Net a_time "mallory" (ack_message a_time "m1");
                 Written "m1" false]%string c /\
    statuses "m1" c = ["delivered"; "failed"]%string.
Proof. apply (ack_from_anyone a_time "m1" "alice" "mallory" "me" "Ann" "hello"). vm_compute. discriminate. Defined.
