(* ===== verification/Tasks.v ===== *)
(** * The task registry

    Models [core/task_registry.py]: background tasks tracked by named group, so that a vault
    lock or a shutdown can cancel a group and wait for it.

    Tasks are numbered in the order of their creation.  The event loop is part of the state:
    which coroutines have not ended, and which calls of [cancel_group] wait for theirs.  A task
    ends at any moment (by itself, or because it was cancelled), and its done callback runs
    then; a wait ends at any moment too, since its deadline can pass. *)

From S2P Require Import Prelude.
Local Open Scope peerc_scope.

Record TaskRegistry := mk_registry {
  _tasks : list (string * gset nat);     (** group name to tracked tasks, in insertion order *)
  spawned : list string;                 (** the group each task was created in *)
  running : gset nat;                    (** coroutines that have not ended *)
  waits : list (string * gset nat);      (** calls of [cancel_group] that wait *)
  warnings : list (string * nat)         (** deadlines missed, with the number of tasks left *)
}.

Definition new_registry : TaskRegistry := mk_registry [] [] ∅ [] [].

(** [self._tasks.get(group, ())]. *)
Fixpoint group_tasks (g : string) (l : list (string * gset nat)) : gset nat :=
  match l with
  | [] => ∅
  | (g', ts) :: l' => if decide (g' = g) then ts else group_tasks g l'
  end.

(** [self._tasks.setdefault(group, set()).add(task)]. *)
Fixpoint add_task (g : string) (t : nat) (l : list (string * gset nat)) : list (string * gset nat) :=
  match l with
  | [] => [(g, {[t]})]
  | (g', ts) :: l' => if decide (g' = g) then (g', {[t]} ∪ ts) :: l' else (g', ts) :: add_task g t l'
  end.

(** [self._tasks.get(group, set()).discard(t)]. *)
Definition discard_task (g : string) (t : nat) (l : list (string * gset nat)) : list (string * gset nat) :=
  map (fun gt => if decide (fst gt = g) then (fst gt, snd gt ∖ {[t]}) else gt) l.

(** [self._tasks.pop(group, None)]. *)
Definition pop_group (g : string) (l : list (string * gset nat)) : list (string * gset nat) :=
  List.filter (fun gt => negb (bool_decide (fst gt = g))) l.

Definition create_task (g : string) (r : TaskRegistry) : TaskRegistry :=
  let t := length (spawned r) in
  mk_registry (add_task g t (_tasks r)) (spawned r ++ [g]) ({[t]} ∪ running r) (waits r) (warnings r).

(** A task ends, and [_on_done] runs. *)
Definition finish (t : nat) (r : TaskRegistry) : TaskRegistry :=
  match spawned r !! t with
  | Some g =>
      mk_registry (discard_task g t (_tasks r)) (spawned r) (running r ∖ {[t]}) (waits r) (warnings r)
  | None => r
  end.

Definition active_count (group : option string) (r : TaskRegistry) : nat :=
  match group with
  | Some g => size (group_tasks g (_tasks r))
  | None => sum_list (map (fun gt => size (snd gt)) (_tasks r))
  end.

Definition groups (r : TaskRegistry) : list string :=
  map fst (List.filter (fun gt => negb (bool_decide (snd gt = ∅))) (_tasks r)).

(** [cancel_group] up to its wait; [true] when it waits. *)
Definition cancel_group (g : string) (r : TaskRegistry) : TaskRegistry * bool :=
  let tasks := group_tasks g (_tasks r) in
  if decide (tasks = ∅) then (r, false)
  else (mk_registry (_tasks r) (spawned r) (running r) (waits r ++ [(g, tasks)]) (warnings r), true).

(** The rest of it, when [asyncio.wait] returns. *)
Definition wait_over (i : nat) (r : TaskRegistry) : TaskRegistry :=
  match waits r !! i with
  | None => r
  | Some (g, tasks) =>
      let pending := tasks ∩ running r in
      mk_registry (pop_group g (_tasks r)) (spawned r) (running r)
        (take i (waits r) ++ drop (S i) (waits r))
        (warnings r ++ if decide (pending = ∅) then [] else [(g, size pending)])
  end.

(** The groups [cancel_all] cancels one after the other. *)
Definition cancel_all (r : TaskRegistry) : list string := map fst (_tasks r).

(** ** Runs *)

Inductive tevent : Type :=
| TCreate (g : string)
| TFinish (t : nat)
| TCancel (g : string)
| TWaitOver (i : nat).

Definition tstep (e : tevent) (r : TaskRegistry) : TaskRegistry :=
  match e with
  | TCreate g => create_task g r
  | TFinish t => finish t r
  | TCancel g => fst (cancel_group g r)
  | TWaitOver i => wait_over i r
  end.

Definition trun (l : list tevent) (r : TaskRegistry) : TaskRegistry := foldl (fun r e => tstep e r) r l.

(** What the registry keeps: one entry per group, whose tasks run and belong to it. *)
Record tracked (r : TaskRegistry) : Prop := {
  tracked_once : NoDup (map fst (_tasks r));
  tracked_running g ts t : (g, ts) ∈ _tasks r -> t ∈ ts -> t ∈ running r /\ spawned r !! t = Some g;
  running_spawned t : t ∈ running r -> (t < length (spawned r))%nat;
  waited_group g ts t : (g, ts) ∈ waits r -> t ∈ ts -> spawned r !! t = Some g
}.

Lemma elem_group_tasks g l t : t ∈ group_tasks g l -> exists ts, (g, ts) ∈ l /\ t ∈ ts.
Proof.
  induction l as [|[g' ts] l IH]; cbn [group_tasks]; [by intros ?%elem_of_empty|].
  destruct (decide (g' = g)) as [-> |].
  - intros Ht. exists ts. split; [left|done].
  - intros (ts' & Hi & Ht)%IH. exists ts'. split; [by right|done].
Qed.

Lemma add_task_keys g t l : map fst (add_task g t l) = if decide (g ∈ map fst l) then map fst l else map fst l ++ [g].
Proof.
  induction l as [|[g' ts] l IH]; cbn [add_task map fst].
  { by rewrite decide_False by apply not_elem_of_nil. }
  destruct (decide (g' = g)) as [-> |Hg]; cbn [map fst].
  - by rewrite decide_True by set_solver.
  - rewrite IH. destruct (decide (g ∈ map fst l)) as [Hin|Hin].
    + by rewrite decide_True by set_solver.
    + by rewrite decide_False by set_solver.
Qed.

Lemma elem_add_task g t l g' ts t' :
  (g', ts) ∈ add_task g t l -> t' ∈ ts -> (g' = g /\ t' = t) \/ exists ts', (g', ts') ∈ l /\ t' ∈ ts'.
Proof.
  induction l as [|[h hs] l IH]; cbn [add_task].
  { intros [= -> ->]%list_elem_of_singleton ->%elem_of_singleton. by left. }
  destruct (decide (h = g)) as [-> |]; rewrite !elem_of_cons; intros [[= -> ->]|Hin] Ht.
  - apply elem_of_union in Ht as [->%elem_of_singleton|Ht]; [by left|]. right. exists hs.
    split; [left|done].
  - right. exists ts. split; [by right|done].
  - right. exists hs. split; [left|done].
  - destruct (IH Hin Ht) as [?|(ts' & ? & ?)]; [by left|]. right. exists ts'. split; [by right|done].
Qed.

Lemma discard_task_keys g t l : map fst (discard_task g t l) = map fst l.
Proof.
  unfold discard_task. rewrite map_map. apply map_ext. intros [g' ts]. simpl. by case_decide.
Qed.

Lemma elem_discard g t l g' ts t' :
  (g', ts) ∈ discard_task g t l -> t' ∈ ts ->
  (g' = g -> t' <> t) /\ exists ts', (g', ts') ∈ l /\ t' ∈ ts'.
Proof.
  unfold discard_task. intros (gt & E & Hin)%list_elem_of_fmap Ht. destruct gt as [h hs]. simpl in E.
  case_decide as Hg; injection E as -> ->.
  - apply elem_of_difference in Ht as [Ht Hn]. split; [|by exists hs]. intros _ ->. by apply Hn, elem_of_singleton.
  - split; [done|by exists hs].
Qed.

Lemma elem_pop g l gt : gt ∈ pop_group g l <-> gt ∈ l /\ fst gt <> g.
Proof.
  unfold pop_group. rewrite !list_elem_of_In, filter_In, negb_true_iff, bool_decide_eq_false. done.
Qed.

Lemma pop_keys_NoDup g l : NoDup (map fst l) -> NoDup (map fst (pop_group g l)).
Proof.
  induction l as [|gt l IH]; [done|]. cbn [map]. intros [Hn Hl]%NoDup_cons.
  change (pop_group g (gt :: l)) with
    (if negb (bool_decide (fst gt = g)) then gt :: pop_group g l else pop_group g l).
  destruct (negb _); [|by apply IH]. cbn [map]. apply NoDup_cons. split; [|by apply IH].
  intros (gt' & E & H)%list_elem_of_fmap. apply Hn. apply elem_pop in H as [H _].
  rewrite E. by apply list_elem_of_fmap_2.
Qed.

Lemma tracked_create g r : tracked r -> tracked (create_task g r).
Proof.
  intros [H1 H2 H3 H4]. unfold create_task. split; cbn.
  - rewrite add_task_keys. case_decide; [done|]. apply NoDup_app. split; [done|].
    split; [by intros x Hx ->%list_elem_of_singleton|]. apply NoDup_singleton.
  - intros g' ts t Hin Ht. destruct (elem_add_task _ _ _ _ _ _ Hin Ht) as [[-> ->]|(ts' & Hi & Ht')].
    + split; [set_solver|]. by apply list_lookup_middle.
    + destruct (H2 _ _ _ Hi Ht') as [Hr Hs]. split; [set_solver|]. by apply lookup_app_l_Some.
  - intros t. rewrite length_app. cbn. intros [->%elem_of_singleton|Ht%H3]%elem_of_union; lia.
  - intros g' ts t Hin Ht. apply lookup_app_l_Some. by eapply H4.
Qed.

Lemma tracked_finish t r : tracked r -> tracked (finish t r).
Proof.
  intros HT. pose proof HT as [H1 H2 H3 H4]. unfold finish. destruct (spawned r !! t) as [g|] eqn:Eg; [|done].
  split; cbn.
  - by rewrite discard_task_keys.
  - intros g' ts t' Hin Ht. destruct (elem_discard _ _ _ _ _ _ Hin Ht) as (Hne & ts' & Hi & Ht').
    destruct (H2 _ _ _ Hi Ht') as [Hr Hs]. split; [|done].
    apply elem_of_difference. split; [done|]. intros ->%elem_of_singleton.
    apply Hne; [|done]. congruence.
  - intros t' [Ht' _]%elem_of_difference. by apply H3.
  - done.
Qed.

Lemma tracked_cancel g r : tracked r -> tracked (fst (cancel_group g r)).
Proof.
  intros HT. pose proof HT as [H1 H2 H3 H4]. unfold cancel_group. case_decide; [done|]. split; cbn; try done.
  intros g' ts t [Hin|[= -> ->]%list_elem_of_singleton]%elem_of_app Ht; [by eapply H4|].
  apply elem_group_tasks in Ht as (ts & Hi & Ht). by eapply H2.
Qed.

Lemma tracked_wait_over i r : tracked r -> tracked (wait_over i r).
Proof.
  intros HT. pose proof HT as [H1 H2 H3 H4]. unfold wait_over. destruct (waits r !! i) as [[g ts]|]; [|done].
  split; cbn.
  - by apply pop_keys_NoDup.
  - intros g' ts' t [Hin _]%elem_pop. by apply H2.
  - done.
  - intros g' ts' t [Hin|Hin]%elem_of_app; apply H4.
    + by eapply subseteq_take.
    + by eapply subseteq_drop.
Qed.

Lemma tracked_run l : tracked (trun l new_registry).
Proof.
  induction l as [|e l IH] using rev_ind.
  - split; [constructor|..]; cbn; intros *; by intros ?%elem_of_nil || intros ?%elem_of_empty.
  - unfold trun. rewrite foldl_app. cbn [foldl]. fold (trun l new_registry).
    destruct e; cbn [tstep];
      auto using tracked_create, tracked_finish, tracked_cancel, tracked_wait_over.
Qed.

(** ** Cancelling a group *)

(** Every task of the group that runs is tracked. *)
Definition complete (g : string) (r : TaskRegistry) : Prop :=
  forall t, t ∈ running r -> spawned r !! t = Some g -> t ∈ group_tasks g (_tasks r).

Lemma group_tasks_add g t l g' :
  group_tasks g' (add_task g t l) = if decide (g' = g) then {[t]} ∪ group_tasks g' l else group_tasks g' l.
Proof.
  induction l as [|[h hs] l IH]; cbn [add_task group_tasks].
  - destruct (decide (g = g')), (decide (g' = g)); try congruence. by rewrite union_empty_r_L.
  - destruct (decide (h = g)) as [-> |]; cbn [group_tasks]; [|rewrite IH];
      repeat case_decide; congruence.
Qed.

Lemma group_tasks_discard g t l g' :
  group_tasks g' (discard_task g t l) = if decide (g' = g) then group_tasks g' l ∖ {[t]} else group_tasks g' l.
Proof.
  induction l as [|[h hs] l IH]; cbn [discard_task map group_tasks fst snd].
  - case_decide; [|done]. set_solver.
  - fold (discard_task g t l). destruct (decide (h = g)) as [-> |]; cbn [group_tasks fst]; rewrite IH;
      repeat case_decide; congruence.
Qed.

Lemma group_tasks_pop g l g' : group_tasks g' (pop_group g l) = if decide (g' = g) then ∅ else group_tasks g' l.
Proof.
  induction l as [|[h hs] l IH]; [by case_decide|].
  change (pop_group g ((h, hs) :: l)) with
    (if negb (bool_decide (h = g)) then (h, hs) :: pop_group g l else pop_group g l).
  cbn [group_tasks]. destruct (bool_decide_reflect (h = g)) as [-> |]; cbn [negb group_tasks]; rewrite IH;
    repeat case_decide; congruence.
Qed.

(** Only the end of a wait for the group loses track of its tasks. *)
Lemma complete_step e g r :
  tracked r -> complete g r -> (forall i ts, e = TWaitOver i -> waits r !! i <> Some (g, ts)) ->
  complete g (tstep e r).
Proof.
  intros HT Hc Hw t. destruct e as [h|x|h|i]; cbn [tstep].
  - cbn. rewrite group_tasks_add. intros [->%elem_of_singleton|Ht]%elem_of_union Hs.
    + rewrite list_lookup_middle in Hs by done. injection Hs as ->. rewrite decide_True by done. set_solver.
    + rewrite lookup_app_l in Hs by (by apply HT). pose proof (Hc t Ht Hs). case_decide; set_solver.
  - unfold finish. destruct (spawned r !! x) as [h|] eqn:Eh; [|by apply Hc]. cbn.
    rewrite group_tasks_discard. intros [Ht Hn]%elem_of_difference Hs. pose proof (Hc t Ht Hs).
    case_decide; set_solver.
  - unfold cancel_group. case_decide; [by apply Hc|]. cbn. by apply Hc.
  - unfold wait_over. destruct (waits r !! i) as [[h ts]|] eqn:Ei; [|by apply Hc]. cbn. intros Ht Hs.
    rewrite group_tasks_pop, decide_False; [by apply Hc|]. intros ->. by eapply Hw.
Qed.

(** Tasks that ran and were created before are those that ran before. *)
Lemma older_running l r t :
  (t < length (spawned r))%nat -> t ∈ running (trun l r) ->
  t ∈ running r /\ spawned (trun l r) !! t = spawned r !! t.
Proof.
  intros Hlt. induction l as [|e l IH] using rev_ind; [done|].
  unfold trun. rewrite foldl_app. cbn [foldl]. fold (trun l r).
  assert (length (spawned r) <= length (spawned (trun l r)))%nat as Hlen.
  { clear. induction l as [|e l IH] using rev_ind; [done|]. unfold trun. rewrite foldl_app. cbn [foldl].
    fold (trun l r). destruct e as [h|x|h|i]; cbn [tstep].
    - cbn. rewrite length_app. lia.
    - unfold finish. by case_match.
    - unfold cancel_group. by case_decide.
    - unfold wait_over. by repeat case_match. }
  destruct e as [h|x|h|i]; cbn [tstep].
  - cbn. intros [->%elem_of_singleton|Ht]%elem_of_union; [lia|].
    rewrite lookup_app_l by lia. by apply IH.
  - unfold finish. case_match; [|done]. cbn. intros [Ht _]%elem_of_difference. by apply IH.
  - unfold cancel_group. case_decide; [done|]. cbn. by apply IH.
  - unfold wait_over. repeat case_match; try done; cbn; by apply IH.
Qed.

(** Cancelling a group ends it.  When [cancel_group] returns before its deadline, whatever
    happened meanwhile, the tasks of the group that still run were all created after the call;
    and the group is no longer counted as active. *)
Theorem cancelled_group_ended l g l' i :
  let r0 := trun l new_registry in
  let r1 := trun l' (fst (cancel_group g r0)) in
  complete g r0 ->
  waits r1 !! i = Some (g, group_tasks g (_tasks r0)) ->
  group_tasks g (_tasks r0) ∩ running r1 = ∅ ->
  active_count (Some g) (wait_over i r1) = 0%nat /\
  forall t, t ∈ running (wait_over i r1) -> spawned (wait_over i r1) !! t = Some g ->
    (length (spawned r0) <= t)%nat.
Proof.
  intros r0 r1 Hc Hw Hd. unfold wait_over. rewrite Hw. cbn. split.
  - by rewrite group_tasks_pop, decide_True.
  - intros t Ht Hs. destruct (decide (t < length (spawned r0))%nat) as [Hlt|]; [|lia].
    assert (spawned (fst (cancel_group g r0)) = spawned r0 /\ running (fst (cancel_group g r0)) = running r0)
      as [E1 E2] by (unfold cancel_group; by case_decide).
    destruct (older_running l' (fst (cancel_group g r0)) t) as [Hr Hs']; [by rewrite E1|done|].
    fold r1 in Hs'. rewrite E1 in Hs'. rewrite E2 in Hr. rewrite Hs' in Hs.
    pose proof (Hc t Hr Hs). set_solver.
Qed.

(** A task created while its group is being cancelled is lost.  Whatever ends meanwhile, it
    runs on when [cancel_group] returns, untracked: cancelling the group again does nothing. *)
Theorem task_lost_in_cancel l g fs :
  let r := trun l new_registry in
  group_tasks g (_tasks r) <> ∅ -> length (spawned r) ∉ fs ->
  let r' := wait_over (length (waits r)) (trun (TCreate g :: map TFinish fs) (fst (cancel_group g r))) in
  length (spawned r) ∈ running r' /\ active_count (Some g) r' = 0%nat /\ cancel_group g r' = (r', false).
Proof.
  intros r Hne Hf r'.
  assert (fst (cancel_group g r) = mk_registry (_tasks r) (spawned r) (running r)
            (waits r ++ [(g, group_tasks g (_tasks r))]) (warnings r)) as E
    by (unfold cancel_group; by rewrite decide_False).
  assert (forall fs r2, length (spawned r) ∉ fs -> length (spawned r) ∈ running r2 ->
    let r3 := trun (map TFinish fs) r2 in length (spawned r) ∈ running r3 /\ waits r3 = waits r2) as Hfin.
  { clear. induction fs as [|f fs IH]; intros r2 Hf Ht; [done|]. cbn [map]. unfold trun. cbn [foldl].
    fold (trun (map TFinish fs) (tstep (TFinish f) r2)). cbn [tstep]. apply not_elem_of_cons in Hf as [Hne Hf].
    assert (length (spawned r) ∈ running (finish f r2) /\ waits (finish f r2) = waits r2) as [H1 H2].
    { unfold finish. case_match; [|done]. cbn. split; [set_solver|done]. }
    destruct (IH _ Hf H1) as [H3 H4]. split; [done|]. by rewrite H4. }
  destruct (Hfin fs (create_task g (fst (cancel_group g r))) Hf) as [Hr Hw].
  { rewrite E. cbn. set_solver. }
  assert (waits (trun (map TFinish fs) (create_task g (fst (cancel_group g r)))) !! length (waits r)
          = Some (g, group_tasks g (_tasks r))) as Hi.
  { rewrite Hw, E. cbn. by apply list_lookup_middle. }
  subst r'. unfold trun. cbn [foldl tstep]. fold (trun (map TFinish fs) (create_task g (fst (cancel_group g r)))).
  unfold wait_over. rewrite Hi. cbn. rewrite group_tasks_pop, decide_True by done.
  split; [done|]. split; [done|]. unfold cancel_group. cbn.
  apply decide_True. by rewrite group_tasks_pop, decide_True.
Qed.
