(* ===== verification/Manager.v ===== *)
(** * The connection manager

    Models [core/transport/manager.py] (module [Manager]) and the [SecureSession] and
    [SecureSessionManager] of [core/transport/session.py] (module [Registry] for the latter).

    A coroutine is cut where it awaits: a handshake in progress is a ticket, a read loop a
    member of [loops], and an event resumes one of them while others wait.  What a handshake
    establishes is the [SecureSession] it returns (see [Handshake] and [Channel] for how);
    what a session receives is the frame of [Channel.Secure].  A write that fails is an event of
    its own, since the manager learns of it later than it wrote. *)

From S2P Require Import Prelude Dicts Text Json Crypto Canonical Wire Messages Channel Lifecycle.
Import Factories Errors.
Local Open Scope peerc_scope.
Local Open Scope Z_scope.

(** ** The manager *)
Module Manager.
Import Connection Secure.

Definition MAX_CONNECTIONS : nat := 64.

(** An established session: what the handshake proved of the peer, and where it is. *)
Record SecureSession := mk_session {
  addr_key : string;
  peer_device_id : string;
  peer_public_key : bytes;
  peer_name : string;
  trust_pending : bool
}.

(** What the manager does that others see; [sid] identifies a session object. *)
Inductive output : Type :=
| PeerConnected (sid : nat) (addr device : string) (incoming : bool)
| TrustRequired (sid : nat) (addr device name : string)
| Dispatched (sid : nat) (addr : string) (message : dict)
| DispatchedData (sid : nat) (addr : string) (d : FileData.file_data)
| PeerDisconnected (sid : nat) (addr device : string)
| SentJson (sid : nat) (message : dict)
| SentBinary (sid : nat) (payload : bytes)
| SentRelay (sid : nat) (payload : bytes)
| ClosedSession (sid : nat).

(** A handshake in progress. *)
Inductive ticket : Type :=
| Accepting                                  (** [_handle_incoming] *)
| Dialling                                   (** [connect_to] *)
| DiallingRelay (r_addr target : string)     (** [connect_via_relay_tunnel] *)
| AcceptingRelay (r_addr : string).          (** [_handle_incoming_relay] *)

Record ConnectionManager := mk_manager {
  max_connections : nat;
  _connections : list (string * nat);
  _connection_states : gmap string ConnectionState;
  _relay_pipes : gmap string string;
  _relay_tunnels : gmap string nat;          (** the reader of the tunnel *)
  _tunnel_r_keys : gmap string string;
  sessions : list SecureSession;             (** the session objects, by number *)
  readers : list Stream.reader;              (** the readers of tunnels, by number *)
  loops : gset nat;                          (** the read loops that run *)
  tickets : list ticket;
  outputs : list output
}.

Definition new_manager (max : nat) : ConnectionManager :=
  mk_manager max [] ∅ ∅ ∅ ∅ [] [] ∅ [] [].

Abbreviation mop := (ConnectionManager -> ConnectionManager).

Definition on_connections (f : list (string * nat) -> list (string * nat)) : mop := fun m =>
  mk_manager (max_connections m) (f (_connections m)) (_connection_states m) (_relay_pipes m)
    (_relay_tunnels m) (_tunnel_r_keys m) (sessions m) (readers m) (loops m) (tickets m) (outputs m).
Definition on_states (f : gmap string ConnectionState -> gmap string ConnectionState) : mop := fun m =>
  mk_manager (max_connections m) (_connections m) (f (_connection_states m)) (_relay_pipes m)
    (_relay_tunnels m) (_tunnel_r_keys m) (sessions m) (readers m) (loops m) (tickets m) (outputs m).
Definition on_pipes (f : gmap string string -> gmap string string) : mop := fun m =>
  mk_manager (max_connections m) (_connections m) (_connection_states m) (f (_relay_pipes m))
    (_relay_tunnels m) (_tunnel_r_keys m) (sessions m) (readers m) (loops m) (tickets m) (outputs m).
Definition on_tunnels (f : gmap string nat -> gmap string nat) : mop := fun m =>
  mk_manager (max_connections m) (_connections m) (_connection_states m) (_relay_pipes m)
    (f (_relay_tunnels m)) (_tunnel_r_keys m) (sessions m) (readers m) (loops m) (tickets m) (outputs m).
Definition on_r_keys (f : gmap string string -> gmap string string) : mop := fun m =>
  mk_manager (max_connections m) (_connections m) (_connection_states m) (_relay_pipes m)
    (_relay_tunnels m) (f (_tunnel_r_keys m)) (sessions m) (readers m) (loops m) (tickets m) (outputs m).
Definition on_sessions (f : list SecureSession -> list SecureSession) : mop := fun m =>
  mk_manager (max_connections m) (_connections m) (_connection_states m) (_relay_pipes m)
    (_relay_tunnels m) (_tunnel_r_keys m) (f (sessions m)) (readers m) (loops m) (tickets m) (outputs m).
Definition on_readers (f : list Stream.reader -> list Stream.reader) : mop := fun m =>
  mk_manager (max_connections m) (_connections m) (_connection_states m) (_relay_pipes m)
    (_relay_tunnels m) (_tunnel_r_keys m) (sessions m) (f (readers m)) (loops m) (tickets m) (outputs m).
Definition on_loops (f : gset nat -> gset nat) : mop := fun m =>
  mk_manager (max_connections m) (_connections m) (_connection_states m) (_relay_pipes m)
    (_relay_tunnels m) (_tunnel_r_keys m) (sessions m) (readers m) (f (loops m)) (tickets m) (outputs m).
Definition on_tickets (f : list ticket -> list ticket) : mop := fun m =>
  mk_manager (max_connections m) (_connections m) (_connection_states m) (_relay_pipes m)
    (_relay_tunnels m) (_tunnel_r_keys m) (sessions m) (readers m) (loops m) (f (tickets m)) (outputs m).
Definition emit (o : output) : mop := fun m =>
  mk_manager (max_connections m) (_connections m) (_connection_states m) (_relay_pipes m)
    (_relay_tunnels m) (_tunnel_r_keys m) (sessions m) (readers m) (loops m) (tickets m) (outputs m ++ [o]).

Definition full (m : ConnectionManager) : bool := (max_connections m <=? length (_connections m))%nat.

(** *** Queries *)

Definition session_at (addr : string) (m : ConnectionManager) : option (nat * SecureSession) :=
  sid ← OrderedDict.get addr (_connections m); s ← sessions m !! sid; Some (sid, s).

Definition is_connected (addr : string) (m : ConnectionManager) : bool :=
  bool_decide (is_Some (OrderedDict.get addr (_connections m))).
Definition list_connected_addr_keys (m : ConnectionManager) : list string := map fst (_connections m).
Definition get_peer_device_id (addr : string) (m : ConnectionManager) : option string :=
  s ← session_at addr m; Some (peer_device_id (snd s)).
Definition get_peer_public_key (addr : string) (m : ConnectionManager) : option bytes :=
  s ← session_at addr m; Some (peer_public_key (snd s)).
Definition get_connection_state (addr : string) (m : ConnectionManager) : option ConnectionState :=
  _connection_states m !! addr.

Fixpoint find_key (device : string) (l : list (string * nat)) (ss : list SecureSession) : option string :=
  match l with
  | [] => None
  | (addr, sid) :: l' =>
      match ss !! sid with
      | Some s => if decide (peer_device_id s = device) then Some addr else find_key device l' ss
      | None => find_key device l' ss
      end
  end.
Definition find_addr_key_for_device (device : string) (m : ConnectionManager) : option string :=
  find_key device (_connections m) (sessions m).

(** *** Writing *)

(** [send], [send_binary] and [send_relay_data]: [false] when not connected.  Whether the
    write succeeds is learnt later, by [send_failed]. *)
Definition send_frame (frame : nat -> output) (addr : string) (m : ConnectionManager)
    : ConnectionManager * bool :=
  match OrderedDict.get addr (_connections m) with
  | None => (m, false)
  | Some sid => (emit (frame sid) m, true)
  end.

Definition send (addr : string) (message : dict) := send_frame (fun sid => SentJson sid message) addr.
Definition send_binary (addr : string) (payload : bytes) :=
  send_frame (fun sid => SentBinary sid payload) addr.
Definition send_relay_data (addr : string) (payload : bytes) :=
  send_frame (fun sid => SentRelay sid payload) addr.

Definition _mark_closing (addr : string) : mop :=
  on_states (alter (fun s => if closing_or_closed s then s else default s (transition_to s CLOSING)) addr).

(** The [except] clause of the three: by address. *)
Definition send_failed (addr : string) : mop := fun m =>
  _mark_closing addr (on_connections (OrderedDict.pop addr) m).

Definition send_error (addr : string) (code : ErrorCode) (context : option dict) : mop := fun m =>
  fst (send addr (make_error (fun _ => true) code None context) m).

(** The answer to a malformed frame; none to a malformed [error]. *)
Definition _report_invalid_frame (addr : string) (payload : option dict) : mop :=
  match payload with
  | None => send_error addr INVALID_FRAME None
  | Some d =>
      match jget "type" d with
      | Some (JStr "error"%string) => fun m => m
      | _ =>
          send_error addr INVALID_FRAME
            (Some (map (fun k => (k, default JNull (jget k d)))
                     ["message_id"; "transfer_id"; "group_id"]%string))
      end
  end.

(** *** Relay pipes and tunnels *)

Definition open_relay_pipe (a b : string) : mop := on_pipes (fun p => <[b := a]> (<[a := b]> p)).

Definition close_relay_pipe (a : string) : mop := on_pipes (fun p =>
  match p !! a with Some b => delete b (delete a p) | None => p end).

Definition is_relay_pipe_open (a : string) (m : ConnectionManager) : bool :=
  bool_decide (is_Some (_relay_pipes m !! a)).

Definition register_relay_tunnel (addr : string) (reader : nat) : mop :=
  on_tunnels <[addr := reader]>.
Definition unregister_relay_tunnel (addr : string) : mop := on_tunnels (delete addr).

(** A new reader, registered for the session at an address. *)
Definition open_relay_tunnel (r_addr : string) : mop := fun m =>
  register_relay_tunnel r_addr (length (readers m)) (on_readers (fun l => l ++ [Stream.new_reader]) m).

Definition feed (reader : nat) (f : Stream.reader -> Stream.reader) : mop := on_readers (alter f reader).

(** *** Sessions *)

(** A session object exists from the end of its handshake on; registering it makes it the
    session of its address. *)
Definition register_session (s : SecureSession) (incoming : bool) : mop := fun m =>
  let sid := length (sessions m) in
  let m := on_sessions (fun l => l ++ [s]) m in
  let m := on_connections (OrderedDict.set (addr_key s) sid) m in
  let m := on_states <[addr_key s :=
             foldl (fun st new => default st (transition_to st new)) NEW
               [TCP_CONNECTED; HANDSHAKING; AUTHENTICATED; ESTABLISHED]]> m in
  let m := emit (PeerConnected sid (addr_key s) (peer_device_id s) incoming) m in
  let m := if trust_pending s
           then emit (TrustRequired sid (addr_key s) (peer_device_id s) (peer_name s)) m else m in
  on_loops (fun l => {[sid]} ∪ l) m.

(** The [finally] of a read loop: everything by the address of its session. *)
Definition end_loop (sid : nat) (s : SecureSession) : mop := fun m =>
  let a := addr_key s in
  let m := on_loops (fun l => l ∖ {[sid]}) m in
  let m := on_states (delete a) m in
  let m := on_connections (OrderedDict.pop a) m in
  let m := close_relay_pipe a m in
  let r_key := _tunnel_r_keys m !! a in
  let m := on_r_keys (delete a) m in
  let m := match r_key with Some r => unregister_relay_tunnel r m | None => m end in
  let m := match _relay_tunnels m !! a with
           | Some reader => feed reader Stream.feed_eof (on_tunnels (delete a) m)
           | None => m
           end in
  emit (PeerDisconnected sid a (peer_device_id s)) (emit (ClosedSession sid) m).

(** A relay chunk: forwarded, fed to a tunnel, or the start of a relayed handshake. *)
Definition relay_chunk (a : string) (payload : bytes) : mop := fun m =>
  match _relay_pipes m !! a with
  | Some b => fst (send_relay_data b payload m)
  | None =>
      match _relay_tunnels m !! a with
      | Some reader => feed reader (Stream.feed_data payload) m
      | None =>
          if full m then m
          else
            let m := open_relay_tunnel a m in
            on_tickets (fun l => l ++ [AcceptingRelay a])
              (feed (length (readers m) - 1) (Stream.feed_data payload) m)
      end
  end.

(** One frame in the read loop of a session. *)
Definition dispatch (sid : nat) (s : SecureSession) (f : received) : mop := fun m =>
  let a := addr_key s in
  if match _connection_states m !! a with
     | Some st => bool_decide (require_established st = None)
     | None => false
     end
  then end_loop sid s m
  else
    match f with
    | GotJson j =>
        match Validation.validate_message j with
        | Ok d => emit (Dispatched sid a d) m
        | Err _ =>
            end_loop sid s
              (_report_invalid_frame a (match j with JObj d => Some d | _ => None end) m)
        end
    | GotBinary b =>
        match FileData.decode_file_data b with
        | Ok d => emit (DispatchedData sid a d) m
        | Err _ => end_loop sid s (_report_invalid_frame a None m)
        end
    | GotRelay b => relay_chunk a b m
    | GotRaw _ => m
    end.

(** *** Connecting *)

Definition start (t : ticket) : mop := on_tickets (fun l => l ++ [t]).

(** [_handle_incoming] up to the handshake. *)
Definition _handle_incoming : mop := fun m => if full m then m else start Accepting m.

Inductive connect_outcome : Type := AlreadyConnected (addr : string) | AtLimit | Started.

Definition connect_to (addr : string) (m : ConnectionManager) : ConnectionManager * connect_outcome :=
  if is_connected addr m then (m, AlreadyConnected addr)
  else if full m then (m, AtLimit)
  else (start Dialling m, Started).

Definition connect_via_relay_tunnel (r_addr target : string) (m : ConnectionManager)
    : ConnectionManager * connect_outcome :=
  match find_addr_key_for_device target m with
  | Some addr => (m, AlreadyConnected addr)
  | None =>
      if full m then (m, AtLimit)
      else (start (DiallingRelay r_addr target) (open_relay_tunnel r_addr m), Started)
  end.

(** The address of a relayed session: [f"relay-{device_id[:8]}:0"]. *)
Definition relay_addr (device : string) : string :=
  "relay-" +:+ bytes_str (str_prefix 8 (str_bytes device)) +:+ ":0".

Definition at_addr (a : string) (s : SecureSession) : SecureSession :=
  mk_session a (peer_device_id s) (peer_public_key s) (peer_name s) (trust_pending s).

(** The end of a handshake that succeeded. *)
Definition established (t : ticket) (s : SecureSession) : mop := fun m =>
  match t with
  | Accepting => register_session s true m
  | Dialling => register_session s false m
  | DiallingRelay r target =>
      if decide (peer_device_id s = target) then
        let s := at_addr (relay_addr target) s in
        register_session s false (on_r_keys <[addr_key s := r]> m)
      else unregister_relay_tunnel r m
  | AcceptingRelay r =>
      let s := at_addr (relay_addr (peer_device_id s)) s in
      register_session s true (on_r_keys <[addr_key s := r]> m)
  end.

(** The end of one that failed. *)
Definition abandoned (t : ticket) : mop :=
  match t with
  | Accepting | Dialling => fun m => m
  | DiallingRelay r _ | AcceptingRelay r => unregister_relay_tunnel r
  end.

Definition drop_ticket (i : nat) : mop := on_tickets (fun l => take i l ++ drop (S i) l).

Definition close_all : mop := fun m =>
  on_connections (fun _ => [])
    (foldl (fun m kv => emit (ClosedSession (snd kv)) (_mark_closing (fst kv) m)) m (_connections m)).

End Manager.

(** ** Sessions by device *)
Module Registry.

(** The sessions registered for devices; [alive] are the session objects whose transport is
    not closing, and [to_close] those a task was started to close. *)
Record SecureSessionManager := mk_registry {
  _sessions : list (string * nat);
  alive : gset nat;
  to_close : gset nat
}.

Definition new_registry (alive : gset nat) : SecureSessionManager := mk_registry [] alive ∅.

(** [sid] is the session of device [d]. *)
Definition register (d : string) (sid : nat) (r : SecureSessionManager) : SecureSessionManager :=
  let stale :=
    match OrderedDict.get d (_sessions r) with
    | Some old => if bool_decide (old ∈ alive r) && negb (bool_decide (old = sid)) then {[old]} else ∅
    | None => ∅
    end in
  mk_registry (OrderedDict.set d sid (_sessions r)) (alive r) (stale ∪ to_close r).

Definition get (d : string) (r : SecureSessionManager) : SecureSessionManager * option nat :=
  match OrderedDict.get d (_sessions r) with
  | Some sid =>
      if bool_decide (sid ∈ alive r) then (r, Some sid)
      else (mk_registry (OrderedDict.pop d (_sessions r)) (alive r) (to_close r), None)
  | None => (r, None)
  end.

Definition remove (d : string) (r : SecureSessionManager) : SecureSessionManager * option nat :=
  (mk_registry (OrderedDict.pop d (_sessions r)) (alive r) (to_close r), OrderedDict.get d (_sessions r)).

Definition active_device_ids (r : SecureSessionManager) : SecureSessionManager * list string :=
  let live := List.filter (fun kv => bool_decide (snd kv ∈ alive r)) (_sessions r) in
  (mk_registry live (alive r) (to_close r), map fst live).

(** [await s.close()] of each. *)
Definition close_all (r : SecureSessionManager) : SecureSessionManager :=
  mk_registry [] (alive r ∖ list_to_set (map snd (_sessions r))) (to_close r).

(** A transport closes: by the peer, or by the task that [register] started. *)
Definition session_closed (sid : nat) (r : SecureSessionManager) : SecureSessionManager :=
  mk_registry (_sessions r) (alive r ∖ {[sid]}) (to_close r ∖ {[sid]}).

(** A session a device had before, alive, is to be closed unless it is the registered one. *)
Definition exclusive (device_of : nat -> string) (ever : list nat) (r : SecureSessionManager) : Prop :=
  forall sid, sid ∈ ever -> sid ∈ alive r ->
    OrderedDict.get (device_of sid) (_sessions r) = Some sid \/ sid ∈ to_close r.

(** Registering keeps at most one session of a device open: every other one that is alive is
    being closed. *)
Lemma register_exclusive device_of ever sid r :
  exclusive device_of ever r -> exclusive device_of (ever ++ [sid]) (register (device_of sid) sid r).
Proof.
  intros Hx s Hin Ha. cbn in Ha. unfold register. cbn. rewrite OrderedDict.get_set.
  destruct (decide (s = sid)) as [-> |Hne]; [left; by rewrite decide_True|].
  apply elem_of_app in Hin as [Hin|?%list_elem_of_singleton]; [|done].
  destruct (Hx s Hin Ha) as [Hg|Hc]; [|right; set_solver].
  case_decide as Hd; [|by left]. right. rewrite <- Hd, Hg. rewrite bool_decide_true by done.
  rewrite bool_decide_false by done. cbn. set_solver.
Qed.

(** What [get] returns is alive, and what it drops was not. *)
Lemma get_alive d r sid :
  snd (get d r) = Some sid <-> OrderedDict.get d (_sessions r) = Some sid /\ sid ∈ alive r.
Proof.
  unfold get. destruct (OrderedDict.get d (_sessions r)) as [s|]; [|naive_solver].
  case_bool_decide; naive_solver.
Qed.

End Registry.
