(* ===== verification/ManagerTheory.v ===== *)
(** * What the connection manager guarantees

    As long as no two live sessions share an address, a frame handed to the program is
    attributed to the device that proved its identity on that connection.  The manager does
    not ensure that they do not: the addresses of relayed sessions collide. *)

From S2P Require Import Prelude Dicts Text Json Crypto Canonical Wire Messages Channel Lifecycle Manager.
Import Connection Secure Manager.
Local Open Scope peerc_scope.
Local Open Scope Z_scope.

(** ** Runs *)

Inductive mevent : Type :=
| EIncoming
| EDial (addr : string)
| EDialRelay (r target : string)
| EDone (i : nat) (s : SecureSession)
| EFails (i : nat)
| EFrame (sid : nat) (f : received)
| EReadFails (sid : nat)
| ESend (addr : string) (message : dict)
| ESendBinary (addr : string) (payload : bytes)
| ESendRelay (addr : string) (payload : bytes)
| ESendFails (addr : string)
| EOpenPipe (a b : string)
| EClosePipe (a : string)
| ECloseAll.

(** A running loop and its session. *)
Definition running (sid : nat) (m : ConnectionManager) : option SecureSession :=
  if decide (sid ∈ loops m) then sessions m !! sid else None.

Definition mstep (e : mevent) (m : ConnectionManager) : ConnectionManager :=
  match e with
  | EIncoming => _handle_incoming m
  | EDial addr => fst (connect_to addr m)
  | EDialRelay r target => fst (connect_via_relay_tunnel r target m)
  | EDone i s => match tickets m !! i with Some t => established t s (drop_ticket i m) | None => m end
  | EFails i => match tickets m !! i with Some t => abandoned t (drop_ticket i m) | None => m end
  | EFrame sid f => match running sid m with Some s => dispatch sid s f m | None => m end
  | EReadFails sid => match running sid m with Some s => end_loop sid s m | None => m end
  | ESend addr d => fst (send addr d m)
  | ESendBinary addr b => fst (send_binary addr b m)
  | ESendRelay addr b => fst (send_relay_data addr b m)
  | ESendFails addr => send_failed addr m
  | EOpenPipe a b => open_relay_pipe a b m
  | EClosePipe a => close_relay_pipe a m
  | ECloseAll => close_all m
  end.

Definition mrun (l : list mevent) (m : ConnectionManager) : ConnectionManager :=
  foldl (fun m e => mstep e m) m l.

(** The address a handshake registers its session at, if it does. *)
Definition registers_at (t : ticket) (s : SecureSession) : option string :=
  match t with
  | Accepting | Dialling => Some (addr_key s)
  | DiallingRelay _ target => if decide (peer_device_id s = target) then Some (relay_addr target) else None
  | AcceptingRelay _ => Some (relay_addr (peer_device_id s))
  end.

(** No live session has the address. *)
Definition vacant (a : string) (m : ConnectionManager) : Prop :=
  forall sid s, running sid m = Some s -> addr_key s <> a.

(** An event that does not put two live sessions at one address. *)
Definition exclusive_event (e : mevent) (m : ConnectionManager) : Prop :=
  match e with
  | EDone i s =>
      forall t a, tickets m !! i = Some t -> registers_at t s = Some a -> vacant a m
  | _ => True
  end.

Fixpoint exclusive (l : list mevent) (m : ConnectionManager) : Prop :=
  match l with
  | [] => True
  | e :: l' => exclusive_event e m /\ exclusive l' (mstep e m)
  end.

(** ** Ownership of addresses *)

Record owned (m : ConnectionManager) : Prop := {
  owned_connection : forall a sid, OrderedDict.get a (_connections m) = Some sid ->
    exists s, running sid m = Some s /\ addr_key s = a;
  owned_loop : forall sid, sid ∈ loops m -> exists s st, sessions m !! sid = Some s /\
    _connection_states m !! addr_key s = Some st /\
    (st = CLOSING \/ st = ESTABLISHED /\ OrderedDict.get (addr_key s) (_connections m) = Some sid);
  owned_once : forall sid1 sid2 s1 s2, running sid1 m = Some s1 -> running sid2 m = Some s2 ->
    addr_key s1 = addr_key s2 -> sid1 = sid2
}.

(** What ownership is about. *)
Definition core (m : ConnectionManager) :=
  (_connections m, _connection_states m, sessions m, loops m).

Lemma owned_core m m' : core m' = core m -> owned m -> owned m'.
Proof.
  unfold core. intros [= E1 E2 E3 E4] [H1 H2 H3]. unfold running in *.
  split; unfold running; rewrite ?E1, ?E2, ?E3, ?E4; auto.
Qed.

Lemma running_Some sid m s : running sid m = Some s <-> sid ∈ loops m /\ sessions m !! sid = Some s.
Proof. unfold running. destruct (decide (sid ∈ loops m)); naive_solver. Qed.

Lemma send_core f a m : core (fst (send_frame f a m)) = core m.
Proof. unfold send_frame. by destruct (OrderedDict.get a (_connections m)). Qed.

Lemma relay_core a b m : core (relay_chunk a b m) = core m.
Proof.
  unfold relay_chunk. destruct (_relay_pipes m !! a); [apply send_core|].
  destruct (_relay_tunnels m !! a); [done|]. by destruct (full m).
Qed.

Lemma report_core a d m : core (_report_invalid_frame a d m) = core m.
Proof.
  unfold _report_invalid_frame, send_error, send. destruct d as [d|]; [|apply send_core].
  repeat case_match; try done; apply send_core.
Qed.

Lemma closing_state st : st = CLOSING \/ st = ESTABLISHED ->
  (if closing_or_closed st then st else default st (transition_to st CLOSING)) = CLOSING.
Proof. by intros [-> | ->]. Qed.

Lemma owned_failed a m : owned m -> owned (send_failed a m).
Proof.
  intros [H1 H2 H3]. split; [| |done].
  - intros b sid. cbn. rewrite OrderedDict.get_pop. destruct (decide (b = a)); [done|]. apply H1.
  - intros sid Hin. cbn in Hin. destruct (H2 sid Hin) as (s & st & Hs & Hst & Ho). exists s. cbn.
    destruct (decide (addr_key s = a)) as [<- |Hne].
    + rewrite lookup_alter_eq, Hst. eexists. split; [done|]. split; [reflexivity|]. left.
      apply closing_state. destruct Ho as [?|[? _]]; auto.
    + exists st. rewrite lookup_alter_ne by done. split; [done|]. split; [done|].
      rewrite OrderedDict.get_pop, decide_False by done. exact Ho.
Qed.

Lemma end_loop_core sid s m :
  core (end_loop sid s m) =
    (OrderedDict.pop (addr_key s) (_connections m), delete (addr_key s) (_connection_states m),
     sessions m, loops m ∖ {[sid]}).
Proof.
  unfold end_loop. set (m1 := close_relay_pipe _ _).
  assert (core m1 = (OrderedDict.pop (addr_key s) (_connections m),
    delete (addr_key s) (_connection_states m), sessions m, loops m ∖ {[sid]})) as E1 by done.
  destruct (_tunnel_r_keys m1 !! addr_key s); cbn [unregister_relay_tunnel];
    (destruct (_relay_tunnels _ !! addr_key s); exact E1).
Qed.

Lemma owned_end sid s m : owned m -> running sid m = Some s -> owned (end_loop sid s m).
Proof.
  intros [H1 H2 H3] Hr. pose proof (end_loop_core sid s m) as Ec.
  remember (end_loop sid s m) as m' eqn:Em. clear Em. unfold core in Ec. injection Ec as E1 E2 E3 E4.
  assert (forall i t, running i m' = Some t <-> i <> sid /\ running i m = Some t) as Hrun.
  { intros i t. rewrite !running_Some, E3, E4. set_solver. }
  split.
  - intros a i. rewrite E1, OrderedDict.get_pop. destruct (decide (a = addr_key s)) as [|Hne]; [done|].
    intros Ha. destruct (H1 a i Ha) as (t & Ht & Hta). exists t. split; [|done]. apply Hrun. split; [|done].
    intros ->. rewrite Ht in Hr. apply (inj Some) in Hr. congruence.
  - intros i. rewrite E4. intros Hin. assert (i ∈ loops m /\ i <> sid) as [Hi Hne] by set_solver.
    destruct (H2 i Hi) as (t & st & Ht & Hst & Ho). exists t, st. rewrite E1, E2, E3. split; [done|].
    assert (addr_key t <> addr_key s) as Ha.
    { intros Ha. apply Hne. apply (H3 i sid t s); [by apply running_Some|done|done]. }
    rewrite lookup_delete_ne, OrderedDict.get_pop, decide_False by done. done.
  - intros i j t u Hi Hj. apply Hrun in Hi as [_ Hi]. apply Hrun in Hj as [_ Hj]. by apply H3.
Qed.

Lemma register_core s incoming m :
  core (register_session s incoming m) =
    (OrderedDict.set (addr_key s) (length (sessions m)) (_connections m),
     <[addr_key s := ESTABLISHED]> (_connection_states m), sessions m ++ [s],
     {[length (sessions m)]} ∪ loops m).
Proof. unfold register_session. by destruct (trust_pending s). Qed.

Lemma owned_register s incoming m :
  owned m -> vacant (addr_key s) m -> (forall sid, sid ∈ loops m -> (sid < length (sessions m))%nat) ->
  owned (register_session s incoming m).
Proof.
  intros [H1 H2 H3] Hv Hlt. pose proof (register_core s incoming m) as Ec.
  remember (register_session s incoming m) as m' eqn:Em. clear Em. unfold core in Ec.
  injection Ec as E1 E2 E3 E4. set (n := length (sessions m)) in *.
  assert (forall i t, running i m' = Some t <->
    i = n /\ t = s \/ i <> n /\ running i m = Some t) as Hrun.
  { intros i t. rewrite !running_Some, E3, E4. destruct (decide (i = n)) as [-> |Hne].
    - rewrite lookup_app_r, Nat.sub_diag by (unfold n; lia). simpl. split.
      + intros [_ [= ->]]. by left.
      + intros [[_ ->]|[? _]]; [|done]. split; [set_solver|done].
    - split.
      + intros [Hi Ht]. right. assert (i ∈ loops m) as Hi' by set_solver. pose proof (Hlt i Hi').
        rewrite lookup_app_l in Ht by (unfold n in *; lia). done.
      + intros [[? _]|[_ [Hi Ht]]]; [done|]. split; [set_solver|]. by apply lookup_app_l_Some. }
  split.
  - intros a i. rewrite E1, OrderedDict.get_set. destruct (decide (a = addr_key s)) as [-> |Hne].
    + intros [= <-]. exists s. split; [|done]. apply Hrun. by left.
    + intros Ha. destruct (H1 a i Ha) as (t & Ht & Hta). exists t. split; [|done]. apply Hrun. right.
      split; [|done]. intros ->. apply running_Some in Ht as [Hi _]. specialize (Hlt n Hi). unfold n in Hlt. lia.
  - intros i Hi. rewrite E4 in Hi. destruct (decide (i = n)) as [-> |Hne].
    + exists s, ESTABLISHED. rewrite E1, E2, E3, lookup_insert_eq, OrderedDict.get_set, decide_True by done.
      split; [|auto]. rewrite lookup_app_r, Nat.sub_diag by (unfold n; lia). done.
    + assert (i ∈ loops m) as Hi' by set_solver. destruct (H2 i Hi') as (t & st & Ht & Hst & Ho).
      assert (addr_key s <> addr_key t) as Ha.
      { intros Ha. apply (Hv i t); [by apply running_Some|done]. }
      exists t, st. rewrite E1, E2, E3, lookup_insert_ne, OrderedDict.get_set, decide_False by congruence.
      split; [by apply lookup_app_l_Some|done].
  - intros i j t u Hi Hj Ha. apply Hrun in Hi as [[-> ->]|[_ Hi]], Hj as [[-> ->]|[_ Hj]]; [done|..|by eapply H3].
    + by edestruct Hv.
    + by edestruct Hv.
Qed.

Definition to_closing (st : ConnectionState) : ConnectionState :=
  if closing_or_closed st then st else default st (transition_to st CLOSING).

Lemma mark_all l m :
  let m' := foldl (fun m kv => emit (ClosedSession (snd kv)) (_mark_closing (fst kv) m)) m l in
  sessions m' = sessions m /\ loops m' = loops m /\
  forall a, _connection_states m' !! a =
    if decide (a ∈ map fst l) then to_closing <$> _connection_states m !! a
    else _connection_states m !! a.
Proof.
  revert m. induction l as [|[k sid] l IH]; intros m; cbn [foldl fst snd map].
  - split; [done|]. split; [done|]. intros a. rewrite decide_False; [done|apply not_elem_of_nil].
  - destruct (IH (emit (ClosedSession sid) (_mark_closing k m))) as (E1 & E2 & E3).
    split; [exact E1|]. split; [exact E2|]. intros a. rewrite E3. cbn.
    destruct (decide (a = k)) as [-> |Hne].
    + rewrite (decide_True (P := k ∈ k :: _)) by (by left). fold to_closing. rewrite lookup_alter_eq.
      destruct (decide _); [|done]. rewrite <- option_fmap_compose. apply option_fmap_ext.
      intros []; reflexivity.
    + rewrite lookup_alter_ne by done. destruct (decide (a ∈ map fst l)) as [Hi|Hi].
      * rewrite decide_True; [done|by right].
      * rewrite decide_False; [done|]. rewrite elem_of_cons. tauto.
Qed.

Lemma get_In a (sid : nat) l : OrderedDict.get a l = Some sid -> a ∈ map fst l.
Proof.
  induction l as [|[k v] l IH]; simpl; [done|]. rewrite elem_of_cons.
  destruct (decide (k = a)) as [-> |]; [by left|]. right. by apply IH.
Qed.

Lemma owned_close_all m : owned m -> owned (close_all m).
Proof.
  intros [H1 H2 H3]. unfold close_all. destruct (mark_all (_connections m) m) as (E1 & E2 & E3).
  set (m' := foldl _ m _) in *. split.
  - done.
  - intros sid Hin. cbn in Hin. rewrite E2 in Hin. destruct (H2 sid Hin) as (s & st & Hs & Hst & Ho).
    exists s. cbn. rewrite E1, E3, Hst. destruct (decide (addr_key s ∈ _)) as [Hd|Hd].
    + exists CLOSING. split; [done|]. split; [|by left]. cbn. f_equal.
      apply closing_state. destruct Ho as [?|[? _]]; auto.
    + exists st. split; [done|]. split; [done|]. destruct Ho as [?|[_ Hg]]; [by left|].
      by apply get_In in Hg.
  - unfold running. cbn. rewrite E1, E2. exact H3.
Qed.

Lemma established_core t s m :
  core (established t s m) =
    match registers_at t s with
    | Some a => core (register_session (at_addr a s) true m)
    | None => core m
    end.
Proof.
  assert (at_addr (addr_key s) s = s) as Es by by destruct s.
  destruct t as [| |r target|r]; cbn [established registers_at]; rewrite ?Es, ?register_core; try done.
  destruct (decide (peer_device_id s = target)); [|done]. by rewrite !register_core.
Qed.

Lemma loops_bounded m : owned m -> forall sid, sid ∈ loops m -> (sid < length (sessions m))%nat.
Proof.
  intros Ho sid Hin. destruct (owned_loop m Ho sid Hin) as (s & _ & Hs & _). by apply lookup_lt_Some in Hs.
Qed.

Lemma owned_dispatch sid s f m : owned m -> running sid m = Some s -> owned (dispatch sid s f m).
Proof.
  intros Ho Hr. unfold dispatch.
  match goal with |- context [if ?b then _ else _] => destruct b end; [by apply owned_end|].
  assert (forall d, owned (end_loop sid s (_report_invalid_frame (addr_key s) d m))) as He.
  { intros d. pose proof (report_core (addr_key s) d m) as Ec. apply owned_end; [by eapply owned_core|].
    unfold core in Ec. injection Ec as _ _ E3 E4. unfold running in *. by rewrite E3, E4. }
  destruct f as [j|b|b|b].
  - destruct (Validation.validate_message j); [by apply (owned_core m)|apply He].
  - destruct (FileData.decode_file_data b); [by apply (owned_core m)|apply He].
  - apply (owned_core m); [apply relay_core|done].
  - done.
Qed.

Lemma owned_step e m : owned m -> exclusive_event e m -> owned (mstep e m).
Proof.
  intros Ho Hx. destruct e as [|a|r target|i s|i|sid f|sid|a d|a b|a b|a|a b|a|]; cbn [mstep].
  - apply (owned_core m); [|done]. unfold _handle_incoming. by destruct (full m).
  - apply (owned_core m); [|done]. unfold connect_to. destruct (is_connected a m); [done|]. by destruct (full m).
  - apply (owned_core m); [|done]. unfold connect_via_relay_tunnel.
    destruct (find_addr_key_for_device target m); [done|]. by destruct (full m).
  - destruct (tickets m !! i) as [t|] eqn:Et; [|done]. pose proof (established_core t s (drop_ticket i m)) as Ec.
    destruct (registers_at t s) as [a|] eqn:Ea; [|by apply (owned_core m)].
    eapply owned_core; [exact Ec|]. apply owned_register; [by apply (owned_core m)| |].
    + exact (Hx t a Et Ea).
    + apply (loops_bounded m Ho).
  - destruct (tickets m !! i) as [t|]; [|done]. apply (owned_core m); [|done]. by destruct t.
  - destruct (running sid m) as [s|] eqn:Hr; [|done]. by apply owned_dispatch.
  - destruct (running sid m) as [s|] eqn:Hr; [|done]. by apply owned_end.
  - apply (owned_core m); [apply send_core|done].
  - apply (owned_core m); [apply send_core|done].
  - apply (owned_core m); [apply send_core|done].
  - by apply owned_failed.
  - by apply (owned_core m).
  - by apply (owned_core m).
  - by apply owned_close_all.
Qed.

Lemma owned_new max : owned (new_manager max).
Proof.
  split; [done|..].
  - intros sid Hin. cbn in Hin. by apply elem_of_empty in Hin.
  - intros i j s t Hi. apply running_Some in Hi as [Hi _]. cbn in Hi. by apply elem_of_empty in Hi.
Qed.

Lemma owned_run l m : owned m -> exclusive l m -> owned (mrun l m).
Proof.
  revert m. induction l as [|e l IH]; intros m Ho Hx; [done|]. destruct Hx as [He Hl].
  apply IH; [by apply owned_step|done].
Qed.

(** Steps that hand no message to the program. *)
Definition is_dispatch (o : output) : bool := match o with Dispatched _ _ _ => true | _ => false end.
Definition quiet (m m' : ConnectionManager) : Prop :=
  exists l, outputs m' = outputs m ++ l /\ forallb (fun o => negb (is_dispatch o)) l = true.

#[export] Instance quiet_preorder : PreOrder quiet.
Proof.
  split.
  - intros m. exists []. by rewrite app_nil_r.
  - intros m1 m2 m3 (l1 & E1 & H1) (l2 & E2 & H2). exists (l1 ++ l2).
    by rewrite E2, E1, app_assoc, forallb_app, H1, H2.
Qed.

Lemma quiet_same m m' : outputs m' = outputs m -> quiet m m'.
Proof. intros E. exists []. by rewrite E, app_nil_r. Qed.

Lemma emit_quiet o m : is_dispatch o = false -> quiet m (emit o m).
Proof. intros E. exists [o]. split; [done|]. simpl. by rewrite E. Qed.

Lemma quiet_send f a m : (forall sid, is_dispatch (f sid) = false) -> quiet m (fst (send_frame f a m)).
Proof.
  intros Hf. unfold send_frame. destruct (OrderedDict.get a (_connections m)); [by apply emit_quiet|done].
Qed.

Lemma quiet_report a d m : quiet m (_report_invalid_frame a d m).
Proof.
  unfold _report_invalid_frame, send_error, send. destruct d as [d|]; [|by apply quiet_send].
  repeat case_match; try done; by apply quiet_send.
Qed.

Lemma quiet_relay a b m : quiet m (relay_chunk a b m).
Proof.
  unfold relay_chunk. destruct (_relay_pipes m !! a); [by apply quiet_send|].
  destruct (_relay_tunnels m !! a); [by apply quiet_same|].
  destruct (full m); [done|by apply quiet_same].
Qed.

Lemma quiet_end sid s m : quiet m (end_loop sid s m).
Proof.
  unfold end_loop. etransitivity; [|apply emit_quiet; reflexivity].
  etransitivity; [|apply emit_quiet; reflexivity]. apply quiet_same.
  destruct (_tunnel_r_keys _ !! _); destruct (_relay_tunnels _ !! _); reflexivity.
Qed.

Lemma quiet_register s incoming m : quiet m (register_session s incoming m).
Proof.
  unfold register_session. destruct (trust_pending s).
  - eexists [_; _]. split; [cbn; by rewrite <- app_assoc|done].
  - by eexists [_].
Qed.

Lemma quiet_established t s m : quiet m (established t s m).
Proof.
  destruct t as [| |r target|r]; cbn [established]; try apply quiet_register.
  - destruct (decide _); [|by apply quiet_same]. etransitivity; [|apply quiet_register]. by apply quiet_same.
  - etransitivity; [|apply quiet_register]. by apply quiet_same.
Qed.

Lemma quiet_close_all m : quiet m (close_all m).
Proof.
  assert (forall l m, quiet m (foldl (fun m kv => emit (ClosedSession (snd kv)) (_mark_closing (fst kv) m)) m l))
    as Hq.
  { induction l as [|kv l IH]; intros m'; cbn [foldl]; [reflexivity|].
    etransitivity; [|apply IH]. etransitivity; [|by apply emit_quiet]. by apply quiet_same. }
  unfold close_all. etransitivity; [apply Hq|]. by apply quiet_same.
Qed.

Lemma quiet_not m m' sid a d : quiet m m' -> outputs m' <> outputs m ++ [Dispatched sid a d].
Proof.
  intros (l & E & Hl) E'. rewrite E in E'. apply app_inv_head in E'. by subst l.
Qed.

(** A frame in a loop: handed to the program, or nothing is. *)
Lemma dispatch_cases sid s f m :
  quiet m (dispatch sid s f m) \/
  exists j d, f = GotJson j /\ Validation.validate_message j = Ok d /\
    dispatch sid s f m = emit (Dispatched sid (addr_key s) d) m /\
    forall st, _connection_states m !! addr_key s = Some st -> st = ESTABLISHED.
Proof.
  unfold dispatch.
  assert (forall d, quiet m (end_loop sid s (_report_invalid_frame (addr_key s) d m))) as He.
  { intros d. etransitivity; [apply quiet_report|apply quiet_end]. }
  set (blocked := match _connection_states m !! addr_key s with Some _ => _ | None => _ end).
  destruct blocked eqn:Eb; [left; apply quiet_end|]. destruct f as [j|b|b|b].
  - destruct (Validation.validate_message j) as [d|] eqn:Ej; [|by left]. right. exists j, d.
    split; [done|]. split; [done|]. split; [done|]. intros st Est. subst blocked. rewrite Est in Eb.
    apply bool_decide_eq_false in Eb. unfold require_established, is_established in Eb.
    by destruct (bool_decide_reflect (st = ESTABLISHED)).
  - left. destruct (FileData.decode_file_data b); [by apply emit_quiet|apply He].
  - left. apply quiet_relay.
  - by left.
Qed.

(** What hands a message to the program: a frame, in the loop of a live session. *)
Lemma dispatched_in_loop e m sid a d :
  outputs (mstep e m) = outputs m ++ [Dispatched sid a d] ->
  exists s j, e = EFrame sid (GotJson j) /\ running sid m = Some s /\ a = addr_key s /\
    (forall st, _connection_states m !! a = Some st -> st = ESTABLISHED) /\
    Validation.validate_message j = Ok d.
Proof.
  assert (forall m', quiet m m' -> outputs m' = outputs m ++ [Dispatched sid a d] -> False) as Hq
    by (intros m' H1 H2; by eapply quiet_not).
  intros E. destruct e as [|x|r target|i s|i|n f|n|x y|x b|x b|x|x b|x|]; cbn [mstep] in E;
    [..|destruct (running n m) as [s|] eqn:Hr;
      [destruct (dispatch_cases n s f m) as [Hd|(j & d' & -> & Ej & Ed & Hst)]|]| | | | | | | |];
    lazymatch goal with _ : dispatch _ _ _ _ = _ |- _ => idtac | _ => exfalso; eapply Hq; [|exact E] end.
  - unfold _handle_incoming. destruct (full m); [done|by apply quiet_same].
  - unfold connect_to. destruct (is_connected x m); [done|]. destruct (full m); [done|by apply quiet_same].
  - unfold connect_via_relay_tunnel. destruct (find_addr_key_for_device target m); [done|].
    destruct (full m); [done|by apply quiet_same].
  - destruct (tickets m !! i); [|done]. etransitivity; [|apply quiet_established]. by apply quiet_same.
  - destruct (tickets m !! i) as [t|]; [|done]. apply quiet_same. by destruct t.
  - exact Hd.
  - rewrite Ed in E. cbn in E. apply app_inv_head in E. injection E as -> <- ->.
    exists s, j. done.
  - done.
  - destruct (running n m); [apply quiet_end|done].
  - by apply quiet_send.
  - by apply quiet_send.
  - by apply quiet_send.
  - by apply quiet_same.
  - by apply quiet_same.
  - by apply quiet_same.
  - apply quiet_close_all.
Qed.

(** C29: a message is attributed to the device that sent it.  In every interleaving of
    handshakes, frames, failures and shutdowns in which no two live sessions share an address, a
    message handed to the program at an address comes from a live, established session whose
    handshake proved a device identity, and that identity is the one the manager then answers
    for the address; and it is a valid message. *)
Theorem messages_attributed max l e sid a d :
  let m := mrun l (new_manager max) in
  exclusive l (new_manager max) ->
  outputs (mstep e m) = outputs m ++ [Dispatched sid a d] ->
  exists s j, running sid m = Some s /\ addr_key s = a /\
    get_peer_device_id a m = Some (peer_device_id s) /\ get_connection_state a m = Some ESTABLISHED /\
    e = EFrame sid (GotJson j) /\ Validation.validate_message j = Ok d.
Proof.
  intros m Hx E. pose proof (owned_run l _ (owned_new max) Hx) as Ho. fold m in Ho.
  apply dispatched_in_loop in E as (s & j & -> & Hr & -> & Hst & Hj). exists s, j.
  pose proof Hr as [Hin Hs]%running_Some.
  destruct (owned_loop m Ho sid Hin) as (s' & st & Hs' & Hst' & Hor). rewrite Hs in Hs'.
  apply (inj Some) in Hs'. subst s'. pose proof (Hst st Hst') as ->.
  destruct Hor as [?|[_ Hg]]; [done|].
  unfold get_peer_device_id, session_at, get_connection_state. rewrite Hg. simpl. rewrite Hs, Hst'. simpl. auto 10.
Qed.

(** ** Where addresses collide *)

Definition peer (addr device : string) : SecureSession := mk_session addr device [] "peer" false.

(** Two relays connect, and through each of them another device. *)
Definition collision : list mevent :=
  [EIncoming; EDone 0 (peer "10.0.0.1:5000" "relay-one");
   EIncoming; EDone 0 (peer "10.0.0.2:5000" "relay-two");
   EFrame 0 (GotRelay (lit "hello")); EFrame 1 (GotRelay (lit "hello"));
   EDone 0 (peer "relayed-temp:0" "c0ffee00-mallory"); EDone 0 (peer "relayed-temp:0" "c0ffee00-alice")]%string.

Definition a_chat : dict :=
  Factories.make_chat_message (SpecFloat.S754_zero false) "m1" "me" "Ann" "hello".

(** A relayed device can speak in another one's name.  The address of a relayed session
    is the first eight characters of the device identifier.  When two devices that agree on them are
    connected through relays, one after the other, a message the first one sends is handed to the
    program at an address for which the manager answers with the identity of the second. *)
Theorem relayed_addresses_collide :
  let m := mrun collision (new_manager MAX_CONNECTIONS) in
  exists s a, running 2 m = Some s /\ peer_device_id s = "c0ffee00-mallory"%string /\
    outputs (mstep (EFrame 2 (GotJson (JObj a_chat))) m) = outputs m ++ [Dispatched 2 a a_chat] /\
    get_peer_device_id a m = Some "c0ffee00-alice"%string.
Proof.
  cbv zeta. eexists _, _. split; [vm_compute; reflexivity|]. split; [reflexivity|].
  split; vm_compute; reflexivity.
Qed.

(** *** The limit *)

Lemma incoming_run n max :
  (0 < max)%nat ->
  mrun (repeat EIncoming n) (new_manager max) = on_tickets (fun _ => repeat Accepting n) (new_manager max).
Proof.
  intros Hm. induction n as [|n IH]; [done|]. cbn [repeat]. rewrite !repeat_cons. unfold mrun in *.
  rewrite foldl_app, IH. cbn. unfold _handle_incoming, full. cbn. by destruct max as [|max]; [lia|].
Qed.

(** The handshakes of callers from different ports end one after the other. *)
Definition callers (i k : nat) : list mevent := map (fun j => EDone 0 (peer (pretty j) "device")) (seq i k).

Lemma callers_run k i m :
  tickets m = repeat Accepting k -> (forall j, (i <= j)%nat -> OrderedDict.get (pretty j) (_connections m) = None) ->
  length (_connections (mrun (callers i k) m)) = (length (_connections m) + k)%nat.
Proof.
  revert i m. induction k as [|k IH]; intros i m Ht Hf; [simpl; lia|].
  unfold callers. cbn [seq map]. fold (callers (S i) k). unfold mrun. cbn [foldl mstep]. rewrite Ht. cbn [repeat lookup list_lookup].
  fold (mrun (callers (S i) k) (established Accepting (peer (pretty i) "device") (drop_ticket 0 m))).
  rewrite IH.
  - cbn. rewrite OrderedDict.length_set_new by (by apply Hf). lia.
  - cbn. by rewrite Ht.
  - intros j Hj. cbn. rewrite OrderedDict.get_set, decide_False; [apply Hf; lia|].
    intros E%(inj pretty). lia.
Qed.

(** The limit on connections does not limit them.  It is checked before a handshake and not
    after it: however low it is, peers that start their handshakes together all get in, so that
    any number of connections can be open. *)
Theorem connection_limit_exceeded max n :
  (0 < max)%nat -> exists l, length (_connections (mrun l (new_manager max))) = n.
Proof.
  intros Hm. exists (repeat EIncoming n ++ callers 0 n). unfold mrun. rewrite foldl_app.
  fold (mrun (repeat EIncoming n) (new_manager max)). rewrite incoming_run by done.
  by apply (callers_run n 0).
Qed.

(** *** Relay pipes *)

(** A relay pipe opened again leaks.  When the relay bridges one session to a second one and
    then to a third, and the last pipe is closed, the second session still has its half: what it
    sends is forwarded to a peer that no longer sends to it. *)
Theorem relay_pipe_dangles a b c sid payload m :
  a <> b -> a <> c -> b <> c -> OrderedDict.get a (_connections m) = Some sid ->
  let m' := close_relay_pipe c (open_relay_pipe a c (open_relay_pipe a b m)) in
  is_relay_pipe_open a m' = false /\ outputs (relay_chunk b payload m') = outputs m ++ [SentRelay sid payload].
Proof.
  intros Hab Hac Hbc Hs. cbv zeta.
  set (m' := close_relay_pipe c (open_relay_pipe a c (open_relay_pipe a b m))).
  assert (_relay_pipes m' = delete a (delete c (<[c := a]> (<[a := c]> (<[b := a]> (<[a := b]> (_relay_pipes m)))))))
    as Ep by (unfold m'; cbn; by rewrite lookup_insert_eq).
  split.
  - unfold is_relay_pipe_open. rewrite Ep, lookup_delete_eq. done.
  - unfold relay_chunk. rewrite Ep, !lookup_delete_ne, !lookup_insert_ne, lookup_insert_eq by done.
    unfold send_relay_data, send_frame. change (_connections m') with (_connections m). by rewrite Hs.
Qed.

(** ** Evaluations *)

(** A caller connects and sends a message. *)
Definition one_caller : list mevent := [EIncoming; EDone 0 (peer "10.0.0.1:5000" "alice")]%string.

Lemma messages_attributed_witness :
  let m := mrun one_caller (new_manager MAX_CONNECTIONS) in
  exists s j, running 0 m = Some s /\ addr_key s = "10.0.0.1:5000"%string /\
    get_peer_device_id "10.0.0.1:5000" m = Some (peer_device_id s) /\
    get_connection_state "10.0.0.1:5000" m = Some ESTABLISHED /\
    EFrame 0 (GotJson (JObj a_chat)) = EFrame 0 (GotJson j) /\ Validation.validate_message j = Ok a_chat.
Proof.
  apply (messages_attributed MAX_CONNECTIONS one_caller (EFrame 0 (GotJson (JObj a_chat))) 0 "10.0.0.1:5000" a_chat).
  - split; [done|]. split; [|done]. intros t a _ _ sid s Hr. apply running_Some in Hr as [Hi _].
    cbn in Hi. by apply elem_of_empty in Hi.
  - vm_compute. reflexivity.
Defined.

Lemma connection_limit_exceeded_witness :
  exists l, length (_connections (mrun l (new_manager 1))) = 3%nat.
Proof. apply (connection_limit_exceeded 1 3). lia. Defined.

Lemma relay_pipe_dangles_witness :
  let m := mrun one_caller (new_manager MAX_CONNECTIONS) in
  let m' := close_relay_pipe "c" (open_relay_pipe "10.0.0.1:5000" "c" (open_relay_pipe "10.0.0.1:5000" "b" m)) in
  is_relay_pipe_open "10.0.0.1:5000" m' = false /\
  outputs (relay_chunk "b" (lit "x") m') = outputs m ++ [SentRelay 0 (lit "x")].
Proof.
  apply (relay_pipe_dangles "10.0.0.1:5000" "b" "c" 0 (lit "x") (mrun one_caller (new_manager MAX_CONNECTIONS)));
    [discriminate..|]. vm_compute. reflexivity.
Defined.
