(* ===== verification/Handshake.v ===== *)
(** * The authenticated handshake

    Models [core/crypto/handshake.py] with the X25519 helpers of
    [core/crypto/key_exchange.py]: the nonce cache, the transcripts, identity and
    trust checks, and the two sides of the three-message handshake.

    Each side is cut where the coroutine awaits: [initiator_start] up to the first
    read, [initiator_finish] after it; [responder_start] and [responder_finish]
    around the responder's second read.  What a read yields (a decoded frame, a
    timeout, a failed read) is an argument, and so are the random values and the
    clock.  The state is the nonce cache, the optional trust store, the security
    events and the messages written. *)

From Corelib Require Import SpecFloat.
From S2P Require Import Prelude Text Json Crypto Messages Trust Channel.
Import Identity Rotation Store Factories Validation.
Local Open Scope peerc_scope.
Local Open Scope Z_scope.

(** ** Key exchange *)
Module KeyExchange.

Definition X25519_KEY_SIZE : nat := 32.

(** [None] is the [ValueError]. *)
Definition ephemeral_public_from_bytes (data : bytes) : option bytes :=
  if decide (length data = X25519_KEY_SIZE) then Some data else None.

Definition ephemeral_public_from_hex (hex_str : string) : option bytes :=
  raw ← fromhex (str_bytes hex_str); ephemeral_public_from_bytes raw.

Definition public_key_hex `{X25519} (private_key : x_private) : string :=
  bytes_str (hex_text (x_public private_key)).

Definition compute_shared_secret `{X25519} (private_key : x_private) (peer : bytes)
    : option bytes :=
  x_exchange private_key peer.

End KeyExchange.
Import KeyExchange.

(** ** The nonce cache *)
Module NonceCache.

Record cache := mk_cache { _ttl : spec_float; _seen : gmap string spec_float }.

(** [now - t > self._ttl] in double precision. *)
Definition expired (c : cache) (now t : spec_float) : bool :=
  SFltb (_ttl c) (SFsub 53 1024 now t).

Definition clean (now : spec_float) (c : cache) : cache :=
  {| _ttl := _ttl c;
     _seen := filter (fun kt : string * spec_float => expired c now kt.2 = false) (_seen c) |}.

Definition check_and_add (now : spec_float) (nonce : string) (c : cache) : cache * bool :=
  let c' := clean now c in
  match _seen c' !! nonce with
  | Some _ => (c', false)
  | None => ({| _ttl := _ttl c'; _seen := <[nonce := now]> (_seen c') |}, true)
  end.

End NonceCache.
Import NonceCache.

(** ** Transcripts *)

(** [json.dumps(obj, sort_keys=True, separators=(",", ":")).encode("utf-8")]. *)
Class CanonicalJson := { _canonical_json_bytes : dict -> bytes }.

(** The text has no newline (control characters are escaped), and two dicts of
    strings with the same keys in the same order have the same text only if they
    are equal. *)
Class CanonicalJsonLaws `{CanonicalJson} : Prop := {
  canonical_no_newline d : ~ In Byte.x0a (_canonical_json_bytes d);
  canonical_inj ks vs1 vs2 :
    NoDup ks -> length vs1 = length ks -> length vs2 = length ks ->
    _canonical_json_bytes (zip ks (map JStr vs1)) = _canonical_json_bytes (zip ks (map JStr vs2)) ->
    vs1 = vs2
}.

Definition NL : bytes := [Byte.x0a].

(** [message[f]] of a validated handshake message: a string. *)
Definition str_field (f : string) (m : dict) : string :=
  match jget f m with Some (JStr s) => s | _ => ""%string end.

Definition transcript_fields : list string :=
  ["type"; "device_id"; "public_key"; "ephemeral_key"; "nonce"; "sender_name"]%string.

Definition field_values (m : dict) : list string :=
  map (fun f => str_field f m) transcript_fields.

Definition transcript_part `{CanonicalJson} (m : dict) : bytes :=
  _canonical_json_bytes (zip transcript_fields (map JStr (field_values m))).

Definition compute_responder_transcript `{CanonicalJson} (init_msg resp_msg : dict) : bytes :=
  lit "peerc-v2-handshake-responder" ++ NL ++ transcript_part init_msg ++ NL
    ++ transcript_part resp_msg.

Definition compute_initiator_transcript (responder_transcript : bytes)
    (responder_signature_hex : string) : bytes :=
  lit "peerc-v2-handshake-initiator" ++ NL ++ responder_transcript ++ NL
    ++ str_bytes responder_signature_hex.

Definition compute_final_transcript_hash `{Sha256} (initiator_transcript : bytes)
    (initiator_signature_hex : string) : bytes :=
  sha256 (initiator_transcript ++ NL ++ str_bytes initiator_signature_hex).

(** ** State and errors *)

Inductive hs_event : Type :=
| AUTH_FAILED (device_id : string)
| REPLAY_DETECTED (device_id : string).

Record hs := mk_hs {
  nonces : cache;
  trust_store : option db;
  hs_events : list hs_event;
  written : list dict
}.

Inductive hs_error : Type :=
| HandshakeTimeoutError
| HandshakeProtocolError
| IdentityVerificationError
| SignatureVerificationError
| DeviceRevokedError
| KeyChangedError
| TrustFailure (e : trust_error)    (** raised by the trust store *)
| KeyValueError.                    (** [ValueError] of the key library *)

Abbreviation hsop := (stm hs hs_error).

Definition hs_emit (e : hs_event) : hsop unit :=
  modify (fun s => {| nonces := nonces s; trust_store := trust_store s;
                      hs_events := hs_events s ++ [e]; written := written s |}).

Definition write (m : dict) : hsop unit :=
  modify (fun s => {| nonces := nonces s; trust_store := trust_store s;
                      hs_events := hs_events s; written := written s ++ [m] |}).

Definition check_nonce (now : spec_float) (nonce : string) : hsop bool := fun s =>
  let '(c, fresh) := check_and_add now nonce (nonces s) in
  ({| nonces := c; trust_store := trust_store s; hs_events := hs_events s;
      written := written s |}, Ok fresh).

(** A call on the trust store, when there is one. *)
Definition on_store {A} (default_result : A) (m : stm db trust_error A) : hsop A := fun s =>
  match trust_store s with
  | None => (s, Ok default_result)
  | Some d =>
      let '(d', r) := m d in
      ({| nonces := nonces s; trust_store := Some d'; hs_events := hs_events s;
          written := written s |},
       match r with Ok a => Ok a | Err e => Err (TrustFailure e) end)
  end.

(** What awaiting [read_frame] with the timeout yields. *)
Inductive incoming : Type :=
| Frame (m : json)
| TimedOut
| ReadFailed.

(** The read, the schema check and the type check. *)
Definition expect (msg_type : string) (i : incoming) : hsop dict :=
  match i with
  | TimedOut => raise HandshakeTimeoutError
  | ReadFailed => raise HandshakeProtocolError
  | Frame m =>
      match validate_message m with
      | Err _ => raise HandshakeProtocolError
      | Ok d =>
          if decide (str_field "type" d = msg_type) then mret d
          else raise HandshakeProtocolError
      end
  end.

(** ** Checks *)

Definition MAX_PEER_NAME_LENGTH : nat := 64.

Section Checks.
Context `{Sha256}.

Definition _verify_device_identity (device_id public_key_hex : string) : hsop bytes :=
  match fromhex (str_bytes public_key_hex) with
  | None => raise IdentityVerificationError
  | Some pub_bytes =>
      if decide (compute_device_id pub_bytes = device_id) then mret pub_bytes
      else hs_emit (AUTH_FAILED device_id) ;; raise IdentityVerificationError
  end.

Definition _check_trust (device_id public_key_hex : string) : hsop TrustDecision :=
  decision ← on_store D_UNKNOWN (Store.check device_id public_key_hex);
  match decision with
  | D_REVOKED => raise DeviceRevokedError
  | D_KEY_CHANGED => raise KeyChangedError
  | _ => mret decision
  end.

Definition _record_trust (policy : option (string -> bool)) (now : spec_float)
    (device_id public_key_hex peer_name : string) (decision : TrustDecision)
    : hsop TrustDecision :=
  store ← gets trust_store;
  match store with
  | None => mret decision
  | Some _ =>
      match decision with
      | D_UNKNOWN =>
          on_store () (record_first_seen policy now device_id public_key_hex
                         (bytes_str (str_prefix MAX_PEER_NAME_LENGTH (str_bytes peer_name)))) ;;
          mret D_PENDING
      | D_PENDING | D_TRUSTED =>
          on_store () (touch_last_seen now device_id) ;; mret decision
      | _ => mret decision
      end
  end.

Definition _check_and_update_trust (policy : option (string -> bool)) (now : spec_float)
    (device_id public_key_hex peer_name : string) : hsop TrustDecision :=
  decision ← _check_trust device_id public_key_hex;
  _record_trust policy now device_id public_key_hex peer_name decision.

End Checks.

Record HandshakeResult := mk_result {
  peer_device_id : string;
  peer_public_key : string;
  peer_name : string;
  shared_secret : bytes;
  transcript_hash : bytes;
  trust_decision : TrustDecision
}.

(** [bytes.fromhex(signature)] and [verify], under the [try]. *)
Definition signature_ok `{Ed25519} (pub : bytes) (signature : string) (transcript : bytes)
    : bool :=
  match fromhex (str_bytes signature) with
  | Some sig_bytes => ed_verify pub sig_bytes transcript
  | None => false
  end.

(** ** The two sides *)
Section Sides.
Context `{Ed25519, Sha256, X25519, CanonicalJson}.
Context (policy : option (string -> bool)).

Definition my_pub_hex (k : DeviceKeypair) : string := bytes_str (hex_text (public_key_bytes k)).

Definition sign_hex (k : DeviceKeypair) (data : bytes) : string :=
  bytes_str (hex_text (sign k data)).

Definition initiator_start (now : spec_float) (my_identity : DeviceKeypair) (my_name : string)
    (my_ephemeral : x_private) (my_nonce : string) : hsop dict :=
  let init_msg := make_handshake_init now (device_id my_identity) (my_pub_hex my_identity)
                    (public_key_hex my_ephemeral) my_nonce my_name in
  write init_msg ;; mret init_msg.

Definition initiator_finish (now : spec_float) (my_identity : DeviceKeypair)
    (my_ephemeral : x_private) (init_msg : dict) (i : incoming) : hsop HandshakeResult :=
  resp_msg ← expect "handshake_response" i;
  let peer_id := str_field "device_id" resp_msg in
  let peer_pk := str_field "public_key" resp_msg in
  fresh ← check_nonce now (str_field "nonce" resp_msg);
  if negb fresh then
    hs_emit (REPLAY_DETECTED peer_id) ;; raise HandshakeProtocolError
  else
    peer_pub_bytes ← _verify_device_identity peer_id peer_pk;
    pre_decision ← _check_trust peer_id peer_pk;
    let resp_transcript := compute_responder_transcript init_msg resp_msg in
    match public_key_from_bytes peer_pub_bytes with
    | None => raise KeyValueError
    | Some responder_pub =>
        if negb (signature_ok responder_pub (str_field "signature" resp_msg) resp_transcript) then
          hs_emit (AUTH_FAILED peer_id) ;; raise SignatureVerificationError
        else
          trust_decision ← _record_trust policy now peer_id peer_pk
                             (str_field "sender_name" resp_msg) pre_decision;
          let init_transcript :=
            compute_initiator_transcript resp_transcript (str_field "signature" resp_msg) in
          let my_signature := sign_hex my_identity init_transcript in
          write (make_handshake_finish now my_signature) ;;
          match ephemeral_public_from_hex (str_field "ephemeral_key" resp_msg) with
          | None => raise HandshakeProtocolError
          | Some peer_ephemeral_pub =>
              match compute_shared_secret my_ephemeral peer_ephemeral_pub with
              | None => raise KeyValueError
              | Some shared_secret =>
                  mret {| peer_device_id := peer_id;
                          peer_public_key := peer_pk;
                          peer_name := str_field "sender_name" resp_msg;
                          shared_secret := shared_secret;
                          transcript_hash :=
                            compute_final_transcript_hash init_transcript my_signature;
                          trust_decision := trust_decision |}
              end
          end
    end.

(** What the responder keeps across its second await. *)
Record responder_state := mk_rs {
  rs_init_msg : dict;
  rs_peer_pub_bytes : bytes;
  rs_pre_decision : TrustDecision;
  rs_resp_transcript : bytes;
  rs_signature : string
}.

Definition responder_start (now : spec_float) (my_identity : DeviceKeypair) (my_name : string)
    (my_ephemeral : x_private) (my_nonce : string) (i : incoming) : hsop responder_state :=
  init_msg ← expect "handshake_init" i;
  let peer_id := str_field "device_id" init_msg in
  let peer_pk := str_field "public_key" init_msg in
  fresh ← check_nonce now (str_field "nonce" init_msg);
  if negb fresh then
    hs_emit (REPLAY_DETECTED peer_id) ;; raise HandshakeProtocolError
  else
    peer_pub_bytes ← _verify_device_identity peer_id peer_pk;
    pre_decision ← _check_trust peer_id peer_pk;
    let resp_msg_no_sig :=
      [("type", JStr "handshake_response"); ("device_id", JStr (device_id my_identity));
       ("public_key", JStr (my_pub_hex my_identity));
       ("ephemeral_key", JStr (public_key_hex my_ephemeral)); ("nonce", JStr my_nonce);
       ("sender_name", JStr my_name)]%string in
    let resp_transcript := compute_responder_transcript init_msg resp_msg_no_sig in
    let my_signature := sign_hex my_identity resp_transcript in
    write (make_handshake_response now (device_id my_identity) (my_pub_hex my_identity)
             (public_key_hex my_ephemeral) my_nonce my_name my_signature) ;;
    mret {| rs_init_msg := init_msg; rs_peer_pub_bytes := peer_pub_bytes;
            rs_pre_decision := pre_decision; rs_resp_transcript := resp_transcript;
            rs_signature := my_signature |}.

Definition responder_finish (now : spec_float) (my_ephemeral : x_private) (rs : responder_state)
    (i : incoming) : hsop HandshakeResult :=
  finish_msg ← expect "handshake_finish" i;
  let init_msg := rs_init_msg rs in
  let peer_id := str_field "device_id" init_msg in
  let peer_pk := str_field "public_key" init_msg in
  let init_transcript := compute_initiator_transcript (rs_resp_transcript rs) (rs_signature rs) in
  match public_key_from_bytes (rs_peer_pub_bytes rs) with
  | None => raise KeyValueError
  | Some initiator_pub =>
      if negb (signature_ok initiator_pub (str_field "signature" finish_msg) init_transcript) then
        hs_emit (AUTH_FAILED peer_id) ;; raise SignatureVerificationError
      else
        trust_decision ← _record_trust policy now peer_id peer_pk
                           (str_field "sender_name" init_msg) (rs_pre_decision rs);
        match ephemeral_public_from_hex (str_field "ephemeral_key" init_msg) with
        | None => raise HandshakeProtocolError
        | Some peer_ephemeral_pub =>
            match compute_shared_secret my_ephemeral peer_ephemeral_pub with
            | None => raise KeyValueError
            | Some shared_secret =>
                mret {| peer_device_id := peer_id;
                        peer_public_key := peer_pk;
                        peer_name := str_field "sender_name" init_msg;
                        shared_secret := shared_secret;
                        transcript_hash := compute_final_transcript_hash init_transcript
                                             (str_field "signature" finish_msg);
                        trust_decision := trust_decision |}
            end
        end
  end.

End Sides.
