(* ===== verification/HandshakeTheory.v ===== *)
(** * What the handshake guarantees

    Theorems about [Handshake]: mutual authentication against any peer, no
    trust-store write before the peer's signature is verified, nonce replay,
    transcript binding, and the agreement of two honest sides. *)

From Corelib Require Import SpecFloat.
From S2P Require Import Prelude Text Json Crypto Messages MessageTheory Trust Channel Handshake.
Import Identity Rotation Store Factories Validation KeyExchange NonceCache.
Local Open Scope peerc_scope.
Local Open Scope Z_scope.

(** ** Small facts *)

Lemma str_hex bs : str_bytes (bytes_str (hex_text bs)) = hex_text bs.
Proof. apply String.list_byte_of_string_of_list_byte. Qed.

Lemma hex_nonempty bs : (0 < length bs)%nat -> nonempty_str (JStr (bytes_str (hex_text bs))) = true.
Proof.
  intros Hl. unfold nonempty_str. apply negb_true_iff, bool_decide_eq_false. intros E.
  apply (f_equal (fun s => length (str_bytes s))) in E.
  rewrite str_hex, length_hex_text in E. simpl in E. lia.
Qed.

Lemma signature_ok_sign `{Ed25519Laws} sk m :
  signature_ok (ed_public sk) (bytes_str (hex_text (ed_sign sk m))) m = true.
Proof. unfold signature_ok. rewrite str_hex, fromhex_hex_text. apply ed_verify_sign. Qed.

Lemma validate_message_obj j d : validate_message j = Ok d -> j = JObj d.
Proof.
  unfold validate_message. destruct j as [| | | | | |m]; try done.
  repeat case_match; try done; intros Hd; [|by injection Hd as ->].
  apply rbind_Ok in Hd as (u & _ & Hd). by injection Hd as ->.
Qed.

(** The handshake messages of the factories pass validation. *)
Lemma handshake_init_validates now a b c d e :
  nonempty_str (JStr a) = true -> nonempty_str (JStr b) = true ->
  nonempty_str (JStr c) = true -> nonempty_str (JStr d) = true ->
  validate_message (JObj (make_handshake_init now a b c d e))
    = Ok (make_handshake_init now a b c d e).
Proof. intros. validate_run. Qed.

Lemma handshake_response_validates now a b c d e f :
  nonempty_str (JStr a) = true -> nonempty_str (JStr b) = true ->
  nonempty_str (JStr c) = true -> nonempty_str (JStr d) = true ->
  nonempty_str (JStr f) = true ->
  validate_message (JObj (make_handshake_response now a b c d e f))
    = Ok (make_handshake_response now a b c d e f).
Proof. intros. validate_run. Qed.

Lemma handshake_finish_validates now a :
  nonempty_str (JStr a) = true ->
  validate_message (JObj (make_handshake_finish now a)) = Ok (make_handshake_finish now a).
Proof. intros. validate_run. Qed.

(** ** Running the steps *)

Lemma expect_run t d s :
  validate_message (JObj d) = Ok d -> str_field "type" d = t ->
  expect t (Frame (JObj d)) s = (s, Ok d).
Proof. intros Hv Ht. unfold expect. rewrite Hv. by rewrite decide_True. Qed.

Lemma expect_Ok t i s s' d :
  expect t i s = (s', Ok d) ->
  s' = s /\ i = Frame (JObj d) /\ validate_message (JObj d) = Ok d /\ str_field "type" d = t.
Proof.
  unfold expect. destruct i as [m| |]; [|done..].
  destruct (validate_message m) as [d'|] eqn:Ev; [|done]. case_decide as Ht; [|done].
  intros [= <- <-]. pose proof (validate_message_obj _ _ Ev) as ->. done.
Qed.

Lemma verify_identity_Ok `{Sha256} id pk s s' pub :
  _verify_device_identity id pk s = (s', Ok pub) ->
  s' = s /\ fromhex (str_bytes pk) = Some pub /\ compute_device_id pub = id.
Proof.
  unfold _verify_device_identity. destruct (fromhex _) as [p|]; [|done].
  case_decide; [|done]. by intros [= <- <-].
Qed.

Lemma check_nonce_Ok now n s s' b :
  check_nonce now n s = (s', Ok b) ->
  trust_store s' = trust_store s /\
  (b = true -> _seen (NonceCache.clean now (nonces s)) !! n = None /\ is_Some (_seen (nonces s') !! n)).
Proof.
  unfold check_nonce, check_and_add. destruct (_ !! n) eqn:E; intros [= <- <-]; simpl; [done|].
  split; [done|]. intros _. rewrite lookup_insert_eq. eauto.
Qed.

Definition same_store (o o' : option db) : Prop :=
  match o, o' with
  | None, None => True
  | Some d, Some d' => same_tables d d'
  | _, _ => False
  end.

#[export] Instance same_tables_preorder : PreOrder same_tables.
Proof.
  split; [by intros d|]. intros d1 d2 d3 (H1 & H2 & H3) (K1 & K2 & K3). unfold same_tables.
  by rewrite K1, K2, K3.
Qed.

#[export] Instance same_store_preorder : PreOrder same_store.
Proof.
  split; [by intros [d|]; simpl|]. intros [a|] [b|] [c|]; simpl; try done.
  intros. by transitivity b.
Qed.

(** The decision a store makes about a claimed identity. *)
Definition decides (o : option db) (id pk : string) (dec : TrustDecision) : Prop :=
  match o with
  | None => dec = D_UNKNOWN
  | Some d => connected d = true /\ direct_decision (devices d) id pk = dec
  end.

Definition acceptable (dec : TrustDecision) : bool :=
  match dec with D_REVOKED | D_KEY_CHANGED => false | _ => true end.

Lemma decides_same o o' id pk dec : same_store o o' -> decides o id pk dec -> decides o' id pk dec.
Proof.
  destruct o as [d|], o' as [d'|]; simpl; try done.
  intros (Hc & Hd & _) [Hcc Hdd]. by rewrite Hc, Hd.
Qed.

Lemma check_trust_step id pk s :
  exists s', same_store (trust_store s) (trust_store s') /\ written s' = written s /\
    nonces s' = nonces s /\
    match _check_trust id pk s with
    | (s1, r) => s1 = s' /\
        (forall dec, r = Ok dec -> acceptable dec = true /\ decides (trust_store s) id pk dec) /\
        (forall dec, decides (trust_store s) id pk dec ->
           r = match dec with
               | D_REVOKED => Err DeviceRevokedError
               | D_KEY_CHANGED => Err KeyChangedError
               | _ => Ok dec
               end)
    end.
Proof.
  unfold _check_trust, on_store, mbind, stm_bind. destruct (trust_store s) as [d|] eqn:Es; simpl.
  2: { exists s. rewrite Es. split; [done|]. split; [done|]. split; [done|]. split; [done|].
       split; [by intros dec [= <-]|by intros dec ->]. }
  destruct (check_run id pk d) as (d' & Hs & ->).
  exists {| nonces := nonces s; trust_store := Some d'; hs_events := hs_events s;
            written := written s |}.
  split; [done|]. split; [done|]. split; [done|].
  destruct (connected d) eqn:Ec.
  2: { split; [done|]. split; [done|]. by intros dec [? _]. }
  destruct (direct_decision (devices d) id pk) eqn:Ed; (split; [done|]);
    (split; [intros dec; try done; by intros [= <-]|by intros dec [_ <-]]).
Qed.

Lemma record_trust_run policy now id pk n dec s :
  decides (trust_store s) id pk dec -> acceptable dec = true ->
  match policy with Some denies => denies id | None => false end = false ->
  exists s' dec', _record_trust policy now id pk n dec s = (s', Ok dec') /\
    written s' = written s /\ nonces s' = nonces s.
Proof.
  intros Hd Ha Hp. unfold _record_trust, gets, mbind, stm_bind.
  destruct (trust_store s) as [d|] eqn:Es; [|by eexists _, _]. destruct Hd as [Hc Hd].
  destruct dec; try discriminate Ha; unfold on_store; cbv beta iota; rewrite Es.
  - unfold record_first_seen, get_device, _require_conn, raise_if, gets, modify, mbind, stm_bind.
    unfold direct_decision in Hd. destruct (devices d !! id) as [dev|] eqn:Ed.
    { repeat case_match; done. }
    rewrite Hc, Ed, Hp. rewrite bool_decide_false by by intros [? ?].
    rewrite Hc. by eexists _, _.
  - unfold touch_last_seen, update_device, _require_conn, modify, mbind, stm_bind. rewrite Hc.
    by eexists _, _.
  - unfold touch_last_seen, update_device, _require_conn, modify, mbind, stm_bind. rewrite Hc.
    by eexists _, _.
Qed.

(** ** Transcripts *)

Lemma newline_split a b x y :
  ~ In Byte.x0a a -> ~ In Byte.x0a b -> a ++ NL ++ x = b ++ NL ++ y -> a = b /\ x = y.
Proof.
  revert b. induction a as [|c a IH]; intros [|c' b] Ha Hb E; simpl in *; simplify_eq.
  - done.
  - exfalso. apply Hb. by left.
  - exfalso. apply Ha. by left.
  - destruct (IH b) as [-> ->]; [tauto|tauto|done|done].
Qed.

Lemma transcript_part_inj `{CanonicalJsonLaws} m1 m2 :
  transcript_part m1 = transcript_part m2 -> field_values m1 = field_values m2.
Proof.
  apply canonical_inj; [|done..]. apply (bool_decide_unpack _). by vm_compute.
Qed.

(** Transcript binding.  Two pairs of handshake messages have the same
    responder transcript only if they agree on all twelve signed fields (type,
    device id, public key, ephemeral key, nonce and name of each side). *)
Theorem responder_transcript_binding `{CanonicalJsonLaws} i1 r1 i2 r2 :
  compute_responder_transcript i1 r1 = compute_responder_transcript i2 r2 ->
  field_values i1 = field_values i2 /\ field_values r1 = field_values r2.
Proof.
  unfold compute_responder_transcript. intros E. apply app_inv_head in E.
  apply app_inv_head in E.
  apply newline_split in E as [E1 E2]; [|apply canonical_no_newline..].
  split; by apply transcript_part_inj.
Qed.

(** ** Authentication *)

(** The claimed identity is the hash of the claimed key, and the key verifies the
    signature over the transcript. *)
Definition proves `{Ed25519, Sha256} (id pk signature : string) (transcript : bytes) : Prop :=
  exists pub sig_bytes, fromhex (str_bytes pk) = Some pub /\ length pub = 32%nat /\
    compute_device_id pub = id /\ fromhex (str_bytes signature) = Some sig_bytes /\
    ed_verify pub sig_bytes transcript = true.

Lemma signature_ok_proves `{Ed25519, Sha256} id pk signature transcript pub pub' :
  fromhex (str_bytes pk) = Some pub -> compute_device_id pub = id ->
  public_key_from_bytes pub = Some pub' -> signature_ok pub' signature transcript = true ->
  proves id pk signature transcript.
Proof.
  intros Hf Hid Hp Hs. unfold public_key_from_bytes in Hp. case_decide; [|done].
  injection Hp as <-. unfold signature_ok in Hs.
  destruct (fromhex (str_bytes signature)) as [sg|] eqn:Es; [|done]. by exists pub, sg.
Qed.

(** Decompose a sequence of steps that returned a value. *)
Ltac inv_ok H :=
  cbv beta zeta in H;
  lazymatch type of H with
  | (?m ≫= ?f) ?s = (_, Ok _) =>
      let s1 := fresh "s" in let a := fresh "a" in let H1 := fresh "Hrun" in
      apply bind_Ok in H as (s1 & a & H1 & H)
  end.

(** C1: the initiator authenticates its peer.  Whatever message arrives as the
    response, if the initiator's handshake succeeds then the peer's device id is the
    hash of its 32-byte public key, that key verifies the response's signature over
    the transcript of this very handshake, the response's nonce was not in the
    cache, and a trust store did not hold the peer as revoked or under another
    key. *)
Theorem initiator_authenticates `{Ed25519, Sha256, X25519, CanonicalJson}
    policy now me eph init_msg i s s' res :
  initiator_finish policy now me eph init_msg i s = (s', Ok res) ->
  exists resp_msg dec, i = Frame (JObj resp_msg) /\
    peer_device_id res = str_field "device_id" resp_msg /\
    peer_public_key res = str_field "public_key" resp_msg /\
    proves (peer_device_id res) (peer_public_key res) (str_field "signature" resp_msg)
      (compute_responder_transcript init_msg resp_msg) /\
    _seen (NonceCache.clean now (nonces s)) !! str_field "nonce" resp_msg = None /\
    acceptable dec = true /\
    decides (trust_store s) (peer_device_id res) (peer_public_key res) dec.
Proof.
  unfold initiator_finish. intros Hr. inv_ok Hr.
  apply expect_Ok in Hrun as (-> & -> & _ & _). inv_ok Hr.
  apply check_nonce_Ok in Hrun as [Hst Hn]. destruct a0; [|done]. cbn [negb] in Hr. inv_ok Hr. apply verify_identity_Ok in Hrun as (-> & Hpub & Hid). inv_ok Hr.
  destruct (check_trust_step (str_field "device_id" a) (str_field "public_key" a) s0)
    as (s2 & _ & _ & _ & Hc). rewrite Hrun in Hc. destruct Hc as (_ & Hc & _).
  destruct (Hc _ eq_refl) as [Ha Hdec]. rewrite Hst in Hdec.
  destruct (public_key_from_bytes a0) as [pub|] eqn:Ep; [|done].
  destruct (signature_ok pub _ _) eqn:Esig; [|done]. cbn [negb] in Hr.
  inv_ok Hr. inv_ok Hr.
  destruct (ephemeral_public_from_hex _) as [ep|]; [|done].
  destruct (compute_shared_secret eph ep) as [sec|]; [|done].
  injection Hr as _ <-. exists a, a1. simpl.
  split; [done|]. split; [done|]. split; [done|].
  split; [by eapply signature_ok_proves|]. split; [by apply Hn|done].
Qed.


(** ** No record before the proof *)

(** The device table of the store, if there is one. *)
Definition known_devices (s : hs) : option (gmap string TrustedDevice) :=
  devices <$> trust_store s.

Definition same_known (s s' : hs) : Prop := known_devices s' = known_devices s.

#[export] Instance same_known_preorder : PreOrder same_known.
Proof.
  split; [by intros s|]. intros a b c Hab Hbc. unfold same_known in *. by rewrite Hbc.
Qed.

Lemma expect_known t i s : same_known s (fst (expect t i s)).
Proof. unfold expect. by repeat case_match. Qed.

Lemma check_nonce_known now n s : same_known s (fst (check_nonce now n s)).
Proof. unfold check_nonce. by destruct (check_and_add _ _ _). Qed.

Lemma verify_identity_known `{Sha256} id pk s :
  same_known s (fst (_verify_device_identity id pk s)).
Proof. unfold _verify_device_identity. by repeat case_match. Qed.

Lemma check_trust_known id pk s : same_known s (fst (_check_trust id pk s)).
Proof.
  destruct (check_trust_step id pk s) as (s' & Hs & _ & _ & Hc).
  destruct (_check_trust id pk s) as [s1 r]. destruct Hc as [-> _].
  unfold same_known, known_devices, same_store in *. cbn [fst].
  revert Hs. destruct (trust_store s), (trust_store s'); try done.
  unfold same_tables. intros (_ & Hd & _). simpl. congruence.
Qed.

(** Take one step of a side, with its effect on the device table. *)
Ltac known_step lem :=
  apply (bind_at same_known); [apply lem|intros ? ? ?]; cbv beta zeta.

Lemma responder_start_known `{Ed25519, Sha256, X25519, CanonicalJson} now me name eph nonce i s :
  same_known s (fst (responder_start now me name eph nonce i s)).
Proof.
  unfold responder_start. known_step expect_known. known_step check_nonce_known.
  destruct (negb _); [done|]. known_step verify_identity_known. known_step check_trust_known.
  done.
Qed.

Lemma initiator_finish_known `{Ed25519, Sha256, X25519, CanonicalJson}
    policy now me eph init_msg i s :
  (forall d pub, i = Frame (JObj d) ->
     fromhex (str_bytes (str_field "public_key" d)) = Some pub ->
     signature_ok pub (str_field "signature" d) (compute_responder_transcript init_msg d) = false) ->
  same_known s (fst (initiator_finish policy now me eph init_msg i s)).
Proof.
  intros Hbad. unfold initiator_finish. known_step expect_known.
  apply expect_Ok in H3 as (-> & Hi & _). known_step check_nonce_known.
  destruct (negb _); [done|]. known_step verify_identity_known.
  apply verify_identity_Ok in H4 as (-> & Hp & _). known_step check_trust_known.
  unfold public_key_from_bytes. case_decide; [|done]. by rewrite (Hbad _ _ Hi Hp).
Qed.

(** Nothing is recorded before the peer proves its key.  The responder's
    first half never changes the device table; and when the message that completes a
    handshake carries no valid signature of the claimed key, neither side's last
    half changes the device table. *)
Theorem no_record_before_proof `{Ed25519, Sha256, X25519, CanonicalJson}
    policy now me name eph nonce init_msg rs i s :
  (forall d pub, i = Frame (JObj d) ->
     fromhex (str_bytes (str_field "public_key" d)) = Some pub ->
     signature_ok pub (str_field "signature" d) (compute_responder_transcript init_msg d) = false) ->
  (forall d, i = Frame (JObj d) ->
     signature_ok (rs_peer_pub_bytes rs) (str_field "signature" d)
       (compute_initiator_transcript (rs_resp_transcript rs) (rs_signature rs)) = false) ->
  same_known s (fst (responder_start now me name eph nonce i s)) /\
  same_known s (fst (initiator_finish policy now me eph init_msg i s)) /\
  same_known s (fst (responder_finish policy now eph rs i s)).
Proof.
  intros Hi Hr. split; [apply responder_start_known|]. split; [by apply initiator_finish_known|].
  unfold responder_finish. known_step expect_known. apply expect_Ok in H3 as (-> & Hf & _).
  unfold public_key_from_bytes. case_decide; [|done]. by rewrite (Hr _ Hf).
Qed.

(** ** Replayed nonces *)

(** A sequence of lookups, each at its time; the verdicts. *)
Fixpoint checks (c : cache) (calls : list (spec_float * string)) : cache * list bool :=
  match calls with
  | [] => (c, [])
  | (now, n) :: rest =>
      let '(c1, b) := check_and_add now n c in
      let '(c2, bs) := checks c1 rest in (c2, b :: bs)
  end.

Lemma check_and_add_keeps now n c t n' :
  _seen c !! n' = Some t -> expired c now t = false ->
  let c' := fst (check_and_add now n c) in
  _ttl c' = _ttl c /\ _seen c' !! n' = Some t.
Proof.
  intros Hs He. assert (_seen (NonceCache.clean now c) !! n' = Some t) as Hc.
  { unfold NonceCache.clean. simpl. by apply map_lookup_filter_Some. }
  unfold check_and_add. destruct (_seen (NonceCache.clean now c) !! n) eqn:E; simpl.
  - done.
  - split; [done|]. rewrite lookup_insert_ne; [done|]. intros ->. by rewrite Hc in E.
Qed.

Lemma checks_keep calls c t n :
  _seen c !! n = Some t -> Forall (fun call => expired c call.1 t = false) calls ->
  _ttl (fst (checks c calls)) = _ttl c /\ _seen (fst (checks c calls)) !! n = Some t.
Proof.
  revert c. induction calls as [|[now n'] calls IH]; intros c Hs Hf; [done|].
  apply Forall_cons in Hf as [He Hf]. simpl in He. cbn [checks].
  destruct (check_and_add_keeps now n' c t n Hs He) as [Ht Hs'].
  destruct (check_and_add now n' c) as [c1 b]. simpl in Ht, Hs'.
  destruct (IH c1 Hs') as [Ht1 Hs1].
  { eapply Forall_impl; [exact Hf|]. intros [x y]. unfold expired. simpl. by rewrite Ht. }
  destruct (checks c1 calls) as [c2 bs]. simpl in *. split; [by rewrite Ht1|done].
Qed.

(** A nonce is accepted once.  After a nonce was accepted at time [t],
    whatever other nonces are looked up since then, it is refused at every later
    lookup for which it has not expired. *)
Theorem nonce_not_reused c t n calls now :
  snd (check_and_add t n c) = true ->
  Forall (fun call => expired c call.1 t = false) calls -> expired c now t = false ->
  snd (check_and_add now n (fst (checks (fst (check_and_add t n c)) calls))) = false.
Proof.
  intros Ha Hf He. unfold check_and_add in Ha |- * at 2.
  destruct (_seen (NonceCache.clean t c) !! n) eqn:E; [done|]. cbn [fst].
  set (c1 := {| _ttl := _; _seen := _ |}).
  destruct (checks_keep calls c1 t n) as [Ht Hs].
  - apply lookup_insert_eq.
  - done.
  - set (c2 := fst (checks c1 calls)) in *. unfold check_and_add.
    assert (_seen (NonceCache.clean now c2) !! n = Some t) as ->; [|done].
    unfold NonceCache.clean. simpl. apply map_lookup_filter_Some. split; [done|].
    simpl. unfold expired in *. by rewrite Ht.
Qed.

(** ** Two honest sides *)

Section Agreement.
Context `{Ed25519Laws, Sha256Laws, X25519Laws, CanonicalJson, HkdfLaws}.

Record party := mk_party {
  p_key : ed_private;
  p_name : string;
  p_ephemeral : x_private;
  p_nonce : string;
  p_policy : option (string -> bool)
}.

Definition p_identity (p : party) : DeviceKeypair := _keypair_from_private_key (p_key p).
Definition p_id (p : party) : string := device_id (p_identity p).
Definition p_pk (p : party) : string := my_pub_hex (p_identity p).

Definition deliver_last (s : hs) : incoming :=
  match last (written s) with Some m => Frame (JObj m) | None => TimedOut end.

(** The four halves over a network that delivers what the other side wrote last,
    each half at its own time. *)
Definition run_handshake (t1 t2 t3 t4 : spec_float) (a b : party) (sa sb : hs)
    : result hs_error (HandshakeResult * HandshakeResult) :=
  let '(sa1, r1) := initiator_start t1 (p_identity a) (p_name a) (p_ephemeral a) (p_nonce a) sa in
  let '(sb1, r2) := responder_start t2 (p_identity b) (p_name b) (p_ephemeral b) (p_nonce b)
                      (deliver_last sa1) sb in
  let? init_msg := r1 in let? rs := r2 in
  let '(sa2, r3) := initiator_finish (p_policy a) t3 (p_identity a) (p_ephemeral a) init_msg
                      (deliver_last sb1) sa1 in
  let '(sb2, r4) := responder_finish (p_policy b) t4 (p_ephemeral b) rs (deliver_last sa2) sb1 in
  let? resa := r3 in let? resb := r4 in Ok (resa, resb).

(** [s] will accept the identity and nonce of [p] at time [now]. *)
Definition welcomes (pol : option (string -> bool)) (now : spec_float) (s : hs) (p : party) : Prop :=
  p_nonce p <> ""%string /\
  _seen (NonceCache.clean now (nonces s)) !! p_nonce p = None /\
  (exists dec, acceptable dec = true /\ decides (trust_store s) (p_id p) (p_pk p) dec) /\
  match pol with Some denies => denies (p_id p) | None => false end = false.

(** Each check succeeds on an honest message. *)
Lemma check_nonce_fresh now n s :
  _seen (NonceCache.clean now (nonces s)) !! n = None ->
  exists s', check_nonce now n s = (s', Ok true) /\ trust_store s' = trust_store s /\
    written s' = written s.
Proof.
  intros Hn. unfold check_nonce, check_and_add. rewrite Hn. by eexists.
Qed.

Lemma verify_identity_honest p s :
  _verify_device_identity (p_id p) (p_pk p) s = (s, Ok (ed_public (p_key p))).
Proof.
  unfold _verify_device_identity, p_pk, my_pub_hex, public_key_bytes. cbn [p_identity private_key _keypair_from_private_key].
  rewrite str_hex, fromhex_hex_text. by rewrite decide_True.
Qed.

Lemma check_trust_accepts id pk s dec :
  decides (trust_store s) id pk dec -> acceptable dec = true ->
  exists s', _check_trust id pk s = (s', Ok dec) /\ decides (trust_store s') id pk dec /\
    written s' = written s.
Proof.
  intros Hd Ha. destruct (check_trust_step id pk s) as (s' & Hs & Hw & _ & Hc).
  destruct (_check_trust id pk s) as [s1 r]. destruct Hc as (-> & _ & Hc).
  exists s'. rewrite (Hc _ Hd). split; [by destruct dec|]. split; [by eapply decides_same|done].
Qed.

Lemma public_key_honest p : public_key_from_bytes (ed_public (p_key p)) = Some (ed_public (p_key p)).
Proof. unfold public_key_from_bytes. by rewrite decide_True by apply ed_public_length. Qed.

Lemma ephemeral_honest p :
  ephemeral_public_from_hex (public_key_hex (p_ephemeral p)) = Some (x_public (p_ephemeral p)).
Proof.
  unfold ephemeral_public_from_hex, public_key_hex. rewrite str_hex, fromhex_hex_text. simpl.
  unfold ephemeral_public_from_bytes. by rewrite decide_True by apply x_public_length.
Qed.

Definition init_of (now : spec_float) (p : party) : dict :=
  make_handshake_init now (p_id p) (p_pk p) (public_key_hex (p_ephemeral p)) (p_nonce p) (p_name p).

Definition resp_of (now : spec_float) (p : party) (signature : string) : dict :=
  make_handshake_response now (p_id p) (p_pk p) (public_key_hex (p_ephemeral p)) (p_nonce p)
    (p_name p) signature.

(** The transcripts of a run between [a] and [b]. *)
Definition transcript_of (t1 t2 : spec_float) (a b : party) : bytes :=
  compute_responder_transcript (init_of t1 a) (resp_of t2 b "").

Definition resp_sig (t1 t2 : spec_float) (a b : party) : string :=
  sign_hex (p_identity b) (transcript_of t1 t2 a b).

Definition init_transcript_of (t1 t2 : spec_float) (a b : party) : bytes :=
  compute_initiator_transcript (transcript_of t1 t2 a b) (resp_sig t1 t2 a b).

Lemma honest_nonempty p :
  nonempty_str (JStr (p_id p)) = true /\ nonempty_str (JStr (p_pk p)) = true /\
  nonempty_str (JStr (public_key_hex (p_ephemeral p))) = true.
Proof.
  split; [|split]; apply hex_nonempty.
  - rewrite sha256_length. lia.
  - unfold public_key_bytes. rewrite ed_public_length. lia.
  - rewrite x_public_length. lia.
Qed.

Lemma sign_nonempty p m : nonempty_str (JStr (sign_hex (p_identity p) m)) = true.
Proof. apply hex_nonempty. unfold sign. rewrite ed_sign_length. lia. Qed.

Lemma nonce_nonempty n : n <> ""%string -> nonempty_str (JStr n) = true.
Proof. intros Hn. unfold nonempty_str. by apply negb_true_iff, bool_decide_eq_false. Qed.

Lemma responder_start_honest t1 t2 a b pol sb :
  welcomes pol t2 sb a ->
  exists sb1 dec,
    responder_start t2 (p_identity b) (p_name b) (p_ephemeral b) (p_nonce b)
      (Frame (JObj (init_of t1 a))) sb
    = (sb1, Ok {| rs_init_msg := init_of t1 a; rs_peer_pub_bytes := ed_public (p_key a);
                  rs_pre_decision := dec; rs_resp_transcript := transcript_of t1 t2 a b;
                  rs_signature := resp_sig t1 t2 a b |}) /\
    written sb1 = written sb ++ [resp_of t2 b (resp_sig t1 t2 a b)] /\
    decides (trust_store sb1) (p_id a) (p_pk a) dec /\ acceptable dec = true.
Proof.
  intros (Hne & Hn & (dec & Ha & Hd) & Hp). unfold responder_start.
  destruct (honest_nonempty a) as (N1 & N2 & N3).
  erewrite bind_run; [|apply expect_run; [by apply handshake_init_validates, nonce_nonempty|done]].
  destruct (check_nonce_fresh t2 (p_nonce a) sb Hn) as (s1 & E1 & T1 & W1).
  erewrite bind_run; [|exact E1]. cbn [negb].
  erewrite bind_run; [|apply verify_identity_honest].
  rewrite <- T1 in Hd. destruct (check_trust_accepts _ _ _ _ Hd Ha) as (s2 & E2 & D2 & W2).
  erewrite bind_run; [|exact E2]. cbv zeta.
  eexists _, dec. split; [reflexivity|]. cbn [written trust_store]. by rewrite W2, W1.
Qed.

Lemma initiator_finish_honest t1 t2 t3 a b sa secret :
  welcomes (p_policy a) t3 sa b ->
  x_exchange (p_ephemeral a) (x_public (p_ephemeral b)) = Some secret ->
  exists sa2 dec,
    initiator_finish (p_policy a) t3 (p_identity a) (p_ephemeral a) (init_of t1 a)
      (Frame (JObj (resp_of t2 b (resp_sig t1 t2 a b)))) sa
    = (sa2, Ok {| peer_device_id := p_id b; peer_public_key := p_pk b; peer_name := p_name b;
                  shared_secret := secret;
                  transcript_hash := compute_final_transcript_hash (init_transcript_of t1 t2 a b)
                    (sign_hex (p_identity a) (init_transcript_of t1 t2 a b));
                  trust_decision := dec |}) /\
    written sa2 = written sa ++
      [make_handshake_finish t3 (sign_hex (p_identity a) (init_transcript_of t1 t2 a b))].
Proof.
  intros (Hne & Hn & (dec & Ha & Hd) & Hp) Hx. unfold initiator_finish.
  destruct (honest_nonempty b) as (N1 & N2 & N3).
  erewrite bind_run; [|apply expect_run;
    [by apply handshake_response_validates; [..|apply nonce_nonempty|apply sign_nonempty]|done]].
  destruct (check_nonce_fresh t3 (p_nonce b) sa Hn) as (s1 & E1 & T1 & W1).
  erewrite bind_run; [|exact E1]. cbn [negb].
  erewrite bind_run; [|apply verify_identity_honest].
  rewrite <- T1 in Hd. destruct (check_trust_accepts _ _ _ _ Hd Ha) as (s2 & E2 & D2 & W2).
  erewrite bind_run; [|exact E2]. cbv zeta. rewrite public_key_honest.
  assert (signature_ok (ed_public (p_key b)) (resp_sig t1 t2 a b)
            (transcript_of t1 t2 a b) = true) as Hsig by apply signature_ok_sign.
  change (signature_ok _ _ _) with (signature_ok (ed_public (p_key b)) (resp_sig t1 t2 a b)
            (transcript_of t1 t2 a b)). rewrite Hsig. cbn [negb].
  destruct (record_trust_run (p_policy a) t3 (p_id b) (p_pk b) (p_name b) dec s2 D2 Ha Hp)
    as (s3 & dec' & E3 & W3 & _).
  erewrite bind_run; [|exact E3]. erewrite bind_run; [|reflexivity].
  change (ephemeral_public_from_hex _)
    with (ephemeral_public_from_hex (public_key_hex (p_ephemeral b))).
  rewrite ephemeral_honest. unfold compute_shared_secret. rewrite Hx.
  eexists _, dec'. split; [reflexivity|]. cbn [written]. by rewrite W3, W2, W1.
Qed.

Lemma finish_signature_ok t1 t2 t3 a b :
  signature_ok (ed_public (p_key a))
    (str_field "signature"
       (make_handshake_finish t3 (sign_hex (p_identity a) (init_transcript_of t1 t2 a b))))
    (compute_initiator_transcript (transcript_of t1 t2 a b) (resp_sig t1 t2 a b)) = true.
Proof. apply signature_ok_sign. Qed.

Lemma responder_finish_honest t1 t2 t3 t4 a b sb dec secret :
  match p_policy b with Some denies => denies (p_id a) | None => false end = false ->
  decides (trust_store sb) (p_id a) (p_pk a) dec -> acceptable dec = true ->
  x_exchange (p_ephemeral b) (x_public (p_ephemeral a)) = Some secret ->
  exists sb2 dec',
    responder_finish (p_policy b) t4 (p_ephemeral b)
      {| rs_init_msg := init_of t1 a; rs_peer_pub_bytes := ed_public (p_key a);
         rs_pre_decision := dec; rs_resp_transcript := transcript_of t1 t2 a b;
         rs_signature := resp_sig t1 t2 a b |}
      (Frame (JObj (make_handshake_finish t3
                      (sign_hex (p_identity a) (init_transcript_of t1 t2 a b))))) sb
    = (sb2, Ok {| peer_device_id := p_id a; peer_public_key := p_pk a; peer_name := p_name a;
                  shared_secret := secret;
                  transcript_hash := compute_final_transcript_hash (init_transcript_of t1 t2 a b)
                    (sign_hex (p_identity a) (init_transcript_of t1 t2 a b));
                  trust_decision := dec' |}).
Proof.
  intros Hp Hd Ha Hx. unfold responder_finish.
  erewrite bind_run; [|apply expect_run;
    [by apply handshake_finish_validates, sign_nonempty|done]].
  cbv zeta. cbn [rs_init_msg rs_peer_pub_bytes rs_pre_decision rs_resp_transcript rs_signature].
  rewrite public_key_honest, finish_signature_ok. cbn [negb].
  destruct (record_trust_run (p_policy b) t4 (p_id a) (p_pk a) (p_name a) dec sb Hd Ha Hp)
    as (s3 & dec' & E3 & _ & _).
  erewrite bind_run; [|exact E3].
  change (ephemeral_public_from_hex _)
    with (ephemeral_public_from_hex (public_key_hex (p_ephemeral a))).
  rewrite ephemeral_honest. unfold compute_shared_secret. rewrite Hx. by eexists _, dec'.
Qed.

(** C3: two honest devices that accept each other complete the handshake, and
    they agree: each obtains the other's device id, public key and name, both obtain
    the same transcript hash and the same shared secret, and the session keys they
    derive are paired (each sends under the key the other receives with). *)
Theorem handshake_agreement t1 t2 t3 t4 a b sa sb secret :
  welcomes (p_policy b) t2 sb a -> welcomes (p_policy a) t3 sa b ->
  x_exchange (p_ephemeral a) (x_public (p_ephemeral b)) = Some secret ->
  exists ra rb ka kb, run_handshake t1 t2 t3 t4 a b sa sb = Ok (ra, rb) /\
    (peer_device_id ra = p_id b /\ peer_public_key ra = p_pk b /\ peer_name ra = p_name b) /\
    (peer_device_id rb = p_id a /\ peer_public_key rb = p_pk a /\ peer_name rb = p_name a) /\
    transcript_hash ra = transcript_hash rb /\
    shared_secret ra = secret /\ shared_secret rb = secret /\
    Kdf.derive_session_keys (shared_secret ra) (transcript_hash ra) true = Ok ka /\
    Kdf.derive_session_keys (shared_secret rb) (transcript_hash rb) false = Ok kb /\
    Kdf.paired ka kb /\ Kdf.keys_ok ka /\ Kdf.keys_ok kb.
Proof.
  intros Hb Ha Hx.
  destruct (responder_start_honest t1 t2 a b (p_policy b) sb Hb) as (sb1 & db & Eb & Wb & Db & Ab).
  set (sa1 := {| nonces := nonces sa; trust_store := trust_store sa; hs_events := hs_events sa;
                 written := written sa ++ [init_of t1 a] |}).
  destruct (initiator_finish_honest t1 t2 t3 a b sa1 secret) as (sa2 & da & Ea & Wa); [done..|].
  pose proof Hx as Hx'. rewrite x_exchange_comm in Hx'. destruct Hb as (_ & _ & _ & Hpb).
  destruct (responder_finish_honest t1 t2 t3 t4 a b sb1 db secret Hpb Db Ab Hx') as (sb2 & db' & Ef).
  destruct (Kdf.derive_session_keys_total secret
    (compute_final_transcript_hash (init_transcript_of t1 t2 a b)
       (sign_hex (p_identity a) (init_transcript_of t1 t2 a b))) true) as (ka & Ka & Oa);
    [by eapply x_exchange_length|apply sha256_length|].
  destruct (Kdf.derive_session_keys_total secret
    (compute_final_transcript_hash (init_transcript_of t1 t2 a b)
       (sign_hex (p_identity a) (init_transcript_of t1 t2 a b))) false) as (kb & Kb & Ob);
    [by eapply x_exchange_length|apply sha256_length|].
  pose proof (Kdf.derive_session_keys_paired _ _ _ _ _ Ka Kb) as Hpair.
  eexists _, _, ka, kb. split.
  - unfold run_handshake.
    change (initiator_start _ _ _ _ _ sa) with (sa1, @Ok hs_error _ (init_of t1 a)).
    cbv beta iota. unfold deliver_last at 1. cbn [written sa1]. rewrite last_snoc, Eb.
    cbn [rbind]. unfold deliver_last at 1. rewrite Wb, last_snoc, Ea.
    unfold deliver_last. rewrite Wa, last_snoc, Ef. reflexivity.
  - do 5 (split; [done|]). exact (conj Ka (conj Kb (conj Hpair (conj Oa Ob)))).
Qed.

(** *** After a key rotation *)

Lemma length_b64_32 bs : length bs = 32%nat -> length (b64encode bs) = 44%nat.
Proof.
  intros Hl. do 32 (destruct bs as [|? bs]; [discriminate Hl|]).
  destruct bs; [reflexivity|discriminate Hl].
Qed.

(** The base64 and the hexadecimal form of a key are never the same text. *)
Lemma b64_not_hex p : b64_text (ed_public (p_key p)) <> p_pk p.
Proof.
  intros E. apply (f_equal (fun t => length (str_bytes t))) in E.
  unfold b64_text, p_pk, my_pub_hex, public_key_bytes in E.
  cbn [p_identity private_key _keypair_from_private_key] in E.
  rewrite !String.list_byte_of_string_of_list_byte, length_hex_text, length_b64_32,
    ed_public_length in E by apply ed_public_length.
  lia.
Qed.

Lemma record_rotation_connected now cert d :
  connected (fst (record_rotation now cert d)) = connected d.
Proof. run_db; congruence. Qed.

(** A rotated device is locked out.  The rotation is recorded and carries
    TRUSTED to the new device id, but under the base64 form of its key, while the
    handshake looks up the hexadecimal form: the honest first message of the new
    device is answered with [KeyChangedError]. *)
Theorem rotated_device_locked_out t1 t2 a b old_sk ts now d old cert sb :
  create_transition_certificate (_keypair_from_private_key old_sk) (p_identity a) ts = Some cert ->
  is_nan ts = false -> connected d = true ->
  devices d !! device_id (_keypair_from_private_key old_sk) = Some old -> status old = TRUSTED ->
  devices d !! p_id a = None ->
  p_nonce a <> ""%string -> _seen (NonceCache.clean t2 (nonces sb)) !! p_nonce a = None ->
  trust_store sb = Some (fst (record_rotation now cert d)) ->
  snd (record_rotation now cert d) = Ok () /\
  snd (responder_start t2 (p_identity b) (p_name b) (p_ephemeral b) (p_nonce b)
         (Frame (JObj (init_of t1 a))) sb) = Err KeyChangedError.
Proof.
  intros Hcert Hnan Hc Hold Hst Hnew Hne Hn Hsb.
  unfold create_transition_certificate in Hcert. case_decide; [done|].
  apply (inj Some) in Hcert. subst cert. set (cert := mk_cert _ _ _ _ _ _) in *.
  destruct (record_rotation_trusts now cert d old) as [Hok Hdir]; try done; [apply verify_signed|].
  split; [done|]. change (new_device_id cert) with (p_id a) in Hdir.
  assert (decides (trust_store sb) (p_id a) (p_pk a) D_KEY_CHANGED) as Hdec.
  { rewrite Hsb. split; [by rewrite record_rotation_connected|]. unfold direct_decision in *.
    revert Hdir. destruct (devices (fst _) !! p_id a) as [dev|]; [|done].
    case_bool_decide as Hk; [intros _|done]. rewrite bool_decide_false; [done|].
    rewrite Hk. apply b64_not_hex. }
  unfold responder_start. destruct (honest_nonempty a) as (N1 & N2 & N3).
  erewrite bind_run; [|apply expect_run; [by apply handshake_init_validates, nonce_nonempty|done]].
  destruct (check_nonce_fresh t2 (p_nonce a) sb Hn) as (s1 & E1 & T1 & W1).
  erewrite bind_run; [|exact E1]. cbn [negb].
  erewrite bind_run; [|apply verify_identity_honest]. rewrite <- T1 in Hdec.
  destruct (check_trust_step (p_id a) (p_pk a) s1) as (s2 & _ & _ & _ & Hct).
  unfold mbind, stm_bind at 1.
  change (_check_trust _ _ s1) with (_check_trust (p_id a) (p_pk a) s1).
  destruct (_check_trust (p_id a) (p_pk a) s1) as [s3 r]. destruct Hct as (_ & _ & Hct).
  by rewrite (Hct _ Hdec).
Qed.

(** *** Revocation while a handshake is in flight *)

Definition with_store (d : db) (s : hs) : hs :=
  {| nonces := nonces s; trust_store := Some d; hs_events := hs_events s; written := written s |}.

Lemma verify_identity_store id pk s :
  same_store (trust_store s) (trust_store (fst (_verify_device_identity id pk s))).
Proof. unfold _verify_device_identity. by repeat case_match. Qed.

(** The responder's first half leaves the tables of the store as they are. *)
Lemma responder_start_store now me n eph nonce i s :
  same_store (trust_store s) (trust_store (fst (responder_start now me n eph nonce i s))).
Proof.
  set (R := fun s s' : hs => same_store (trust_store s) (trust_store s')).
  assert (PreOrder R) as HR.
  { split; [by intros x; unfold R|]. intros x y z. unfold R. apply transitivity. }
  change (R s (fst (responder_start now me n eph nonce i s))). unfold responder_start.
  apply (bind_at R); [unfold R, expect; by repeat case_match|intros s1 m _].
  apply (bind_at R); [unfold R, check_nonce; by destruct (check_and_add _ _ _)|intros s2 fr _].
  destruct (negb fr); [unfold R; reflexivity|].
  apply (bind_at R); [apply verify_identity_store|intros s3 pb _].
  apply (bind_at R); [|intros s4 dec _; unfold R; reflexivity].
  destruct (check_trust_step (str_field "device_id" m) (str_field "public_key" m) s3)
    as (s5 & Hs & _ & _ & Hc).
  destruct (_check_trust _ _ s3) as [s6 r]. by destruct Hc as [-> _].
Qed.

Lemma revoke_trusted now id pk by_id reason d :
  connected d = true -> direct_decision (devices d) id pk = D_TRUSTED ->
  exists d', revoke_device now id by_id reason d = (d', Ok ()) /\ connected d' = true /\
    exists dev, devices d' !! id = Some dev /\ status dev = REVOKED.
Proof.
  intros Hc Hd. unfold direct_decision in Hd.
  destruct (devices d !! id) as [dev|] eqn:El; [|done]. case_bool_decide; [|done].
  assert (status dev = TRUSTED) as Hs by (by destruct (status dev)).
  eexists. split.
  - unfold revoke_device, _set_revoked, get_device, update_device, _require_conn, raise_if, gets,
      modify, mbind, stm_bind. rewrite Hc, El, Hs. rewrite bool_decide_false by done.
    cbv beta iota. rewrite Hc. cbv beta iota. rewrite El, Hc. reflexivity.
  - cbn. split; [done|]. rewrite lookup_alter_eq, El. cbn. by eexists.
Qed.

(** With the decision TRUSTED already taken, the second half only touches the
    device's time of last contact. *)
Lemma responder_finish_touch t1 t2 t3 t4 a b sb d dev secret :
  trust_store sb = Some d -> connected d = true -> devices d !! p_id a = Some dev ->
  x_exchange (p_ephemeral b) (x_public (p_ephemeral a)) = Some secret ->
  exists sb2 d' dev',
    responder_finish (p_policy b) t4 (p_ephemeral b)
      {| rs_init_msg := init_of t1 a; rs_peer_pub_bytes := ed_public (p_key a);
         rs_pre_decision := D_TRUSTED; rs_resp_transcript := transcript_of t1 t2 a b;
         rs_signature := resp_sig t1 t2 a b |}
      (Frame (JObj (make_handshake_finish t3
                      (sign_hex (p_identity a) (init_transcript_of t1 t2 a b))))) sb
    = (sb2, Ok {| peer_device_id := p_id a; peer_public_key := p_pk a; peer_name := p_name a;
                  shared_secret := secret;
                  transcript_hash := compute_final_transcript_hash (init_transcript_of t1 t2 a b)
                    (sign_hex (p_identity a) (init_transcript_of t1 t2 a b));
                  trust_decision := D_TRUSTED |}) /\
    trust_store sb2 = Some d' /\ devices d' !! p_id a = Some dev' /\ status dev' = status dev.
Proof.
  intros Hsb Hc Hl Hx. unfold responder_finish.
  erewrite bind_run; [|apply expect_run;
    [by apply handshake_finish_validates, sign_nonempty|done]].
  cbv zeta. cbn [rs_init_msg rs_peer_pub_bytes rs_pre_decision rs_resp_transcript rs_signature].
  rewrite public_key_honest, finish_signature_ok. cbn [negb].
  erewrite bind_run.
  2: { unfold _record_trust, gets, mbind, stm_bind, on_store. rewrite Hsb. cbv beta iota.
       rewrite Hsb. unfold touch_last_seen, update_device, _require_conn, modify, mbind, stm_bind.
       rewrite Hc. reflexivity. }
  change (ephemeral_public_from_hex _)
    with (ephemeral_public_from_hex (public_key_hex (p_ephemeral a))).
  rewrite ephemeral_honest. unfold compute_shared_secret. rewrite Hx.
  eexists _, _, _. split; [reflexivity|]. split; [reflexivity|].
  change (str_field "device_id" (init_of t1 a)) with (p_id a). cbn [devices set_devices].
  rewrite lookup_alter_eq, Hl. by split.
Qed.

(** A revocation that lands between the responder's two halves does not
    stop the session.  A TRUSTED device starts a handshake, its revocation succeeds
    while the responder waits for the final message, and the handshake still
    completes with the decision TRUSTED although the store holds the device as
    REVOKED. *)
Theorem revoked_in_flight_completes t1 t2 t3 t4 a b sb d now by_id reason secret :
  welcomes (p_policy b) t2 sb a -> trust_store sb = Some d ->
  direct_decision (devices d) (p_id a) (p_pk a) = D_TRUSTED ->
  x_exchange (p_ephemeral b) (x_public (p_ephemeral a)) = Some secret ->
  exists sb1 rs d1 d2 sb2 res d3 dev,
    responder_start t2 (p_identity b) (p_name b) (p_ephemeral b) (p_nonce b)
      (Frame (JObj (init_of t1 a))) sb = (sb1, Ok rs) /\
    trust_store sb1 = Some d1 /\ revoke_device now (p_id a) by_id reason d1 = (d2, Ok ()) /\
    responder_finish (p_policy b) t4 (p_ephemeral b) rs
      (Frame (JObj (make_handshake_finish t3
                      (sign_hex (p_identity a) (init_transcript_of t1 t2 a b)))))
      (with_store d2 sb1) = (sb2, Ok res) /\
    trust_decision res = D_TRUSTED /\
    trust_store sb2 = Some d3 /\ devices d3 !! p_id a = Some dev /\ status dev = REVOKED.
Proof.
  intros Hw Hsb Hd Hx. pose proof Hw as (_ & _ & (dec0 & Ha0 & Hdec0) & Hp).
  destruct (responder_start_honest t1 t2 a b (p_policy b) sb Hw) as (sb1 & dec & Eb & _ & Db & Ab).
  pose proof (responder_start_store t2 (p_identity b) (p_name b) (p_ephemeral b) (p_nonce b)
    (Frame (JObj (init_of t1 a))) sb) as Hst. rewrite Eb, Hsb in Hst. cbn [fst] in Hst.
  destruct (trust_store sb1) as [d1|] eqn:E1; [|done].
  assert (dec = D_TRUSTED) as ->.
  { destruct Db as [_ <-]. destruct Hst as (_ & -> & _). done. }
  destruct Db as [Hc1 Hd1].
  destruct (revoke_trusted now (p_id a) (p_pk a) by_id reason d1 Hc1 Hd1)
    as (d2 & Hrev & Hc2 & dev2 & Hl2 & Hs2).
  destruct (responder_finish_touch t1 t2 t3 t4 a b (with_store d2 sb1) d2 dev2 secret)
    as (sb2 & d3 & dev & Hf & Ht3 & Hl3 & Hs3); [done..|].
  exists sb1. eexists _, d1, d2, sb2, _, d3, dev. split; [exact Eb|].
  split; [done|]. split; [exact Hrev|]. split; [exact Hf|]. split; [done|].
  split; [done|]. split; [done|]. by rewrite Hs3.
Qed.

End Agreement.

(** ** Evaluations *)

(** A canonical form that satisfies the laws: the bit text of [Json]. *)
#[local] Instance bit_canonical : CanonicalJson :=
  {| _canonical_json_bytes d := @json_dumps BitText.text (JObj d) |}.

Lemma bits_no_newline p : ~ In Byte.x0a (BitText.bits p).
Proof. induction p; simpl; [intros [?|?]..|]; [done|tauto|done|tauto|tauto]. Qed.

Lemma zip_str_inj (ks vs1 vs2 : list string) :
  length vs1 = length ks -> length vs2 = length ks ->
  zip ks (map JStr vs1) = zip ks (map JStr vs2) -> vs1 = vs2.
Proof.
  revert vs1 vs2. induction ks as [|k ks IH]; intros [|v1 vs1] [|v2 vs2] H1 H2 E; try done.
  simpl in E. injection E as -> E. f_equal. apply IH; [by injection H1|by injection H2|done].
Qed.

#[local] Instance bit_canonical_laws : CanonicalJsonLaws.
Proof.
  split.
  - intros d. simpl. intros [?|Hin]; [done|]. by apply bits_no_newline in Hin.
  - intros ks vs1 vs2 _ H1 H2 E. cbn [_canonical_json_bytes bit_canonical json_dumps BitText.text] in E.
    apply (f_equal (fun l => BitText.of_bits (List.tl l))) in E. cbn [List.tl] in E. rewrite !BitText.of_bits_bits in E.
    apply (inj encode) in E. apply (f_equal BitText.of_tree) in E.
    rewrite !BitText.of_tree_to_tree in E. injection E as E. by eapply zip_str_inj.
Qed.

#[local] Existing Instances Sample.ed25519 Sample.ed25519_laws Sample.sha Sample.sha_laws
  Sample.x25519 Sample.x25519_laws Sample.hkdf Sample.hkdf_laws.

Definition ann : party :=
  {| p_key := sample_key 7; p_name := "ann"; p_ephemeral := (5 : @x_private Sample.x25519);
     p_nonce := "n1"; p_policy := None |}.
Definition bob : party :=
  {| p_key := sample_key 9; p_name := "bob"; p_ephemeral := (11 : @x_private Sample.x25519);
     p_nonce := "n2"; p_policy := Some (fun _ => false) |}.

Definition fresh_hs (o : option db) : hs :=
  {| nonces := {| _ttl := zero; _seen := ∅ |}; trust_store := o; hs_events := []; written := [] |}.

Definition trusting (p : party) : db :=
  example_db [(p_id p, new_device (p_pk p) "x" zero TRUSTED)].

Lemma handshake_agreement_witness :
  exists ra rb, run_handshake zero zero zero zero ann bob (fresh_hs None)
                  (fresh_hs (Some (trusting ann))) = Ok (ra, rb) /\
    shared_secret ra = shared_secret rb.
Proof.
  destruct (handshake_agreement zero zero zero zero ann bob (fresh_hs None)
              (fresh_hs (Some (trusting ann))) (be_bytes 32 55))
    as (ra & rb & _ & _ & Hrun & _ & _ & _ & Ha & Hb & _).
  - split; [done|]. split; [reflexivity|]. split; [|done]. exists D_TRUSTED.
    split; [done|]. split; [done|]. vm_compute. exact eq_refl.
  - split; [done|]. split; [reflexivity|]. split; [|done]. by exists D_UNKNOWN.
  - vm_compute. exact eq_refl.
  - exists ra, rb. split; [exact Hrun|]. by rewrite Ha, Hb.
Defined.

Definition one : spec_float := S754_finite false 4503599627370496 (-52).

(** The time stamps are not signed: only the twelve fields are. *)
Lemma responder_transcript_binding_witness :
  field_values (init_of zero ann) = field_values (init_of one ann) /\
  field_values (resp_of zero bob "s") = field_values (resp_of one bob "t").
Proof.
  apply responder_transcript_binding. vm_compute. exact eq_refl.
Defined.

Definition bob_response : dict := resp_of zero bob (resp_sig zero zero ann bob).

Lemma initiator_authenticates_witness :
  exists s' res,
    initiator_finish (p_policy ann) zero (p_identity ann) (p_ephemeral ann) (init_of zero ann)
      (Frame (JObj bob_response)) (fresh_hs None) = (s', Ok res) /\
    exists m, Frame (JObj bob_response) = Frame (JObj m) /\
      proves (peer_device_id res) (peer_public_key res) (str_field "signature" m)
        (compute_responder_transcript (init_of zero ann) m).
Proof.
  destruct (initiator_finish_honest zero zero zero ann bob (fresh_hs None) (be_bytes 32 55))
    as (s' & dec & E & _).
  { split; [done|]. split; [reflexivity|]. split; [|done]. by exists D_UNKNOWN. }
  { vm_compute. exact eq_refl. }
  eexists s', _. split; [exact E|].
  destruct (initiator_authenticates _ _ _ _ _ _ _ _ _ E) as (m & dec2 & Hm & _ & _ & Hp & _).
  exists m. exact (conj Hm Hp).
Defined.

Definition ann_finish : dict :=
  make_handshake_finish zero (sign_hex (p_identity ann) (init_transcript_of zero zero ann bob)).


(** A response with a signature that is not Bob's. *)
Definition forged_response : dict := resp_of zero bob "00".

Lemma no_record_before_proof_witness :
  same_known (fresh_hs (Some (trusting bob)))
    (fst (initiator_finish None zero (p_identity ann) (p_ephemeral ann) (init_of zero ann)
            (Frame (JObj forged_response)) (fresh_hs (Some (trusting bob))))).
Proof.
  destruct (no_record_before_proof None zero (p_identity ann) (p_name ann) (p_ephemeral ann)
    (p_nonce ann) (init_of zero ann)
    {| rs_init_msg := init_of zero ann; rs_peer_pub_bytes := ed_public (p_key ann);
       rs_pre_decision := D_UNKNOWN; rs_resp_transcript := []; rs_signature := "" |}
    (Frame (JObj forged_response)) (fresh_hs (Some (trusting bob)))) as (_ & H & _).
  - intros d pub Hd Hp. assert (d = forged_response) as -> by congruence.
    vm_compute in Hp. apply (inj Some) in Hp as <-. vm_compute. exact eq_refl.
  - intros d Hd. assert (d = forged_response) as -> by congruence. vm_compute. exact eq_refl.
  - exact H.
Defined.

Lemma nonce_not_reused_witness :
  snd (check_and_add zero "n"
         (fst (checks (fst (check_and_add zero "n" {| _ttl := one; _seen := ∅ |}))
                 [(zero, "m"); (zero, "n")]%string))) = false.
Proof.
  apply (nonce_not_reused {| _ttl := one; _seen := ∅ |} zero "n"
           [(zero, "m"); (zero, "n")]%string zero).
  - vm_compute. exact eq_refl.
  - repeat constructor.
  - exact eq_refl.
Defined.

Definition old_of_ann : DeviceKeypair := _keypair_from_private_key (sample_key 3).
Definition before_rotation : db := example_db [(device_id old_of_ann, trusted_dev)].

Lemma rotated_device_locked_out_witness :
  exists cert, create_transition_certificate old_of_ann (p_identity ann) zero = Some cert /\
    snd (record_rotation one cert before_rotation) = Ok () /\
    snd (responder_start one (p_identity bob) (p_name bob) (p_ephemeral bob) (p_nonce bob)
           (Frame (JObj (init_of one ann)))
           (fresh_hs (Some (fst (record_rotation one cert before_rotation))))) = Err KeyChangedError.
Proof.
  destruct (create_transition_certificate old_of_ann (p_identity ann) zero) as [cert|] eqn:E;
    [|vm_compute in E; discriminate E].
  exists cert. split; [reflexivity|].
  apply (rotated_device_locked_out one one ann bob (sample_key 3) zero one before_rotation
           trusted_dev cert); [exact E|..].
  - exact eq_refl.
  - exact eq_refl.
  - vm_compute. exact eq_refl.
  - exact eq_refl.
  - vm_compute. exact eq_refl.
  - intros En. discriminate En.
  - exact eq_refl.
  - exact eq_refl.
Defined.

Lemma revoked_in_flight_completes_witness :
  exists sb1 rs d1 d2 sb2 res,
    responder_start zero (p_identity bob) (p_name bob) (p_ephemeral bob) (p_nonce bob)
      (Frame (JObj (init_of zero ann))) (fresh_hs (Some (trusting ann))) = (sb1, Ok rs) /\
    trust_store sb1 = Some d1 /\ revoke_device one (p_id ann) "admin" None d1 = (d2, Ok ()) /\
    responder_finish (p_policy bob) one (p_ephemeral bob) rs
      (Frame (JObj (make_handshake_finish one
                      (sign_hex (p_identity ann) (init_transcript_of zero zero ann bob)))))
      (with_store d2 sb1) = (sb2, Ok res) /\
    trust_decision res = D_TRUSTED.
Proof.
  destruct (revoked_in_flight_completes zero zero one one ann bob (fresh_hs (Some (trusting ann)))
              (trusting ann) one "admin" None (be_bytes 32 55))
    as (sb1 & rs & d1 & d2 & sb2 & res & _ & _ & H1 & H2 & H3 & H4 & H5 & _).
  - split; [done|]. split; [reflexivity|]. split; [|done]. exists D_TRUSTED.
    split; [done|]. split; [done|]. vm_compute. exact eq_refl.
  - exact eq_refl.
  - vm_compute. exact eq_refl.
  - vm_compute. exact eq_refl.
  - exists sb1, rs, d1, d2, sb2, res. exact (conj H1 (conj H2 (conj H3 (conj H4 H5)))).
Defined.
