(* ===== verification/Connectivity.v ===== *)
(** * Reaching a device over the Internet

    Models [core/connectivity/locator.py] (module [Locator]),
    [core/connectivity/store.py] (module [LocatorStore]),
    [core/connectivity/endpoint_update.py] (module [EndpointUpdate]),
    [core/connectivity/rendezvous.py] (module [Rendezvous]),
    [core/connectivity/relay.py] (module [Relay]), and the handlers of
    [app/ui/app.py] that receive endpoint updates and rendezvous messages (module
    [Handlers]).  Links are in [Link].

    The nonce cache is that of the handshake ([Handshake.NonceCache]).  What the
    connection manager knows of the peer behind a connection is an argument. *)

From Corelib Require Import SpecFloat.
From S2P Require Import Prelude Text Json Crypto Canonical Security Messages Trust Group GroupStore.
From S2P Require Import Handshake.
Import Identity Rotation.
Local Open Scope peerc_scope.
Local Open Scope Z_scope.

(** ** Endpoints *)
Module Locator.

Definition KIND_DIRECT_V4 : string := "direct-v4".
Definition KIND_DIRECT_V6 : string := "direct-v6".
Definition KIND_RENDEZVOUS : string := "rendezvous".
Definition VALID_KINDS : list string := [KIND_DIRECT_V4; KIND_DIRECT_V6; KIND_RENDEZVOUS].

(** [30 * 24 * 3600] as the double it is compared as. *)
Definition DEFAULT_STALE_SECONDS : spec_float := binary_normalize 53 1024 2592000 0 false.

Record Endpoint := mk_endpoint {
  device_id : string;
  kind : string;
  host : string;
  port : Z;
  updated_at : spec_float
}.

Definition port_ok (p : Z) : bool := (0 <? p) && (p <=? 65535).

(** What [__post_init__] and [create_endpoint_update] require. *)
Definition place_ok (kind host : string) (port : Z) : bool :=
  bool_decide (kind ∈ VALID_KINDS) && negb (text_is_empty host) && port_ok port.

(** The constructor; [None] is the [LocatorError]. *)
Definition make_endpoint (device_id kind host : string) (port : Z) (updated_at : spec_float)
    : option Endpoint :=
  if place_ok kind host port then Some (mk_endpoint device_id kind host port updated_at)
  else None.

Definition is_stale (now max_age_seconds : spec_float) (e : Endpoint) : bool :=
  SFltb max_age_seconds (SFsub 53 1024 now (updated_at e)).

Definition newest_first (l : list Endpoint) : list Endpoint :=
  sort_by (fun a b => SFltb (updated_at b) (updated_at a)) l.

Definition is_direct (e : Endpoint) : bool :=
  bool_decide (kind e = KIND_DIRECT_V4) || bool_decide (kind e = KIND_DIRECT_V6).

Definition sorted_endpoints (endpoints : list Endpoint) : list Endpoint :=
  newest_first (List.filter is_direct endpoints)
  ++ newest_first (List.filter (fun e => bool_decide (kind e = KIND_RENDEZVOUS)) endpoints).

End Locator.
Import Locator.

(** ** The locator store *)
Module LocatorStore.

(** A row of [device_endpoints]: (device_id, kind, host, port) and [updated_at]. *)
Abbreviation endpoint_key := (string * string * string * Z)%type.

Record ldb := mk_ldb { connected : bool; endpoints : gmap endpoint_key spec_float }.

Inductive locator_error : Type :=
| VaultLocked
| IntegrityError      (** a NaN in a [REAL NOT NULL] column *)
| BadRow.             (** [LocatorError] of a row that is not an endpoint *)

Abbreviation lop := (stm ldb locator_error).

Definition _require_conn : lop unit := fun s =>
  if connected s then (s, Ok ()) else (s, Err VaultLocked).

Definition adopt_conn (c : bool) : lop unit := modify (fun s => mk_ldb c (endpoints s)).

Definition set_endpoints (f : gmap endpoint_key spec_float -> gmap endpoint_key spec_float)
    (s : ldb) : ldb := mk_ldb (connected s) (f (endpoints s)).

Definition key_of (e : Endpoint) : endpoint_key := (device_id e, kind e, host e, port e).

Definition upsert_endpoint (e : Endpoint) : lop unit :=
  _require_conn ;;
  raise_if (is_nan (updated_at e)) IntegrityError ;;
  modify (set_endpoints <[key_of e := updated_at e]>).

Definition remove_endpoint (device_id kind host : string) (port : Z) : lop unit :=
  _require_conn ;; modify (set_endpoints (delete (device_id, kind, host, port))).

Definition row_endpoint (k : endpoint_key) (t : spec_float) : option Endpoint :=
  let '(d, kind, host, port) := k in make_endpoint d kind host port t.

Fixpoint to_endpoints (l : list (endpoint_key * spec_float)) : lop (list Endpoint) :=
  match l with
  | [] => mret []
  | (k, t) :: l' =>
      match row_endpoint k t with
      | None => raise BadRow
      | Some e => es ← to_endpoints l'; mret (e :: es)
      end
  end.

(** [ORDER BY updated_at DESC]. *)
Definition list_endpoints (device_id : string) (kind : option string) : lop (list Endpoint) :=
  _require_conn ;;
  rows ← gets (fun s =>
    sort_by (fun a b => SFltb (snd b) (snd a))
      (List.filter (fun kt =>
          let '(d, kd, _, _) := fst kt in
          bool_decide (d = device_id)
          && match kind with Some x => bool_decide (kd = x) | None => true end)
        (map_to_list (endpoints s))));
  to_endpoints rows.

Definition get_locator (device_id : string) : lop (list Endpoint) := list_endpoints device_id None.

Definition prune_stale (now : spec_float) (max_age_seconds : option spec_float) : lop Z :=
  _require_conn ;;
  let threshold := SFsub 53 1024 now (default DEFAULT_STALE_SECONDS max_age_seconds) in
  deleted ← gets (fun s =>
    zlen (List.filter (fun kt => SFltb (snd kt) threshold) (map_to_list (endpoints s))));
  modify (set_endpoints
    (filter (fun kt : endpoint_key * spec_float => SFltb kt.2 threshold = false))) ;;
  mret deleted.

End LocatorStore.

(** ** Signed endpoint updates *)
Module EndpointUpdates.
Import NonceCache.

Definition _ENDPOINT_UPDATE_DOMAIN : bytes := lit "peerc-endpoint-update" ++ NUL.

(** [300.0]. *)
Definition DEFAULT_MAX_AGE_SECONDS : spec_float := S754_finite false 5277655813324800 (-44).

Module Upd.
Record EndpointUpdate := mk {
  device_id : string;
  kind : string;
  host : string;
  port : Z;
  timestamp : spec_float;
  nonce : string;
  signature : string
}.
End Upd.
Abbreviation EndpointUpdate := Upd.EndpointUpdate.

(** [None] is the [struct.error] of a port outside 32 bits or a 4 GiB text. *)
Definition _update_payload (device_id kind host : string) (port : Z) (timestamp : spec_float)
    (nonce : string) : option bytes :=
  cat [Some _ENDPOINT_UPDATE_DOMAIN; prefixed (str_bytes device_id);
       prefixed (str_bytes kind); prefixed (str_bytes host); pack_u32 port;
       Some (pack_double timestamp); prefixed (str_bytes nonce)].

Definition update_payload (u : EndpointUpdate) : option bytes :=
  _update_payload (Upd.device_id u) (Upd.kind u) (Upd.host u) (Upd.port u) (Upd.timestamp u)
    (Upd.nonce u).

Section Crypto.
Context `{Ed25519, Sha256}.

(** [None] is the [EndpointUpdateError] (or [struct.error]). *)
Definition create_endpoint_update (now : spec_float) (fresh_nonce : string) (k : DeviceKeypair)
    (kind host : string) (port : Z) : option EndpointUpdate :=
  if negb (place_ok kind host port) then None
  else
    payload ← _update_payload (Identity.device_id k) kind host port now fresh_nonce;
    Some (Upd.mk (Identity.device_id k) kind host port now fresh_nonce
            (b64_text (sign k payload))).

(** What the verification emits. *)
Inductive update_event : Type :=
| AUTH_FAILED (device_id : string)
| REPLAY_DETECTED (device_id : string).

(** The signature alone. *)
Definition update_signed (u : EndpointUpdate) (public_key : bytes) : bool :=
  match update_payload u with
  | Some payload => signature_valid public_key (Upd.signature u) payload
  | None => false
  end.

(** [abs(time.time() - update.timestamp) > max_age_seconds]. *)
Definition out_of_window (now max_age : spec_float) (u : EndpointUpdate) : bool :=
  SFltb max_age (SFabs (SFsub 53 1024 now (Upd.timestamp u))).

(** Signature, then freshness, then replay; [now'] is the clock reading of the cache. *)
Definition verify_endpoint_update (now now' : spec_float) (u : EndpointUpdate)
    (public_key : bytes) (max_age : spec_float) (c : cache)
    : cache * list update_event * bool :=
  if negb (update_signed u public_key) then (c, [AUTH_FAILED (Upd.device_id u)], false)
  else if out_of_window now max_age u then (c, [AUTH_FAILED (Upd.device_id u)], false)
  else
    let '(c', fresh) := check_and_add now' (Upd.nonce u) c in
    if fresh then (c', [], true) else (c', [REPLAY_DETECTED (Upd.device_id u)], false).

Definition endpoint_update_to_endpoint (u : EndpointUpdate) : option Endpoint :=
  make_endpoint (Upd.device_id u) (Upd.kind u) (Upd.host u) (Upd.port u) (Upd.timestamp u).

End Crypto.
End EndpointUpdates.

(** ** Rendezvous hosts *)
Module Rendezvous.
Import EndpointUpdates NonceCache.

Record _CacheEntry := mk_entry {
  group_id : string;
  entry_device : string;        (** [device_id] *)
  update : EndpointUpdate;
  cached_at : spec_float
}.

Record RendezvousCache := mk_cache {
  _entries : gmap (string * string) _CacheEntry;
  _nonce_cache : cache
}.

Inductive rendezvous_error : Type :=
| RendezvousAuthError (device : string)
| RendezvousSignatureError
| RendezvousDeviceIdMismatchError
| StoreRaised (e : store_error).

(** [_require_active_member]; the query does not change the store. *)
Definition _require_active_member (group_store : gdb) (g d : string) : result rendezvous_error unit :=
  match snd (get_membership_status g d group_store) with
  | Err e => Err (StoreRaised e)
  | Ok (Some M_ACTIVE) => Ok ()
  | Ok _ => Err (RendezvousAuthError d)
  end.

Section Crypto.
Context `{Ed25519, Sha256}.

(** The two clock readings of the verification and that of the entry. *)
Record register_clock := mk_rclock { r_now : spec_float; r_now' : spec_float; r_cached : spec_float }.

Definition register (t : register_clock) (g authenticated_device_id : string)
    (u : EndpointUpdate) (sender_public_key : bytes) (group_store : gdb) (c : RendezvousCache)
    : RendezvousCache * list update_event * result rendezvous_error unit :=
  if negb (bool_decide (Upd.device_id u = authenticated_device_id)) then
    (c, [], Err RendezvousDeviceIdMismatchError)
  else
    match _require_active_member group_store g authenticated_device_id with
    | Err e => (c, [], Err e)
    | Ok _ =>
        let '(nonces', events, ok) :=
          verify_endpoint_update (r_now t) (r_now' t) u sender_public_key
            DEFAULT_MAX_AGE_SECONDS (_nonce_cache c) in
        if negb ok then (mk_cache (_entries c) nonces', events, Err RendezvousSignatureError)
        else (mk_cache (<[(g, Upd.device_id u) := mk_entry g (Upd.device_id u) u (r_cached t)]>
                          (_entries c)) nonces', events, Ok ())
    end.

Definition evict (g d : string) (c : RendezvousCache) : RendezvousCache :=
  mk_cache (delete (g, d) (_entries c)) (_nonce_cache c).

Definition in_group (g : string) (ke : (string * string) * _CacheEntry) : bool :=
  bool_decide (fst (fst ke) = g).

Definition evict_all_for_group (g : string) (c : RendezvousCache) : RendezvousCache * Z :=
  (mk_cache (filter (fun ke => in_group g ke = false) (_entries c)) (_nonce_cache c),
   zlen (List.filter (in_group g) (map_to_list (_entries c)))).

Definition size (c : RendezvousCache) : Z := zlen (map_to_list (_entries c)).

Definition lookup (g requester_device_id target_device_id : string) (group_store : gdb)
    (c : RendezvousCache) : result rendezvous_error (option EndpointUpdate) :=
  let? _ := _require_active_member group_store g requester_device_id in
  let? _ := _require_active_member group_store g target_device_id in
  Ok (update <$> _entries c !! (g, target_device_id)).

End Crypto.
End Rendezvous.

(** ** Relay authorization *)
Module Relay.

Inductive relay_error : Type :=
| RelayNotHostingError
| RelayAuthError
| RelayTargetUnreachableError
| StoreRaised (e : store_error).

Definition authorize_relay_candidate_query (g requester_device_id : string)
    (relay_active_groups : gset string) (group_store : gdb) : result relay_error unit :=
  raise? negb (bool_decide (g ∈ relay_active_groups)) with RelayNotHostingError ;;
  match snd (get_membership_status g requester_device_id group_store) with
  | Err e => Err (StoreRaised e)
  | Ok (Some M_ACTIVE) => Ok ()
  | Ok _ => Err RelayAuthError
  end.

Definition authorize_relay_request (g requester_device_id : string)
    (relay_active_groups : gset string) (group_store : gdb) (is_target_connected : bool)
    : result relay_error unit :=
  raise? negb (bool_decide (g ∈ relay_active_groups)) with RelayNotHostingError ;;
  match snd (get_membership_status g requester_device_id group_store) with
  | Err e => Err (StoreRaised e)
  | Ok (Some M_ACTIVE) => raise? negb is_target_connected with RelayTargetUnreachableError ;; Ok ()
  | Ok _ => Err RelayAuthError
  end.

End Relay.

(** ** The handlers of the application *)
Module Handlers.
Import EndpointUpdates NonceCache Factories.

(** The stores of the application ([None] while the vault is locked), the caches, what
    was sent and the connections attempted. *)
Record node := mk_node {
  group_store : option gdb;
  locator_store : option LocatorStore.ldb;
  rendezvous_cache : Rendezvous.RendezvousCache;
  _rendezvous_active_groups : gset string;
  sent : list dict;
  attempts : list Endpoint;
  events : list update_event
}.

(** [_endpoint_nonce_cache], shared with the rendezvous cache. *)
Definition nonces (n : node) : cache := Rendezvous._nonce_cache (rendezvous_cache n).

Definition set_cache (c : Rendezvous.RendezvousCache) (evs : list update_event) (n : node) : node :=
  mk_node (group_store n) (locator_store n) c (_rendezvous_active_groups n) (sent n) (attempts n)
    (events n ++ evs).
Definition set_locators (l : LocatorStore.ldb) (n : node) : node :=
  mk_node (group_store n) (Some l) (rendezvous_cache n) (_rendezvous_active_groups n) (sent n)
    (attempts n) (events n).
Definition send (m : dict) (n : node) : node :=
  mk_node (group_store n) (locator_store n) (rendezvous_cache n) (_rendezvous_active_groups n)
    (sent n ++ [m]) (attempts n) (events n).
Definition attempt_connection (e : Endpoint) (n : node) : node :=
  mk_node (group_store n) (locator_store n) (rendezvous_cache n) (_rendezvous_active_groups n)
    (sent n) (attempts n ++ [e]) (events n).

(** [dataclasses.asdict(update)]. *)
Definition asdict (u : EndpointUpdate) : dict :=
  [("device_id", JStr (Upd.device_id u)); ("kind", JStr (Upd.kind u));
   ("host", JStr (Upd.host u)); ("port", JInt (Upd.port u));
   ("timestamp", JFloat (Upd.timestamp u)); ("nonce", JStr (Upd.nonce u));
   ("signature", JStr (Upd.signature u))]%string.

Definition update_fields : list string :=
  ["device_id"; "kind"; "host"; "port"; "timestamp"; "nonce"; "signature"]%string.

(** An integer of at most 53 bits is the double it compares and packs as. *)
Definition number_at (f : string) : read spec_float := fun d =>
  let? v := item_at f d in
  match v with
  | JFloat x => Ok x
  | JInt z => if Z.abs z <=? 2 ^ 53 then Ok (binary_normalize 53 1024 z 0 false)
              else Err (NotAnnotated f)
  | _ => Err (NotAnnotated f)
  end.
Definition port_at (f : string) : read Z := fun d =>
  let? v := item_at f d in
  match v with JInt z => Ok z | _ => Err (NotAnnotated f) end.

(** [EndpointUpdate] applied to the items of [d] as keywords: a key that is no field, or a missing one, is a [TypeError]. *)
Definition update_of_kwargs : read EndpointUpdate := fun d =>
  raise? negb (forallb (fun kv => bool_decide (fst kv ∈ update_fields)) d) with TypeError "" ;;
  let? device_id := text_at "device_id" d in
  let? kind := text_at "kind" d in
  let? host := text_at "host" d in
  let? port := port_at "port" d in
  let? timestamp := number_at "timestamp" d in
  let? nonce := text_at "nonce" d in
  let? signature := text_or "signature" "" d in
  Ok (Upd.mk device_id kind host port timestamp nonce signature).

Section Crypto.
Context `{Ed25519, Sha256}.

(** Persist an endpoint, best effort. *)
Definition remember (e : Endpoint) (n : node) : node :=
  match locator_store n with
  | Some l => set_locators (fst (LocatorStore.upsert_endpoint e l)) n
  | None => n
  end.

(** [_on_endpoint_update]: [peer] is the identity the handshake authenticated. *)
Definition _on_endpoint_update (now now' : spec_float) (peer : option (string * bytes))
    (u : EndpointUpdate) (n : node) : node :=
  match locator_store n, peer with
  | Some _, Some (authenticated_id, peer_public_key) =>
      if negb (bool_decide (Upd.device_id u = authenticated_id)) then n
      else
        let '(c, evs, ok) :=
          verify_endpoint_update now now' u peer_public_key DEFAULT_MAX_AGE_SECONDS (nonces n) in
        let n := set_cache (Rendezvous.mk_cache (Rendezvous._entries (rendezvous_cache n)) c) evs n in
        if negb ok then n
        else match endpoint_update_to_endpoint u with
             | Some e => remember e n
             | None => n          (** [LocatorError] inside the [try] *)
             end
  | _, _ => n
  end.

(** How a handler ends other than by returning: an exception of the group store, the
    [LocatorError] of an endpoint, or a field that is not of the type its annotation
    gives, which the model does not follow further. *)
Inductive escaped : Type :=
| EscapedStore (e : store_error)
| EscapedLocator
| Unannotated (f : string).

(** [_on_rendezvous_register]. *)
Definition _on_rendezvous_register (t : Rendezvous.register_clock) (peer : option (string * bytes))
    (g : string) (endpoint_update : dict) (n : node) : node * result escaped unit :=
  match group_store n, peer with
  | Some gs, Some (authenticated_id, sender_public_key) =>
      if text_is_empty g || negb (bool_decide (g ∈ _rendezvous_active_groups n)) then (n, Ok ())
      else
        match update_of_kwargs endpoint_update with
        | Err (NotAnnotated f) => (n, Err (Unannotated f))
        | Err _ => (n, Ok ())
        | Ok u =>
            let '(c, evs, r) :=
              Rendezvous.register t g authenticated_id u sender_public_key gs
                (rendezvous_cache n) in
            (set_cache c evs n,
             match r with Err (Rendezvous.StoreRaised e) => Err (EscapedStore e) | _ => Ok () end)
        end
  | _, _ => (n, Ok ())
  end.

(** [_on_rendezvous_lookup]. *)
Definition _on_rendezvous_lookup (now : spec_float) (requester : option string)
    (g target_device_id : string) (n : node) : node * result escaped unit :=
  match group_store n, requester with
  | Some gs, Some requester_id =>
      if text_is_empty g || negb (bool_decide (g ∈ _rendezvous_active_groups n)) then (n, Ok ())
      else
        match Rendezvous.lookup g requester_id target_device_id gs (rendezvous_cache n) with
        | Err (Rendezvous.StoreRaised e) => (n, Err (EscapedStore e))
        | Err _ => (n, Ok ())
        | Ok found =>
            (send (make_rendezvous_lookup_response now g target_device_id (asdict <$> found)) n,
             Ok ())
        end
  | _, _ => (n, Ok ())
  end.

(** [_on_rendezvous_lookup_response]: the endpoint to connect to is the last attempt. *)
Definition _on_rendezvous_lookup_response (now now' : spec_float) (g target_device_id : string)
    (endpoint_update : option dict) (n : node) : node * result escaped unit :=
  match endpoint_update, group_store n, locator_store n with
  | Some eu, Some gs, Some _ =>
      match snd (get_membership g target_device_id gs) with
      | Err e => (n, Err (EscapedStore e))
      | Ok None => (n, Ok ())
      | Ok (Some membership) =>
          match update_of_kwargs eu, decode_text (Membership.Cert.device_public_key membership) with
          | Ok u, Some target_public_key =>
              if negb (bool_decide (Upd.device_id u = target_device_id)) then (n, Ok ())
              else
                let '(c, evs, ok) :=
                  verify_endpoint_update now now' u target_public_key DEFAULT_MAX_AGE_SECONDS
                    (nonces n) in
                let n := set_cache
                  (Rendezvous.mk_cache (Rendezvous._entries (rendezvous_cache n)) c) evs n in
                if negb ok then (n, Ok ())
                else match endpoint_update_to_endpoint u with
                     | Some e => (attempt_connection e (remember e n), Ok ())
                     | None => (n, Err EscapedLocator)     (** [LocatorError] *)
                     end
          | Err (NotAnnotated f), _ => (n, Err (Unannotated f))
          | _, _ => (n, Ok ())
          end
      end
  | _, _, _ => (n, Ok ())
  end.

(** [_register_with_rendezvous_hosts]: one update, sent once for every group this device
    is an active member of. *)
Definition my_groups (gs : gdb) (peer_id : string) (l : list Membership.Group)
    : list Membership.Group :=
  List.filter (fun g =>
    match snd (get_membership_status (Membership.Grp.group_id g) peer_id gs) with
    | Ok (Some M_ACTIVE) => true
    | _ => false
    end) l.

Definition _register_with_rendezvous_hosts (now : spec_float) (fresh_nonce : string)
    (k : DeviceKeypair) (local_ip : option string) (tcp_port : Z) (n : node)
    : node * result escaped unit :=
  match group_store n with
  | None => (n, Ok ())
  | Some gs =>
      match snd (list_groups gs) with
      | Err e => (n, Err (EscapedStore e))
      | Ok l =>
          match my_groups gs (Identity.device_id k) l, local_ip with
          | [], _ | _, None => (n, Ok ())
          | groups, Some ip =>
              match create_endpoint_update now fresh_nonce k KIND_DIRECT_V4 ip tcp_port with
              | None => (n, Ok ())
              | Some u =>
                  (foldl (fun n g =>
                     send (make_rendezvous_register now (Membership.Grp.group_id g) (asdict u)) n)
                     n groups, Ok ())
              end
          end
      end
  end.

End Crypto.
End Handlers.
