(* ===== verification/ConnectivityTheory.v ===== *)
(** * What holds of endpoint updates, rendezvous and the locator store

    A node runs the handlers of [Connectivity.Handlers] in any order, interleaved with
    any change of the group store, of the groups it hosts and of the vault's lock.  Every
    address that reaches the locator store was signed by the device it belongs to; the
    cache of a rendezvous host holds only updates that their own device registered; an
    update is accepted once while its nonce is remembered.  The last section shows where
    the nonce is remembered too long for one use and not long enough for the other. *)

From Corelib Require Import SpecFloat.
From S2P Require Import Prelude Text Json Crypto Canonical Security Messages Trust Group GroupStore.
From S2P Require Import GroupTheory GroupScenarios Handshake HandshakeTheory Connectivity.
Import Identity Rotation NonceCache EndpointUpdates Handlers.
Local Open Scope peerc_scope.
Local Open Scope Z_scope.

Section Node.
Context `{Ed25519, Sha256}.

(** What happens to a node: the messages it receives, its own announcements, and what
    its user and its vault do to the stores. *)
Inductive input : Type :=
| InUpdate (now now' : spec_float) (peer : option (string * bytes)) (u : EndpointUpdate)
| InRegister (t : Rendezvous.register_clock) (peer : option (string * bytes)) (g : string) (d : dict)
| InLookup (now : spec_float) (requester : option string) (g target : string)
| InResponse (now now' : spec_float) (g target : string) (d : option dict)
| InAnnounce (now : spec_float) (nonce : string) (k : DeviceKeypair) (ip : option string) (port : Z)
| InGroups (gs : option gdb)
| InHosting (active : gset string)
| InEvict (g d : string)
| InEvictGroup (g : string)
| InRemove (d kind host : string) (port : Z)
| InPrune (now : spec_float) (max_age : option spec_float)
| InVault (locked : bool).

Definition with_locators {A} (m : LocatorStore.lop A) (n : node) : node :=
  match locator_store n with Some l => set_locators (fst (m l)) n | None => n end.

Definition step (i : input) (n : node) : node :=
  match i with
  | InUpdate now now' peer u => _on_endpoint_update now now' peer u n
  | InRegister t peer g d => fst (_on_rendezvous_register t peer g d n)
  | InLookup now requester g target => fst (_on_rendezvous_lookup now requester g target n)
  | InResponse now now' g target d => fst (_on_rendezvous_lookup_response now now' g target d n)
  | InAnnounce now nonce k ip port =>
      fst (_register_with_rendezvous_hosts now nonce k ip port n)
  | InGroups gs =>
      mk_node gs (locator_store n) (rendezvous_cache n) (_rendezvous_active_groups n) (sent n)
        (attempts n) (events n)
  | InHosting active =>
      mk_node (group_store n) (locator_store n) (rendezvous_cache n) active (sent n)
        (attempts n) (events n)
  | InEvict g d => set_cache (Rendezvous.evict g d (rendezvous_cache n)) [] n
  | InEvictGroup g => set_cache (fst (Rendezvous.evict_all_for_group g (rendezvous_cache n))) [] n
  | InRemove d kind host port => with_locators (LocatorStore.remove_endpoint d kind host port) n
  | InPrune now max_age => with_locators (LocatorStore.prune_stale now max_age) n
  | InVault locked => with_locators (LocatorStore.adopt_conn (negb locked)) n
  end.

Definition steps (l : list input) (n : node) : node := foldl (fun n i => step i n) n l.

Definition rows (n : node) : gmap LocatorStore.endpoint_key spec_float :=
  match locator_store n with Some l => LocatorStore.endpoints l | None => ∅ end.

Definition entries (n : node) : gmap (string * string) Rendezvous._CacheEntry :=
  Rendezvous._entries (rendezvous_cache n).

(** The input brings an update the node may believe: it came from the device itself on a
    connection authenticated as that device, or from anyone for a device whose membership
    certificate this node holds, and it is signed with that device's key. *)
Definition vouched (i : input) (n : node) (u : EndpointUpdate) (pk : bytes) : Prop :=
  update_signed u pk = true /\
  ((exists now now', i = InUpdate now now' (Some (Upd.device_id u, pk)) u) \/
   (exists now now' g d gs m,
      i = InResponse now now' g (Upd.device_id u) (Some d) /\ update_of_kwargs d = Ok u /\
      group_store n = Some gs /\
      snd (get_membership g (Upd.device_id u) gs) = Ok (Some m) /\
      decode_text (Membership.Cert.device_public_key m) = Some pk)).

Definition row_of_update (u : EndpointUpdate) : LocatorStore.endpoint_key :=
  (Upd.device_id u, Upd.kind u, Upd.host u, Upd.port u).

(** One step keeps a row, drops it, or adds the row of an update it vouches for. *)
Definition rows_after (i : input) (n n' : node) : Prop :=
  rows n' ⊆ rows n \/
  exists u pk, vouched i n u pk /\ rows n' = <[row_of_update u := Upd.timestamp u]> (rows n).

Lemma verify_true now now' u pk age c c' evs :
  verify_endpoint_update now now' u pk age c = (c', evs, true) ->
  update_signed u pk = true /\ check_and_add now' (Upd.nonce u) c = (c', true).
Proof.
  unfold verify_endpoint_update. destruct (update_signed u pk); [|done]. simpl.
  destruct (out_of_window now age u); [done|].
  destruct (check_and_add now' (Upd.nonce u) c) as [c1 []]; [|done]. by intros [= <- _].
Qed.

Lemma remember_rows e n :
  rows (remember e n) = rows n \/
  rows (remember e n) = <[LocatorStore.key_of e := Locator.updated_at e]> (rows n).
Proof.
  unfold remember, rows. destruct (locator_store n) as [l|] eqn:El; [|by rewrite El; left].
  simpl. unfold LocatorStore.upsert_endpoint, LocatorStore._require_conn, raise_if.
  cbv [mbind stm_bind]. destruct (LocatorStore.connected l); simpl; [|by left].
  destruct (is_nan (Locator.updated_at e)); simpl; [by left|by right].
Qed.

Lemma remember_update u e n :
  endpoint_update_to_endpoint u = Some e ->
  rows (remember e n) ⊆ rows n \/
  rows (remember e n) = <[row_of_update u := Upd.timestamp u]> (rows n).
Proof.
  unfold endpoint_update_to_endpoint, Locator.make_endpoint.
  destruct (Locator.place_ok _ _ _); [|done]. intros [= <-].
  destruct (remember_rows (Locator.mk_endpoint (Upd.device_id u) (Upd.kind u) (Upd.host u)
    (Upd.port u) (Upd.timestamp u)) n) as [-> | ->]; [by left|by right].
Qed.

Lemma update_rows now now' peer u n :
  rows_after (InUpdate now now' peer u) n (_on_endpoint_update now now' peer u n).
Proof.
  unfold _on_endpoint_update.
  destruct (locator_store n) as [l|] eqn:El; [|by left].
  destruct peer as [[d pk]|]; [|by left].
  destruct (bool_decide_reflect (Upd.device_id u = d)) as [<-|]; [|by left]. simpl.
  destruct (verify_endpoint_update _ _ _ _ _ _) as [[c evs] ok] eqn:Ev.
  destruct ok; simpl; [|by left].
  destruct (endpoint_update_to_endpoint u) as [e|] eqn:Ee; [|by left].
  apply verify_true in Ev as [Hs _].
  destruct (remember_update u e (set_cache (Rendezvous.mk_cache (Rendezvous._entries
    (rendezvous_cache n)) c) evs n) Ee) as [Hr|Hr]; [by left|].
  right. exists u, pk. split; [|exact Hr]. split; [done|]. left. by exists now, now'.
Qed.

Lemma response_rows now now' g target d n :
  rows_after (InResponse now now' g target d) n
    (fst (_on_rendezvous_lookup_response now now' g target d n)).
Proof.
  unfold _on_rendezvous_lookup_response. destruct d as [d|]; [|by left].
  destruct (group_store n) as [gs|] eqn:Eg; [|by left].
  destruct (locator_store n) as [l|] eqn:El; [|by left].
  destruct (snd (get_membership g target gs)) as [[m|]|e] eqn:Em; [|by left..].
  destruct (update_of_kwargs d) as [u|[]] eqn:Eu;
    [|try destruct (decode_text _); by left..].
  destruct (decode_text _) as [pk|] eqn:Ep; [|by left].
  destruct (bool_decide_reflect (Upd.device_id u = target)) as [<-|]; [|by left]. simpl.
  destruct (verify_endpoint_update _ _ _ _ _ _) as [[c evs] ok] eqn:Ev.
  destruct ok; simpl; [|by left].
  destruct (endpoint_update_to_endpoint u) as [e|] eqn:Ee; [|by left].
  apply verify_true in Ev as [Hs _]. simpl.
  destruct (remember_update u e (set_cache (Rendezvous.mk_cache (Rendezvous._entries
    (rendezvous_cache n)) c) evs n) Ee) as [Hr|Hr]; [by left|].
  right. exists u, pk. split; [|exact Hr]. split; [done|]. right.
  by exists now, now', g, d, gs, m.
Qed.

Lemma register_rows t peer g d n :
  rows (fst (_on_rendezvous_register t peer g d n)) = rows n.
Proof.
  unfold _on_rendezvous_register. destruct (group_store n), peer as [[a pk]|]; try done.
  destruct (_ || _); [done|]. destruct (update_of_kwargs d) as [u|[]]; try done.
  by destruct (Rendezvous.register _ _ _ _ _ _ _) as [[c evs] r].
Qed.

Lemma lookup_rows now requester g target n :
  rows (fst (_on_rendezvous_lookup now requester g target n)) = rows n.
Proof.
  unfold _on_rendezvous_lookup. destruct (group_store n), requester; try done.
  destruct (_ || _); [done|]. by destruct (Rendezvous.lookup _ _ _ _ _) as [x|[]].
Qed.

Lemma foldl_send {A} (f : A -> dict) l n :
  foldl (fun n a => send (f a) n) n l =
  mk_node (group_store n) (locator_store n) (rendezvous_cache n) (_rendezvous_active_groups n)
    (sent n ++ map f l) (attempts n) (events n).
Proof.
  revert n. induction l as [|a l IH]; intros n; cbn [foldl].
  - rewrite app_nil_r. by destruct n.
  - rewrite IH. unfold send. simpl. by rewrite <- app_assoc.
Qed.

(** An announcement only sends. *)
Lemma announce_effect now nonce k ip port n :
  exists l, fst (_register_with_rendezvous_hosts now nonce k ip port n) =
    mk_node (group_store n) (locator_store n) (rendezvous_cache n) (_rendezvous_active_groups n)
      (sent n ++ l) (attempts n) (events n).
Proof.
  assert (exists l, n = mk_node (group_store n) (locator_store n) (rendezvous_cache n)
            (_rendezvous_active_groups n) (sent n ++ l) (attempts n) (events n)) as Hn.
  { exists []. rewrite app_nil_r. by destruct n. }
  unfold _register_with_rendezvous_hosts. destruct (group_store n) as [gs|] eqn:Eg; [|exact Hn].
  destruct (snd (list_groups gs)) as [l|e]; [|exact Hn].
  destruct (my_groups gs (device_id k) l) as [|g gl]; [exact Hn|].
  destruct ip as [ip|]; [|exact Hn]. destruct (create_endpoint_update _ _ _ _ _ _) as [u|]; [|exact Hn].
  cbn [fst]. rewrite (foldl_send (fun g => Factories.make_rendezvous_register now _ _)), Eg.
  eexists. reflexivity.
Qed.

Lemma with_locators_rows {A} (m : LocatorStore.lop A) n :
  (forall l, LocatorStore.endpoints (fst (m l)) ⊆ LocatorStore.endpoints l) ->
  rows (with_locators m n) ⊆ rows n.
Proof.
  intros Hm. unfold with_locators, rows.
  destruct (locator_store n) as [l|] eqn:El; simpl; [apply Hm|by rewrite El].
Qed.

Lemma required_rows {A} (m : LocatorStore.lop A) :
  (forall l, LocatorStore.endpoints (fst (m l)) ⊆ LocatorStore.endpoints l) ->
  forall l, LocatorStore.endpoints (fst ((LocatorStore._require_conn ;; m) l))
            ⊆ LocatorStore.endpoints l.
Proof.
  intros Hm l. unfold LocatorStore._require_conn. cbv [mbind stm_bind].
  by destruct (LocatorStore.connected l).
Qed.

Lemma step_rows i n : rows_after i n (step i n).
Proof.
  destruct i; cbn [step]; try (by left).
  - apply update_rows.
  - left. by rewrite register_rows.
  - left. by rewrite lookup_rows.
  - apply response_rows.
  - left. destruct (announce_effect now nonce k ip port n) as [l ->]. done.
  - left. apply with_locators_rows, required_rows. intros l. apply delete_subseteq.
  - left. apply with_locators_rows, required_rows. intros l. simpl. apply map_filter_subseteq.
  - left. by apply with_locators_rows.
Qed.

Lemma steps_snoc l i n : steps (l ++ [i]) n = step i (steps l n).
Proof. unfold steps. by rewrite foldl_app. Qed.


(** ** The cache of a rendezvous host *)

(** The input registers [u] for group [g]: its own device sent it on a connection
    authenticated as that device, signed, while it was an active member of [g] and the
    node hosted [g]. *)
Definition registers (i : input) (n : node) (g : string) (u : EndpointUpdate) : Prop :=
  exists t pk d gs, i = InRegister t (Some (Upd.device_id u, pk)) g d /\
    update_of_kwargs d = Ok u /\ update_signed u pk = true /\ g ∈ _rendezvous_active_groups n /\
    group_store n = Some gs /\
    m_status <$> memberships gs !! (g, Upd.device_id u) = Some M_ACTIVE.

Definition entries_after (i : input) (n n' : node) : Prop :=
  entries n' ⊆ entries n \/
  exists g u t, registers i n g u /\
    entries n' = <[(g, Upd.device_id u) := Rendezvous.mk_entry g (Upd.device_id u) u t]> (entries n).

Lemma active_member gs g d :
  Rendezvous._require_active_member gs g d = Ok () ->
  m_status <$> memberships gs !! (g, d) = Some M_ACTIVE.
Proof.
  unfold Rendezvous._require_active_member, get_membership_status, GroupStore._require_conn.
  cbv [mbind stm_bind gets]. destruct (GroupStore.connected gs); [|done]. simpl.
  by destruct (memberships gs !! (g, d)) as [r|]; [simpl; destruct (m_status r)|].
Qed.

Lemma register_ok t g d u pk gs c c' evs :
  Rendezvous.register t g d u pk gs c = (c', evs, Ok ()) ->
  d = Upd.device_id u /\ update_signed u pk = true /\
  m_status <$> memberships gs !! (g, d) = Some M_ACTIVE /\
  check_and_add (Rendezvous.r_now' t) (Upd.nonce u) (Rendezvous._nonce_cache c)
    = (Rendezvous._nonce_cache c', true) /\
  Rendezvous._entries c' = <[(g, Upd.device_id u) :=
    Rendezvous.mk_entry g (Upd.device_id u) u (Rendezvous.r_cached t)]> (Rendezvous._entries c).
Proof.
  unfold Rendezvous.register.
  destruct (bool_decide_reflect (Upd.device_id u = d)) as [<-|]; [|done]. simpl.
  destruct (Rendezvous._require_active_member gs g (Upd.device_id u)) as [[]|] eqn:Ea; [|done].
  apply active_member in Ea.
  destruct (verify_endpoint_update _ _ _ _ _ _) as [[c1 evs1] []] eqn:Ev; [|done].
  apply verify_true in Ev as [Hs Hc]. simpl. intros [= <- _]. done.
Qed.

Lemma register_refused t g d u pk gs c c' evs e :
  Rendezvous.register t g d u pk gs c = (c', evs, Err e) ->
  Rendezvous._entries c' = Rendezvous._entries c.
Proof.
  unfold Rendezvous.register. destruct (bool_decide _); simpl; [|by intros [= <-]].
  destruct (Rendezvous._require_active_member gs g d); [|by intros [= <-]].
  destruct (verify_endpoint_update _ _ _ _ _ _) as [[c1 evs1] []]; [done|by intros [= <-]].
Qed.

Lemma register_entries t peer g d n :
  entries_after (InRegister t peer g d) n (fst (_on_rendezvous_register t peer g d n)).
Proof.
  unfold _on_rendezvous_register.
  destruct (group_store n) as [gs|] eqn:Eg; [|by left].
  destruct peer as [[a pk]|]; [|by left]. destruct (text_is_empty g); [by left|]. simpl.
  destruct (bool_decide_reflect (g ∈ _rendezvous_active_groups n)) as [Hg|]; [|by left]. simpl.
  destruct (update_of_kwargs d) as [u|[]] eqn:Eu; [|by left..].
  destruct (Rendezvous.register _ _ _ _ _ _ _) as [[c evs] [[]|e]] eqn:Er.
  - apply register_ok in Er as (-> & Hs & Hm & _ & He). right.
    exists g, u, (Rendezvous.r_cached t). split; [by exists t, pk, d, gs|exact He].
  - apply register_refused in Er. left. unfold entries. simpl. by rewrite Er.
Qed.

Lemma update_entries now now' peer u n :
  entries (_on_endpoint_update now now' peer u n) = entries n.
Proof.
  unfold _on_endpoint_update. destruct (locator_store n), peer as [[d pk]|]; try done.
  destruct (bool_decide _); [|done]. simpl.
  destruct (verify_endpoint_update _ _ _ _ _ _) as [[c evs] []]; [|done]. simpl.
  destruct (endpoint_update_to_endpoint u) as [e|]; [|done].
  unfold remember. by destruct (locator_store _).
Qed.

Lemma response_entries now now' g target d n :
  entries (fst (_on_rendezvous_lookup_response now now' g target d n)) = entries n.
Proof.
  unfold _on_rendezvous_lookup_response.
  destruct d as [d|], (group_store n), (locator_store n); try done.
  destruct (snd (get_membership _ _ _)) as [[m|]|e]; try done.
  destruct (update_of_kwargs d) as [u|[]]; [|try destruct (decode_text _); done..].
  destruct (decode_text _) as [pk|]; [|done]. destruct (bool_decide _); [|done]. simpl.
  destruct (verify_endpoint_update _ _ _ _ _ _) as [[c evs] []]; [|done]. simpl.
  destruct (endpoint_update_to_endpoint u) as [e|]; [|done].
  unfold remember. by destruct (locator_store _).
Qed.

Lemma with_locators_entries {A} (m : LocatorStore.lop A) n :
  entries (with_locators m n) = entries n.
Proof. unfold with_locators. by destruct (locator_store n). Qed.

Lemma step_entries i n : entries_after i n (step i n).
Proof.
  destruct i; cbn [step]; try (left; by rewrite ?with_locators_entries).
  - left. by rewrite update_entries.
  - apply register_entries.
  - left. unfold _on_rendezvous_lookup. destruct (group_store n), requester; try done.
    destruct (_ || _); [done|]. by destruct (Rendezvous.lookup _ _ _ _ _) as [x|[]].
  - left. by rewrite response_entries.
  - left. by destruct (announce_effect now nonce k ip port n) as [l ->].
  - left. apply delete_subseteq.
  - left. apply map_filter_subseteq.
Qed.

(** A rendezvous host gives out only what a member registered for itself.  When a
    lookup in a node that started with an empty cache answers with an update, both the
    requester and the target are active members of the group now, and the update was
    brought by its own device: on a connection authenticated as that device, signed with
    its key, while the device was an active member of that group and the node hosted
    it. *)
Theorem rendezvous_answers_registered l n g requester target gs u :
  entries n = ∅ ->
  Rendezvous.lookup g requester target gs (rendezvous_cache (steps l n)) = Ok (Some u) ->
  m_status <$> memberships gs !! (g, requester) = Some M_ACTIVE /\
  m_status <$> memberships gs !! (g, target) = Some M_ACTIVE /\
  Upd.device_id u = target /\
  exists l1 i l2, l = l1 ++ i :: l2 /\ registers i (steps l1 n) g u.
Proof.
  intros Hn. unfold Rendezvous.lookup.
  destruct (Rendezvous._require_active_member gs g requester) as [[]|] eqn:Er; [|done].
  destruct (Rendezvous._require_active_member gs g target) as [[]|] eqn:Et; [|done].
  simpl. intros He%Ok_inj. apply fmap_Some in He as (e & He & ->).
  apply active_member in Er, Et. do 2 (split; [done|]). clear Er Et.
  fold (entries (steps l n)) in He.
  induction l as [|i l IH] using rev_ind; [cbn [steps foldl] in He; by rewrite Hn in He|].
  rewrite steps_snoc in He.
  assert (entries (steps l n) !! (g, target) = Some e ->
    Upd.device_id (Rendezvous.update e) = target /\
    exists l1 j l2, l ++ [i] = l1 ++ j :: l2 /\ registers j (steps l1 n) g (Rendezvous.update e))
    as Hold.
  { intros Ho. destruct (IH Ho) as (Hd & l1 & j & l2 & -> & Hr). split; [done|].
    exists l1, j, (l2 ++ [i]). by rewrite <- app_assoc. }
  destruct (step_entries i (steps l n)) as [Hs|(g' & u & t & Hr & Hi)].
  - apply Hold. by eapply lookup_weaken.
  - rewrite Hi in He. apply lookup_insert_Some in He as [[[= <- <-] <-]|[_ He]]; [|by apply Hold].
    split; [done|]. by exists l, i, [].
Qed.

(** ** Replay *)

(** Verifications of other updates, at the times given. *)
Definition verifies (l : list (spec_float * spec_float * EndpointUpdate * bytes)) (c : cache) : cache :=
  foldl (fun c '(now, now', u, pk) =>
    fst (fst (verify_endpoint_update now now' u pk DEFAULT_MAX_AGE_SECONDS c))) c l.

Lemma verify_keeps now now' u pk age c n t :
  _seen c !! n = Some t -> expired c now' t = false ->
  let c' := fst (fst (verify_endpoint_update now now' u pk age c)) in
  _ttl c' = _ttl c /\ _seen c' !! n = Some t.
Proof.
  intros Hs He. unfold verify_endpoint_update. destruct (update_signed u pk); [|done]. simpl.
  destruct (out_of_window now age u); [done|].
  pose proof (check_and_add_keeps now' (Upd.nonce u) c t n Hs He) as Hk.
  by destruct (check_and_add now' (Upd.nonce u) c) as [c1 []].
Qed.

Lemma verifies_keep l c n t :
  _seen c !! n = Some t ->
  Forall (fun x => expired c (snd (fst (fst x))) t = false) l ->
  _ttl (verifies l c) = _ttl c /\ _seen (verifies l c) !! n = Some t.
Proof.
  revert c. induction l as [|[[[now now'] u] pk] l IH]; intros c Hs Hf; [done|].
  apply Forall_cons in Hf as [He Hf]. cbn [verifies foldl].
  destruct (verify_keeps now now' u pk DEFAULT_MAX_AGE_SECONDS c n t Hs He) as [Ht Hs'].
  destruct (IH _ Hs') as [Ht' Hk].
  { eapply Forall_impl; [exact Hf|]. intros x. unfold expired. by rewrite Ht. }
  rewrite Ht in Ht'. by split.
Qed.

Lemma check_and_add_accepted t n c c' :
  check_and_add t n c = (c', true) -> _ttl c' = _ttl c /\ _seen c' !! n = Some t.
Proof.
  unfold check_and_add. destruct (_seen (clean t c) !! n) eqn:E; [done|]. intros [= <-].
  split; [done|]. apply lookup_insert_eq.
Qed.

Lemma check_and_add_seen now n c t :
  _seen c !! n = Some t -> expired c now t = false ->
  check_and_add now n c = (clean now c, false).
Proof.
  intros Hs He. unfold check_and_add.
  assert (_seen (clean now c) !! n = Some t) as ->; [|done].
  unfold clean. simpl. by apply map_lookup_filter_Some.
Qed.

(** An endpoint update is accepted once.  After an update was accepted at time [t],
    whatever other updates were verified since, the same update (and any other with its
    nonce) is refused as long as the nonce cache remembers it. *)
Theorem update_accepted_once now t u pk c c' evs l now2 t2 u2 pk2 :
  verify_endpoint_update now t u pk DEFAULT_MAX_AGE_SECONDS c = (c', evs, true) ->
  Forall (fun x => expired c (snd (fst (fst x))) t = false) l -> expired c t2 t = false ->
  Upd.nonce u2 = Upd.nonce u ->
  snd (verify_endpoint_update now2 t2 u2 pk2 DEFAULT_MAX_AGE_SECONDS (verifies l c')) = false.
Proof.
  intros [Hs Hc]%verify_true Hf He Hn. apply check_and_add_accepted in Hc as [Ht Hk].
  destruct (verifies_keep l c' (Upd.nonce u) t Hk) as [Ht' Hk'].
  { eapply Forall_impl; [exact Hf|]. intros x. unfold expired. by rewrite Ht. }
  unfold verify_endpoint_update. destruct (update_signed u2 pk2); [|done]. simpl.
  destruct (out_of_window _ _ u2); [done|].
  rewrite Hn, (check_and_add_seen t2 (Upd.nonce u) (verifies l c') t Hk'); [done|].
  unfold expired in *. by rewrite Ht', Ht.
Qed.

(** ** A device of several groups *)

Lemma of_asdict u : update_of_kwargs (asdict u) = Ok u.
Proof. by destruct u. Qed.

(** The registrations [_register_with_rendezvous_hosts] sends for a list of groups, as
    the host receives them: one update for all. *)
Definition receive_all (d : string) (pk : bytes) (u : EndpointUpdate)
    (l : list (Rendezvous.register_clock * string)) (n : node) : node :=
  foldl (fun n '(t, g) => fst (_on_rendezvous_register t (Some (d, pk)) g (asdict u) n)) n l.

Lemma register_again t g d u pk n t0 :
  _seen (nonces n) !! Upd.nonce u = Some t0 ->
  expired (nonces n) (Rendezvous.r_now' t) t0 = false ->
  let n' := fst (_on_rendezvous_register t (Some (d, pk)) g (asdict u) n) in
  entries n' = entries n /\ _ttl (nonces n') = _ttl (nonces n) /\
  _seen (nonces n') !! Upd.nonce u = Some t0.
Proof.
  intros Hs He. unfold _on_rendezvous_register. destruct (group_store n) as [gs|]; [|done].
  destruct (_ || _); [done|]. rewrite of_asdict. unfold Rendezvous.register.
  destruct (bool_decide _); [|done]. simpl.
  destruct (Rendezvous._require_active_member _ _ _); [|done].
  pose proof (verify_keeps (Rendezvous.r_now t) (Rendezvous.r_now' t) u pk
    DEFAULT_MAX_AGE_SECONDS (nonces n) _ _ Hs He) as [Ht Hk].
  fold (nonces n). destruct (verify_endpoint_update _ _ _ _ _ _) as [[c evs] ok] eqn:Ev.
  destruct ok; [|done]. apply verify_true in Ev as [_ Hc].
  by rewrite (check_and_add_seen _ _ _ _ Hs He) in Hc.
Qed.

Lemma receive_all_keeps d pk u l n t0 :
  _seen (nonces n) !! Upd.nonce u = Some t0 ->
  Forall (fun x => expired (nonces n) (Rendezvous.r_now' x.1) t0 = false) l ->
  entries (receive_all d pk u l n) = entries n.
Proof.
  revert n. induction l as [|[t g] l IH]; intros n Hs Hf; [done|].
  apply Forall_cons in Hf as [He Hf]. cbn [receive_all foldl].
  destruct (register_again t g d u pk n t0 Hs He) as (Hn & Ht & Hs').
  fold (receive_all d pk u l (fst (_on_rendezvous_register t (Some (d, pk)) g (asdict u) n))).
  rewrite IH; [done..|]. eapply Forall_impl; [exact Hf|]. intros x. unfold expired. by rewrite Ht.
Qed.

(** A device that announces itself to a host of several of its groups is registered
    in the first of them only.  The announcement signs one update and sends it for every
    group; once the host has accepted it for one group, while its nonce is remembered
    every further copy is taken for a replay, so the cache stays as the first left it. *)
Theorem announced_to_first_group_only d pk u t g l n gs c evs :
  group_store n = Some gs ->
  Rendezvous.register t g d u pk gs (rendezvous_cache n) = (c, evs, Ok ()) ->
  text_is_empty g = false -> g ∈ _rendezvous_active_groups n ->
  Forall (fun x => expired (nonces n) (Rendezvous.r_now' x.1) (Rendezvous.r_now' t) = false) l ->
  entries (receive_all d pk u ((t, g) :: l) n) =
  <[(g, d) := Rendezvous.mk_entry g d u (Rendezvous.r_cached t)]> (entries n).
Proof.
  intros Hg Hr Hne Ha Hf. cbn [receive_all foldl].
  fold (receive_all d pk u l (fst (_on_rendezvous_register t (Some (d, pk)) g (asdict u) n))).
  assert (fst (_on_rendezvous_register t (Some (d, pk)) g (asdict u) n) = set_cache c evs n) as ->.
  { unfold _on_rendezvous_register. by rewrite Hg, Hne, bool_decide_eq_true_2, of_asdict, Hr. }
  apply register_ok in Hr as (-> & _ & _ & Hc & He).
  apply check_and_add_accepted in Hc as [Ht Hs].
  rewrite (receive_all_keeps _ _ _ _ _ (Rendezvous.r_now' t)); [exact He|exact Hs|].
  eapply Forall_impl; [exact Hf|]. intros x. unfold expired, nonces in *. simpl. by rewrite Ht.
Qed.

End Node.

(** ** The window is wider than the memory *)

Definition seconds (z : Z) : spec_float := binary_normalize 53 1024 z 0 false.

(** A cache as the application creates it, [NonceCache()]. *)
Definition new_nonces : cache := NonceCache.mk_cache (seconds 300) ∅.

Section Window.
Context `{Ed25519, Sha256}.

(** An update dated in the future can be replayed.  The freshness window is 300
    seconds to either side, the nonce is remembered for 300 seconds: an update dated 250
    seconds ahead is accepted at second 0 and the same update again at second 301. *)
Theorem future_update_replayed u pk :
  update_signed u pk = true -> Upd.timestamp u = seconds 250 ->
  let '(c1, _, ok1) := verify_endpoint_update (seconds 0) (seconds 0) u pk
                         DEFAULT_MAX_AGE_SECONDS new_nonces in
  let '(_, _, ok2) := verify_endpoint_update (seconds 301) (seconds 301) u pk
                        DEFAULT_MAX_AGE_SECONDS c1 in
  ok1 = true /\ ok2 = true.
Proof.
  intros Hs Ht. unfold verify_endpoint_update, out_of_window. rewrite Hs, Ht. simpl negb.
  cbn iota. assert (SFltb DEFAULT_MAX_AGE_SECONDS (SFabs (SFsub 53 1024 (seconds 0) (seconds 250))) = false)
    as -> by exact eq_refl.
  assert (SFltb DEFAULT_MAX_AGE_SECONDS (SFabs (SFsub 53 1024 (seconds 301) (seconds 250))) = false)
    as -> by exact eq_refl.
  unfold check_and_add at 1.
  assert (_seen (clean (seconds 0) new_nonces) = ∅) as Hc by apply map_filter_empty.
  rewrite Hc, lookup_empty. unfold check_and_add.
  assert (_seen (clean (seconds 301) {| _ttl := _ttl (clean (seconds 0) new_nonces);
            _seen := <[Upd.nonce u:=seconds 0]> ∅ |}) !! Upd.nonce u = None) as ->; [|done].
  apply map_lookup_filter_None. right. intros t. simpl. rewrite lookup_insert_eq.
  intros <-%(inj Some). done.
Qed.

End Window.

(** ** Instances *)

#[local] Existing Instances Sample.ed25519 Sample.ed25519_laws Sample.sha Sample.sha_laws
  BitText.text BitText.text_laws SampleText.compact SampleText.compact_laws SampleText.lower.

Definition no_update : EndpointUpdate := Upd.mk "" "" "" 0 (seconds 0) "" "".

(** The member's address, signed at second [z]. *)
Definition member_update (z : Z) : EndpointUpdate :=
  default no_update
    (create_endpoint_update (seconds z) "nonce" member Locator.KIND_DIRECT_V4 "10.0.0.7" 5555).

Definition member_key : bytes := public_key_bytes member.

(** A host of the team and of the club, both of which the member belongs to. *)
Definition club_cert : Membership.MembershipCertificate :=
  default no_cert (Membership.issue_membership_certificate (seconds 0) other_founder
    (device_id member) member_key "club" "member" [] None).

Definition host_groups : gdb :=
  GroupTheory.run empty_gdb
    (team_calls ++ [(at_second 4 "e4", GroupTheory.CreateGroup club);
                    (at_second 5 "e5", GroupTheory.RecordMembership club_cert)]%string).

Definition host : node :=
  mk_node (Some host_groups) (Some (LocatorStore.mk_ldb true ∅))
    (Rendezvous.mk_cache ∅ new_nonces) {["team"%string; "club"%string]} [] [] [].

Definition clock_at (z : Z) : Rendezvous.register_clock :=
  Rendezvous.mk_rclock (seconds z) (seconds z) (seconds z).

Definition member_peer : option (string * bytes) := Some (device_id member, member_key).

Definition host_inputs : list input :=
  [InRegister (clock_at 10) member_peer "team" (asdict (member_update 10));
   InUpdate (seconds 11) (seconds 11) member_peer
     (default no_update (create_endpoint_update (seconds 11) "nonce2" member
        Locator.KIND_DIRECT_V4 "10.0.0.7" 5555))].


Lemma rendezvous_answers_registered_witness :
  exists u l1 i l2,
    Rendezvous.lookup "team" (device_id member) (device_id member) host_groups
      (rendezvous_cache (steps host_inputs host)) = Ok (Some u) /\
    host_inputs = l1 ++ i :: l2 /\ registers i (steps l1 host) "team" u.
Proof.
  destruct (Rendezvous.lookup "team" (device_id member) (device_id member) host_groups
      (rendezvous_cache (steps host_inputs host))) as [[u|]|e] eqn:E;
    [|vm_compute in E; discriminate E..].
  destruct (rendezvous_answers_registered host_inputs host "team" (device_id member)
    (device_id member) host_groups u eq_refl E) as (_ & _ & _ & l1 & i & l2 & Hl & Hr).
  exists u, l1, i, l2. split_and!; [exact eq_refl|exact Hl|exact Hr].
Defined.

Lemma update_accepted_once_witness :
  snd (verify_endpoint_update (seconds 20) (seconds 20) (member_update 10) member_key
         DEFAULT_MAX_AGE_SECONDS
         (verifies [] (fst (fst (verify_endpoint_update (seconds 11) (seconds 11) (member_update 10)
            member_key DEFAULT_MAX_AGE_SECONDS new_nonces))))) = false.
Proof.
  refine (update_accepted_once (seconds 11) (seconds 11) (member_update 10) member_key new_nonces
    _ [] [] (seconds 20) (seconds 20) (member_update 10) member_key _ _ _ _).
  - vm_compute. exact eq_refl.
  - constructor.
  - vm_compute. exact eq_refl.
  - exact eq_refl.
Defined.

Lemma announced_to_first_group_only_witness :
  exists e, entries (receive_all (device_id member) member_key (member_update 10)
      [(clock_at 11, "team"%string); (clock_at 12, "club"%string)] host)
    = <[("team"%string, device_id member) := e]> ∅.
Proof.
  destruct (Rendezvous.register (clock_at 11) "team" (device_id member) (member_update 10)
    member_key host_groups (rendezvous_cache host)) as [[c evs] [[]|e]] eqn:E;
    [|vm_compute in E; discriminate E].
  eexists.
  refine (announced_to_first_group_only (device_id member) member_key (member_update 10)
    (clock_at 11) "team" [(clock_at 12, "club"%string)] host host_groups c evs _ E _ _ _).
  - exact eq_refl.
  - exact eq_refl.
  - vm_compute. exact eq_refl.
  - constructor; [vm_compute; exact eq_refl|constructor].
Defined.

Lemma future_update_replayed_witness :
  snd (verify_endpoint_update (seconds 301) (seconds 301) (member_update 250) member_key
         DEFAULT_MAX_AGE_SECONDS
         (fst (fst (verify_endpoint_update (seconds 0) (seconds 0) (member_update 250) member_key
            DEFAULT_MAX_AGE_SECONDS new_nonces)))) = true.
Proof.
  pose proof (future_update_replayed (member_update 250) member_key) as Hr.
  destruct (verify_endpoint_update (seconds 0) _ _ _ _ _) as [[c1 e1] ok1].
  cbn [fst]. destruct (verify_endpoint_update (seconds 301) _ _ _ _ _) as [[c2 e2] ok2].
  apply Hr; vm_compute; exact eq_refl.
Defined.
