(* ===== verification/Files.v ===== *)
(** * File names and the downloads directory

    Models [core/security/filenames.py] (modules [Filenames] and [FilenameTheory]) and
    the operating-system calls on the downloads directory (module [FS]): a directory is
    a map from the names of its entries to files. *)

From Corelib Require Import SpecFloat.
From S2P Require Import Prelude Text Json Messages Crypto.
Local Open Scope Z_scope.

(** ** Text as characters

    A Python [str] as the list of its characters, each the UTF-8 bytes of a code
    point. *)
Abbreviation text := (list bytes).

Definition str_chars (s : string) : text := chars (str_bytes s).
Definition chars_str (t : text) : string := bytes_str (unchars t).

(** A character of one to four bytes, the lead byte giving the length. *)
Definition utf8_char (g : bytes) : bool :=
  match g with
  | [] => false
  | c :: g' =>
      let n := byte.unsigned c in
      forallb is_cont g' &&
      (if n <? 128 then (length g' =? 0)%nat
       else if (192 <=? n) && (n <? 224) then (length g' =? 1)%nat
       else if (224 <=? n) && (n <? 240) then (length g' =? 2)%nat
       else (240 <=? n) && (length g' =? 3)%nat)
  end.

Definition is_text (t : text) : bool := forallb utf8_char t.

(** The character [g] is the ASCII character [c]. *)
Definition is_ch (c : byte) (g : bytes) : bool := bool_decide (g = [c]).
Definition one_of (cs : bytes) (g : bytes) : bool := existsb (fun c => is_ch c g) cs.

(** [str.isspace] of one character. *)
Definition is_space_char (g : bytes) : bool :=
  match map byte.unsigned g with
  | [c] => (9 <=? c) && (c <=? 13) || (28 <=? c) && (c <=? 32)
  | [0xC2; c] => (c =? 0x85) || (c =? 0xA0)
  | [0xE1; 0x9A; c] => c =? 0x80
  | [0xE2; 0x80; c] =>
      (0x80 <=? c) && (c <=? 0x8A) || (c =? 0xA8) || (c =? 0xA9) || (c =? 0xAF)
  | [0xE2; 0x81; c] => c =? 0x9F
  | [0xE3; 0x80; c] => c =? 0x80
  | _ => false
  end.

Fixpoint takewhile {A} (p : A -> bool) (l : list A) : list A :=
  match l with
  | [] => []
  | x :: l' => if p x then x :: takewhile p l' else []
  end.

Fixpoint dropwhile {A} (p : A -> bool) (l : list A) : list A :=
  match l with
  | [] => []
  | x :: l' => if p x then dropwhile p l' else l
  end.

(** [rstrip] and [strip] of the characters that satisfy [p]. *)
Definition rstrip {A} (p : A -> bool) (l : list A) : list A := rev (dropwhile p (rev l)).
Definition strip_chars {A} (p : A -> bool) (l : list A) : list A := rstrip p (dropwhile p l).

(** The number of bytes of the UTF-8 encoding. *)
Definition byte_len (t : text) : Z := zlen (unchars t).

(** [t.encode()[:n].decode("utf-8", "ignore")]: the characters that fit whole. *)
Fixpoint fit (n : Z) (t : text) : text :=
  match t with
  | [] => []
  | g :: t' => if zlen g <=? n then g :: fit (n - zlen g) t' else []
  end.

(** [os.path.splitext]: the extension starts at the last dot of the last component,
    unless only dots precede it there. *)
Fixpoint split_last_dot (t : text) : option (text * text) :=
  match t with
  | [] => None
  | g :: t' =>
      match split_last_dot t' with
      | Some (a, b) => Some (g :: a, b)
      | None => if is_ch "."%byte g then Some ([], t) else None
      end
  end.

Definition splitext (t : text) : text * text :=
  let name := rev (takewhile (fun g => negb (is_ch "/"%byte g)) (rev t)) in
  let dir := take (length t - length name) t in
  match split_last_dot name with
  | Some (stem, ext) =>
      if forallb (is_ch "."%byte) stem then (t, []) else (dir ++ stem, ext)
  | None => (t, [])
  end.

(** ** Safe file names *)
Module Filenames.

Definition MAX_FILENAME_BYTES : Z := 255.
Definition _MAX_EXTENSION_BYTES : Z := 16.

Definition _WINDOWS_RESERVED : list string :=
  ["CON"; "PRN"; "AUX"; "NUL";
   "COM1"; "COM2"; "COM3"; "COM4"; "COM5"; "COM6"; "COM7"; "COM8"; "COM9";
   "LPT1"; "LPT2"; "LPT3"; "LPT4"; "LPT5"; "LPT6"; "LPT7"; "LPT8"; "LPT9"]%string.

Definition _WINDOWS_ILLEGAL : bytes :=
  ["<"; ">"; ":"; Byte.x22; "|"; "?"; "*"]%byte.

Definition _truncate (name : text) (max_bytes : Z) : text :=
  if byte_len name <=? max_bytes then name
  else
    let '(stem, ext) := splitext name in
    let '(stem, ext) := if _MAX_EXTENSION_BYTES <? byte_len ext then (name, []) else (stem, ext) in
    let budget := max_bytes - byte_len ext in
    let stem := fit budget stem in
    (if bool_decide (stem = []) then str_chars "file" else stem) ++ ext.

(** [str.upper] of one character, for ASCII letters; no other character has an
    upper-case form made of the letters of a reserved name. *)
Definition upper_char (g : bytes) : bytes :=
  match g with
  | [c] => let n := byte.unsigned c in
           if (97 <=? n) && (n <=? 122) then [byte.of_Z (n - 32)] else g
  | _ => g
  end.

Definition is_reserved (leaf : text) : bool :=
  let head := map upper_char (takewhile (fun g => negb (is_ch "."%byte g)) leaf) in
  existsb (fun r => bool_decide (head = str_chars r)) _WINDOWS_RESERVED.

Definition printable (g : bytes) : bool :=
  match g with
  | [c] => (32 <=? byte.unsigned c) && negb (byte.unsigned c =? 127)
  | _ => true
  end.

(** The last component, either separator. *)
Definition leaf_of (t : text) : text :=
  rev (takewhile (fun g => negb (one_of ["/"; "\"]%byte g)) (rev t)).

(** What remains of a name before the reserved-name prefix and the truncation. *)
Definition clean_leaf (windows : bool) (t : text) : text :=
  let leaf := strip_chars is_space_char (List.filter printable (leaf_of t)) in
  if windows then
    rstrip (one_of ["."; " "]%byte)
      (map (fun g => if one_of _WINDOWS_ILLEGAL g then ["_"%byte] else g) leaf)
  else leaf.

Definition unusable_leaf (leaf : text) : bool :=
  bool_decide (leaf = []) || bool_decide (leaf = str_chars ".")
    || bool_decide (leaf = str_chars "..").

(** [None] is [UnsafeFilenameError]; [name] is the object passed. *)
Definition sanitize_filename (name : json) (fallback : option string) (windows : bool)
    (max_bytes : Z) : option string :=
  match name with
  | JStr s =>
      let leaf := clean_leaf windows (str_chars s) in
      if unusable_leaf leaf then fallback
      else
        let leaf := if windows && is_reserved leaf then ["_"%byte] :: leaf else leaf in
        Some (chars_str (_truncate leaf max_bytes))
  | _ => fallback
  end.

End Filenames.

(** ** Facts about characters *)

Section Whiles.
Context {A : Type} (p : A -> bool) (P : A -> Prop).

Lemma Forall_takewhile l : Forall P l -> Forall P (takewhile p l).
Proof. induction 1; simpl; [constructor|]. destruct (p x); by constructor. Qed.

Lemma takewhile_all l : Forall (fun x => p x = true) (takewhile p l).
Proof. induction l; simpl; [constructor|]. destruct (p a) eqn:E; by constructor. Qed.

Lemma Forall_dropwhile l : Forall P l -> Forall P (dropwhile p l).
Proof. induction 1; simpl; [constructor|]. destruct (p x); [done|by constructor]. Qed.

Lemma Forall_rstrip l : Forall P l -> Forall P (rstrip p l).
Proof. intros H. by apply Forall_rev, Forall_dropwhile, Forall_rev. Qed.

Lemma Forall_strip_chars l : Forall P l -> Forall P (strip_chars p l).
Proof. intros H. by apply Forall_rstrip, Forall_dropwhile. Qed.

Lemma Forall_list_filter l : Forall P l -> Forall P (List.filter p l).
Proof. induction 1; simpl; [constructor|]. destruct (p x); [by constructor|done]. Qed.

Lemma list_filter_all l : Forall (fun x => p x = true) (List.filter p l).
Proof. induction l; simpl; [constructor|]. destruct (p a) eqn:E; [by constructor|done]. Qed.

Lemma takewhile_app l k :
  takewhile p (l ++ k) =
    if forallb p l then l ++ takewhile p k else takewhile p l.
Proof.
  induction l as [|x l IH]; simpl; [done|]. destruct (p x); simpl; [|done].
  rewrite IH. by destruct (forallb p l).
Qed.

End Whiles.

Lemma byte_len_app t u : byte_len (t ++ u) = byte_len t + byte_len u.
Proof. unfold byte_len, unchars. by rewrite concat_app, zlen_app. Qed.

Lemma byte_len_cons g t : byte_len (g :: t) = zlen g + byte_len t.
Proof. unfold byte_len, unchars. simpl. by rewrite zlen_app. Qed.

Lemma byte_len_nonneg t : 0 <= byte_len t.
Proof. apply zlen_nonneg. Qed.

Lemma utf8_char_size g : utf8_char g = true -> 1 <= zlen g <= 4.
Proof.
  unfold utf8_char, zlen. destruct g as [|c g]; [done|]. intros H.
  apply andb_true_iff in H as [_ H]. simpl length.
  repeat case_match; repeat match goal with
  | H : (_ && _) = true |- _ => apply andb_true_iff in H as [? ?]
  | H : Nat.eqb _ _ = true |- _ => apply Nat.eqb_eq in H
  end; lia.
Qed.

Lemma is_text_Forall t : is_text t = true <-> Forall (fun g => utf8_char g = true) t.
Proof. unfold is_text. rewrite forallb_forall, Forall_forall. by setoid_rewrite list_elem_of_In. Qed.

(** The characters of a text are found again in its bytes. *)
Lemma lead_not_cont c g : utf8_char (c :: g) = true -> is_cont c = false.
Proof.
  unfold utf8_char, is_cont. intros H. apply andb_true_iff in H as [_ H].
  apply andb_false_iff. revert H. repeat case_match; bool_to_prop; intros; bool_to_prop;
    rewrite Z.leb_gt, Z.ltb_ge; lia.
Qed.

Lemma chars_head c s : exists g t, chars (c :: s) = (c :: g) :: t.
Proof. simpl. destruct (chars s) as [|[|d g] t]; eauto. destruct (is_cont d); eauto. Qed.

Definition starts_char (s : bytes) : bool :=
  match s with [] => true | d :: _ => negb (is_cont d) end.

Lemma chars_char h c rest :
  forallb is_cont h = true -> starts_char rest = true ->
  chars (c :: h ++ rest) = (c :: h) :: chars rest.
Proof.
  revert c. induction h as [|d h IH]; intros c Hh Hr.
  - destruct rest as [|d rest]; [done|]. simpl app.
    destruct (chars_head d rest) as (g & t & E).
    change (chars (c :: d :: rest)) with
      (match chars (d :: rest) with
       | (d :: g) :: rest => if is_cont d then (c :: d :: g) :: rest else [c] :: (d :: g) :: rest
       | r => [c] :: r
       end).
    rewrite E. simpl in Hr. by destruct (is_cont d).
  - simpl in Hh. apply andb_true_iff in Hh as [Hd Hh]. simpl app.
    change (chars (c :: d :: h ++ rest)) with
      (match chars (d :: h ++ rest) with
       | (d :: g) :: rest => if is_cont d then (c :: d :: g) :: rest else [c] :: (d :: g) :: rest
       | r => [c] :: r
       end).
    rewrite IH by done. by rewrite Hd.
Qed.

Lemma chars_unchars t : is_text t = true -> chars (unchars t) = t.
Proof.
  induction t as [|[|c g] t IH]; [done|done|].
  intros H. unfold is_text in H. cbn [forallb] in H. apply andb_true_iff in H as [Hg Ht].
  change (unchars ((c :: g) :: t)) with (c :: g ++ unchars t).
  rewrite chars_char, IH; [done|done| |].
  - by apply andb_true_iff in Hg as [? _].
  - destruct t as [|[|d h] t]; [done|done|]. cbn [forallb] in Ht. simpl. apply andb_true_iff in Ht as [Hd _].
    by rewrite (lead_not_cont _ _ Hd).
Qed.

Lemma str_chars_str t : is_text t = true -> str_chars (chars_str t) = t.
Proof.
  intros Ht. unfold str_chars, chars_str. rewrite String.list_byte_of_string_of_list_byte.
  by apply chars_unchars.
Qed.

(** *** Truncation *)

Lemma Forall_fit (P : bytes -> Prop) n t : Forall P t -> Forall P (fit n t).
Proof.
  intros H. revert n. induction H; intros n; simpl; [constructor|]. destruct (_ <=? _); by constructor.
Qed.

Lemma fit_prefix n t : exists u, t = fit n t ++ u.
Proof.
  revert n. induction t as [|g t IH]; intros n; simpl; [by exists []|].
  destruct (_ <=? _); [|by exists (g :: t)]. destruct (IH (n - zlen g)) as [u Hu].
  exists u. simpl. by rewrite <- Hu.
Qed.

Lemma fit_upper n t : 0 <= n -> byte_len (fit n t) <= n.
Proof.
  revert n. induction t as [|g t IH]; intros n Hn; simpl; [done|].
  destruct (Z.leb_spec (zlen g) n); [|done]. rewrite byte_len_cons.
  specialize (IH (n - zlen g)). lia.
Qed.

Lemma fit_lower n t : is_text t = true -> n < byte_len t -> n - 4 < byte_len (fit n t).
Proof.
  revert n. induction t as [|g t IH]; intros n; simpl.
  - unfold byte_len. simpl. unfold zlen. simpl. lia.
  - intros [Hg Ht]%andb_true_iff. rewrite byte_len_cons. intros Hn.
    apply utf8_char_size in Hg. destruct (Z.leb_spec (zlen g) n).
    + rewrite byte_len_cons. specialize (IH (n - zlen g) Ht). lia.
    + unfold byte_len. simpl. unfold zlen in *. simpl. lia.
Qed.

Lemma split_last_dot_spec t a b :
  split_last_dot t = Some (a, b) -> t = a ++ b /\ exists b', b = ["."%byte] :: b'.
Proof.
  revert a b. induction t as [|g t IH]; intros a b; simpl; [done|].
  destruct (split_last_dot t) as [[a' b']|] eqn:E.
  - intros [= <- <-]. destruct (IH a' b' eq_refl) as [-> Hb]. done.
  - unfold is_ch. case_bool_decide as Hg; [|done]. intros [= <- <-]. subst g. eauto.
Qed.

Lemma rev_takewhile_suffix {A} (p : A -> bool) (t : list A) :
  take (length t - length (rev (takewhile p (rev t)))) t ++ rev (takewhile p (rev t)) = t.
Proof.
  assert (forall l : list A, l = takewhile p l ++ dropwhile p l) as Hsplit.
  { induction l as [|x l IH]; simpl; [done|]. destruct (p x); [|done]. simpl. by rewrite <- IH. }
  pose proof (Hsplit (rev t)) as H. apply (f_equal (@rev A)) in H.
  rewrite rev_involutive, rev_app_distr in H.
  set (u := rev (dropwhile p (rev t))) in *. set (v := rev (takewhile p (rev t))) in *.
  rewrite H, length_app. replace (length u + length v - length v)%nat with (length u) by lia.
  by rewrite take_app_length.
Qed.

Lemma splitext_spec t stem ext :
  splitext t = (stem, ext) -> t = stem ++ ext /\ (ext = [] \/ exists e, ext = ["."%byte] :: e).
Proof.
  unfold splitext. destruct (split_last_dot _) as [[a b]|] eqn:E.
  - apply split_last_dot_spec in E as [E Hb]. destruct (forallb _ a).
    + intros [= <- <-]. rewrite app_nil_r. auto.
    + intros [= <- <-]. split; [|auto]. rewrite <- app_assoc, <- E.
      symmetry. apply rev_takewhile_suffix.
  - intros [= <- <-]. rewrite app_nil_r. auto.
Qed.

(** ** What sanitizing guarantees *)
Module FilenameTheory.
Import Filenames.

Lemma is_text_app t u : is_text (t ++ u) = is_text t && is_text u.
Proof. apply forallb_app. Qed.

(** A truncated name keeps a prefix of at least a dozen bytes and the extension. *)
Lemma truncate_cut t max :
  is_text t = true -> 32 <= max -> max < byte_len t ->
  exists pre u ext, _truncate t max = pre ++ ext /\ t = pre ++ u ++ ext /\
    12 < byte_len pre /\ byte_len (pre ++ ext) <= max /\
    (ext = [] \/ exists e, ext = ["."%byte] :: e).
Proof.
  intros Ht Hmax Hlen. unfold _truncate. destruct (Z.leb_spec (byte_len t) max); [lia|].
  destruct (splitext t) as [stem0 ext0] eqn:Es. apply splitext_spec in Es as [Es Hext].
  assert (exists stem ext, (if _MAX_EXTENSION_BYTES <? byte_len ext0 then (t, []) else (stem0, ext0))
    = (stem, ext) /\ t = stem ++ ext /\ byte_len ext <= 16 /\
      (ext = [] \/ exists e, ext = ["."%byte] :: e)) as (stem & ext & -> & Et & Hle & He).
  { destruct (Z.ltb_spec _MAX_EXTENSION_BYTES (byte_len ext0)).
    - exists t, []. rewrite app_nil_r. split; [done|]. split; [done|].
      split; [|by left]. by vm_compute.
    - exists stem0, ext0. done. }
  assert (is_text stem = true) as Hst.
  { rewrite Et, is_text_app in Ht. by apply andb_true_iff in Ht as [? _]. }
  assert (max - byte_len ext < byte_len stem) as Hb by (rewrite Et, byte_len_app in Hlen; lia).
  pose proof (fit_lower _ _ Hst Hb) as Hlow.
  destruct (fit_prefix (max - byte_len ext) stem) as [u Hu].
  exists (fit (max - byte_len ext) stem), u, ext.
  rewrite bool_decide_false; [|intros E; rewrite E in Hlow; unfold byte_len in Hlow; simpl in Hlow;
    unfold zlen in Hlow; simpl in Hlow; unfold byte_len in Hle; unfold zlen in Hle; lia].
  split; [done|]. split; [by rewrite app_assoc, <- Hu|]. split; [lia|]. split; [|done].
  rewrite byte_len_app. pose proof (byte_len_nonneg ext).
  pose proof (fit_upper (max - byte_len ext) stem). lia.
Qed.

Lemma truncate_Forall (P : bytes -> Prop) t max :
  is_text t = true -> 32 <= max -> Forall P t -> Forall P (_truncate t max).
Proof.
  intros Ht Hmax HP. destruct (Z.lt_ge_cases max (byte_len t)) as [Hl|Hl].
  - destruct (truncate_cut t max Ht Hmax Hl) as (pre & u & ext & -> & E & _).
    rewrite E in HP. apply Forall_app in HP as [? [? ?]%Forall_app]. by apply Forall_app.
  - unfold _truncate. by rewrite (proj2 (Z.leb_le _ _)).
Qed.

Lemma ascii_char g c : utf8_char g = true -> In c g -> byte.unsigned c < 128 -> g = [c].
Proof.
  destruct g as [|d g]; [done|]. intros Hg Hin Hc.
  assert (In c g -> False) as Hno.
  { intros Hi. apply andb_true_iff in Hg as [Hf _]. rewrite forallb_forall in Hf.
    specialize (Hf _ Hi). unfold is_cont in Hf. bool_to_prop. lia. }
  destruct Hin as [->|Hi]; [|by destruct (Hno Hi)].
  apply andb_true_iff in Hg as [_ Hg]. rewrite (proj2 (Z.ltb_lt _ _) Hc) in Hg.
  apply Nat.eqb_eq in Hg. by destruct g.
Qed.

Definition harmless (g : bytes) : Prop :=
  utf8_char g = true /\ printable g = true /\ one_of ["/"; "\"]%byte g = false.

(** No control character and no separator. *)
Definition harmless_byte (c : byte) : Prop :=
  32 <= byte.unsigned c /\ byte.unsigned c <> 127 /\ c <> "/"%byte /\ c <> "\"%byte.

(** One path component of at most [max_bytes] bytes that is not [.] or [..]. *)
Definition safe_component (max_bytes : Z) (b : bytes) : Prop :=
  b <> [] /\ b <> lit "." /\ b <> lit ".." /\ zlen b <= max_bytes /\ Forall harmless_byte b.

Lemma one_of_false cs g c :
  utf8_char g = true -> one_of cs g = false -> Forall (fun d => byte.unsigned d < 128) cs ->
  In c g -> ~ In c cs.
Proof.
  intros Hg Ho Hcs Hin Hc. pose proof Hcs as Ha. rewrite Forall_forall in Ha.
  rewrite (ascii_char g c Hg Hin) in Ho by (apply Ha; by apply list_elem_of_In).
  unfold one_of in Ho. assert (existsb (fun d => is_ch d [c]) cs = true) as E; [|congruence].
  apply existsb_exists. exists c. split; [done|]. unfold is_ch. by apply bool_decide_eq_true.
Qed.

Lemma unchars_Forall (P : bytes -> Prop) (Q : byte -> Prop) t :
  (forall g c, P g -> In c g -> Q c) -> Forall P t -> Forall Q (unchars t).
Proof.
  intros H. induction 1 as [|g t Hg Ht IH]; [constructor|].
  unfold unchars. simpl. apply Forall_app. split; [|done].
  apply Forall_forall. intros c Hc. apply (H g); [done|by apply list_elem_of_In].
Qed.

Lemma harmless_bytes t : Forall harmless t -> Forall harmless_byte (unchars t).
Proof.
  apply unchars_Forall. intros g c (Hu & Hp & Ho) Hin.
  pose proof (one_of_false _ g c Hu Ho) as Hn.
  assert (~ In c ["/"; "\"]%byte) as Hsep by (apply Hn; [by repeat constructor|done]). simpl in Hsep.
  assert (32 <= byte.unsigned c /\ byte.unsigned c <> 127); [|unfold harmless_byte; naive_solver].
  destruct (Z.lt_ge_cases (byte.unsigned c) 128) as [Hc|Hc]; [|lia].
  rewrite (ascii_char g c Hu Hin Hc) in Hp. simpl in Hp. bool_to_prop. lia.
Qed.

Lemma harmless_underscore : harmless ["_"%byte].
Proof. by repeat split. Qed.

(** What is left of a name is made of harmless characters. *)
Lemma clean_leaf_harmless windows t :
  is_text t = true -> Forall harmless (clean_leaf windows t).
Proof.
  intros Ht%is_text_Forall.
  assert (Forall harmless (strip_chars is_space_char (List.filter printable (leaf_of t)))) as Hl.
  { apply Forall_strip_chars. assert (Forall (fun g => utf8_char g = true /\
      one_of ["/"; "\"]%byte g = false) (leaf_of t)) as H.
    { unfold leaf_of. apply Forall_rev, Forall_and. split.
      - by apply Forall_takewhile, Forall_rev.
      - eapply Forall_impl; [apply takewhile_all|]. intros g. simpl. apply negb_true_iff. }
    eapply Forall_impl; [apply Forall_and; split; [apply list_filter_all|apply Forall_list_filter, H]|].
    intros g [? [? ?]]. done. }
  unfold clean_leaf. destruct windows; [|done].
  apply Forall_rstrip. apply Forall_fmap. eapply Forall_impl; [exact Hl|]. intros g Hg. unfold compose.
  destruct (one_of _WINDOWS_ILLEGAL g); [exact harmless_underscore|done].
Qed.

Lemma clean_leaf_legal t :
  Forall (fun g => one_of _WINDOWS_ILLEGAL g = false) (clean_leaf true t).
Proof.
  unfold clean_leaf. apply Forall_rstrip, Forall_fmap, Forall_forall. intros g _. unfold compose.
  by destruct (one_of _WINDOWS_ILLEGAL g) eqn:E.
Qed.

(** A name whose first part is long is not reserved. *)
Lemma byte_len_upper t : byte_len (map upper_char t) = byte_len t.
Proof.
  induction t as [|g t IH]; [done|]. simpl. rewrite !byte_len_cons, IH. f_equal.
  unfold upper_char. destruct g as [|c [|]]; try done. by destruct (_ && _).
Qed.

Lemma reserved_short leaf :
  is_reserved leaf = true -> byte_len (takewhile (fun g => negb (is_ch "."%byte g)) leaf) <= 4.
Proof.
  unfold is_reserved. rewrite existsb_exists. intros (r & Hr & E).
  apply bool_decide_eq_true in E. rewrite <- byte_len_upper, E.
  repeat destruct Hr as [<-|Hr]; by vm_compute.
Qed.

Lemma truncate_not_reserved leaf max :
  is_text leaf = true -> 32 <= max -> is_reserved leaf = false ->
  is_reserved (_truncate leaf max) = false.
Proof.
  intros Ht Hmax Hr. destruct (Z.lt_ge_cases max (byte_len leaf)) as [Hl|Hl].
  - destruct (truncate_cut leaf max Ht Hmax Hl) as (pre & u & ext & -> & E & Hp & _ & Hext).
    apply not_true_is_false. intros Hres. pose proof (reserved_short _ Hres) as Hs.
    rewrite takewhile_app in Hs. destruct (forallb _ pre) eqn:Ef.
    + rewrite byte_len_app in Hs. pose proof (byte_len_nonneg (takewhile (fun g => negb (is_ch "."%byte g)) ext)). lia.
    + revert Hr Hres. unfold is_reserved. rewrite E, !takewhile_app, Ef. congruence.
  - unfold _truncate. by rewrite (proj2 (Z.leb_le _ _)).
Qed.

Lemma underscore_not_reserved leaf : is_reserved (["_"%byte] :: leaf) = false.
Proof.
  unfold is_reserved. apply not_true_is_false. rewrite existsb_exists. intros (r & Hr & E).
  apply bool_decide_eq_true in E. revert E. simpl.
  repeat destruct Hr as [<-|Hr]; try done; vm_compute; discriminate.
Qed.

Lemma usable_leaf leaf :
  unusable_leaf leaf = false -> leaf <> [] /\ leaf <> str_chars "." /\ leaf <> str_chars "..".
Proof. unfold unusable_leaf. intros H. bool_to_prop. done. Qed.

(** The leaf just before the truncation. *)
Definition named (windows : bool) (leaf : text) : text :=
  if windows && is_reserved leaf then ["_"%byte] :: leaf else leaf.

Lemma named_Forall (P : bytes -> Prop) windows leaf :
  P ["_"%byte] -> Forall P leaf -> Forall P (named windows leaf).
Proof. unfold named. intros. destruct (_ && _); [by constructor|done]. Qed.

Lemma harmless_text t : Forall harmless t -> is_text t = true.
Proof. intros H. apply is_text_Forall. eapply Forall_impl; [exact H|]. by intros g [? _]. Qed.

Lemma chars_neq t u : is_text t = true -> is_text u = true -> t <> u -> unchars t <> unchars u.
Proof.
  intros Ht Hu Hne E. apply Hne. rewrite <- (chars_unchars t), <- (chars_unchars u) by done.
  by rewrite E.
Qed.

Lemma named_safe windows leaf max_bytes :
  Forall harmless (named windows leaf) -> 32 <= max_bytes ->
  leaf <> [] /\ leaf <> str_chars "." /\ leaf <> str_chars ".." ->
  safe_component max_bytes (str_bytes (chars_str (_truncate (named windows leaf) max_bytes))).
Proof.
  intros Hn Hmax (H0 & H1 & H2). pose proof (harmless_text _ Hn) as Ht.
  pose proof (truncate_Forall _ _ max_bytes Ht Hmax Hn) as Hc.
  unfold chars_str. rewrite String.list_byte_of_string_of_list_byte. unfold safe_component.
  assert (byte_len (_truncate (named windows leaf) max_bytes) <= max_bytes /\
    _truncate (named windows leaf) max_bytes <> [] /\
    _truncate (named windows leaf) max_bytes <> str_chars "." /\
    _truncate (named windows leaf) max_bytes <> str_chars "..") as (Hl & N0 & N1 & N2).
  { destruct (Z.lt_ge_cases max_bytes (byte_len (named windows leaf))) as [Hb|Hb].
    - destruct (truncate_cut _ max_bytes Ht Hmax Hb) as (pre & u & ext & -> & _ & Hp & Hle & _).
      split; [done|]. pose proof (byte_len_nonneg ext) as He.
      split; [|split]; intros E; apply (f_equal byte_len) in E; rewrite byte_len_app in E;
        [change (byte_len []) with 0 in E|change (byte_len _) with 1 in E at 3
        |change (byte_len _) with 2 in E at 3]; lia.
    - unfold _truncate. rewrite (proj2 (Z.leb_le _ _)) by done. split; [done|].
      unfold named. destruct (_ && _); done. }
  pose proof (harmless_text _ Hc) as Htc.
  split; [by apply (chars_neq _ [])|]. split; [by apply (chars_neq _ (str_chars "."))|].
  split; [by apply (chars_neq _ (str_chars ".."))|]. split; [done|by apply harmless_bytes].
Qed.

Lemma sanitized_component s windows max_bytes r :
  is_text (str_chars s) = true -> 32 <= max_bytes ->
  sanitize_filename (JStr s) None windows max_bytes = Some r ->
  safe_component max_bytes (str_bytes r).
Proof.
  intros Hs Hmax. unfold sanitize_filename. destruct (unusable_leaf _) eqn:Hu; [done|].
  apply usable_leaf in Hu. intros Hr. apply (inj Some) in Hr. subst r.
  apply named_safe; [|done|done].
  apply named_Forall; [apply harmless_underscore|by apply clean_leaf_harmless].
Qed.

(** C40: a sanitized name is one harmless path component.  Whatever text a peer
    sends as a file name, what [sanitize_filename] returns is not empty, is not [.]
    or [..], has no separator of either kind and no control character, and is at most
    [max_bytes] bytes long; under the Windows rules it has no character illegal on
    NTFS and is not a reserved device name. *)
Theorem sanitize_filename_safe s windows max_bytes r :
  is_text (str_chars s) = true -> 32 <= max_bytes ->
  sanitize_filename (JStr s) None windows max_bytes = Some r ->
  safe_component max_bytes (str_bytes r) /\
  (windows = true ->
     Forall (fun c => ~ In c _WINDOWS_ILLEGAL) (str_bytes r) /\ is_reserved (str_chars r) = false).
Proof.
  intros Hs Hmax Hr. split; [by eapply sanitized_component|]. intros ->. revert Hr.
  unfold sanitize_filename. destruct (unusable_leaf _) eqn:Hu; [done|].
  intros Hr. apply (inj Some) in Hr. subst r.
  change (if true && _ then _ else _) with (named true (clean_leaf true (str_chars s))).
  set (leaf := clean_leaf true (str_chars s)).
  assert (Forall harmless (named true leaf)) as Hn
    by (apply named_Forall; [apply harmless_underscore|by apply clean_leaf_harmless]).
  pose proof (harmless_text _ Hn) as Ht.
  pose proof (truncate_Forall _ _ max_bytes Ht Hmax Hn) as Hc.
  rewrite str_chars_str by (by apply harmless_text). unfold chars_str.
  rewrite String.list_byte_of_string_of_list_byte. split.
  - apply (unchars_Forall (fun g => harmless g /\ one_of _WINDOWS_ILLEGAL g = false)).
    + intros g c [(Hg & _) Ho] Hin.
      eapply one_of_false; [exact Hg|exact Ho|by repeat constructor|done].
    + apply truncate_Forall; [done..|]. apply Forall_and. split; [exact Hn|].
      apply named_Forall; [by vm_compute|apply clean_leaf_legal].
  - apply truncate_not_reserved; [done..|]. unfold named. simpl.
    destruct (is_reserved leaf) eqn:E; [apply underscore_not_reserved|done].
Qed.

Lemma sanitize_filename_safe_witness :
  sanitize_filename (JStr "..\..\Startup\evil.exe") None true 239 = Some "evil.exe"%string /\
  safe_component 239 (str_bytes "evil.exe") /\
  (true = true -> Forall (fun c => ~ In c _WINDOWS_ILLEGAL) (str_bytes "evil.exe") /\
                  is_reserved (str_chars "evil.exe") = false).
Proof.
  assert (sanitize_filename (JStr "..\..\Startup\evil.exe") None true 239
          = Some "evil.exe"%string) as E by (vm_compute; exact eq_refl).
  split; [exact E|].
  apply (sanitize_filename_safe "..\..\Startup\evil.exe" true 239 "evil.exe").
  - vm_compute. exact eq_refl.
  - lia.
  - exact E.
Defined.

(** The cut can leave a trailing dot, although the Windows rules strip them: the
    trailing characters are stripped before the truncation, not after it. *)
Definition long_name : string :=
  String.string_of_list_byte (repeat "a"%byte 238 ++ "."%byte :: repeat "b"%byte 20).

Lemma truncated_trailing_dot :
  sanitize_filename (JStr long_name) None true 239
  = Some (String.string_of_list_byte (repeat "a"%byte 238 ++ ["."%byte])).
Proof. vm_compute. reflexivity. Qed.

End FilenameTheory.

(** ** The downloads directory

    The names of one directory.  A name is a file, a directory or a symbolic link;
    a link leads to an existing file or nowhere, and its target is inside the
    directory or outside.  Two names, or a name and an open handle, can share one
    inode. *)
Module FS.

Inductive entry : Type :=
| EFile (i : nat)
| EDir
| ELink (target : option nat) (inside : bool).

Record fs := mk_fs {
  entries : gmap string entry;
  contents : gmap nat bytes;
  next_inode : nat
}.

Definition inode_of (e : entry) : option nat :=
  match e with EFile i => Some i | ELink t _ => t | EDir => None end.

(** [os.path.exists], [isfile] and [islink]. *)
Definition exists_ (n : string) (d : fs) : bool :=
  match entries d !! n with
  | Some (EFile _) | Some EDir => true
  | Some (ELink t _) => bool_decide (is_Some t)
  | None => false
  end.

Definition isfile (n : string) (d : fs) : bool :=
  bool_decide (is_Some (entries d !! n ≫= inode_of)).

Definition islink (n : string) (d : fs) : bool :=
  match entries d !! n with Some (ELink _ _) => true | _ => false end.

Definition content (d : fs) (i : nat) : bytes := default [] (contents d !! i).

(** The bytes of a regular file; [None] is an [OSError]. *)
Definition read (n : string) (d : fs) : option bytes :=
  content d <$> (entries d !! n ≫= inode_of).

Definition getsize (n : string) (d : fs) : option Z := zlen <$> read n d.

Definition set_entries (f : gmap string entry -> gmap string entry) (d : fs) : fs :=
  {| entries := f (entries d); contents := contents d; next_inode := next_inode d |}.

Definition set_content (i : nat) (b : bytes) (d : fs) : fs :=
  {| entries := entries d; contents := <[i := b]> (contents d); next_inode := next_inode d |}.

(** [os.remove], errors ignored: a directory stays. *)
Definition remove (n : string) (d : fs) : fs :=
  match entries d !! n with
  | Some EDir | None => d
  | _ => set_entries (delete n) d
  end.

(** [os.replace(src, dst)]; [None] is an [OSError]. *)
Definition replace (src dst : string) (d : fs) : option fs :=
  match entries d !! src, entries d !! dst with
  | None, _ => None
  | Some EDir, _ => None
  | _, Some EDir => None
  | Some e, _ => Some (set_entries (fun es => <[dst := e]> (delete src es)) d)
  end.

(** A new file with the given bytes takes the name (the temporary file that is moved
    into place). *)
Definition put_file (n : string) (b : bytes) (d : fs) : fs :=
  {| entries := <[n := EFile (next_inode d)]> (entries d);
     contents := <[next_inode d := b]> (contents d);
     next_inode := S (next_inode d) |}.

(** An open binary file: its inode and its position. *)
Record handle := mk_handle { h_inode : nat; h_pos : nat }.

(** [open(n, "wb")]: truncates the file the name leads to, or creates one. *)
Definition open_wb (n : string) (d : fs) : option (handle * fs) :=
  match entries d !! n with
  | Some EDir => None
  | Some (EFile i) | Some (ELink (Some i) _) => Some (mk_handle i 0, set_content i [] d)
  | Some (ELink None b) =>
      Some (mk_handle (next_inode d) 0,
            {| entries := <[n := ELink (Some (next_inode d)) b]> (entries d);
               contents := <[next_inode d := []]> (contents d);
               next_inode := S (next_inode d) |})
  | None => Some (mk_handle (next_inode d) 0, put_file n [] d)
  end.

(** [open(n, "r+b")]. *)
Definition open_rw (n : string) (d : fs) : option handle :=
  (fun i => mk_handle i 0) <$> (entries d !! n ≫= inode_of).

Definition seek (pos : nat) (h : handle) : handle := mk_handle (h_inode h) pos.

(** Zero bytes fill a gap. *)
Definition pad_to (n : nat) (b : bytes) : bytes := b ++ repeat Byte.x00 (n - length b).

Definition truncate (n : nat) (h : handle) (d : fs) : fs :=
  set_content (h_inode h) (take n (pad_to n (content d (h_inode h)))) d.

Definition write_at (pos : nat) (data b : bytes) : bytes :=
  take pos (pad_to pos b) ++ data ++ drop (pos + length data) b.

Definition write (data : bytes) (h : handle) (d : fs) : handle * fs :=
  (mk_handle (h_inode h) (h_pos h + length data),
   set_content (h_inode h) (write_at (h_pos h) data (content d (h_inode h))) d).

(** [close()], which writes out the buffer: [lost] trailing bytes never reach the
    file when it fails. *)
Definition close (lost : nat) (h : handle) (d : fs) : fs :=
  if (lost =? 0)%nat then d
  else set_content (h_inode h) (take (h_pos h - lost) (content d (h_inode h))) d.

End FS.
