(* ===== verification/Discovery.v ===== *)
(** * Finding peers on the local network

    Models [core/discovery/registry.py] (module [PeerRegistry]), the announcements of
    [core/discovery/broadcast.py] (module [Announce]) and their mDNS form in
    [core/discovery/mdns.py] (module [Mdns]).  The sockets, the loops that send every few
    seconds and the [zeroconf] package are not modelled: a datagram that arrives is an
    argument, one that is sent an effect.

    The codec of [json] and SHA-256 are the interfaces of [Json] and [Crypto]; the decimal
    digits of Unicode are an interface of which the ASCII part is known. *)

From Corelib Require Import SpecFloat.
From S2P Require Import Prelude Dicts Text Json Crypto Canonical Messages Trust Files.
Import Identity.
Local Open Scope peerc_scope.
Local Open Scope Z_scope.

(** ** Numbers in texts *)

(** [str.isdigit] of one character, and the value [int] gives it. *)
Class UnicodeDigits := {
  char_isdigit : bytes -> bool;
  char_decimal : bytes -> option Z
}.

Definition ascii_digit (g : bytes) : option Z :=
  match map byte.unsigned g with
  | [c] => if (48 <=? c) && (c <=? 57) then Some (c - 48) else None
  | _ => None
  end.

Class UnicodeDigitsLaws `{UnicodeDigits} : Prop := {
  char_decimal_ascii c : byte.unsigned c < 128 -> char_decimal [c] = ascii_digit [c];
  char_isdigit_ascii c : byte.unsigned c < 128 -> char_isdigit [c] = bool_decide (is_Some (ascii_digit [c]))
}.

(** [t.isdigit()]. *)
Definition text_isdigit `{UnicodeDigits} (t : text) : bool :=
  negb (bool_decide (t = [])) && forallb char_isdigit t.

(** Digits with single underscores between them. *)
Fixpoint digits_value `{UnicodeDigits} (acc : Z) (after_digit : bool) (t : text) : option Z :=
  match t with
  | [] => if after_digit then Some acc else None
  | g :: t' =>
      if is_ch "_"%byte g then if after_digit then digits_value acc false t' else None
      else match char_decimal g with
           | Some d => digits_value (10 * acc + d) true t'
           | None => None
           end
  end.

(** [sys.get_int_max_str_digits()]. *)
Definition MAX_STR_DIGITS : nat := 4300.

(** [int(s)] of a text, [None] for [ValueError]. *)
Definition py_int `{UnicodeDigits} (t : text) : option Z :=
  let t := strip_chars is_space_char t in
  let '(sign, t) :=
    match t with
    | g :: t' => if is_ch "-"%byte g then (-1, t') else if is_ch "+"%byte g then (1, t') else (1, t)
    | [] => (1, t)
    end in
  if decide (MAX_STR_DIGITS < length (List.filter (fun g => negb (is_ch "_"%byte g)) t))%nat then None
  else Z.mul sign <$> digits_value 0 false t.

(** [base64.b64decode(s, validate=True)]: no other character, nothing after the padding. *)
Fixpoint a2b_strict (quad_pos : nat) (left : Z) (pads : nat) (padding_started : bool) (s : bytes) : option bytes :=
  match s with
  | [] => if decide (quad_pos = 0%nat) then Some [] else None
  | c :: s' =>
      if bool_decide (c = "="%byte) then
        if decide (2 <= quad_pos /\ 4 <= quad_pos + S pads)%nat then
          match s' with [] => Some [] | _ => None end
        else a2b_strict quad_pos left (if decide (2 <= quad_pos)%nat then S pads else pads) true s'
      else match b64_value c with
           | None => None
           | Some v =>
               if padding_started then None
               else match quad_pos with
                    | 0%nat => a2b_strict 1 v 0 false s'
                    | 1%nat => cons (byte.of_Z (left * 4 + v / 16)) <$> a2b_strict 2 (v mod 16) 0 false s'
                    | 2%nat => cons (byte.of_Z (left * 16 + v / 4)) <$> a2b_strict 3 (v mod 4) 0 false s'
                    | _ => cons (byte.of_Z (left * 64 + v)) <$> a2b_strict 0 0 0 false s'
                    end
           end
  end.

Definition b64decode_strict (s : bytes) : option bytes :=
  match s with
  | [] => Some []
  | c :: _ => if bool_decide (c = "="%byte) then None else if is_ascii s then a2b_strict 0 0 0 false s else None
  end.

(** ** The registry of peers *)
Module PeerRegistry.

(** [10.0]. *)
Definition PEER_TIMEOUT : spec_float := S754_finite false 5629499534213120 (-49).

(** [tcp_port] is an [int], which in Python a [bool] is too: [JInt] or [JBool]. *)
Record Peer := mk_peer {
  peer_id : string;
  name : string;
  ip : string;
  tcp_port : json;
  public_key : bytes;
  model : string;
  last_seen : spec_float
}.

Abbreviation registry := (list (string * Peer)).

(** The callbacks that an operation makes. *)
Inductive notice : Type := PeerNew (p : Peer) | PeerLost (p : Peer).

Definition get (id : string) (r : registry) : option Peer := OrderedDict.get id r.
Definition list_peers (r : registry) : list Peer := map snd r.

(** An existing peer keeps its key and its model when the new ones are empty. *)
Definition upsert (now : spec_float) (id nm address : string) (port : json) (pk : bytes) (mdl : string)
    (r : registry) : registry * list notice :=
  match OrderedDict.get id r with
  | None =>
      let p := mk_peer id nm address port pk mdl now in (OrderedDict.set id p r, [PeerNew p])
  | Some e =>
      (OrderedDict.set id
         (mk_peer (peer_id e) nm address port (if bool_decide (pk = []) then public_key e else pk)
            (if text_is_empty mdl then model e else mdl) now) r, [])
  end.

Definition is_stale (now : spec_float) (p : Peer) : bool :=
  SFltb PEER_TIMEOUT (SFsub 53 1024 now (last_seen p)).

Definition prune_stale (now : spec_float) (r : registry) : registry * list notice :=
  (List.filter (fun kp => negb (is_stale now (snd kp))) r,
   map (fun kp => PeerLost (snd kp)) (List.filter (fun kp => is_stale now (snd kp)) r)).

End PeerRegistry.

(** ** Announcements *)
Module Announce.
Import PeerRegistry.

Definition BROADCAST_PORT : Z := 9999.
Definition PROTOCOL_VERSION : Z := 2.

(** This device, as it announces itself. *)
Record Discovery := mk_discovery {
  d_peer_id : string;
  d_name : string;
  d_tcp_port : Z;
  d_public_key : bytes;
  d_model : string
}.

(** What handling a packet does besides changing the registry. *)
Inductive effect : Type :=
| Notified (n : notice)
| AuthFailed (device_id source_ip : string)
| SentTo (address : string) (payload : json).

Definition _build_payload (reply : bool) (d : Discovery) : json :=
  JObj [("type", JStr "announce"); ("version", JInt PROTOCOL_VERSION); ("device_id", JStr (d_peer_id d));
        ("public_key", JStr (bytes_str (b64encode (d_public_key d)))); ("name", JStr (d_name d));
        ("tcp_port", JInt (d_tcp_port d)); ("model", JStr (d_model d)); ("reply", JBool reply)]%string.

Definition truncated (s : string) : string := bytes_str (str_prefix 64 (str_bytes s)).

(** [bool(v)]. *)
Definition truthy (v : json) : bool :=
  match v with
  | JNull => false
  | JBool b => b
  | JInt z => negb (z =? 0)
  | JFloat f => match f with S754_zero _ => false | _ => true end
  | JStr s => negb (text_is_empty s)
  | JList l => match l with [] => false | _ => true end
  | JObj kvs => match kvs with [] => false | _ => true end
  end.

(** [0 < tcp_port < 65536] of an [int]. *)
Definition port_in_range (v : json) : bool :=
  match as_int v with Some z => (0 <? z) && (z <? 65536) | None => false end.

Definition str_is (s : string) (v : option json) : bool :=
  match v with Some (JStr t) => bool_decide (t = s) | _ => false end.

Definition nonempty_text (v : option json) : option string :=
  match v with Some (JStr s) => if text_is_empty s then None else Some s | _ => None end.

(** The name to show: that of the packet, or the address. *)
Definition announced_name (m : dict) (source_ip : string) : string :=
  truncated
    match jget "name" m with
    | Some (JStr s) => if bool_decide (strip_chars is_space_char (str_chars s) = []) then source_ip else s
    | _ => source_ip
    end.

Definition announced_model (m : dict) : string :=
  truncated match jget "model" m with Some (JStr s) => s | _ => EmptyString end.

Section Handle.
Context `{Sha256}.

(** [_handle_packet] of a decoded packet. *)
Definition handle_announce (now : spec_float) (d : Discovery) (source_ip : string) (v : json) (r : registry)
    : registry * list effect :=
  match v with
  | JObj m =>
      if negb (str_is "announce" (jget "type" m)) then (r, [])
      else
      match jget "version" m with
      | Some ver =>
          if negb (equals_int PROTOCOL_VERSION ver) then (r, [])
          else
            match nonempty_text (jget "device_id" m), nonempty_text (jget "public_key" m) with
            | Some device_id, Some pk_b64 =>
                match b64decode_strict (str_bytes pk_b64) with
                | None => (r, [])
                | Some pk =>
                    if negb (length pk =? 32)%nat then (r, [])
                    else if negb (bool_decide (compute_device_id pk = device_id)) then
                      (r, [AuthFailed device_id source_ip])
                    else if bool_decide (device_id = d_peer_id d) then (r, [])
                    else
                      let port := default (JInt 0) (jget "tcp_port" m) in
                      if negb (port_in_range port) then (r, [])
                      else
                        let '(r', ns) := upsert now device_id (announced_name m source_ip) source_ip port pk
                                           (announced_model m) r in
                        (r', map Notified ns
                             ++ if truthy (default (JBool true) (jget "reply" m))
                                then [SentTo source_ip (_build_payload false d)] else [])
                end
            | _, _ => (r, [])
            end
      | None => (r, [])
      end
  | _ => (r, [])
  end.

Definition _handle_packet `{JsonText} (now : spec_float) (d : Discovery) (source_ip : string) (data : bytes)
    (r : registry) : registry * list effect :=
  match json_loads data with
  | None => (r, [])
  | Some v => handle_announce now d source_ip v r
  end.

End Handle.
End Announce.

(** ** The mDNS form *)
Module Mdns.
Import Announce.

(** The TXT record, key by key. *)
Definition _build_mdns_txt (d : Discovery) : list (string * string) :=
  [("version", pretty PROTOCOL_VERSION); ("device_id", d_peer_id d);
   ("public_key", bytes_str (b64encode (d_public_key d))); ("name", truncated (d_name d));
   ("tcp_port", pretty (d_tcp_port d)); ("model", truncated (d_model d))]%string.

Section Txt.
Context `{UnicodeDigits}.

Definition _safe_int (s : string) : Z := default 0 (py_int (str_chars s)).

Definition txt_get (k default_ : string) (txt : list (string * string)) : string :=
  default default_ (OrderedDict.get k txt).

(** The packet that [_handle_packet] is given. *)
Definition _mdns_txt_to_packet (txt : list (string * string)) (src_ip : string) : json :=
  JObj [("type", JStr "announce");
        ("version", JInt (match OrderedDict.get "version" txt with Some s => _safe_int s | None => 0 end));
        ("device_id", JStr (txt_get "device_id" "" txt)); ("public_key", JStr (txt_get "public_key" "" txt));
        ("name", JStr (txt_get "name" src_ip txt)); ("tcp_port", JInt (_safe_int (txt_get "tcp_port" "0" txt)));
        ("model", JStr (txt_get "model" "" txt)); ("reply", JBool false)]%string.

(** [_handle_info] once the service is resolved: the packet is encoded and handled like a
    datagram. *)
Definition _handle_info `{JsonText, Sha256} (now : spec_float) (d : Discovery) (txt : list (string * string))
    (src_ip : string) (r : PeerRegistry.registry) : PeerRegistry.registry * list effect :=
  _handle_packet now d src_ip (json_dumps (_mdns_txt_to_packet txt src_ip)) r.

End Txt.
End Mdns.
