(* ===== verification/GroupApp.v ===== *)
(** * Groups in the application

    Models the [/group] commands and the group messages of [app/ui/app.py]: what the user
    types, what peers send, the requests that wait for an administrator's decision, and the
    calls each makes on the group store of [GroupStore] with the messages of [Group].

    What a handler writes to the screen is not modelled, and so the commands that only show
    tables are not either.  Clock readings and fresh identifiers are numbered within a
    handler; whether a peer can be reached is an argument.  A message given to the connection
    manager is in [outbox]. *)

From Corelib Require Import SpecFloat.
From S2P Require Import Prelude Dicts Text Json Crypto Canonical Security Messages Trust Group GroupStore.
From S2P Require Import Files Discovery.
Import Identity Rotation Membership Admin Audit Policy ExportAuth Protocol.
Local Open Scope peerc_scope.
Local Open Scope Z_scope.

(** ** Words *)

(** The first word of a text and what follows it; [None] when there is no word. *)
Definition split_word (t : text) : option (text * text) :=
  match dropwhile is_space_char t with
  | [] => None
  | t' =>
      let w := takewhile (fun g => negb (is_space_char g)) t' in
      Some (w, dropwhile is_space_char (drop (length w) t'))
  end.

(** [t.split(maxsplit=1)] of a text with a word: the second part when there is one. *)
Definition split_once (t : text) : option (string * option string) :=
  wr ← split_word t;
  Some (chars_str (fst wr), match snd wr with [] => None | r => Some (chars_str r) end).

(** [t.split()]; [fuel] counts the words. *)
Fixpoint words_from (fuel : nat) (t : text) : list string :=
  match fuel with
  | O => []
  | S fuel' =>
      match split_word t with
      | None => []
      | Some (w, rest) => chars_str w :: words_from fuel' rest
      end
  end.
Definition words (s : string) : list string := words_from (length (str_chars s)) (str_chars s).

Definition stripped (s : string) : string := chars_str (strip_chars is_space_char (str_chars s)).

(** [s.startswith(p)]. *)
Definition startswith (s p : string) : bool := bool_decide (str_bytes p `prefix_of` str_bytes s).

Definition is_blank (s : string) : bool := text_is_empty (stripped s).

(** ** The state *)
Module GroupApp.
Import PeerRegistry.
Section State.
Context `{Ed25519}.

Record group_app := mk_app {
  my_identity : option DeviceKeypair;
  my_id : string;                         (** [self.peer_id] *)
  group_store : option gdb;               (** [None] while the vault is locked *)
  _pending_join_requests : list (string * (string * GroupJoinRequest));
  _pending_leave_requests : list (string * (string * GroupLeaveRequest));
  _pending_export_requests : list (string * (string * ExportRequest));
  peers : registry;
  active_peer_id : option string;
  outbox : list (string * dict)
}.

(** What a handler observes besides its state. *)
Record env := mk_env {
  time : nat -> spec_float;          (** [time.time()], in the order of the calls *)
  fresh_id : nat -> string;          (** [uuid.uuid4().hex], [secrets.token_hex] *)
  db : nat -> clock;                 (** what the calls of the store read *)
  connects : string -> bool;         (** [_ensure_connected] *)
  linked : string -> bool            (** [manager.is_connected] *)
}.

(** Exceptions that leave a handler. *)
Inductive app_error : Type :=
| NoStore                            (** [AttributeError] of a locked vault *)
| NoIdentity                         (** [AttributeError] of a missing identity *)
| StoreRaised (e : store_error)
| KeyRaised                          (** [binascii.Error] of a key text *)
| MembershipRaised                   (** [MembershipError] *)
| ProtocolRaised                     (** [GroupProtocolError] *)
| StructRaised                       (** [struct.error] of a 4 GiB text *)
| NumberRaised                       (** [ValueError] of [float] *)
| NoWord                             (** [IndexError] of an argument without a word *)
| Unannotated (f : string).          (** a field of another type than its class declares *)

Abbreviation aop := (stm group_app app_error).

Definition set_store (s : gdb) (a : group_app) : group_app :=
  mk_app (my_identity a) (my_id a) (Some s) (_pending_join_requests a) (_pending_leave_requests a)
    (_pending_export_requests a) (peers a) (active_peer_id a) (outbox a).
Definition on_joins (f : list (string * (string * GroupJoinRequest)) -> list (string * (string * GroupJoinRequest)))
    : aop unit := modify (fun a =>
  mk_app (my_identity a) (my_id a) (group_store a) (f (_pending_join_requests a)) (_pending_leave_requests a)
    (_pending_export_requests a) (peers a) (active_peer_id a) (outbox a)).
Definition on_leaves (f : list (string * (string * GroupLeaveRequest)) -> list (string * (string * GroupLeaveRequest)))
    : aop unit := modify (fun a =>
  mk_app (my_identity a) (my_id a) (group_store a) (_pending_join_requests a) (f (_pending_leave_requests a))
    (_pending_export_requests a) (peers a) (active_peer_id a) (outbox a)).
Definition on_exports (f : list (string * (string * ExportRequest)) -> list (string * (string * ExportRequest)))
    : aop unit := modify (fun a =>
  mk_app (my_identity a) (my_id a) (group_store a) (_pending_join_requests a) (_pending_leave_requests a)
    (f (_pending_export_requests a)) (peers a) (active_peer_id a) (outbox a)).
Definition send_all (l : list (string * dict)) : aop unit := modify (fun a =>
  mk_app (my_identity a) (my_id a) (group_store a) (_pending_join_requests a) (_pending_leave_requests a)
    (_pending_export_requests a) (peers a) (active_peer_id a) (outbox a ++ l)).
Definition send (addr : string) (wire : dict) : aop unit := send_all [(addr, wire)].

(** A call on the store. *)
Definition store {A} (m : gop A) : aop A := fun a =>
  match group_store a with
  | None => (a, Err NoStore)
  | Some s =>
      let '(s', r) := m s in
      (set_store s' a, match r with Ok x => Ok x | Err e => Err (StoreRaised e) end)
  end.

(** [try: ... except Exception]: [false] when it raised. *)
Definition tried {A} (m : aop A) : aop bool := fun a => let '(a', r) := m a in (a', Ok (is_ok r)).

(** The value, or the exception. *)
Definition need {A} (o : option A) (e : app_error) : aop A :=
  match o with Some x => mret x | None => raise e end.

(** A message read by [from_dict] inside a [try]. *)
Definition parsed {A} (r : result dict_error A) (k : A -> aop unit) : aop unit :=
  match r with
  | Ok x => k x
  | Err (NotAnnotated f) => raise (Unannotated f)
  | Err _ => mret ()
  end.

(** [f"{peer.ip}:{peer.tcp_port}"]. *)
Definition addr_of (p : Peer) : string :=
  ip p +:+ ":" +:+
  match tcp_port p with
  | JInt z => pretty z
  | JBool true => "True"
  | _ => "False"
  end.

(** The pending request of a group whose device or request identifier starts with [arg]: the
    first one. *)
Definition find_pending {R} (group_of device_of request_of : R -> string) (g arg : string)
    (l : list (string * (string * R))) : option (string * (string * R)) :=
  List.find (fun kr =>
    let r := snd (snd kr) in
    bool_decide (group_of r = g) && (startswith (device_of r) arg || startswith (request_of r) arg)) l.

Definition find_join := find_pending JoinReq.group_id JoinReq.device_id JoinReq.request_id.
Definition find_leave := find_pending LeaveReq.group_id LeaveReq.device_id LeaveReq.request_id.
Definition find_export := find_pending Req.group_id Req.device_id Req.request_id.

(** [registry.get(arg) or next(...)]. *)
Definition peer_or (arg : string) (p : Peer -> bool) (r : registry) : option Peer :=
  match get arg r with Some x => Some x | None => List.find p (list_peers r) end.

End State.

Abbreviation aop := (stm group_app app_error).

Section Handlers.
Context `{Ed25519, Sha256, JsonText, CompactJson, LowerCase, UnicodeDigits}.
Context (e : env).

Definition is_me_admin (g : string) : aop bool :=
  me ← gets my_id; store (is_admin g me).

(** ** Commands *)

Definition _handle_group_create (name : string) (group_id : option string) : aop unit :=
  if text_is_empty name then mret () else
  me ← gets my_identity;
  match me with
  | None => mret ()
  | Some k =>
      let gid := match or_text group_id None with
                 | Some g => stripped g
                 | None => GroupStore.short (fresh_id e 0)
                 end in
      let group := Membership.create_group (time e 0) (fresh_id e 1) k name (Some gid) in
      _ ← tried (store (GroupStore.create_group (db e 0) group) ;;
                 my ← gets my_id;
                 cert ← need (issue_membership_certificate (time e 1) k my (public_key_bytes k) gid "admin"
                                ["chat"; "file"; "export"; "admin"]%string None) MembershipRaised;
                 store (record_membership (db e 1) cert));
      mret ()
  end.

(** The peer to ask: the one named, or the active one. *)
Definition join_target (peer_arg : string) (a : group_app) : option Peer :=
  if text_is_empty peer_arg then d ← or_text (active_peer_id a) None; get d (peers a)
  else List.find (fun p => has_substring (str_bytes (str_lower peer_arg)) (str_bytes (str_lower (name p)))
                           || startswith (peer_id p) peer_arg) (list_peers (peers a)).

Definition _handle_group_join (group_id peer_arg : string) : aop unit :=
  if text_is_empty group_id then mret () else
  me ← gets my_identity;
  match me with
  | None => mret ()
  | Some k =>
      target ← gets (join_target peer_arg);
      match target with
      | None => mret ()
      | Some p =>
          if negb (connects e (addr_of p)) then mret ()
          else
            req ← need (create_join_request (time e 0) (fresh_id e 0) k group_id "member" ["chat"; "file"]%string
                          (Some "Join request from peerc UI"%string) None) ProtocolRaised;
            send (addr_of p)
              (Factories.make_group_join_request (time e 1) (JoinReq.request_id req) (JoinReq.group_id req)
                 (JoinReq.device_id req) (JoinReq.device_public_key req) (JoinReq.requested_role req)
                 (JoinReq.requested_permissions req) (JoinReq.signature req) (JoinReq.reason req)
                 (Some (JoinReq.timestamp req)))
      end
  end.

Definition join_response_wire (t : spec_float) (res : GroupJoinResponse) : dict :=
  Factories.make_group_join_response t (JoinRes.request_id res) (JoinRes.group_id res) (JoinRes.device_id res)
    (JoinRes.approved res) (JoinRes.admin_device_id res) (JoinRes.signature res)
    (Cert.to_dict <$> JoinRes.certificate res) (JoinRes.reason res) (Some (JoinRes.timestamp res)).

(** [role or ...]. *)
Definition or_else (o : option string) (s : string) : string := or_empty (or_text o (Some s)).

(** The applicant, and the request it made. *)
Record applicant := mk_applicant {
  ap_device : string;
  ap_key : bytes;
  ap_role : string;
  ap_permissions : list string;
  ap_request : option (string * string * GroupJoinRequest)   (** key, address, request *)
}.

Definition find_applicant (g device_arg : string) (role : option string) : aop (option applicant) :=
  joins ← gets _pending_join_requests;
  match find_join g device_arg joins with
  | Some (key, (addr, req)) =>
      pub ← need (decode_text (JoinReq.device_public_key req)) KeyRaised;
      mret (Some (mk_applicant (JoinReq.device_id req) pub
                    (or_else role (or_else (Some (JoinReq.requested_role req)) "member"))
                    (match JoinReq.requested_permissions req with [] => ["chat"; "file"]%string | l => l end)
                    (Some (key, addr, req))))
  | None =>
      r ← gets peers;
      match peer_or device_arg (fun p => startswith (peer_id p) device_arg
                                         || bool_decide (str_lower (name p) = str_lower device_arg)) r with
      | None => mret None
      | Some p =>
          if bool_decide (PeerRegistry.public_key p = []) then mret None
          else mret (Some (mk_applicant (peer_id p) (PeerRegistry.public_key p) (or_else role "member")
                             ["chat"; "file"]%string None))
      end
  end.

Definition _handle_group_approve (group_id extra : string) : aop unit :=
  if text_is_empty group_id || text_is_empty extra then mret () else
  me ← gets my_identity;
  match me with
  | None => mret ()
  | Some k =>
      parts ← need (split_once (str_chars extra)) NoWord;
      found ← find_applicant group_id (fst parts) (snd parts);
      match found with
      | None => mret ()
      | Some ap =>
          cert ← need (issue_membership_certificate (time e 0) k (ap_device ap) (ap_key ap) group_id (ap_role ap)
                         (ap_permissions ap) None) MembershipRaised;
          ok ← tried (store (record_membership (db e 0) cert));
          if negb ok then mret () else
          match ap_request ap with
          | None => mret ()
          | Some (key, addr, req) =>
              res ← need (create_join_response (time e 1) k req true (Some cert)
                            (Some "Approved by administrator"%string)) ProtocolRaised;
              send addr (join_response_wire (time e 2) res) ;;
              on_joins (OrderedDict.pop key)
          end
      end
  end.

Definition _handle_group_reject (group_id extra : string) : aop unit :=
  if text_is_empty group_id || text_is_empty extra then mret () else
  me ← gets my_identity;
  match me with
  | None => mret ()
  | Some k =>
      parts ← need (split_once (str_chars extra)) NoWord;
      joins ← gets _pending_join_requests;
      match find_join group_id (fst parts) joins with
      | None => mret ()
      | Some (key, (addr, req)) =>
          res ← need (create_join_response (time e 0) k req false None
                        (Some (default "Rejected by administrator"%string (snd parts)))) ProtocolRaised;
          send addr (join_response_wire (time e 1) res) ;;
          on_joins (OrderedDict.pop key)
      end
  end.

Definition leave_response_wire (t : spec_float) (res : GroupLeaveResponse) : dict :=
  Factories.make_group_leave_response t (LeaveRes.request_id res) (LeaveRes.group_id res)
    (LeaveRes.device_id res) (LeaveRes.approved res) (LeaveRes.admin_device_id res) (LeaveRes.signature res)
    (Revoc.to_dict <$> LeaveRes.revocation res) (LeaveRes.reason res) (Some (LeaveRes.timestamp res)).

Definition requires_admin (policy : option GroupPolicy) : bool :=
  match policy with Some p => Pol.leave_requires_admin p | None => false end.

Definition _handle_group_leave (group_id reason : string) : aop unit :=
  if text_is_empty group_id then mret () else
  id ← gets my_identity;
  match id with
  | None => mret ()
  | Some k =>
      me ← gets my_id;
      cert ← store (get_membership group_id me);
      match cert with
      | None => mret ()
      | Some _ =>
          policy ← store (get_policy group_id);
          req ← need (create_leave_request (time e 0) (fresh_id e 0) k group_id
                        (or_text (Some reason) (Some "Leaving group"%string)) None) ProtocolRaised;
          if requires_admin policy then
            admins ← store (list_admins group_id None);
            r ← gets peers;
            match List.find (fun a => bool_decide (Admin.status a = ACTIVE)
                                      && negb (bool_decide (Admin.admin_id a = me))) admins with
            | None => mret ()
            | Some adm =>
                match get (Admin.admin_id adm) r with
                | None => mret ()
                | Some p =>
                    if negb (connects e (addr_of p)) then mret () else
                    send (addr_of p)
                      (Factories.make_group_leave_request (time e 1) (LeaveReq.request_id req)
                         (LeaveReq.group_id req) (LeaveReq.device_id req) (LeaveReq.signature req)
                         (LeaveReq.reason req) (Some (LeaveReq.timestamp req)))
                end
            end
          else
            _ ← tried (store (process_leave_request (db e 0) req));
            mret ()
      end
  end.

Definition _handle_group_approve_leave (group_id extra : string) : aop unit :=
  if text_is_empty group_id || text_is_empty extra then mret () else
  me ← gets my_identity;
  match me with
  | None => mret ()
  | Some k =>
      parts ← need (split_once (str_chars extra)) NoWord;
      leaves ← gets _pending_leave_requests;
      match find_leave group_id (fst parts) leaves with
      | None => mret ()
      | Some (key, (addr, req)) =>
          revoc ← need (create_membership_revocation (time e 0) (fresh_id e 0) k group_id
                          (LeaveReq.device_id req)
                          (or_text (LeaveReq.reason req) (Some "Leave approved by admin"%string)) None)
                    ProtocolRaised;
          res ← need (create_leave_response (time e 1) k req true (Some revoc)
                        (Some "Leave approved by administrator"%string)) ProtocolRaised;
          ok ← tried (store (process_leave_response (db e 0) res));
          if negb ok then mret () else
          send addr (leave_response_wire (time e 2) res) ;;
          on_leaves (OrderedDict.pop key)
      end
  end.

Definition _handle_group_reject_leave (group_id extra : string) : aop unit :=
  if text_is_empty group_id || text_is_empty extra then mret () else
  me ← gets my_identity;
  match me with
  | None => mret ()
  | Some k =>
      parts ← need (split_once (str_chars (stripped extra))) NoWord;
      leaves ← gets _pending_leave_requests;
      match find_leave group_id (fst parts) leaves with
      | None => mret ()
      | Some (key, (addr, req)) =>
          res ← need (create_leave_response (time e 0) k req false None
                        (Some (default "Leave rejected by administrator"%string (snd parts)))) ProtocolRaised;
          send addr (leave_response_wire (time e 1) res) ;;
          on_leaves (OrderedDict.pop key)
      end
  end.

(** The membership of a device, or the first of a device whose identifier starts so. *)
Definition find_membership (g arg : string) : aop (option MembershipCertificate) :=
  cert ← store (get_membership g arg);
  match cert with
  | Some c => mret (Some c)
  | None =>
      all ← store (list_memberships g None);
      mret (List.find (fun m => startswith (Cert.device_id m) arg) all)
  end.

Definition revocation_wire (t : spec_float) (r : MembershipRevocation) : dict :=
  Factories.make_group_membership_revoke t (Revoc.revocation_id r) (Revoc.group_id r) (Revoc.device_id r)
    (Revoc.revoked_by r) (Revoc.signature r) (Revoc.reason r) (Some (Revoc.timestamp r)).

Definition _handle_group_revoke (group_id extra : string) : aop unit :=
  if text_is_empty group_id || text_is_empty extra then mret () else
  me ← gets my_identity;
  match me with
  | None => mret ()
  | Some k =>
      parts ← need (split_once (str_chars (stripped extra))) NoWord;
      adm ← is_me_admin group_id;
      if negb adm then mret () else
      cert ← find_membership group_id (fst parts);
      match cert with
      | None => mret ()
      | Some c =>
          revoc ← need (create_membership_revocation (time e 0) (fresh_id e 0) k group_id (Cert.device_id c)
                          (Some (default "Revoked by administrator"%string (snd parts))) None) ProtocolRaised;
          ok ← tried (store (record_revocation (db e 0) revoc));
          if negb ok then mret () else
          r ← gets peers;
          match get (Cert.device_id c) r with
          | Some p => if linked e (addr_of p) then send (addr_of p) (revocation_wire (time e 1) revoc) else mret ()
          | None => mret ()
          end
      end
  end.

(** The device to promote and its key. *)
Definition find_candidate (g arg : string) : aop (option (string * bytes)) :=
  cert ← find_membership g arg;
  match cert with
  | Some c =>
      key ← need (decode_text (Cert.device_public_key c)) KeyRaised;
      mret (Some (Cert.device_id c, key))
  | None =>
      r ← gets peers;
      mret (p ← peer_or arg (fun p => startswith (peer_id p) arg) r;
            if bool_decide (PeerRegistry.public_key p = []) then None
            else Some (peer_id p, PeerRegistry.public_key p))
  end.

Definition _handle_group_add_admin (group_id extra : string) : aop unit :=
  if text_is_empty group_id || text_is_empty extra then mret () else
  parts ← need (split_once (str_chars extra)) NoWord;
  adm ← is_me_admin group_id;
  if negb adm then mret () else
  found ← find_candidate group_id (fst parts);
  match found with
  | None => mret ()
  | Some (d, key) =>
      me ← gets my_id;
      _ ← tried (store (add_admin (db e 0) group_id d key me));
      mret ()
  end.

(** [pair.split("=", 1)]; [None] without the sign. *)
Definition split_pair (pair : string) : option (string * string) :=
  let t := str_chars pair in
  let k := takewhile (fun g => negb (is_ch "="%byte g)) t in
  match drop (length k) t with
  | [] => None
  | _ :: v => Some (chars_str k, chars_str v)
  end.

Definition set_field (k : string) (v : bool) (p : GroupPolicy) : GroupPolicy :=
  let mk a b c d :=
    Pol.mk (Pol.group_id p) a b c d (Pol.communication_matrix p) (Pol.default_communication_effect p)
      (Pol.version p) (Pol.updated_at p) (Pol.admin_device_id p) (Pol.signature p) in
  let ext := Pol.allow_external_trust p in
  let exp := Pol.allow_export p in
  let lra := Pol.leave_requires_admin p in
  let aig := Pol.allow_inter_group p in
  (if bool_decide (k = "allow_external_trust") then mk v exp lra aig
   else if bool_decide (k = "allow_export") then mk ext v lra aig
   else if bool_decide (k = "leave_requires_admin") then mk ext exp v aig
   else if bool_decide (k = "allow_inter_group") then mk ext exp lra v
   else p)%string.

Definition assign (p : GroupPolicy) (pair : string) : GroupPolicy :=
  match split_pair pair with
  | None => p
  | Some (k, v) =>
      set_field (stripped (str_lower k))
        (bool_decide (stripped (str_lower v) ∈ ["1"; "true"; "yes"; "on"]%string)) p
  end.

Definition stamped (me : string) (t : spec_float) (p : GroupPolicy) : GroupPolicy :=
  Pol.mk (Pol.group_id p) (Pol.allow_external_trust p) (Pol.allow_export p) (Pol.leave_requires_admin p)
    (Pol.allow_inter_group p) (Pol.communication_matrix p) (Pol.default_communication_effect p)
    (Pol.version p) t (Some me) (Pol.signature p).

(** [GroupPolicy(group_id=..., admin_device_id=...)]. *)
Definition fresh_policy (t : spec_float) (g me : string) : GroupPolicy :=
  Pol.mk g true true false true [] ALLOW 1 t (Some me) None.

(** The group meant when none is named: the only one. *)
Definition named_group (group_id : string) : aop (option string) :=
  if text_is_empty group_id then
    all ← store list_groups;
    mret (match all with [g] => Some (Grp.group_id g) | _ => None end)
  else mret (Some group_id).

Definition _handle_group_policy (group_id extra : string) : aop unit :=
  named ← named_group group_id;
  match named with
  | None => mret ()
  | Some g =>
      group ← store (get_group g);
      match group with
      | None => mret ()
      | Some _ =>
          policy ← store (get_policy g);
          if is_blank extra then mret () else
          adm ← is_me_admin g;
          if negb adm then mret () else
          me ← gets my_id;
          let current := default (fresh_policy (time e 0) g me) policy in
          let changed := foldl assign current (words extra) in
          _ ← tried (store (set_policy (db e 0) (stamped me (time e 1) changed)));
          mret ()
      end
  end.

(** [float(w) if w.isdigit() else DEFAULT_CAPABILITY_TTL]. *)
Definition ttl_of (w : option string) : aop spec_float :=
  match w with
  | None => mret DEFAULT_CAPABILITY_TTL
  | Some w =>
      if text_isdigit (str_chars w) then
        z ← need (digits_value 0 false (str_chars w)) NumberRaised;
        mret (binary_normalize 53 1024 z 0 false)
      else mret DEFAULT_CAPABILITY_TTL
  end.

Definition is_finite (f : spec_float) : bool :=
  match f with S754_infinity _ | S754_nan => false | _ => true end.

(** The request to grant, the key it waits under and where the answer goes. *)
Definition find_export_target (g device_arg file_arg : string)
    : aop (option (ExportRequest * option string * option string)) :=
  pending ← gets _pending_export_requests;
  match find_export g device_arg pending with
  | Some (key, (addr, req)) => mret (Some (req, Some key, Some addr))
  | None =>
      cert ← store (get_membership g device_arg);
      r ← gets peers;
      let target :=
        match cert with
        | Some c => Some (Cert.device_id c, Cert.device_public_key c)
        | None =>
            p ← peer_or device_arg (fun p => startswith (peer_id p) device_arg) r;
            if bool_decide (PeerRegistry.public_key p = []) then None
            else Some (peer_id p, b64_text (PeerRegistry.public_key p))
        end in
      mret (dk ← target;
            Some (Req.mk (fresh_id e 0) (fst dk) (snd dk) g file_arg ACTION_EXPORT (time e 0) None None,
                  None, addr_of <$> get (fst dk) r))
  end.

Definition capability_wire (cap : ExportCapability) : dict :=
  Factories.make_group_export_capability (Cap.capability_id cap) (Cap.request_id cap) (Cap.group_id cap)
    (Cap.device_id cap) (Cap.file_id cap) (Cap.issued_at cap) (Cap.expires_at cap) (Cap.nonce cap)
    (or_empty (Cap.admin_device_id cap)) (or_empty (Cap.signature cap)) (Cap.action cap).

Definition _handle_group_authorize_export (group_id extra : string) : aop unit :=
  if text_is_empty group_id || is_blank extra then mret () else
  adm ← is_me_admin group_id;
  if negb adm then mret () else
  let parts := words (stripped extra) in
  device_arg ← need (parts !! 0%nat) NoWord;
  ttl ← ttl_of (parts !! 2%nat);
  found ← find_export_target group_id device_arg (default "*"%string (parts !! 1%nat));
  match found with
  | None => mret ()
  | Some (req, key, addr) =>
      id ← gets my_identity;
      k ← need id NoIdentity;
      me ← gets my_id;
      cap ← need (issue_export_capability (time e 1) (fresh_id e 1) (fresh_id e 2) (private_key k) me req ttl)
              StructRaised;
      ok ← tried (store (store_capability (db e 0) cap));
      if negb ok then mret () else
      match key with Some key => on_exports (OrderedDict.pop key) | None => mret () end ;;
      match or_text addr None with Some addr => send addr (capability_wire cap) | None => mret () end ;;
      raise_if (negb (is_finite ttl)) NumberRaised      (* int(ttl) of the notice *)
  end.

Definition _handle_group_req_export (group_id extra : string) : aop unit :=
  if text_is_empty group_id || is_blank extra then mret () else
  me ← gets my_id;
  cert ← store (get_membership group_id me);
  allowed ← (match cert with Some _ => mret true | None => is_me_admin group_id end);
  if negb allowed then mret () else
  parts ← need (split_once (str_chars (stripped extra))) NoWord;
  id ← gets my_identity;
  k ← need id NoIdentity;
  req ← need (create_export_request (time e 0) (fresh_id e 0) (private_key k) me (b64_text (public_key_bytes k))
                group_id (fst parts) (snd parts)) StructRaised;
  let wire :=
    Factories.make_group_export_request (time e 1) (Req.request_id req) (Req.group_id req) (Req.device_id req)
      (Req.device_public_key req) (Req.file_id req) (or_empty (Req.signature req)) (Req.action req)
      (Req.reason req) (Some (Req.timestamp req)) in
  admins ← store (list_admins group_id (Some ACTIVE));
  r ← gets peers;
  send_all (omap (fun adm => if bool_decide (admin_id adm = me) then None
                             else (fun p => (addr_of p, wire)) <$> get (admin_id adm) r) admins).

(** ** Messages *)

Definition _on_group_join_request (addr_key : string) (message : dict) : aop unit :=
  a ← gets id;
  match group_store a, my_identity a with
  | Some _, Some _ =>
      parsed (JoinReq.from_dict (time e 0) message) (fun req =>
        if negb (verify_join_request req) then mret () else
        adm ← is_me_admin (JoinReq.group_id req);
        if negb adm then mret () else
        on_joins (OrderedDict.set (JoinReq.group_id req +:+ ":" +:+ JoinReq.device_id req) (addr_key, req)))
  | _, _ => mret ()
  end.

(** The key of the administrator that answered, when the registry has it. *)
Definition answering_key (addr_key admin : string) (r : registry) : option bytes :=
  let by_addr :=
    p ← List.find (fun p => bool_decide (addr_of p = addr_key)) (list_peers r);
    if negb (bool_decide (PeerRegistry.public_key p = []))
       && bool_decide (compute_device_id (PeerRegistry.public_key p) = admin)
    then Some (PeerRegistry.public_key p) else None in
  match get admin r with
  | Some p => if bool_decide (PeerRegistry.public_key p = []) then by_addr else Some (PeerRegistry.public_key p)
  | None => by_addr
  end.

Definition _on_group_join_response (addr_key : string) (message : dict) : aop unit :=
  a ← gets id;
  match group_store a with
  | None => mret ()
  | Some _ =>
      parsed (JoinRes.from_dict (time e 0) message) (fun res =>
        if negb (JoinRes.approved res) then mret () else
        let g := JoinRes.group_id res in
        group ← store (get_group g);
        match group, answering_key addr_key (JoinRes.admin_device_id res) (peers a) with
        | None, Some key =>
            store (GroupStore.create_group (db e 0)
                     (Grp.mk g g (JoinRes.admin_device_id res) (b64_text key) (time e 1)))
        | _, _ => mret ()
        end ;;
        _ ← tried (store (process_join_response (db e 1) res));
        mret ())
  end.

Definition _on_group_leave_request (addr_key : string) (message : dict) : aop unit :=
  a ← gets id;
  match group_store a, my_identity a with
  | Some _, Some _ =>
      parsed (LeaveReq.from_dict (time e 0) message) (fun req =>
        adm ← is_me_admin (LeaveReq.group_id req);
        if negb adm then mret () else
        cert ← store (get_membership (LeaveReq.group_id req) (LeaveReq.device_id req));
        ok ← (match cert with
              | Some c =>
                  key ← need (decode_text (Cert.device_public_key c)) KeyRaised;
                  mret (verify_leave_request req key)
              | None => mret true
              end);
        if negb ok then mret () else
        on_leaves (OrderedDict.set (LeaveReq.group_id req +:+ ":" +:+ LeaveReq.device_id req) (addr_key, req)))
  | _, _ => mret ()
  end.

Definition _on_group_leave_response (message : dict) : aop unit :=
  a ← gets id;
  match group_store a with
  | None => mret ()
  | Some _ =>
      parsed (LeaveRes.from_dict (time e 0) (time e 1) message) (fun res =>
        if negb (LeaveRes.approved res) then mret () else
        _ ← tried (store (process_leave_response (db e 0) res));
        mret ())
  end.

Definition _on_group_membership_revoke (message : dict) : aop unit :=
  a ← gets id;
  match group_store a with
  | None => mret ()
  | Some _ =>
      parsed (Revoc.from_dict (time e 0) message) (fun revoc =>
        _ ← tried (store (record_revocation (db e 0) revoc));
        mret ())
  end.

Definition _on_group_export_request (addr_key : string) (message : dict) : aop unit :=
  a ← gets id;
  match group_store a, my_identity a with
  | Some _, Some _ =>
      parsed (Req.from_dict message) (fun req =>
        if negb (verify_export_request req) then mret () else
        adm ← is_me_admin (Req.group_id req);
        if negb adm then mret () else
        on_exports (OrderedDict.set
          (Req.group_id req +:+ ":" +:+ Req.device_id req +:+ ":" +:+ Req.file_id req) (addr_key, req)))
  | _, _ => mret ()
  end.

Definition _on_group_export_capability (message : dict) : aop unit :=
  a ← gets id;
  match group_store a with
  | None => mret ()
  | Some _ =>
      parsed (Cap.from_dict message) (fun cap =>
        _ ← tried (store (store_capability (db e 0) cap));
        mret ())
  end.

(** ** Dispatch *)

Inductive command : Type :=
| Show                                   (** a table: list, info, members, admins, audit, caps *)
| Create (name : string) (group_id : option string)
| Join (g peer : string)
| Leave (g reason : string)
| Approve (g extra : string)
| Reject (g extra : string)
| ApproveLeave (g extra : string)
| RejectLeave (g extra : string)
| Revoke (g extra : string)
| AddAdmin (g extra : string)
| SetPolicy (g extra : string)
| AuthorizeExport (g extra : string)
| ReqExport (g extra : string)
| HostRendezvous (g extra : string)      (** of the node of [Hosting] *)
| HostRelay (g extra : string)
| UnknownCommand.

(** The subcommand, its first argument and the rest of the line. *)
Definition split_command (arg : string) : option (string * string * string) :=
  wr ← split_word (str_chars (stripped arg));
  let sub := str_lower (chars_str (fst wr)) in
  Some (match split_word (snd wr) with
        | None => (sub, "", "")
        | Some (w, rest) => (sub, chars_str w, chars_str rest)
        end)%string.

Definition parse_command (arg : string) : command :=
  match split_command arg with
  | None => Show
  | Some (sub, rest, extra) =>
      let one_of l := bool_decide (sub ∈ l) in
      (if one_of ["list"; "ls"; "info"; "members"; "admins"; "audit"; "caps"; "capabilities"] then Show
       else if one_of ["create"] then Create rest (or_text (Some extra) None)
       else if one_of ["join"] then Join rest extra
       else if one_of ["leave"] then Leave rest extra
       else if one_of ["approve"] then Approve rest extra
       else if one_of ["reject"] then Reject rest extra
       else if one_of ["approve-leave"] then ApproveLeave rest extra
       else if one_of ["reject-leave"] then RejectLeave rest extra
       else if one_of ["revoke"] then Revoke rest extra
       else if one_of ["addadmin"] then AddAdmin rest extra
       else if one_of ["policy"] then SetPolicy rest extra
       else if one_of ["authorize-export"; "auth-export"] then AuthorizeExport rest extra
       else if one_of ["req-export"] then ReqExport rest extra
       else if one_of ["rendezvous"] then HostRendezvous rest extra
       else if one_of ["relay"] then HostRelay rest extra
       else UnknownCommand)%string
  end.

Definition execute (c : command) : aop unit :=
  match c with
  | Show | UnknownCommand | HostRendezvous _ _ | HostRelay _ _ => mret ()
  | Create n g => _handle_group_create n g
  | Join g x => _handle_group_join g x
  | Leave g x => _handle_group_leave g x
  | Approve g x => _handle_group_approve g x
  | Reject g x => _handle_group_reject g x
  | ApproveLeave g x => _handle_group_approve_leave g x
  | RejectLeave g x => _handle_group_reject_leave g x
  | Revoke g x => _handle_group_revoke g x
  | AddAdmin g x => _handle_group_add_admin g x
  | SetPolicy g x => _handle_group_policy g x
  | AuthorizeExport g x => _handle_group_authorize_export g x
  | ReqExport g x => _handle_group_req_export g x
  end.

Definition _handle_group_command (arg : string) : aop unit :=
  s ← gets group_store;
  match s with
  | None => mret ()
  | Some _ => execute (parse_command arg)
  end.

(** The group messages among [_on_network_message_handshake]. *)
Definition on_group_message (addr_key : string) (message : dict) : aop unit :=
  match jget "type" message with
  | Some (JStr t) =>
      (if bool_decide (t = "group_join_request") then _on_group_join_request addr_key message
       else if bool_decide (t = "group_join_response") then _on_group_join_response addr_key message
       else if bool_decide (t = "group_leave_request") then _on_group_leave_request addr_key message
       else if bool_decide (t = "group_leave_response") then _on_group_leave_response message
       else if bool_decide (t = "group_membership_revoke") then _on_group_membership_revoke message
       else if bool_decide (t = "group_export_request") then _on_group_export_request addr_key message
       else if bool_decide (t = "group_export_capability") then _on_group_export_capability message
       else mret ())%string
  | _ => mret ()
  end.

End Handlers.

(** ** Runs *)

Inductive input : Type :=
| Typed (arg : string)
| Received (addr_key : string) (message : dict).

Definition handle `{Ed25519, Sha256, JsonText, CompactJson, LowerCase, UnicodeDigits} (e : env) (i : input)
    : aop unit :=
  match i with
  | Typed arg => _handle_group_command e arg
  | Received addr message => on_group_message e addr message
  end.

(** The inputs one after the other, each in its environment; an exception ends one input. *)
Definition run `{Ed25519, Sha256, JsonText, CompactJson, LowerCase, UnicodeDigits} (l : list (env * input))
    (a : group_app) : group_app :=
  foldl (fun a ei => fst (handle (fst ei) (snd ei) a)) a l.

End GroupApp.
