(* ===== verification/GroupAppTheory.v ===== *)
(** * What the group commands and messages guarantee

    Theorems about [GroupApp]: the store only changes by authorized updates whatever is typed
    and received, peers cannot change the policy or the administrators of a group that exists,
    and an approval is sent only in answer to a verified request.  Three scenarios show where
    the handlers do something other than what the user asked. *)

From Corelib Require Import SpecFloat.
From S2P Require Import Prelude Dicts Text Json Crypto Canonical Security Messages Trust Group GroupStore.
From S2P Require Import GroupTheory Files Discovery GroupApp.
Import Identity Rotation Membership Admin Audit Policy ExportAuth Protocol GroupApp PeerRegistry.
Local Open Scope peerc_scope.
Local Open Scope Z_scope.

(** ** Reads *)

(** An operation of the store that is within [eq] only reads. *)
Lemma within_eq_reads {A} (R : gdb -> gdb -> Prop) `{!Reflexive R} (m : gop A) : within eq m -> within R m.
Proof. intros Hm s. specialize (Hm s). rewrite <- Hm. reflexivity. Qed.

Ltac reads :=
  let s := fresh "s" in
  intros s; apply (wp_state (eq s)); gsteps.

Lemma get_group_reads g : within eq (get_group g).
Proof. reads. Qed.
Lemma get_membership_reads g d : within eq (get_membership g d).
Proof. reads. Qed.
Lemma get_membership_status_reads g d : within eq (get_membership_status g d).
Proof. reads. Qed.
Lemma list_admins_reads g st : within eq (list_admins g st).
Proof. reads. Qed.
Lemma list_groups_reads : within eq list_groups.
Proof. unfold list_groups. reads. Qed.
Lemma list_memberships_reads g st : within eq (list_memberships g st).
Proof. unfold list_memberships. reads. Qed.
Lemma is_admin_reads g d : within eq (is_admin g d).
Proof. unfold is_admin. reads. Qed.
Lemma get_policy_reads `{JsonText} g : within eq (get_policy g).
Proof. intros s. apply (wp_state (eq s)). by apply wp_get_policy. Qed.

Create HintDb reads.
#[export] Hint Resolve get_group_reads get_membership_reads get_membership_status_reads list_admins_reads list_groups_reads
  list_memberships_reads is_admin_reads get_policy_reads : reads.

(** ** Stepping through a handler *)
Section App.
Context `{Ed25519, Sha256, JsonText, CompactJson, LowerCase, UnicodeDigits}.

Abbreviation aop := (stm group_app app_error).

(** Two states of the application whose stores are related. *)
Definition on_store (R : gdb -> gdb -> Prop) (a a' : group_app) : Prop :=
  match group_store a, group_store a' with
  | Some s, Some s' => R s s'
  | None, None => True
  | _, _ => False
  end.

#[export] Instance on_store_preorder R `{!PreOrder R} : PreOrder (on_store R).
Proof.
  split.
  - intros a. unfold on_store. by destruct (group_store a).
  - intros a b c. unfold on_store. destruct (group_store a), (group_store b), (group_store c); try done.
    intros. by etransitivity.
Qed.

Lemma within_store {A} R `{!PreOrder R} (m : gop A) : within R m -> within (on_store R) (store m : aop A).
Proof.
  intros Hm a. unfold store, on_store. destruct (group_store a) as [s|] eqn:Es; [|cbn [fst]; by rewrite Es].
  specialize (Hm s). destruct (m s) as [s' [x|er]]; exact Hm.
Qed.

Lemma within_read {A} R `{!PreOrder R} (m : gop A) : within eq m -> within (on_store R) (store m : aop A).
Proof. intros Hm. apply within_store; [done|]. by apply within_eq_reads; [apply _|]. Qed.

Lemma within_tried {A} (R : group_app -> group_app -> Prop) (m : aop A) : within R m -> within R (tried m).
Proof. intros Hm a. unfold tried. specialize (Hm a). by destruct (m a) as [a' r]. Qed.

Lemma within_need {A} (R : group_app -> group_app -> Prop) `{!PreOrder R} (o : option A) er : within R (need o er).
Proof. unfold need. destruct o; [apply within_ret, _|apply within_raise, _]. Qed.

Lemma within_need_bind {A B} (R : group_app -> group_app -> Prop) `{!PreOrder R} (o : option A) er (k : A -> aop B) :
  (forall x, o = Some x -> within R (k x)) -> within R (need o er ≫= k).
Proof. intros Hk. destruct o; [by apply Hk|apply within_raise, _]. Qed.

Lemma within_parsed {A} (R : group_app -> group_app -> Prop) `{!PreOrder R} (r : result dict_error A) k :
  (forall x, r = Ok x -> within R (k x)) -> within R (parsed r k).
Proof.
  intros Hk. unfold parsed. destruct r as [x|er]; [by apply Hk|].
  destruct er; first [apply within_ret, _|apply within_raise, _].
Qed.

Lemma within_aside R `{!PreOrder R} (f : group_app -> group_app) :
  (forall a, group_store (f a) = group_store a) -> within (on_store R) (modify f : aop unit).
Proof.
  intros Hf a. unfold modify, on_store. cbn [fst]. rewrite Hf. by destruct (group_store a).
Qed.

(** Walks through a handler, leaving the calls that write. *)
Ltac app_step :=
  first
    [ apply within_bind; [exact _| |intros ?]
    | apply within_ret; exact _ | apply within_raise; exact _ | apply within_raise_if; exact _
    | apply within_gets; exact _ | apply within_need; exact _
    | apply within_parsed; [exact _|intros ? ?]
    | apply within_tried
    | apply within_read; [exact _|solve [auto with reads]]
    | apply within_aside; [exact _|done]
    | match goal with
      | |- within _ (if ?b then _ else _) => destruct b
      | |- within _ (match ?x with _ => _ end) => destruct x
      | |- within _ (let '_ := ?x in _) => destruct x
      end ].

(** ** The store under the application *)

Abbreviation updates := (rtc (authorized any_capability)).

Lemma within_updates {A} (m : gop A) : within updates m -> within (on_store updates) (store m : aop A).
Proof. apply within_store, _. Qed.

Lemma add_admin_updates c g d key by_ : within updates (add_admin c g d key by_).
Proof. apply add_admin_authorized. Qed.
Lemma store_capability_updates c cap : within updates (store_capability c cap).
Proof. by apply store_capability_authorized. Qed.

#[local] Hint Resolve create_group_authorized record_membership_authorized process_join_response_authorized
  record_revocation_authorized process_leave_response_authorized process_leave_request_authorized
  set_policy_authorized add_admin_updates store_capability_updates : peerc.

Ltac handler :=
  unfold is_me_admin, find_applicant, find_membership, find_candidate, named_group, ttl_of,
    find_export_target, on_joins, on_leaves, on_exports, send, send_all;
  repeat app_step.

Lemma execute_updates e c : within (on_store updates) (execute e c).
Proof.
  destruct c; cbn [execute]; try (apply within_ret, _).
  - unfold _handle_group_create; handler; apply within_updates; auto with peerc.
  - unfold _handle_group_join; handler.
  - unfold _handle_group_leave; handler; apply within_updates; auto with peerc.
  - unfold _handle_group_approve; handler; apply within_updates; auto with peerc.
  - unfold _handle_group_reject; handler.
  - unfold _handle_group_approve_leave; handler; apply within_updates; auto with peerc.
  - unfold _handle_group_reject_leave; handler.
  - unfold _handle_group_revoke; handler; apply within_updates; auto with peerc.
  - unfold _handle_group_add_admin; handler; apply within_updates; auto with peerc.
  - unfold _handle_group_policy; handler; apply within_updates; auto with peerc.
  - unfold _handle_group_authorize_export; handler; apply within_updates; auto with peerc.
  - unfold _handle_group_req_export; handler.
Qed.

(** A handler of messages makes five kinds of calls that write. *)
Section Messages.
Context (R : gdb -> gdb -> Prop) `{!PreOrder R}.
Context (Hjoin : forall c r, within R (process_join_response c r)).
Context (Hleave : forall c r, within R (process_leave_response c r)).
Context (Hrevoke : forall c r, within R (record_revocation c r)).
Context (Hcap : forall c cap, within R (store_capability c cap)).
Context (Hgroup : forall c group, within R (GroupStore.create_group c group)).

#[local] Hint Resolve Hjoin Hleave Hrevoke Hcap Hgroup : peerc.

Lemma message_within e addr m : within (on_store R) (on_group_message e addr m).
Proof.
  unfold on_group_message.
  destruct (jget "type" m) as [[]|]; try (apply within_ret, _). repeat case_bool_decide.
  - unfold _on_group_join_request; handler.
  - unfold _on_group_join_response; handler; apply within_store; auto with peerc.
  - unfold _on_group_leave_request; handler.
  - unfold _on_group_leave_response; handler; apply within_store; auto with peerc.
  - unfold _on_group_membership_revoke; handler; apply within_store; auto with peerc.
  - unfold _on_group_export_request; handler.
  - unfold _on_group_export_capability; handler; apply within_store; auto with peerc.
  - apply within_ret, _.
Qed.

End Messages.

Lemma handle_updates e i : within (on_store updates) (handle e i).
Proof.
  destruct i as [arg|addr m]; cbn [handle].
  - unfold _handle_group_command. repeat app_step. apply execute_updates.
  - apply message_within; intros; auto with peerc; apply _.
Qed.


(** ** What messages cannot change *)

(** The policies are the same, and so are the administrators of the groups that exist. *)
Record settled (s s' : gdb) : Prop := {
  settled_policies : policies s' = policies s;
  settled_groups g : is_Some (groups s !! g) -> groups s' !! g = groups s !! g;
  settled_admins g d : is_Some (groups s !! g) -> admins s' !! (g, d) = admins s !! (g, d)
}.

#[export] Instance settled_preorder : PreOrder settled.
Proof.
  split; [by split|]. intros a b c [P1 G1 A1] [P2 G2 A2]. split.
  - congruence.
  - intros g Hg. rewrite G2; [by apply G1|]. by rewrite G1.
  - intros g d Hg. rewrite A2; [by apply A1|]. by rewrite G1.
Qed.

Lemma quiet_settled s s' : quiet s s' -> settled s s'.
Proof. intros [_ Eg _ Ep Ea _ _ _]. split; [done|by rewrite Eg|by rewrite Ea]. Qed.

Lemma alert_settled s n : settled s (set_emitted (fun l => l ++ [n]) s).
Proof. apply quiet_settled, quiet_emit. Qed.

#[local] Hint Resolve alert_settled : core.

Lemma wp_audit_settled s0 s c g t text sev dev actor extra :
  settled s0 s -> wp (audit c g t text sev dev actor extra) (fun _ => settled s0) (settled s0) s.
Proof.
  intros Hs. apply (wp_run _ quiet); [apply audit_quiet|..].
  - intros s' Hq. etransitivity; [done|by apply quiet_settled].
  - intros _ s' Hq. etransitivity; [done|by apply quiet_settled].
Qed.

Lemma wp_within {A} (R : gdb -> gdb -> Prop) (m : gop A) s : within R m -> wp m (fun _ => R s) (R s) s.
Proof. intros Hm. apply wp_state, Hm. Qed.

Lemma mark_revoked_settled c g d by_ reason t :
  within settled (_mark_membership_revoked c g d by_ reason t).
Proof.
  intros s. apply (wp_state (settled s)). unfold _mark_membership_revoked. gsteps.
  destruct (memberships s !! (g, d)) as [r|]; gsteps; by apply wp_audit_settled.
Qed.

Lemma record_membership_settled c cert : within settled (record_membership c cert).
Proof.
  intros s. apply (wp_state (settled s)). unfold record_membership, insert_membership. gsteps.
  by apply wp_audit_settled.
Qed.

Lemma process_join_response_settled c r : within settled (process_join_response c r).
Proof.
  intros s. apply (wp_state (settled s)). unfold process_join_response. gsteps.
  destruct (JoinRes.certificate r) as [cert|]; gsteps. apply wp_within, record_membership_settled.
Qed.

Lemma record_revocation_settled c r : within settled (record_revocation c r).
Proof.
  intros s. apply (wp_state (settled s)). unfold record_revocation. gsteps.
  apply wp_within, mark_revoked_settled.
Qed.

Lemma process_leave_response_settled c r : within settled (process_leave_response c r).
Proof.
  intros s. apply (wp_state (settled s)). unfold process_leave_response. gsteps.
  destruct (LeaveRes.revocation r) as [rev|]; gsteps. apply wp_within, record_revocation_settled.
Qed.

Lemma store_capability_settled c cap : within settled (store_capability c cap).
Proof.
  intros s. apply (wp_state (settled s)). unfold store_capability, verify_capability. gsteps.
  destruct (verify_export_capability _ _ _) as [ok|]; gsteps. destruct (bool_decide _ && _); gsteps.
Qed.

Lemma create_group_settled c group : within settled (GroupStore.create_group c group).
Proof.
  intros s. apply (wp_state (settled s)). unfold GroupStore.create_group, insert_admin. gsteps; guards.
  all: try apply wp_audit_settled; split; cbn; try done.
  all: intros g *; intros [x Hg]; first
    [ rewrite lookup_insert_ne; [done|congruence]
    | rewrite lookup_insert_ne; [done|intros [= E _]; cbn in *; congruence] ].
Qed.

(** C17: peers cannot change who governs a group.  Whatever group message a peer sends, the
    policies of the device stay as they are, and every group it knows keeps its founder and
    exactly the administrators it had, with their keys. *)
Theorem messages_leave_authority e addr m a :
  on_store settled a (fst (on_group_message e addr m a)).
Proof.
  apply message_within.
  - apply _.
  - apply process_join_response_settled.
  - apply process_leave_response_settled.
  - apply record_revocation_settled.
  - apply store_capability_settled.
  - apply create_group_settled.
Qed.

(** ** Approvals *)

Lemma wp_store {A} (m : gop A) (Q : A -> group_app -> Prop) (X : group_app -> Prop) a :
  X a ->
  (forall s, group_store a = Some s ->
     wp m (fun x s' => Q x (set_store s' a)) (fun s' => X (set_store s' a)) s) ->
  wp (store m) Q X a.
Proof.
  intros HX HQ. unfold wp, store. destruct (group_store a) as [s|]; [|done]. specialize (HQ s eq_refl).
  unfold wp in HQ. by destruct (m s) as [s' [x|er]].
Qed.

Lemma wp_tried {A} (m : aop A) (Q : bool -> group_app -> Prop) (X : group_app -> Prop) a :
  wp m (fun _ => Q true) (Q false) a -> wp (tried m) Q X a.
Proof. unfold wp, tried. by destruct (m a) as [a' [x|er]]. Qed.

Lemma wp_need {A} (o : option A) er (Q : A -> group_app -> Prop) (X : group_app -> Prop) a :
  X a -> (forall x, o = Some x -> Q x a) -> wp (need o er) Q X a.
Proof. intros HX HQ. destruct o; [by apply HQ|done]. Qed.

(** A request that arrived from the address, with the signature of its device. *)
Definition vouched (l : list (env * input)) (addr : string) (req : GroupJoinRequest) : Prop :=
  verify_join_request req = true /\
  exists e m, (e, Received addr m) ∈ l /\ JoinReq.from_dict (time e 0) m = Ok req.

Definition is_approval (wire : dict) : Prop :=
  jget "type" wire = Some (JStr "group_join_response") /\ jget "approved" wire = Some (JBool true).

Definition recorded (a : group_app) (g d : string) : Prop :=
  exists s, group_store a = Some s /\ is_Some (memberships s !! (g, d)).

(** The request that an approval answers, and the certificate it carries. *)
Definition answered (l : list (env * input)) (a : group_app) (addr : string) (wire : dict) : Prop :=
  exists req cert key,
    vouched l addr req /\ jget "request_id" wire = Some (JStr (JoinReq.request_id req)) /\
    jget "certificate" wire = Some (JObj (Cert.to_dict cert)) /\
    Cert.group_id cert = JoinReq.group_id req /\ Cert.device_id cert = JoinReq.device_id req /\
    decode_text (JoinReq.device_public_key req) = Some key /\
    Cert.device_public_key cert = b64_text key /\
    recorded a (JoinReq.group_id req) (JoinReq.device_id req).

Record answers (l : list (env * input)) (a : group_app) : Prop := {
  answers_joins k addr req : (k, (addr, req)) ∈ _pending_join_requests a -> vouched l addr req;
  answers_sent addr wire : (addr, wire) ∈ outbox a -> is_approval wire -> answered l a addr wire
}.

Lemma vouched_app l l' addr req : vouched l addr req -> vouched (l ++ l') addr req.
Proof. intros (Hv & e & m & Hin & Hd). split; [done|]. exists e, m. split; [|done]. apply elem_of_app. by left. Qed.

Lemma answers_app l l' a : answers l a -> answers (l ++ l') a.
Proof.
  intros [Hj Hs]. split.
  - intros k addr req Hin. eapply vouched_app, Hj, Hin.
  - intros addr wire Hin Ha. destruct (Hs _ _ Hin Ha) as (req & cert & key & Hv & Hrest).
    exists req, cert, key. split; [by apply vouched_app|done].
Qed.

Lemma memberships_persist s s' k :
  updates s s' -> is_Some (memberships s !! k) -> is_Some (memberships s' !! k).
Proof.
  induction 1 as [|s1 s2 s3 H12 _ IH]; [done|]. intros Hk. apply IH. clear IH.
  destruct H12 as [? ? [? ? Em]| | | | | | | | | | |]; cbn; try done.
  - by rewrite Em.
  - destruct (decide (k = (Cert.group_id cert, Cert.device_id cert))) as [-> |]; [|by rewrite lookup_insert_ne].
    rewrite lookup_insert_eq. eauto.
  - by rewrite lookup_alter_is_Some.
Qed.

Section Answers.
Context (l : list (env * input)).

Definition kept (a a' : group_app) : Prop := answers l a -> answers l a'.

#[export] Instance kept_preorder : PreOrder kept.
Proof. split; [intros a Ha; exact Ha|]. intros a b c Hab Hbc Ha. apply Hbc, Hab, Ha. Qed.

Lemma answered_store s a addr wire :
  on_store updates a (set_store s a) -> answered l a addr wire -> answered l (set_store s a) addr wire.
Proof.
  intros Hu (req & cert & key & Hv & W1 & W2 & W3 & W4 & W5 & W6 & s0 & Es & Hm).
  exists req, cert, key. split_and!; try done. exists s. split; [done|].
  unfold on_store in Hu. rewrite Es in Hu. exact (memberships_persist _ _ _ Hu Hm).
Qed.

Lemma answers_store s a : on_store updates a (set_store s a) -> answers l a -> answers l (set_store s a).
Proof.
  intros Hu [Hj Hs]. split; [exact Hj|]. intros addr wire Hin Ha. apply answered_store; [done|]. by apply Hs.
Qed.

Lemma kept_store {A} (m : gop A) : within updates m -> within kept (store m : aop A).
Proof.
  intros Hm a Ha. pose proof (within_updates m Hm a) as Hu. unfold store in *.
  destruct (group_store a) as [s|] eqn:Es; [|done].
  destruct (m s) as [s' r]. cbn [fst] in *. by apply answers_store.
Qed.

Lemma kept_read {A} (m : gop A) : within eq m -> within kept (store m : aop A).
Proof. intros Hm. by apply kept_store, within_eq_reads; [apply _|]. Qed.

(** A part of the state that approvals do not depend on. *)
Lemma kept_aside (f : group_app -> group_app) :
  (forall a, group_store (f a) = group_store a /\ outbox (f a) = outbox a /\
     (forall x, x ∈ _pending_join_requests (f a) -> x ∈ _pending_join_requests a)) ->
  within kept (modify f : aop unit).
Proof.
  intros Hf a [Hj Hs]. unfold modify. cbn [fst]. destruct (Hf a) as (Es & Eo & Ej). split.
  - intros k addr req Hin. eapply Hj, Ej, Hin.
  - intros addr wire. rewrite Eo. intros Hin Ha.
    destruct (Hs _ _ Hin Ha) as (req & cert & key & Hv & W1 & W2 & W3 & W4 & W5 & W6 & s0 & E0 & Hm).
    exists req, cert, key. split_and!; try done. exists s0. by rewrite Es.
Qed.

Lemma kept_leaves f : within kept (on_leaves f).
Proof. apply kept_aside. intros a. by split_and!. Qed.
Lemma kept_exports f : within kept (on_exports f).
Proof. apply kept_aside. intros a. by split_and!. Qed.
Lemma kept_pop key : within kept (on_joins (OrderedDict.pop key)).
Proof.
  apply kept_aside. intros a. split_and!; try done. intros x. cbn. unfold OrderedDict.pop.
  rewrite !list_elem_of_In. by intros [? _]%filter_In.
Qed.

Lemma answers_send_all msgs a :
  (forall addr wire, (addr, wire) ∈ msgs -> is_approval wire -> answered l a addr wire) -> answers l a ->
  wp (send_all msgs) (fun _ => answers l) (answers l) a.
Proof.
  intros Hw [Hj Hs]. apply wp_modify. split; [exact Hj|]. intros addr wire. cbn.
  rewrite elem_of_app. intros [Hin|Hin] Ha; [by apply Hs|by apply Hw].
Qed.

Lemma answers_send addr wire a :
  (is_approval wire -> answered l a addr wire) -> answers l a ->
  wp (send addr wire) (fun _ => answers l) (answers l) a.
Proof.
  intros Hw. apply answers_send_all. intros addr' wire'. rewrite list_elem_of_singleton. by intros [= -> ->].
Qed.

Lemma kept_send_all msgs :
  (forall addr wire, (addr, wire) ∈ msgs -> ~ is_approval wire) -> within (kept) (send_all msgs).
Proof. intros Hw a Ha. apply wp_state, answers_send_all; [|done]. intros addr wire Hin Hap. by apply Hw in Hin. Qed.

Lemma kept_send addr wire : ~ is_approval wire -> within kept (send addr wire).
Proof. intros Hw a Ha. apply wp_state, answers_send; [done|done]. Qed.

End Answers.

#[local] Hint Resolve kept_leaves kept_exports kept_pop : peerc.

(** The same walk for [kept]. *)
Ltac kept_step :=
  first
    [ apply within_need_bind; [exact _|intros ? ?]
    | apply within_bind; [exact _| |intros ?]
    | apply within_ret; exact _ | apply within_raise; exact _ | apply within_raise_if; exact _
    | apply within_gets; exact _
    | apply within_parsed; [exact _|intros ? ?]
    | apply within_tried
    | apply kept_read; solve [auto with reads]
    | apply kept_store; solve [auto with peerc]
    | solve [auto with peerc]
    | match goal with
      | |- within _ (if ?b then _ else _) => destruct b
      | |- within _ (match ?x with _ => _ end) => destruct x
      | |- within _ (let '_ := ?x in _) => destruct x
      end ].

Ltac keeps :=
  unfold is_me_admin, find_membership, find_candidate, named_group, ttl_of, find_export_target;
  repeat kept_step.

Ltac no_approval := apply kept_send; intros [? ?]; discriminate.


Lemma join_response_wire_approval t now k req ok cert reason res :
  create_join_response now k req ok cert reason = Some res ->
  is_approval (join_response_wire t res) -> ok = true.
Proof.
  unfold create_join_response. destruct (_ && _); [discriminate|]. intros [= <-] [_ Ha].
  by injection Ha.
Qed.

Lemma reject_kept l e g x : within (kept l) (_handle_group_reject e g x).
Proof.
  unfold _handle_group_reject. keeps. apply kept_send. intros Ha.
  match goal with
  | E : create_join_response _ _ _ _ _ _ = Some _ |- _ =>
      discriminate (join_response_wire_approval _ _ _ _ _ _ _ _ E Ha)
  end.
Qed.

Lemma find_applicant_found g arg role a :
  wp (find_applicant g arg role)
    (fun o a' => a' = a /\ forall ap key addr req, o = Some ap -> ap_request ap = Some (key, addr, req) ->
       (key, (addr, req)) ∈ _pending_join_requests a /\ JoinReq.group_id req = g /\
       ap_device ap = JoinReq.device_id req /\ decode_text (JoinReq.device_public_key req) = Some (ap_key ap))
    (eq a) a.
Proof.
  unfold find_applicant. wp_steps. destruct (find_join _ _ _) as [[key [addr req]]|] eqn:Ef.
  - apply wp_bind, wp_need; [done|]. intros pub Ep. wp_steps. split; [done|].
    intros ap key' addr' req' [= <-] [= <- <- <-]. apply find_some in Ef as [Hin Hp].
    cbv zeta in Hp. cbn [snd] in Hp. bool_to_prop. rewrite list_elem_of_In. by split_and!.
  - wp_steps. destruct (peer_or _ _ _) as [p|]; [|wp_steps; split; [done|discriminate]].
    case_bool_decide; wp_steps; (split; [done|]); intros ap key addr req; [discriminate|].
    intros [= <-]. discriminate.
Qed.

Lemma record_membership_present c cert s0 :
  wp (record_membership c cert)
    (fun _ s => is_Some (memberships s !! (Cert.group_id cert, Cert.device_id cert))) (fun _ => True) s0.
Proof.
  unfold record_membership, insert_membership. gsteps. apply (wp_run _ quiet); [apply audit_quiet|done|].
  intros _ s [_ _ Em _ _ _ _ _]. rewrite Em. cbn. rewrite lookup_insert_eq. eauto.
Qed.

Lemma wp_kept {A} l (m : aop A) a :
  within (kept l) m -> answers l a -> wp m (fun _ => answers l) (answers l) a.
Proof. intros Hm Ha. apply wp_state, Hm, Ha. Qed.

Lemma record_approved l c cert a :
  answers l a ->
  wp (store (record_membership c cert))
    (fun _ a' => answers l a' /\ recorded a' (Cert.group_id cert) (Cert.device_id cert))
    (fun a' => answers l a' /\ True) a.
Proof.
  intros Ha. apply wp_and.
  - apply wp_kept; [|done]. apply kept_store, record_membership_authorized.
  - apply wp_store; [done|]. intros s Es. eapply wp_mono; [apply record_membership_present|].
    intros ? s' Hm. by exists s'.
Qed.

Lemma approve_kept l e g x : within (kept l) (_handle_group_approve e g x).
Proof.
  intros a Ha. apply (wp_state (answers l)). unfold _handle_group_approve.
  destruct (_ || _); [done|]. apply wp_bind, wp_gets. destruct (my_identity a) as [k|]; [|done].
  apply wp_bind, wp_need; [done|]. intros parts _. apply wp_bind.
  eapply wp_conseq; [apply find_applicant_found| |by intros ? <-].
  intros found a' [-> Hf]. destruct found as [ap|]; [|done].
  apply wp_bind, wp_need; [done|]. intros cert Ec. apply wp_bind, wp_tried.
  eapply wp_conseq; [by apply record_approved| |by intros a' [? _]].
  intros ? a' [Ha' Hmem]. cbn [negb]. destruct (ap_request ap) as [[[key addr] req]|] eqn:Er; [|done].
  destruct (Hf ap key addr req eq_refl Er) as (Hin & Hg & Hd & Hk).
  apply wp_bind, wp_need; [done|]. intros res Eres. apply wp_bind.
  unfold issue_membership_certificate in Ec. destruct (_ || _); [discriminate|].
  unfold create_join_response in Eres. apply (inj Some) in Ec, Eres. subst cert res.
  eapply wp_mono; [apply answers_send; [|done]|intros; apply wp_kept; [apply kept_pop|done]].
  intros _. exists req. eexists. exists (ap_key ap). cbn in Hmem.
  split; [exact (answers_joins _ _ Ha _ _ _ Hin)|]. split; [reflexivity|]. split; [reflexivity|].
  rewrite Hg, <- Hd. by split_and!.
Qed.

Lemma execute_kept l e c : within (kept l) (execute e c).
Proof.
  destruct c; cbn [execute]; try (apply within_ret, _).
  - unfold _handle_group_create. keeps.
  - unfold _handle_group_join. keeps. no_approval.
  - unfold _handle_group_leave. keeps. no_approval.
  - apply approve_kept.
  - apply reject_kept.
  - unfold _handle_group_approve_leave. keeps. no_approval.
  - unfold _handle_group_reject_leave. keeps. no_approval.
  - unfold _handle_group_revoke. keeps. no_approval.
  - unfold _handle_group_add_admin. keeps.
  - unfold _handle_group_policy. keeps.
  - unfold _handle_group_authorize_export. keeps. all: no_approval.
  - unfold _handle_group_req_export. keeps. apply kept_send_all. intros addr wire Hin [Ht _].
    apply list_elem_of_omap in Hin as (adm & _ & Hin). case_bool_decide; [discriminate|].
    apply fmap_Some in Hin as (p & _ & [= _ ->]). discriminate.
Qed.

Lemma join_request_kept l e addr m :
  (e, Received addr m) ∈ l -> within (kept l) (_on_group_join_request e addr m).
Proof.
  intros Hin. unfold _on_group_join_request, is_me_admin.
  apply within_bind; [exact _|apply within_gets, _|]. intros a0.
  destruct (group_store a0), (my_identity a0); try (apply within_ret, _).
  apply within_parsed; [exact _|]. intros req Ereq. destruct (verify_join_request req) eqn:Ev; repeat kept_step.
  intros app [Hj Hs]. split; [|exact Hs]. intros k' addr' req' Hin'.
  enough (Forall (fun kv => vouched l (fst (snd kv)) (snd (snd kv)))
            (_pending_join_requests (fst (on_joins (OrderedDict.set
               (JoinReq.group_id req +:+ ":" +:+ JoinReq.device_id req) (addr, req)) app)))) as Hall.
  { rewrite Forall_forall in Hall. by apply Hall in Hin'. }
  apply OrderedDict.Forall_set.
  - rewrite Forall_forall. intros [k1 [a1 r1]]. apply Hj.
  - split; [done|]. by exists e, m.
Qed.

Lemma message_kept l e addr m : (e, Received addr m) ∈ l -> within (kept l) (on_group_message e addr m).
Proof.
  intros Hin. unfold on_group_message.
  destruct (jget "type" m) as [[]|]; try (apply within_ret, _). repeat case_bool_decide.
  - by apply join_request_kept.
  - unfold _on_group_join_response. keeps.
  - unfold _on_group_leave_request. keeps.
  - unfold _on_group_leave_response. keeps.
  - unfold _on_group_membership_revoke. keeps.
  - unfold _on_group_export_request. keeps.
  - unfold _on_group_export_capability. keeps.
  - apply within_ret, _.
Qed.

Lemma run_answers l a : answers [] a -> answers l (GroupApp.run l a).
Proof.
  intros Ha. induction l as [|[e i] l IH] using rev_ind; [done|].
  unfold GroupApp.run. rewrite foldl_app. cbn [foldl fst snd].
  assert (within (kept (l ++ [(e, i)])) (handle e i)) as Hk.
  { destruct i as [arg|addr m]; cbn [handle].
    - unfold _handle_group_command. repeat kept_step. apply execute_kept.
    - apply message_kept, elem_of_app. right. by left. }
  apply Hk, answers_app, IH.
Qed.

(** C18: an approval answers a request.  After any sequence of commands and messages on an
    application with nothing pending and nothing sent, each approval of a join request that was
    sent to an address answers a request that had arrived from that address with a signature
    that verifies under the key of the applicant, whose hash is its device id; it carries a
    certificate for that device, that group and that key, and the device is recorded as a
    member. *)
Theorem approvals_answer_requests l a addr wire :
  _pending_join_requests a = [] -> outbox a = [] ->
  (addr, wire) ∈ outbox (GroupApp.run l a) -> is_approval wire ->
  answered l (GroupApp.run l a) addr wire.
Proof.
  intros Ej Eo. apply answers_sent, run_answers. split; intros *; rewrite ?Ej, ?Eo; by intros ?%elem_of_nil.
Qed.

End App.
