(* ===== verification/GroupAppScenarios.v ===== *)
(** * Runs of the group handlers

    The handlers of [GroupApp] on concrete devices: a device joins a group by the messages of
    both sides, and three commands or messages that do something other than what was asked. *)

From Corelib Require Import SpecFloat.
From S2P Require Import Prelude Dicts Text Json Crypto Canonical Security Messages Trust Group GroupStore.
From S2P Require Import GroupTheory Files Discovery GroupApp GroupAppTheory.
Import Identity Rotation Membership Admin Audit Policy ExportAuth Protocol GroupApp PeerRegistry.
Local Open Scope peerc_scope.
Local Open Scope Z_scope.

(** ** Light instances

    Primitives that are cheap to evaluate: a sum of bytes as digest, and the keys and values of an
    object as its compact text. *)

Definition light_digest (n : nat) (m : bytes) : bytes :=
  be_bytes n (foldl (fun acc c => acc + byte.unsigned c) (zlen m * 1048576) m).

#[local] Instance light_ed25519 : Ed25519 := {
  ed_private := Z;
  ed_public sk := be_bytes 32 sk;
  ed_sign sk m := light_digest 64 (be_bytes 32 sk ++ m);
  ed_verify pk sig m := bool_decide (sig = light_digest 64 (pk ++ m))
}.

#[local] Instance light_ed25519_laws : Ed25519Laws.
Proof.
  split.
  - intros. apply length_be_bytes.
  - intros. apply length_be_bytes.
  - intros. apply bool_decide_eq_true_2. reflexivity.
Qed.

#[local] Instance light_sha : Sha256 := { sha256 m := light_digest 32 m }.

Fixpoint light_text (j : json) : bytes :=
  match j with
  | JNull => lit "null"
  | JBool b => if b then lit "true" else lit "false"
  | JInt z => str_bytes (pretty z)
  | JFloat _ => lit "0.0"
  | JStr t => str_bytes t
  | JList l => flat_map light_text l
  | JObj d => flat_map (fun kv => str_bytes (fst kv) ++ light_text (snd kv)) d
  end.

#[local] Instance light_compact : CompactJson := { compact_dumps := light_text }.
#[local] Existing Instances BitText.text SampleText.lower.

(** The digits of ASCII. *)
#[local] Instance ascii_digits : UnicodeDigits :=
  {| char_isdigit := fun g => bool_decide (is_Some (ascii_digit g)); char_decimal := ascii_digit |}.

(** ** The cast *)

Definition second (z : Z) : spec_float := binary_normalize 53 1024 z 0 false.
Definition at_second (z : Z) (fresh : string) : clock := mk_clock (second z) (second z) fresh.

Definition secret (z : Z) : @ed_private light_ed25519 := z.
Definition founder : DeviceKeypair := _keypair_from_private_key (secret 21).
Definition member : DeviceKeypair := _keypair_from_private_key (secret 23).
Definition outsider : DeviceKeypair := _keypair_from_private_key (secret 24).

(** The environment of the handler that runs at second [z]; every peer can be reached. *)
Definition env_at (z : Z) : env :=
  mk_env (fun _ => second z) (fun n => "id" +:+ pretty z +:+ "-" +:+ pretty n)
    (fun n => at_second z ("e" +:+ pretty z +:+ "-" +:+ pretty n)) (fun _ => true) (fun _ => true).

Definition peer_of (k : DeviceKeypair) (nm address : string) : string * Peer :=
  (device_id k, mk_peer (device_id k) nm address (JInt 5000) (public_key_bytes k) "" (second 0)).

Definition everyone : list (string * Peer) :=
  [peer_of founder "founder" "10.0.0.1"; peer_of member "member" "10.0.0.2"; peer_of outsider "outsider" "10.0.0.3"].

Definition app_of (k : DeviceKeypair) : group_app :=
  mk_app (Some k) (device_id k) (Some empty_gdb) [] [] [] everyone None [].

Definition typed (z : Z) (arg : string) : env * input := (env_at z, Typed arg).
Definition got (z : Z) (addr : string) (m : dict) : env * input := (env_at z, Received addr m).

Definition status_of (a : group_app) (g d : string) : option MembershipStatus :=
  s ← group_store a; m_status <$> memberships s !! (g, d).

Definition sent_message (a : group_app) : dict := default [] (snd <$> last (outbox a)).

(** A join request of [k] for the group with an identifier of its choice. *)
Definition no_join : GroupJoinRequest := JoinReq.mk "" "" "" "" "" [] None (second 0) "".
Definition join_wire (z : Z) (k : DeviceKeypair) (id : string) : dict :=
  let req := default no_join (create_join_request (second z) "" k "team" "member" ["chat"%string] None (Some id)) in
  Factories.make_group_join_request (second z) (JoinReq.request_id req) (JoinReq.group_id req)
    (JoinReq.device_id req) (JoinReq.device_public_key req) (JoinReq.requested_role req)
    (JoinReq.requested_permissions req) (JoinReq.signature req) (JoinReq.reason req)
    (Some (JoinReq.timestamp req)).

(** The application of the founder after the group was created by a command. *)
Definition founded : group_app := GroupApp.run [typed 1 "create team team"] (app_of founder).

(** ** Scenarios *)

Definition addr_founder : string := "10.0.0.1:5000".
Definition addr_member : string := "10.0.0.2:5000".
Definition addr_outsider : string := "10.0.0.3:5000".

(** The member asks, the founder approves and the member reads the answer. *)
Definition asked : group_app := GroupApp.run [typed 2 "join team founder"] (app_of member).
Definition approved_at (a : group_app) (m : dict) : group_app :=
  GroupApp.run [got 3 addr_member m; typed 4 ("approve team " +:+ device_id member)] a.
Definition joined (a : group_app) (m : dict) : group_app := GroupApp.run [got 5 addr_founder m] a.

(** A device joins by a command on each side.  The member types [/group join], the
    founder [/group approve], and the three messages of the exchange, each read by the other
    side's handler, leave the membership active in both stores, with the founder as the
    administrator of the group in the store of the member. *)
Theorem join_completes :
  let a := approved_at founded (sent_message asked) in
  let b := joined asked (sent_message a) in
  (fst <$> last (outbox asked)) = Some addr_founder /\ (fst <$> last (outbox a)) = Some addr_member /\
  status_of a "team" (device_id member) = Some M_ACTIVE /\
  status_of b "team" (device_id member) = Some M_ACTIVE /\
  (s ← group_store b; Admin.status <$> admins s !! ("team"%string, device_id founder)) = Some ACTIVE.
Proof. vm_compute. split_and!; reflexivity. Qed.

(** The administrator approves another device than the one it names.  A pending request
    matches when its device id or its own request id starts with what was typed, and the
    applicant chooses the request id: the outsider asks with the device id of the member as
    request id, and [/group approve] of the member's device id makes the outsider a member. *)
Theorem approves_another_device :
  let a := GroupApp.run
             [got 2 addr_outsider (join_wire 2 outsider (device_id member));
              got 3 addr_member (join_wire 3 member "r2");
              typed 4 ("approve team " +:+ device_id member)] founded in
  status_of a "team" (device_id outsider) = Some M_ACTIVE /\ status_of a "team" (device_id member) = None.
Proof. vm_compute. split_and!; reflexivity. Qed.

Definition no_req : ExportRequest := Req.mk "" "" "" "" "" "" (second 0) None None.

(** An export request of the member. *)
Definition export_wire (z : Z) (file : string) : dict :=
  let req := default no_req (create_export_request (second z) ("x" +:+ file) (secret 23) (device_id member)
                    (b64_text (public_key_bytes member)) "team" file None) in
  Factories.make_group_export_request (second z) (Req.request_id req) (Req.group_id req) (Req.device_id req)
    (Req.device_public_key req) (Req.file_id req) (or_empty (Req.signature req)) (Req.action req)
    (Req.reason req) (Some (Req.timestamp req)).

(** The administrator names a file and authorizes another.  While a request of the device is
    pending, [/group authorize-export] grants the file of the first such request, whatever
    file is typed. *)
Theorem authorizes_another_file :
  let a := GroupApp.run
             [got 2 addr_member (export_wire 2 "payroll");
              typed 3 ("authorize-export team " +:+ device_id member +:+ " notes")] founded in
  (c ← (s ← group_store a; head (map snd (map_to_list (capabilities s)))); Some (Cap.file_id (row_cap c)))
    = Some "payroll"%string /\
  jget "file_id" (sent_message a) = Some (JStr "payroll").
Proof. vm_compute. split_and!; reflexivity. Qed.

(** A join response that nobody asked for. *)
Definition unsolicited : dict :=
  Factories.make_group_join_response (second 2) "r" "secret-team" (device_id member) true (device_id outsider)
    "no signature" None None (Some (second 2)).

(** A peer creates a group on another device.  An approved join response for a group the
    device does not know makes it store that group with the sender as founder before the
    response is verified: it has no certificate, its signature is no signature, and the device
    never asked to join. *)
Theorem unsolicited_group_created :
  let a := GroupApp.run [got 3 addr_outsider unsolicited] (app_of member) in
  (s ← group_store a; Grp.admin_device_id <$> groups s !! "secret-team"%string) = Some (device_id outsider) /\
  status_of a "secret-team" (device_id member) = None.
Proof. vm_compute. split_and!; reflexivity. Qed.

(** A witness of the theorems of [GroupAppTheory]: the exchange of [join_completes]. *)
Definition join_inputs : list (env * input) :=
  [typed 1 "create team team"; got 3 addr_member (sent_message asked);
   typed 4 ("approve team " +:+ device_id member)].

Lemma approvals_answer_requests_witness :
  exists wire, answered join_inputs (GroupApp.run join_inputs (app_of founder)) addr_member wire.
Proof.
  exists (sent_message (GroupApp.run join_inputs (app_of founder))).
  apply (approvals_answer_requests join_inputs (app_of founder)).
  - reflexivity.
  - reflexivity.
  - vm_compute. left.
  - split; vm_compute; reflexivity.
Defined.

