(* ===== verification/Hosting.v ===== *)
(** * Rendezvous and relay hosting

    Models the part of [app/ui/app.py] that offers this device as a rendezvous or relay of a
    group and that reaches a peer through such a relay: the commands [/group rendezvous] and
    [/group relay], the four relay messages and the coroutine [_try_relay_connect], over the
    connection manager of [Manager], the group store of [GroupStore] and the checks of
    [Connectivity].

    [_try_relay_connect] is cut at its awaits: [relay_try] is where it waits, and the
    functions below resume it.  The queue and the futures it shares with the message handlers
    are objects, numbered in [queues] and [futures], that the two dictionaries point to. *)

From Corelib Require Import SpecFloat.
From S2P Require Import Prelude Dicts Text Json Crypto Canonical Security Messages Trust Group GroupStore.
From S2P Require Import Channel Manager Connectivity Files Discovery GroupApp.
Import Manager.
Local Open Scope peerc_scope.
Local Open Scope Z_scope.

Module Hosting.

Record host := mk_host {
  my_id : string;
  manager : ConnectionManager;
  group_store : option gdb;
  peers : PeerRegistry.registry;
  rendezvous_cache : Rendezvous.RendezvousCache;
  _rendezvous_active_groups : gset string;
  _relay_active_groups : gset string;
  _relay_candidate_queues : gmap string nat;
  _relay_response_futures : gmap (string * string * string) nat;
  queues : list (list string);
  futures : list (option bool)
}.

(** The exception of the group store that leaves a handler. *)
Abbreviation hop := (stm host store_error).

Definition set_manager (m : ConnectionManager) (h : host) : host :=
  mk_host (my_id h) m (group_store h) (peers h) (rendezvous_cache h) (_rendezvous_active_groups h)
    (_relay_active_groups h) (_relay_candidate_queues h) (_relay_response_futures h) (queues h) (futures h).
Definition on_manager (f : ConnectionManager -> ConnectionManager) (h : host) : host :=
  set_manager (f (manager h)) h.
Definition on_rendezvous (f : gset string -> gset string) (c : Rendezvous.RendezvousCache) (h : host) : host :=
  mk_host (my_id h) (manager h) (group_store h) (peers h) c (f (_rendezvous_active_groups h))
    (_relay_active_groups h) (_relay_candidate_queues h) (_relay_response_futures h) (queues h) (futures h).
Definition on_relay (f : gset string -> gset string) (h : host) : host :=
  mk_host (my_id h) (manager h) (group_store h) (peers h) (rendezvous_cache h) (_rendezvous_active_groups h)
    (f (_relay_active_groups h)) (_relay_candidate_queues h) (_relay_response_futures h) (queues h) (futures h).
Definition on_queues (d : gmap string nat -> gmap string nat) (f : list (list string) -> list (list string))
    (h : host) : host :=
  mk_host (my_id h) (manager h) (group_store h) (peers h) (rendezvous_cache h) (_rendezvous_active_groups h)
    (_relay_active_groups h) (d (_relay_candidate_queues h)) (_relay_response_futures h) (f (queues h)) (futures h).
Definition on_futures
    (d : gmap (string * string * string) nat -> gmap (string * string * string) nat)
    (f : list (option bool) -> list (option bool)) (h : host) : host :=
  mk_host (my_id h) (manager h) (group_store h) (peers h) (rendezvous_cache h) (_rendezvous_active_groups h)
    (_relay_active_groups h) (_relay_candidate_queues h) (d (_relay_response_futures h)) (queues h) (f (futures h)).

Definition send (addr : string) (wire : dict) : host -> host :=
  on_manager (fun m => fst (Manager.send addr wire m)).
Definition send_each (addrs : list string) (wire : dict) (h : host) : host :=
  foldl (fun h addr => send addr wire h) h addrs.

(** A query of the store that is open. *)
Definition query {A} (s : gdb) (m : gop A) : hop A := lift (snd (m s)).

(** ** Commands *)
Section Commands.
Context `{LowerCase}.
Context (now : spec_float).

Definition active_member (s : gdb) (g d : string) : hop bool :=
  st ← query s (get_membership_status g d);
  mret (bool_decide (st = Some M_ACTIVE)).

Definition _handle_group_rendezvous (g extra : string) : hop unit :=
  h ← gets id;
  match group_store h with
  | None => mret ()
  | Some s =>
      if text_is_empty g then mret () else
      group ← query s (get_group g);
      match group with
      | None => mret ()
      | Some _ =>
          let parts := split_once (str_chars extra) in
          let mode := match parts with Some p => str_lower (fst p) | None => ""%string end in
          if bool_decide (mode = "on"%string) then
            ok ← active_member s g (my_id h);
            if negb ok then mret () else modify (on_rendezvous (fun x => {[g]} ∪ x) (rendezvous_cache h))
          else if bool_decide (mode = "off"%string) then
            modify (on_rendezvous (fun x => x ∖ {[g]})
                      (fst (Rendezvous.evict_all_for_group g (rendezvous_cache h))))
          else if bool_decide (mode = "find"%string) then
            let target := match parts with Some (_, Some t) => stripped t | _ => ""%string end in
            if text_is_empty target then mret () else
            ok ← active_member s g (my_id h);
            if negb ok then mret () else
            modify (send_each (list_connected_addr_keys (manager h))
                      (Factories.make_rendezvous_lookup now g target))
          else mret ()
      end
  end.

Definition _handle_group_relay (g extra : string) : hop unit :=
  h ← gets id;
  match group_store h with
  | None => mret ()
  | Some s =>
      if text_is_empty g then mret () else
      group ← query s (get_group g);
      match group with
      | None => mret ()
      | Some _ =>
          let mode := str_lower (stripped extra) in
          if bool_decide (mode = "on"%string) then
            ok ← active_member s g (my_id h);
            if negb ok then mret () else modify (on_relay (fun x => {[g]} ∪ x))
          else if bool_decide (mode = "off"%string) then modify (on_relay (fun x => x ∖ {[g]}))
          else mret ()
      end
  end.

End Commands.

(** ** Messages *)
Section Messages.
Context (now : spec_float).

Definition _on_relay_request (addr g target : string) : hop unit :=
  h ← gets id;
  if text_is_empty g || text_is_empty target then mret () else
  match group_store h, get_peer_device_id addr (manager h) with
  | Some s, Some requester =>
      let target_addr := find_addr_key_for_device target (manager h) in
      match Relay.authorize_relay_request g requester (_relay_active_groups h) s
              (bool_decide (is_Some target_addr)), target_addr with
      | Ok _, Some ta =>
          modify (on_manager (open_relay_pipe addr ta)) ;;
          modify (send addr (Factories.make_relay_response now g target true))
      | Ok _, None => mret ()
      | Err Relay.RelayTargetUnreachableError, _ =>
          modify (send addr (Factories.make_relay_response now g target false))
      | Err (Relay.StoreRaised er), _ => raise er
      | Err _, _ => mret ()
      end
  | _, _ => mret ()
  end.

Definition _on_relay_candidate_query (addr g : string) : hop unit :=
  h ← gets id;
  if text_is_empty g then mret () else
  match group_store h, get_peer_device_id addr (manager h) with
  | Some s, Some requester =>
      match Relay.authorize_relay_candidate_query g requester (_relay_active_groups h) s with
      | Ok _ => modify (send addr (Factories.make_relay_candidate_response now g true))
      | Err (Relay.StoreRaised er) => raise er
      | Err _ => mret ()
      end
  | _, _ => mret ()
  end.

(** [fut.set_result] of a future that is pending. *)
Definition _on_relay_response (addr g target : string) (accepted : bool) : hop unit :=
  h ← gets id;
  if text_is_empty g then mret () else
  match _relay_response_futures h !! (addr, g, target) with
  | Some f =>
      match futures h !! f with
      | Some None => modify (on_futures id <[f := Some accepted]>)
      | _ => mret ()
      end
  | None => mret ()
  end.

Definition _on_relay_candidate_response (addr g : string) (available : bool) : hop unit :=
  h ← gets id;
  if text_is_empty g || negb available then mret () else
  match _relay_candidate_queues h !! g with
  | Some q => modify (on_queues id (alter (fun l => l ++ [addr]) q))
  | None => mret ()
  end.

End Messages.

(** ** Reaching a peer through a relay *)

Inductive relay_try : Type :=
| Collecting (target g : string) (q : nat) (candidates : list string)   (** [q.get()] *)
| Awaiting (target g r : string) (f : nat) (rest : list string)         (** [fut] *)
| Tunnelling (target g r : string) (rest : list string)                 (** the tunnel's handshake *)
| Returned (addr : option string)
| Crashed.                                                              (** [AttributeError] *)

(** What ends a wait. *)
Inductive wake : Type :=
| Candidate
| WindowClosed
| Answered
| TimedOut
| TunnelUp (addr : string)
| TunnelDown.

Section Relayed.
Context (now : spec_float).

(** The next turn of the loop over the candidates. *)
Definition next_candidate (target g : string) (candidates : list string) (h : host) : host * relay_try :=
  match candidates with
  | [] => (h, Returned None)
  | r :: rest =>
      let f := length (futures h) in
      (send r (Factories.make_relay_request now g target)
         (on_futures <[(r, g, target) := f]> (fun l => l ++ [None]) h),
       Awaiting target g r f rest)
  end.

(** The peer has no attribute [port]: reading it raises. *)
Definition _try_relay_connect (target g : string) (h : host) : host * relay_try :=
  match find_addr_key_for_device target (manager h) with
  | Some existing => (h, Returned (Some existing))
  | None =>
      if match PeerRegistry.get target (peers h) with
         | Some p => negb (text_is_empty (PeerRegistry.ip p))
         | None => false
         end
      then (h, Crashed)
      else
        match list_connected_addr_keys (manager h) with
        | [] => (h, Returned None)
        | addrs =>
            let q := length (queues h) in
            (send_each addrs (Factories.make_relay_candidate_query now g)
               (on_queues <[g := q]> (fun l => l ++ [[]]) h),
             Collecting target g q [])
        end
  end.

Definition tunnel (target g r : string) (rest : list string) (h : host) : host * relay_try :=
  let '(m, outcome) := connect_via_relay_tunnel r target (manager h) in
  let h' := set_manager m h in
  match outcome with
  | AlreadyConnected addr => (h', Returned (Some addr))
  | AtLimit => next_candidate target g rest h'
  | Started => (h', Tunnelling target g r rest)
  end.

Definition forget (r g target : string) : host -> host := on_futures (delete (r, g, target)) id.

Definition resume (w : wake) (h : host) (t : relay_try) : host * relay_try :=
  match t, w with
  | Collecting target g q cands, Candidate =>
      match queues h !! q with
      | Some (c :: l) => (on_queues id <[q := l]> h, Collecting target g q (cands ++ [c]))
      | _ => (h, t)
      end
  | Collecting target g q cands, WindowClosed =>
      next_candidate target g cands (on_queues (delete g) id h)
  | Awaiting target g r f rest, Answered =>
      match futures h !! f with
      | Some (Some true) => tunnel target g r rest (forget r g target h)
      | Some (Some false) => next_candidate target g rest (forget r g target h)
      | _ => (h, t)
      end
  | Awaiting target g r f rest, TimedOut => next_candidate target g rest (forget r g target h)
  | Tunnelling target g r rest, TunnelUp addr => (h, Returned (Some addr))
  | Tunnelling target g r rest, TunnelDown => next_candidate target g rest h
  | _, _ => (h, t)
  end.

End Relayed.

(** ** Runs

    The host with the calls of [_try_relay_connect] in progress.  What other parts do to the
    connections, the store and the registry is any change of them. *)

Inductive event : Type :=
| Start (target g : string)
| Wake (n : nat) (w : wake)
| RelayRequest (addr g target : string)
| RelayCandidateQuery (addr g : string)
| RelayResponse (addr g target : string) (accepted : bool)
| RelayCandidateResponse (addr g : string) (available : bool)
| RelayCommand (g extra : string)
| RendezvousCommand (g extra : string)
| Elsewhere (m : ConnectionManager) (s : option gdb) (r : PeerRegistry.registry).

Definition step `{LowerCase} (now : spec_float) (ev : event) (st : host * list relay_try)
    : host * list relay_try :=
  let '(h, ts) := st in
  match ev with
  | Start target g => let '(h', t) := _try_relay_connect now target g h in (h', ts ++ [t])
  | Wake n w =>
      match ts !! n with
      | Some t => let '(h', t') := resume now w h t in (h', <[n := t']> ts)
      | None => (h, ts)
      end
  | RelayRequest addr g target => (fst (_on_relay_request now addr g target h), ts)
  | RelayCandidateQuery addr g => (fst (_on_relay_candidate_query now addr g h), ts)
  | RelayResponse addr g target b => (fst (_on_relay_response addr g target b h), ts)
  | RelayCandidateResponse addr g b => (fst (_on_relay_candidate_response addr g b h), ts)
  | RelayCommand g extra => (fst (_handle_group_relay g extra h), ts)
  | RendezvousCommand g extra => (fst (_handle_group_rendezvous now g extra h), ts)
  | Elsewhere m s r =>
      (mk_host (my_id h) m s r (rendezvous_cache h) (_rendezvous_active_groups h) (_relay_active_groups h)
         (_relay_candidate_queues h) (_relay_response_futures h) (queues h) (futures h), ts)
  end.

Definition run `{LowerCase} (l : list (spec_float * event)) (st : host * list relay_try)
    : host * list relay_try :=
  foldl (fun st te => step (fst te) (snd te) st) st l.

End Hosting.
