(* ===== verification/HostingTheory.v ===== *)
(** * What relay hosting guarantees

    Theorems about [Hosting]: when a relay opens a pipe, that a device tunnels only through a
    relay that agreed to carry it to this peer for this group, that trying relays ends, and
    that trying them for a known peer does not get that far. *)

From Corelib Require Import SpecFloat.
From S2P Require Import Prelude Dicts Text Json Crypto Canonical Security Messages Trust Group GroupStore.
From S2P Require Import Channel Manager Connectivity Files Discovery GroupApp GroupTheory Hosting.
Import Manager Hosting.
Local Open Scope peerc_scope.
Local Open Scope Z_scope.

(** ** Consent *)
Section Consent.
Context `{LowerCase}.

Abbreviation key := (string * string * string)%type.

Definition responded (l : list (spec_float * event)) (k : key) (b : bool) : Prop :=
  exists now, (now, RelayResponse (fst (fst k)) (snd (fst k)) (snd k) b) ∈ l.

(** The future belongs to the question: the dictionary has it, or a call waits for it. *)
Definition owned (h : host) (ts : list relay_try) (f : nat) (k : key) : Prop :=
  _relay_response_futures h !! k = Some f \/
  exists rest, Awaiting (snd k) (snd (fst k)) (fst (fst k)) f rest ∈ ts.

Record consent (l : list (spec_float * event)) (h : host) (ts : list relay_try) : Prop := {
  consent_valid f k : owned h ts f k -> (f < length (futures h))%nat;
  consent_once f k k' : owned h ts f k -> owned h ts f k' -> k = k';
  consent_answer f k b : owned h ts f k -> futures h !! f = Some (Some b) -> responded l k b;
  consent_tunnel target g r rest : Tunnelling target g r rest ∈ ts -> responded l (r, g, target) true
}.

Lemma responded_app l l' k b : responded l k b -> responded (l ++ l') k b.
Proof. intros [t Ht]. exists t. apply elem_of_app. by left. Qed.

Lemma consent_app l l' h ts : consent l h ts -> consent (l ++ l') h ts.
Proof.
  intros [C1 C2 C3 C4]. split; [done|done|..].
  - intros f k b Ho Hf. by eapply responded_app, C3.
  - intros target g r rest Ht. by eapply responded_app, C4.
Qed.

(** Fewer owners, the same futures. *)
Lemma consent_frame l h h' ts ts' :
  consent l h ts -> futures h' = futures h ->
  (forall f k, owned h' ts' f k -> owned h ts f k) ->
  (forall target g r rest, Tunnelling target g r rest ∈ ts' -> responded l (r, g, target) true) ->
  consent l h' ts'.
Proof.
  intros [C1 C2 C3 C4] Ef Ho Ht. split; rewrite ?Ef; eauto.
Qed.

Definition same_futures (h h' : host) : Prop :=
  _relay_response_futures h' = _relay_response_futures h /\ futures h' = futures h.

#[export] Instance same_futures_preorder : PreOrder same_futures.
Proof. split; [by split|]. intros a b c [] []. split; congruence. Qed.

Lemma consent_same l h h' ts : same_futures h h' -> consent l h ts -> consent l h' ts.
Proof.
  intros [Ed Ef] Hc. eapply consent_frame; [done|done| |exact (consent_tunnel _ _ _ Hc)].
  intros f k. unfold owned. by rewrite Ed.
Qed.

Lemma send_same addr wire h : same_futures h (send addr wire h).
Proof. by split. Qed.

Lemma send_each_same addrs wire h : same_futures h (send_each addrs wire h).
Proof.
  unfold send_each. revert h. induction addrs as [|a addrs IH]; intros h; [reflexivity|].
  cbn [foldl]. etransitivity; [apply send_same|apply IH].
Qed.

#[local] Hint Resolve send_same send_each_same : peerc.

Ltac same_walk :=
  unfold query, active_member; repeat (within_steps; try (intros ?; solve [auto with peerc | by split])).

Lemma relay_request_same now addr g target : within same_futures (_on_relay_request now addr g target).
Proof. unfold _on_relay_request. same_walk. Qed.
Lemma candidate_query_same now addr g : within same_futures (_on_relay_candidate_query now addr g).
Proof. unfold _on_relay_candidate_query. same_walk. Qed.
Lemma candidate_response_same addr g b : within same_futures (_on_relay_candidate_response addr g b).
Proof. unfold _on_relay_candidate_response. same_walk. Qed.
Lemma relay_command_same g x : within same_futures (_handle_group_relay g x).
Proof. unfold _handle_group_relay. same_walk. Qed.
Lemma rendezvous_command_same now g x : within same_futures (_handle_group_rendezvous now g x).
Proof. unfold _handle_group_rendezvous. same_walk. Qed.

(** *** The calls in progress *)

Lemma owned_insert h ts n t f k :
  (forall target g r rest, t <> Awaiting target g r f rest) -> owned h (<[n := t]> ts) f k -> owned h ts f k.
Proof.
  intros Ht [Hd|[rest Hin]]; [by left|]. right. exists rest.
  apply elem_insert in Hin as [E|Hin]; [by apply eq_sym, Ht in E|done].
Qed.

(** A call that is over, or collects, owns nothing. *)
Lemma consent_rest l h ts n t :
  consent l h ts ->
  (forall target g r f rest, t <> Awaiting target g r f rest) ->
  (forall target g r rest, t = Tunnelling target g r rest -> responded l (r, g, target) true) ->
  consent l h (<[n := t]> ts).
Proof.
  intros Hc Ha Ht. eapply consent_frame; [done|done|..].
  - intros f k. by apply owned_insert.
  - intros target g r rest [E|Hin]%elem_insert; [by eapply Ht|by eapply consent_tunnel].
Qed.

Lemma consent_forget l h ts r g target : consent l h ts -> consent l (forget r g target h) ts.
Proof.
  intros Hc. eapply consent_frame; [done|done| |exact (consent_tunnel _ _ _ Hc)].
  intros f k [Hd|Hin]; [left|by right]. cbn in Hd. by apply lookup_delete_Some in Hd as [_ ?].
Qed.

(** The new future belongs to the new question only. *)
Lemma consent_next now l h ts n target g cands :
  consent l h ts ->
  consent l (fst (next_candidate now target g cands h))
    (<[n := snd (next_candidate now target g cands h)]> ts).
Proof.
  intros Hc. destruct cands as [|r rest]; cbn [next_candidate fst snd]; [by apply consent_rest|].
  set (f0 := length (futures h)). set (h' := on_futures _ _ h).
  apply (consent_same l h'); [apply send_same|].
  assert (forall f k, owned h' (<[n := Awaiting target g r f0 rest]> ts) f k ->
            f = f0 /\ k = (r, g, target) \/ owned h ts f k /\ (f < f0)%nat) as Hown.
  { intros f k Ho.
    assert (f = f0 /\ k = (r, g, target) \/ owned h ts f k) as [?|Ho'].
    - destruct Ho as [Hd|[rest' Hin]].
      + cbn in Hd. apply lookup_insert_Some in Hd as [[<- <-]|[_ Hd]]; [by left|]. right. by left.
      + apply elem_insert in Hin as [[= E1 E2 E3 E4 _]|Hin]; [left|right; right; by exists rest'].
        destruct k as [[? ?] ?]. cbn in *. by subst.
    - by left.
    - right. split; [done|]. by eapply consent_valid. }
  assert (length (futures h') = S f0) as El by (cbn; rewrite length_app; cbn; lia).
  split.
  - intros f k [[-> _]|[_ Hlt]]%Hown; lia.
  - intros f k k' [[-> ->]|[H1 Hlt]]%Hown [[E ->]|[H2 Hlt']]%Hown; try done; try lia.
    by eapply consent_once.
  - intros f k b [[-> ->]|[Ho Hlt]]%Hown; cbn.
    + rewrite lookup_app_r by done. by rewrite Nat.sub_diag.
    + rewrite lookup_app_l by done. by eapply consent_answer.
  - intros target' g' r' rest' [E|Hin]%elem_insert; [done|by eapply consent_tunnel].
Qed.

Lemma consent_resume now w l h ts n t :
  consent l h ts -> ts !! n = Some t ->
  consent l (fst (resume now w h t)) (<[n := snd (resume now w h t)]> ts).
Proof.
  intros Hc Hn.
  assert (consent l h (<[n := t]> ts)) as Hstay by (by rewrite list_insert_id).
  destruct t as [target g q cands|target g r f rest|target g r rest|addr|], w; try exact Hstay; cbn [resume].
  - destruct (queues h !! q) as [[|c cs]|]; try exact Hstay. apply consent_rest; [by apply (consent_same _ h)|done|done].
  - by apply consent_next, (consent_same _ h).
  - destruct (futures h !! f) as [[[]|]|] eqn:Ef; try exact Hstay.
    + assert (responded l (r, g, target) true) as Hr.
      { eapply (consent_answer l h ts); [done| |done]. right. exists rest. exact (list_elem_of_lookup_2 _ _ _ Hn). }
      unfold tunnel. destruct (connect_via_relay_tunnel r target _) as [m [addr| |]].
      * apply consent_rest; [by apply (consent_same _ (forget r g target h)), consent_forget|done|done].
      * by apply consent_next, (consent_same _ (forget r g target h)), consent_forget.
      * cbn [fst snd]. apply consent_rest; [by apply (consent_same _ (forget r g target h)), consent_forget|done|].
        by intros ? ? ? ? [= <- <- <- _].
    + by apply consent_next, consent_forget.
  - by apply consent_next, consent_forget.
  - by apply consent_rest.
  - by apply consent_next.
Qed.

Lemma consent_snoc l h ts t :
  consent l h ts -> (forall target g r f rest, t <> Awaiting target g r f rest) ->
  (forall target g r rest, t <> Tunnelling target g r rest) -> consent l h (ts ++ [t]).
Proof.
  intros Hc Ha Ht. eapply consent_frame; [done|done|..].
  - intros f k [Hd|[rest Hin]]; [by left|]. right. exists rest.
    apply elem_of_app in Hin as [Hin|Hin%list_elem_of_singleton]; [done|]. by apply eq_sym, Ha in Hin.
  - intros target g r rest [Hin|Hin%list_elem_of_singleton]%elem_of_app; [by eapply consent_tunnel|].
    by apply eq_sym, Ht in Hin.
Qed.

Lemma consent_start now l h ts target g :
  consent l h ts ->
  consent l (fst (_try_relay_connect now target g h)) (ts ++ [snd (_try_relay_connect now target g h)]).
Proof.
  intros Hc. unfold _try_relay_connect. destruct (find_addr_key_for_device _ _); [by apply consent_snoc|].
  destruct (match PeerRegistry.get target (peers h) with Some _ => _ | None => _ end); [by apply consent_snoc|].
  destruct (list_connected_addr_keys (manager h)) as [|a addrs] eqn:Ea; [by apply consent_snoc|].
  cbn [fst snd]. apply consent_snoc; [|done|done].
  eapply consent_same; [apply send_each_same|]. by apply (consent_same _ h).
Qed.

Lemma consent_response now l h ts addr g target b :
  consent (l ++ [(now, RelayResponse addr g target b)]) h ts ->
  consent (l ++ [(now, RelayResponse addr g target b)]) (fst (_on_relay_response addr g target b h)) ts.
Proof.
  intros Hc. unfold _on_relay_response, mbind, stm_bind, gets. destruct (text_is_empty g); [done|]. cbn [id].
  destruct (_relay_response_futures h !! (addr, g, target)) as [f|] eqn:Ed; [|done].
  destruct (futures h !! f) as [[|]|] eqn:Ef; [done| |done]. cbn [fst modify].
  assert (owned h ts f (addr, g, target)) as Hown by by left.
  destruct Hc as [C1 C2 C3 C4]. split; cbn.
  - intros f' k Ho. rewrite length_insert. by eapply C1.
  - intros f' k k' Ho Ho'. by eapply C2.
  - intros f' k b' Ho Hf. apply list_lookup_insert_Some in Hf as [(<- & [= <-] & _)|[_ Hf]]; [|by eapply C3].
    rewrite (C2 _ _ _ Ho Hown). exists now. cbn. apply elem_of_app. right. by left.
  - exact C4.
Qed.

Lemma consent_step now ev l h ts :
  consent l h ts ->
  consent (l ++ [(now, ev)]) (fst (step now ev (h, ts))) (snd (step now ev (h, ts))).
Proof.
  intros Hc%(consent_app _ [(now, ev)]). destruct ev; cbn [step fst snd].
  - rewrite (surjective_pairing (_try_relay_connect now target g h)). by apply consent_start.
  - destruct (ts !! n) as [t|] eqn:En; [|done].
    rewrite (surjective_pairing (resume now w h t)). by apply consent_resume.
  - eapply consent_same; [apply relay_request_same|done].
  - eapply consent_same; [apply candidate_query_same|done].
  - by apply consent_response.
  - eapply consent_same; [apply candidate_response_same|done].
  - eapply consent_same; [apply relay_command_same|done].
  - eapply consent_same; [apply rendezvous_command_same|done].
  - by apply (consent_same _ h).
Qed.

(** C20: a device tunnels only through a relay that agreed.  In any interleaving of the calls
    that look for a relay, of the messages of peers, and of changes of the connections, the
    store and the registry, a call that opens a tunnel through a relay does so after that
    relay, over its own connection, accepted to carry it to this peer for this group: an
    answer of another peer, or about another group or peer, or to a call that has given up,
    does not count. *)
Theorem tunnel_has_consent l h :
  _relay_response_futures h = ∅ ->
  forall target g r rest, Tunnelling target g r rest ∈ snd (Hosting.run l (h, [])) ->
  exists now, (now, RelayResponse r g target true) ∈ l.
Proof.
  intros Ed.
  assert (consent l (fst (Hosting.run l (h, []))) (snd (Hosting.run l (h, [])))) as Hc.
  { clear -Ed. induction l as [|[now ev] l IH] using rev_ind.
    - split; cbn; unfold owned; rewrite ?Ed.
      + intros f k [Hd|[rest []%not_elem_of_nil]]. by rewrite lookup_empty in Hd.
      + intros f k k' [Hd|[rest []%not_elem_of_nil]]. by rewrite lookup_empty in Hd.
      + intros f k b [Hd|[rest []%not_elem_of_nil]]. by rewrite lookup_empty in Hd.
      + by intros ? ? ? ? ?%not_elem_of_nil.
    - unfold Hosting.run. rewrite foldl_app. cbn [foldl fst snd]. fold (Hosting.run l (h, [])).
      destruct (Hosting.run l (h, [])) as [h' ts]. by apply consent_step. }
  intros target g r rest Hin. exact (consent_tunnel _ _ _ Hc _ _ _ _ Hin).
Qed.

(** ** The end of the search *)

(** How many more waits a call that has its candidates can have. *)
Definition waits_left (t : relay_try) : nat :=
  match t with
  | Collecting _ _ _ _ => 0
  | Awaiting _ _ _ _ rest => 2 + 2 * length rest
  | Tunnelling _ _ _ rest => 1 + 2 * length rest
  | Returned _ | Crashed => 0
  end.

Definition collecting (t : relay_try) : bool := match t with Collecting _ _ _ _ => true | _ => false end.

Lemma next_candidate_waits now target g cands h :
  collecting (snd (next_candidate now target g cands h)) = false /\
  (waits_left (snd (next_candidate now target g cands h)) <= 2 * length cands)%nat.
Proof. destruct cands; cbn; split; try done; lia. Qed.

Lemma resume_waits now w h t :
  collecting t = false ->
  collecting (snd (resume now w h t)) = false /\
  (snd (resume now w h t) = t \/ (waits_left (snd (resume now w h t)) < waits_left t)%nat).
Proof.
  destruct t as [|target g r f rest|target g r rest| |], w; intros [=]; cbn [resume snd]; auto; try (split; [done|by left]).
  - destruct (futures h !! f) as [[[]|]|]; cbn [snd]; auto.
    + unfold tunnel. destruct (connect_via_relay_tunnel _ _ _) as [m [addr| |]]; cbn [snd].
      * split; [done|]. right. cbn. lia.
      * destruct (next_candidate_waits now target g rest (set_manager m (forget r g target h))) as [? ?].
        split; [done|]. right. cbn [waits_left]. lia.
      * split; [done|]. right. cbn. lia.
    + destruct (next_candidate_waits now target g rest (forget r g target h)) as [? ?].
      split; [done|]. right. cbn [waits_left]. lia.
  - destruct (next_candidate_waits now target g rest (forget r g target h)) as [? ?].
    split; [done|]. right. cbn [waits_left]. lia.
  - split; [done|]. right. cbn. lia.
  - destruct (next_candidate_waits now target g rest h) as [? ?]. split; [done|]. right. cbn [waits_left]. lia.
Qed.

(** One wait of a call ends and changes where it is; the host may be any. *)
Definition wakes (t t' : relay_try) : Prop :=
  exists now w h, snd (resume now w h t) = t' /\ t' <> t.


(** Looking for a relay fails for the peers that are known.  For a device of the registry with
    an address, to which there is no connection, [_try_relay_connect] raises before it asks any
    relay: it reads an attribute the registry's entries do not have. *)
Theorem relay_search_crashes now target g h p :
  find_addr_key_for_device target (manager h) = None ->
  PeerRegistry.get target (peers h) = Some p -> text_is_empty (PeerRegistry.ip p) = false ->
  _try_relay_connect now target g h = (h, Crashed).
Proof. intros Hf Hp Hip. unfold _try_relay_connect. by rewrite Hf, Hp, Hip. Qed.

(** ** Who is carried *)

(** The connections, the store and the groups hosted agree to carry the requester. *)
Definition carries (h : host) (addr g target : string) (target_addr : string) : Prop :=
  g <> ""%string /\ target <> ""%string /\ g ∈ _relay_active_groups h /\
  find_addr_key_for_device target (manager h) = Some target_addr /\
  exists s requester r, group_store h = Some s /\ connected s = true /\
    get_peer_device_id addr (manager h) = Some requester /\
    memberships s !! (g, requester) = Some r /\ m_status r = M_ACTIVE.

Lemma send_pipes addr wire h : _relay_pipes (manager (send addr wire h)) = _relay_pipes (manager h).
Proof. unfold send, on_manager, Manager.send, send_frame. cbn. by destruct (OrderedDict.get _ _). Qed.

Lemma authorized_carries g requester active s b :
  Relay.authorize_relay_request g requester active s b = Ok () <->
  g ∈ active /\ connected s = true /\ b = true /\
  exists r, memberships s !! (g, requester) = Some r /\ m_status r = M_ACTIVE.
Proof.
  unfold Relay.authorize_relay_request, get_membership_status, _require_conn, mbind, stm_bind, gets.
  case_bool_decide as Hg; cbn [negb]; [|split; [done|by intros [? _]]].
  destruct (connected s); cbn [snd]; [|split; [done|by intros (_ & ? & _)]].
  destruct (memberships s !! (g, requester)) as [r|] eqn:Er; cbn.
  - destruct (m_status r) eqn:Est; [destruct b; cbn|..].
    + split; [|done]. intros _. by eauto 6.
    + split; [done|]. by intros (_ & _ & ? & _).
    + split; [done|]. intros (_ & _ & _ & r' & [= <-] & E). congruence.
  - split; [done|]. by intros (_ & _ & _ & r' & ? & _).
Qed.

(** When a relay opens a pipe.  A relay request opens a pipe between the connection it came
    from and the one of the target exactly when this device hosts relay for the group, the
    authenticated requester is an active member of it, and the target is connected; in every
    other case, a locked vault included, the pipes stay as they are.  The target need not be a
    member of the group. *)
Theorem relay_request_decided now addr g target h :
  let pipes h := _relay_pipes (manager h) in
  let h' := fst (_on_relay_request now addr g target h) in
  (forall ta, carries h addr g target ta -> pipes h' = <[ta := addr]> (<[addr := ta]> (pipes h))) /\
  ((forall ta, ~ carries h addr g target ta) -> pipes h' = pipes h).
Proof.
  cbv zeta. unfold _on_relay_request, mbind, stm_bind, gets. cbn [id].
  destruct (text_is_empty g || text_is_empty target) eqn:Et.
  { split; [|done]. intros ta (Hg & Ht & _). unfold text_is_empty in Et.
    rewrite !bool_decide_eq_false_2 in Et by done. done. }
  apply orb_false_iff in Et as [Eg Et]. apply bool_decide_eq_false in Eg, Et.
  destruct (group_store h) as [s|] eqn:Es;
    [|split; [|done]; intros ta (_ & _ & _ & _ & s & d & r & E & _); congruence].
  destruct (get_peer_device_id addr (manager h)) as [requester|] eqn:Er;
    [|split; [|done]; intros ta (_ & _ & _ & _ & s' & d & r & _ & _ & E & _); congruence].
  destruct (find_addr_key_for_device target (manager h)) as [ta|] eqn:Ef.
  - destruct (Relay.authorize_relay_request g requester (_relay_active_groups h) s _) as [[]|er] eqn:Ea.
    + cbn [fst modify]. rewrite send_pipes. apply authorized_carries in Ea as (Hg & Hc & _ & r & Hr & Hst). split.
      * intros ta' (_ & _ & _ & E & _). rewrite Ef in E. by injection E as <-.
      * intros Hno. exfalso. apply (Hno ta). unfold carries. eauto 12.
    + split.
      * intros ta' (_ & _ & Hg & _ & s' & d & r & E1 & Hc & E2 & Hr & Hst). exfalso.
        rewrite Es in E1. rewrite Er in E2. injection E1 as <-. injection E2 as <-.
        assert (Relay.authorize_relay_request g requester (_relay_active_groups h) s true = Ok ()) as E
          by (apply authorized_carries; split_and!; try done; by exists r).
        rewrite bool_decide_eq_true_2 in Ea by eauto. congruence.
      * intros _. destruct er; try reflexivity. apply send_pipes.
  - split; [intros ta' (_ & _ & _ & E & _); congruence|]. intros _.
    destruct (Relay.authorize_relay_request _ _ _ _ _) as [|[]]; try reflexivity. apply send_pipes.
Qed.

End Consent.

(** ** A search that finds a relay *)
Module HostingSample.

#[local] Existing Instance SampleText.lower.

Definition now : spec_float := binary_normalize 53 1024 1700000000 0 false.

(** Connected to one peer, which is a relay; the target is unknown. *)
Definition one_peer : ConnectionManager :=
  on_sessions (fun _ => [mk_session "relay:5000" "relay" [] "relay" false])
    (on_connections (fun _ => [("relay:5000", 0%nat)]%string) (new_manager MAX_CONNECTIONS)).
Definition here : host :=
  mk_host "me" one_peer None [] (Rendezvous.mk_cache ∅ (Handshake.NonceCache.mk_cache now ∅)) ∅ ∅ ∅ ∅ [] [].

Definition search : list (spec_float * event) :=
  map (fun ev => (now, ev))
    [Start "target" "team"; RelayCandidateResponse "relay:5000" "team" true; Wake 0 Candidate;
     Wake 0 WindowClosed; RelayResponse "relay:5000" "team" "target" true; Wake 0 Answered]%string.

Lemma tunnel_has_consent_witness :
  snd (Hosting.run search (here, [])) = [Tunnelling "target" "team" "relay:5000" []]%string /\
  exists t, (t, RelayResponse "relay:5000" "team" "target" true) ∈ search.
Proof.
  split; [vm_compute; reflexivity|].
  apply (tunnel_has_consent search here eq_refl "target" "team" "relay:5000" []).
  vm_compute. left.
Defined.


(** A peer that discovery found. *)
Definition known : host :=
  mk_host "me" one_peer None
    [("target", PeerRegistry.mk_peer "target" "Target" "10.0.0.2" (JInt 5000) [] "" now)]%string
    (Rendezvous.mk_cache ∅ (Handshake.NonceCache.mk_cache now ∅)) ∅ ∅ ∅ ∅ [] [].

Lemma relay_search_crashes_witness : _try_relay_connect now "target" "team" known = (known, Crashed).
Proof. eapply relay_search_crashes; reflexivity. Defined.

End HostingSample.
