(* ===== verification/Disk.v ===== *)
(** * A disk and its crashes

    The files the vault reads and writes, by path, and the system calls that change
    them one at a time.  A procedure that writes files is the list of its calls; a crash
    stops it between two calls or in the middle of a write.  Calls succeed: a full or
    failing device, permissions, links and directories are not modelled. *)

From S2P Require Import Prelude Text.

Abbreviation disk := (gmap string bytes).

(** One call: [open(p, "w")] leaves an empty file, a write appends, a write through
    [open(p, "r+b")] replaces the first bytes of a file that exists, [os.replace] moves,
    [os.remove] removes a file that exists. *)
Inductive disk_op : Type :=
| Create (p : string)
| Append (p : string) (b : bytes)
| Overwrite (p : string) (b : bytes)
| Rename (src dst : string)
| Unlink (p : string).

Definition apply_op (o : disk_op) (d : disk) : disk :=
  match o with
  | Create p => <[p := []]> d
  | Append p b => <[p := default [] (d !! p) ++ b]> d
  | Overwrite p b =>
      match d !! p with Some old => <[p := b ++ drop (length b) old]> d | None => d end
  | Rename src dst =>
      match d !! src with Some b => <[dst := b]> (delete src d) | None => d end
  | Unlink p => delete p d
  end.

Definition run_ops (l : list disk_op) (d : disk) : disk := foldl (fun d o => apply_op o d) d l.

(** What a crash leaves: some of the calls were made, and of the next write some bytes. *)
Inductive crashed : list disk_op -> disk -> disk -> Prop :=
| crash_now l d : crashed l d d
| crash_in_write p b k l d : crashed (Append p b :: l) d (apply_op (Append p (take k b)) d)
| crash_in_overwrite p b k l d :
    crashed (Overwrite p b :: l) d (apply_op (Overwrite p (take k b)) d)
| crash_later o l d d' : crashed l (apply_op o d) d' -> crashed (o :: l) d d'.

(** [open(p, "wb")], one write, [close()]. *)
Definition write_file (p : string) (b : bytes) : list disk_op := [Create p; Append p b].

(** Write a temporary file, then move it into place. *)
Definition replace_file (tmp p : string) (b : bytes) : list disk_op :=
  write_file tmp b ++ [Rename tmp p].

(** Overwrite with random bytes, then remove; the errors of both are swallowed. *)
Definition secure_delete (p : string) (noise : bytes) : list disk_op :=
  [Overwrite p noise; Unlink p].

Lemma run_ops_app l1 l2 d : run_ops (l1 ++ l2) d = run_ops l2 (run_ops l1 d).
Proof. apply foldl_app. Qed.

Lemma run_write_file p b d : run_ops (write_file p b) d = <[p := b]> d.
Proof.
  unfold run_ops, write_file. simpl. rewrite lookup_insert_eq. simpl. apply insert_insert_eq.
Qed.

Lemma run_replace_file tmp p b d :
  run_ops (replace_file tmp p b) d = <[p := b]> (delete tmp d).
Proof.
  unfold replace_file. rewrite run_ops_app, run_write_file. simpl.
  by rewrite lookup_insert_eq, delete_insert_eq.
Qed.

(** A path a call does not touch. *)
Definition touches (o : disk_op) (q : string) : bool :=
  match o with
  | Create p | Append p _ | Overwrite p _ | Unlink p => bool_decide (p = q)
  | Rename src dst => bool_decide (src = q) || bool_decide (dst = q)
  end.

Lemma apply_op_frame o d q : touches o q = false -> apply_op o d !! q = d !! q.
Proof.
  destruct o; simpl; rewrite ?orb_false_iff, ?bool_decide_eq_false.
  - intros ?. by rewrite lookup_insert_ne.
  - intros ?. by rewrite lookup_insert_ne.
  - intros ?. destruct (d !! p); [by rewrite lookup_insert_ne|done].
  - intros [? ?]. destruct (d !! src); [|done]. by rewrite lookup_insert_ne, lookup_delete_ne.
  - intros ?. by rewrite lookup_delete_ne.
Qed.

Lemma run_ops_frame l d q :
  forallb (fun o => negb (touches o q)) l = true -> run_ops l d !! q = d !! q.
Proof.
  revert d. induction l as [|o l IH]; intros d; [done|]. simpl.
  rewrite andb_true_iff, negb_true_iff. intros [Ho Hl]. fold (run_ops l (apply_op o d)).
  rewrite IH by done. by apply apply_op_frame.
Qed.

Lemma crashed_frame l d d' q :
  crashed l d d' -> forallb (fun o => negb (touches o q)) l = true -> d' !! q = d !! q.
Proof.
  induction 1 as [|p b k l d|p b k l d|o l d d' _ IH]; simpl; [done|..];
    rewrite andb_true_iff, negb_true_iff; intros [Ho Hl].
  - by apply (apply_op_frame (Append p (take k b))).
  - by apply (apply_op_frame (Overwrite p (take k b))).
  - rewrite IH by done. by apply apply_op_frame.
Qed.

Lemma secure_delete_frame p noise q :
  q <> p -> forallb (fun o => negb (touches o q)) (secure_delete p noise) = true.
Proof. intros Hq. simpl. by rewrite !bool_decide_eq_false_2. Qed.

Lemma run_secure_delete p noise d : run_ops (secure_delete p noise) d = delete p d.
Proof. simpl. by destruct (d !! p); rewrite ?delete_insert_eq. Qed.

(** A crash of two procedures in a row is a crash of one of them. *)
Lemma crashed_app l1 l2 d d' :
  crashed (l1 ++ l2) d d' -> crashed l1 d d' \/ crashed l2 (run_ops l1 d) d'.
Proof.
  revert d. induction l1 as [|o l1 IH]; intros d Hc; [by right|].
  inversion Hc as [|p b k|p b k|? ? ? ? Hl]; subst; [by left; constructor..|].
  apply IH in Hl as [Hl|Hl]; [by left; constructor|by right].
Qed.

(** Replacing a file is atomic: wherever it is interrupted, the path holds what it held
    or all of the new bytes, and no path but the temporary one has changed otherwise. *)
Lemma replace_file_atomic tmp p b d d' :
  tmp <> p -> crashed (replace_file tmp p b) d d' ->
  (forall q, q <> tmp -> d' !! q = d !! q) \/ d' = run_ops (replace_file tmp p b) d.
Proof.
  intros Hne Hc.
  unfold replace_file, write_file in *. cbn [app] in *.
  inversion Hc as [|?|?|o1 l1 d1 d1' Hc1]; subst; [by left|].
  inversion Hc1 as [|? ? k|?|o2 l2 d2 d2' Hc2]; subst.
  - left. intros q Hqt. by rewrite (apply_op_frame (Create tmp)) by by apply bool_decide_eq_false_2.
  - left. intros q Hqt. simpl. by rewrite !lookup_insert_ne.
  - inversion Hc2 as [|?|?|o3 l3 d3 d3' Hc3]; subst.
    + left. intros q Hqt. simpl. by rewrite !lookup_insert_ne.
    + right. inversion Hc3; subst. done.
Qed.
