(* ===== verification/VaultKeys.v ===== *)
(** * The keys of the vault

    Models [core/vault/crypto.py] (module [VaultCrypto]), [core/vault/recovery_code.py]
    (module [RecoveryCode]) and [core/vault/keyfile.py] (module [Keyfile]): the data
    encryption key is wrapped twice, under a passphrase and under a recovery code.

    AES-GCM and Scrypt are classes of the operations of the [cryptography] package with
    classes of the laws the program relies on; random bytes are arguments. *)

From Corelib Require Import SpecFloat.
From S2P Require Import Prelude Text Json Crypto Canonical Messages Files Disk.
Local Open Scope peerc_scope.
Local Open Scope Z_scope.

(** ** AES-GCM and Scrypt *)

(** [AESGCM(key).encrypt(nonce, data, None)], [None] for the [OverflowError] on data of
    2^31 bytes or more, and [.decrypt], [None] for [InvalidTag]; both for a key of 32 bytes
    and a nonce of 8 to 128. *)
Class AesGcm := {
  gcm_encrypt : bytes -> bytes -> bytes -> option bytes;
  gcm_decrypt : bytes -> bytes -> bytes -> option bytes
}.

Class AesGcmLaws `{AesGcm} : Prop := {
  gcm_encrypt_fits k n p : zlen p < 2 ^ 31 -> exists c, gcm_encrypt k n p = Some c;
  gcm_encrypt_length k n p c : gcm_encrypt k n p = Some c -> length c = (length p + 16)%nat;
  gcm_decrypt_encrypt k n p c : gcm_encrypt k n p = Some c -> gcm_decrypt k n c = Some p
}.

(** [Scrypt(salt, length=32, n=2**17, r=8, p=1).derive(secret)]. *)
Class Scrypt := { scrypt : bytes -> bytes -> bytes }.

Class ScryptLaws `{Scrypt} : Prop := { scrypt_length s salt : length (scrypt s salt) = 32%nat }.

(** [json.dump(j, f, indent=2)]: the text is read back by [json.load]. *)
Class JsonIndent := { json_dumps_indent : json -> bytes }.

Class JsonIndentLaws `{JsonText, JsonIndent} : Prop := {
  json_loads_indent j : jwf j = true -> json_loads (json_dumps_indent j) = Some j
}.

(** ** Wrapping a key *)
Module VaultCrypto.

Definition SALT_LEN : nat := 16.
Definition NONCE_LEN : nat := 12.
Definition KEK_LEN : nat := 32.
Definition DEK_LEN : nat := 32.

(** What a decryption raises. *)
Inductive gcm_error : Type := InvalidTag | GcmValueError.

(** [AESGCM(key).decrypt(nonce, ciphertext, None)] with the checks of its arguments. *)
Definition gcm_open `{AesGcm} (key nonce ciphertext : bytes) : result gcm_error bytes :=
  raise? negb (bool_decide (length key ∈ [16; 24; 32]%nat)) with GcmValueError ;;
  raise? negb ((8 <=? length nonce)%nat && (length nonce <=? 128)%nat) with GcmValueError ;;
  match gcm_decrypt key nonce ciphertext with
  | Some p => Ok p
  | None => Err InvalidTag
  end.

Section Keys.
Context `{AesGcm, Scrypt}.

Definition derive_kek (secret salt : bytes) : bytes := scrypt secret salt.

(** [nonce] is the random nonce; [None] the [OverflowError]. *)
Definition wrap_dek (nonce kek dek : bytes) : option (bytes * bytes) :=
  c ← gcm_encrypt kek nonce dek; Some (c, nonce).

Inductive unwrap_error : Type := WrongSecretError | UnwrapValueError.

Definition unwrap_dek (kek ciphertext nonce : bytes) : result unwrap_error bytes :=
  match gcm_open kek nonce ciphertext with
  | Ok dek => Ok dek
  | Err InvalidTag => Err WrongSecretError
  | Err GcmValueError => Err UnwrapValueError
  end.

End Keys.
End VaultCrypto.

(** ** Recovery codes *)

(** [str.upper] of one character: the characters it becomes.  The case tables of Unicode
    are an interface, the ASCII part of which is known. *)
Class UpperCase := { char_upper : bytes -> text }.

Class UpperCaseLaws `{UpperCase} : Prop := {
  char_upper_ascii c :
    byte.unsigned c < 128 -> char_upper [c] = [Filenames.upper_char [c]]
}.

Module RecoveryCode.

Definition RECOVERY_CODE_BYTES : nat := 20.
Definition GROUP_SIZE : nat := 5.

Definition _DATA_ALPHABET : bytes := lit "0123456789ABCDEFGHJKMNPQRSTVWXYZ".
Definition _CHECK_ALPHABET : bytes := _DATA_ALPHABET ++ lit "*~$=U".

(** The index of a character in an alphabet. *)
Fixpoint index_in (alphabet : bytes) (g : bytes) : option Z :=
  match alphabet with
  | [] => None
  | c :: cs => if is_ch c g then Some 0 else Z.succ <$> index_in cs g
  end.

Definition symbol (alphabet : bytes) (z : Z) : byte := nth (Z.to_nat z) alphabet Byte.x00.

(** [_NORMALIZE]. *)
Definition normalize_char (g : bytes) : bytes :=
  if one_of (lit "Oo") g then lit "0"
  else if one_of (lit "IiLl") g then lit "1" else g.

Inductive RecoveryCodeError : Type :=
| InvalidCharacter (g : bytes)
| Malformed
| TooShort
| WrongLength (n : Z)
| ChecksumMismatch.

Definition _encode_crockford (data : bytes) : bytes :=
  let value := be_int data in
  let n_chars := ((length data * 8 + 4) / 5)%nat in
  map (fun i => symbol _DATA_ALPHABET
                  (Z.land (Z.shiftr value (5 * (Z.of_nat n_chars - 1 - Z.of_nat i))) 31))
    (seq 0 n_chars)%nat.

(** The loop over the characters. *)
Fixpoint decode_value (value : Z) (t : text) : result RecoveryCodeError Z :=
  match t with
  | [] => Ok value
  | g :: t' =>
      match index_in _DATA_ALPHABET g with
      | Some i => decode_value (Z.lor (Z.shiftl value 5) i) t'
      | None => Err (InvalidCharacter g)
      end
  end.

Definition _decode_crockford (t : text) : result RecoveryCodeError bytes :=
  let? value := decode_value 0 t in
  let n_bytes := (length t * 5 / 8)%nat in
  raise? (2 ^ (8 * Z.of_nat n_bytes) <=? value) with Malformed ;;
  Ok (be_bytes n_bytes value).

Definition _checksum_char (data : bytes) : byte := symbol _CHECK_ALPHABET (be_int data mod 37).

(** [[full[i:i + n] for i in range(0, len(full), n)]]; [fuel] counts the groups. *)
Fixpoint groups_of (fuel n : nat) (s : bytes) : list bytes :=
  match fuel with
  | O => []
  | S fuel' => match s with [] => [] | _ => take n s :: groups_of fuel' n (drop n s) end
  end.

Fixpoint join_dashes (l : list bytes) : bytes :=
  match l with
  | [] => []
  | [g] => g
  | g :: l' => g ++ "-"%byte :: join_dashes l'
  end.

(** [generate_recovery_code] with the random bytes [raw]. *)
Definition full_code (raw : bytes) : bytes := _encode_crockford raw ++ [_checksum_char raw].
Definition generate_recovery_code (raw : bytes) : bytes :=
  let full := full_code raw in join_dashes (groups_of (length full) GROUP_SIZE full).

(** [code.strip().upper().replace("-", "").replace(" ", "").translate(_NORMALIZE)]. *)
Definition clean_code `{UpperCase} (code : text) : text :=
  map normalize_char
    (List.filter (fun g => negb (is_ch " "%byte g))
      (List.filter (fun g => negb (is_ch "-"%byte g))
        (concat (map char_upper (strip_chars is_space_char code))))).

(** The checks on a cleaned code. *)
Definition parse_clean (cleaned : text) : result RecoveryCodeError bytes :=
  raise? (length cleaned <? 2)%nat with TooShort ;;
  let data_part := removelast cleaned in
  let check_part := List.last cleaned [] in
  let? raw := _decode_crockford data_part in
  raise? negb (length raw =? RECOVERY_CODE_BYTES)%nat with WrongLength (zlen raw) ;;
  raise? negb (is_ch (_checksum_char raw) check_part) with ChecksumMismatch ;;
  Ok raw.

Definition normalize_recovery_code `{UpperCase} (code : text) : result RecoveryCodeError bytes :=
  parse_clean (clean_code code).

End RecoveryCode.

(** ** The vault keyfile *)
Module Keyfile.
Import VaultCrypto RecoveryCode.

Definition VAULT_SCHEMA_VERSION : Z := 1.
Definition MIN_PASSPHRASE_LEN : nat := 8.

Inductive weakness : Type := EmptyPassphrase | ShortPassphrase | DeviceName.

Inductive VaultError : Type :=
| WeakPassphraseError (why : weakness)
| VaultExistsError
| WrongSecretError
| CipherValueError                     (** [ValueError] of a nonce of a wrong length *)
| CipherOverflow
| RecoveryError (e : RecoveryCodeError)
| FileNotFoundError
| JSONDecodeError
| BadKeyfile (e : dict_error)
| NotADict.

(** [len(passphrase)] counts characters. *)
Definition validate_passphrase (passphrase : string) (device_name : option string)
    : result VaultError unit :=
  raise? text_is_empty passphrase with WeakPassphraseError EmptyPassphrase ;;
  raise? (length (str_chars passphrase) <? MIN_PASSPHRASE_LEN)%nat
    with WeakPassphraseError ShortPassphrase ;;
  raise? bool_decide (device_name = Some passphrase) with WeakPassphraseError DeviceName ;;
  Ok ().

Record VaultKeyfile := mk_keyfile {
  version : Z;
  kdf : string;
  kdf_params : dict;
  passphrase_salt : bytes;
  wrapped_dek_passphrase : bytes;
  wrapped_dek_passphrase_nonce : bytes;
  recovery_salt : bytes;
  wrapped_dek_recovery : bytes;
  wrapped_dek_recovery_nonce : bytes;
  created_at : spec_float;
  critical_key_salt : option bytes;
  critical_key_verifier_salt : option bytes
}.

Definition b64 (b : bytes) : json := JStr (bytes_str (b64encode b)).
Definition opt_b64 (b : option bytes) : json := match b with Some b => b64 b | None => JNull end.

Definition to_json_dict (k : VaultKeyfile) : dict :=
  [("version", JInt (version k)); ("kdf", JStr (kdf k)); ("kdf_params", JObj (kdf_params k));
   ("passphrase_salt", b64 (passphrase_salt k));
   ("wrapped_dek_passphrase", b64 (wrapped_dek_passphrase k));
   ("wrapped_dek_passphrase_nonce", b64 (wrapped_dek_passphrase_nonce k));
   ("recovery_salt", b64 (recovery_salt k));
   ("wrapped_dek_recovery", b64 (wrapped_dek_recovery k));
   ("wrapped_dek_recovery_nonce", b64 (wrapped_dek_recovery_nonce k));
   ("critical_key_salt", opt_b64 (critical_key_salt k));
   ("critical_key_verifier_salt", opt_b64 (critical_key_verifier_salt k));
   ("created_at", JFloat (created_at k))]%string.

(** [unb64(s)] of a text. *)
Definition unb64 (f : string) (v : json) : result dict_error bytes :=
  match v with
  | JStr s => match b64decode (str_bytes s) with Some b => Ok b | None => Err (BadValue f) end
  | _ => Err (NotAnnotated f)
  end.

Definition bytes_at (f : string) : read bytes := fun d => let? v := item_at f d in unb64 f v.

Definition opt_bytes (f : string) : read (option bytes) := fun d =>
  match jget f d with
  | None | Some JNull => Ok None
  | Some v => let? b := unb64 f v in Ok (Some b)
  end.

Definition int_at (f : string) : read Z := fun d =>
  let? v := item_at f d in match v with JInt z => Ok z | _ => Err (NotAnnotated f) end.
Definition object_at (f : string) : read dict := fun d =>
  let? v := item_at f d in match v with JObj o => Ok o | _ => Err (NotAnnotated f) end.
Definition real_at (f : string) : read spec_float := fun d =>
  let? v := item_at f d in match v with JFloat x => Ok x | _ => Err (NotAnnotated f) end.

Definition from_json_dict : read VaultKeyfile := fun d =>
  let? version := int_at "version" d in
  let? kdf := text_at "kdf" d in
  let? kdf_params := object_at "kdf_params" d in
  let? passphrase_salt := bytes_at "passphrase_salt" d in
  let? wrapped_dek_passphrase := bytes_at "wrapped_dek_passphrase" d in
  let? wrapped_dek_passphrase_nonce := bytes_at "wrapped_dek_passphrase_nonce" d in
  let? recovery_salt := bytes_at "recovery_salt" d in
  let? wrapped_dek_recovery := bytes_at "wrapped_dek_recovery" d in
  let? wrapped_dek_recovery_nonce := bytes_at "wrapped_dek_recovery_nonce" d in
  let? critical_key_salt := opt_bytes "critical_key_salt" d in
  let? critical_key_verifier_salt := opt_bytes "critical_key_verifier_salt" d in
  let? created_at := real_at "created_at" d in
  Ok (mk_keyfile version kdf kdf_params passphrase_salt wrapped_dek_passphrase
        wrapped_dek_passphrase_nonce recovery_salt wrapped_dek_recovery
        wrapped_dek_recovery_nonce created_at critical_key_salt critical_key_verifier_salt).

Section Vault.
Context `{AesGcm, Scrypt, JsonText, JsonIndent, UpperCase}.

Abbreviation vop := (stm disk VaultError).

Definition vault_exists (path : string) (d : disk) : bool := bool_decide (is_Some (d !! path)).

(** The calls of [save_vault_keyfile]; [tmp] is the name [mkstemp] picked. *)
Definition save_vault_keyfile (tmp path : string) (k : VaultKeyfile) : list disk_op :=
  replace_file tmp path (json_dumps_indent (JObj (to_json_dict k))).

Definition load_vault_keyfile (path : string) : vop VaultKeyfile := fun d =>
  (d, match d !! path with
      | None => Err FileNotFoundError
      | Some b =>
          match json_loads b with
          | None => Err JSONDecodeError
          | Some (JObj o) => match from_json_dict o with Ok k => Ok k | Err e => Err (BadKeyfile e) end
          | Some _ => Err NotADict
          end
      end).

(** What [create_vault] draws: the key, the recovery bytes, salts and nonces, the name of
    the temporary file and the time. *)
Record draws := mk_draws {
  d_dek : bytes;
  d_recovery : bytes;
  d_passphrase_salt : bytes;
  d_passphrase_nonce : bytes;
  d_recovery_salt : bytes;
  d_recovery_nonce : bytes;
  d_tmp : string;
  d_now : spec_float
}.

Definition scrypt_params : dict := [("n", JInt 131072); ("r", JInt 8); ("p", JInt 1)]%string.

Definition or_overflow {A} (o : option A) : result VaultError A :=
  match o with Some a => Ok a | None => Err CipherOverflow end.

Definition new_keyfile (r : draws) (passphrase : string) : result VaultError (VaultKeyfile * bytes) :=
  let recovery_code := generate_recovery_code (d_recovery r) in
  match normalize_recovery_code (map (fun c => [c]) recovery_code) with
  | Err e => Err (RecoveryError e)
  | Ok recovery_raw =>
      let passphrase_kek := derive_kek (str_bytes passphrase) (d_passphrase_salt r) in
      let? wp := or_overflow (wrap_dek (d_passphrase_nonce r) passphrase_kek (d_dek r)) in
      let recovery_kek := derive_kek recovery_raw (d_recovery_salt r) in
      let? wr := or_overflow (wrap_dek (d_recovery_nonce r) recovery_kek (d_dek r)) in
      Ok (mk_keyfile VAULT_SCHEMA_VERSION "scrypt" scrypt_params
            (d_passphrase_salt r) (fst wp) (snd wp) (d_recovery_salt r) (fst wr) (snd wr)
            (d_now r) None None, recovery_code)
  end.

Definition create_vault (r : draws) (passphrase : string) (device_name : option string)
    (path : string) : vop (VaultKeyfile * bytes) := fun d =>
  if vault_exists path d then (d, Err VaultExistsError)
  else
    match validate_passphrase passphrase device_name with
    | Err e => (d, Err e)
    | Ok _ =>
        match new_keyfile r passphrase with
        | Err e => (d, Err e)
        | Ok kc => (run_ops (save_vault_keyfile (d_tmp r) path (fst kc)) d, Ok kc)
        end
    end.

Definition unwrapped (r : result unwrap_error bytes) : result VaultError bytes :=
  match r with
  | Ok dek => Ok dek
  | Err VaultCrypto.WrongSecretError => Err WrongSecretError
  | Err UnwrapValueError => Err CipherValueError
  end.

Definition unlock_with_passphrase (k : VaultKeyfile) (passphrase : string)
    : result VaultError bytes :=
  unwrapped (unwrap_dek (derive_kek (str_bytes passphrase) (passphrase_salt k))
               (wrapped_dek_passphrase k) (wrapped_dek_passphrase_nonce k)).

Definition unlock_with_recovery_code (k : VaultKeyfile) (recovery_code : text)
    : result VaultError bytes :=
  match normalize_recovery_code recovery_code with
  | Err e => Err (RecoveryError e)
  | Ok raw =>
      unwrapped (unwrap_dek (derive_kek raw (recovery_salt k)) (wrapped_dek_recovery k)
                   (wrapped_dek_recovery_nonce k))
  end.

(** [change_passphrase]; the keyfile object is changed only when the whole call
    succeeds, and the new value is the result. *)
Definition change_passphrase (salt nonce : bytes) (k : VaultKeyfile)
    (old_passphrase new_passphrase : string) (device_name : option string)
    : result VaultError VaultKeyfile :=
  let? _ := validate_passphrase new_passphrase device_name in
  let? dek := unlock_with_passphrase k old_passphrase in
  let? w := or_overflow (wrap_dek nonce (derive_kek (str_bytes new_passphrase) salt) dek) in
  Ok (mk_keyfile (version k) (kdf k) (kdf_params k) salt (fst w) (snd w) (recovery_salt k)
        (wrapped_dek_recovery k) (wrapped_dek_recovery_nonce k) (created_at k)
        (critical_key_salt k) (critical_key_verifier_salt k)).

End Vault.
End Keyfile.
