(* ===== verification/VaultKeysTheory.v ===== *)
(** * What the keys of the vault guarantee

    A recovery code is read back from any transcription of it, and a mistyped one is
    refused; the data encryption key survives every change of passphrase and is
    recoverable with either secret; the keyfile survives a crash. *)

From Corelib Require Import SpecFloat.
From S2P Require Import Prelude Text Json Crypto Canonical Messages Files Disk VaultKeys.
Import VaultCrypto RecoveryCode Keyfile.
Local Open Scope peerc_scope.
Local Open Scope Z_scope.

(** ** Base 32 *)

Definition singles (s : bytes) : text := map (fun c => [c]) s.

Lemma data_index d :
  0 <= d < 32 -> index_in _DATA_ALPHABET [symbol _DATA_ALPHABET d] = Some d.
Proof.
  intros Hd. assert (exists n, d = Z.of_nat n /\ (n < 32)%nat) as (n & -> & Hn).
  { exists (Z.to_nat d). lia. }
  do 32 (destruct n as [|n]; [by vm_compute|]). lia.
Qed.

Lemma index_in_range alphabet g i :
  index_in alphabet g = Some i -> 0 <= i < Z.of_nat (length alphabet).
Proof.
  revert i. induction alphabet as [|c cs IH]; intros i; [done|]. simpl.
  destruct (is_ch c g); [intros [= <-]; lia|].
  intros (j & Hj & ->)%fmap_Some. specialize (IH j Hj). lia.
Qed.

Lemma index_in_inj alphabet g g' i :
  index_in alphabet g = Some i -> index_in alphabet g' = Some i -> g = g'.
Proof.
  revert i. induction alphabet as [|c cs IH]; intros i; [done|]. simpl. unfold is_ch.
  destruct (bool_decide_reflect (g = [c])) as [-> |]; destruct (bool_decide_reflect (g' = [c])) as [-> |].
  - done.
  - intros [= <-] (j & Hj & Hz)%fmap_Some. apply index_in_range in Hj. lia.
  - intros (j & Hj & ->)%fmap_Some [= Hz]. apply index_in_range in Hj. lia.
  - intros (j & Hj & ->)%fmap_Some (j' & Hj' & Hz)%fmap_Some.
    assert (j = j') as <- by lia. eauto.
Qed.

Lemma shift_digit v i : 0 <= i < 32 -> Z.lor (Z.shiftl v 5) i = v * 32 + i.
Proof.
  intros Hi. rewrite Z.shiftl_mul_pow2 by lia. change (2 ^ 5) with 32.
  rewrite <- Z.add_lor_land. assert (Z.land (v * 32) i = 0) as ->; [|lia].
  apply Z.bits_inj'. intros n Hn. rewrite Z.land_spec, Z.bits_0.
  destruct (Z.lt_ge_cases n 5).
  - change 32 with (2 ^ 5). by rewrite Z.mul_pow2_bits_low by lia.
  - destruct (decide (i = 0)) as [-> |]; [by rewrite Z.bits_0, andb_false_r|].
    rewrite (Z.bits_above_log2 i) by (try lia; assert (Z.log2 i < 5) by (apply Z.log2_lt_pow2; lia); lia).
    apply andb_false_r.
Qed.

(** The number a text of digits denotes. *)
Definition number (v : Z) (l : list Z) : Z := foldl (fun v d => v * 32 + d) v l.

Lemma number_app v l1 l2 : number v (l1 ++ l2) = number (number v l1) l2.
Proof. apply foldl_app. Qed.

Lemma number_base v l : number v l = v * 32 ^ Z.of_nat (length l) + number 0 l.
Proof.
  revert v. induction l as [|d l IH]; intros v; [simpl; lia|].
  cbn [number foldl length]. fold (number (v * 32 + d) l). fold (number (0 * 32 + d) l).
  rewrite (IH (v * 32 + d)), (IH (0 * 32 + d)).
  rewrite Nat2Z.inj_succ, Z.pow_succ_r by lia. lia.
Qed.

Lemma number_bound l :
  Forall (fun d => 0 <= d < 32) l -> 0 <= number 0 l < 32 ^ Z.of_nat (length l).
Proof.
  induction l as [|d l IH]; intros Hl; [simpl; lia|].
  apply Forall_cons in Hl as [Hd Hl]. specialize (IH Hl).
  cbn [number foldl length]. fold (number (0 * 32 + d) l). rewrite number_base.
  rewrite Nat2Z.inj_succ, Z.pow_succ_r by lia. nia.
Qed.

Lemma decode_value_digits v t l :
  mapM (index_in _DATA_ALPHABET) t = Some l -> decode_value v t = Ok (number v l).
Proof.
  revert v l. induction t as [|g t IH]; intros v l; cbn [mapM decode_value].
  - by intros [= <-].
  - intros (i & Hi & H1)%bind_Some. apply bind_Some in H1 as (l' & Hl & [= <-]).
    rewrite Hi. rewrite (IH _ _ Hl). cbn [number foldl].
    rewrite shift_digit; [done|]. apply index_in_range in Hi. exact Hi.
Qed.

Lemma decode_value_Ok v t z :
  decode_value v t = Ok z -> exists l, mapM (index_in _DATA_ALPHABET) t = Some l.
Proof.
  revert v z. induction t as [|g t IH]; intros v z; cbn [decode_value mapM]; [by eexists|].
  destruct (index_in _DATA_ALPHABET g) as [i|]; [|done].
  intros (l & ->)%IH. by eexists.
Qed.

Lemma digits_range t l :
  mapM (index_in _DATA_ALPHABET) t = Some l -> Forall (fun d => 0 <= d < 32) l /\ length l = length t.
Proof.
  intros H. split; [|by apply length_mapM in H]. apply mapM_Some_1 in H.
  induction H as [|g d t l Hg _ IH]; constructor; [|done]. by apply index_in_range in Hg.
Qed.

(** Thirty-two digits are twenty bytes. *)
Lemma decode_crockford_32 t l :
  length t = 32%nat -> mapM (index_in _DATA_ALPHABET) t = Some l ->
  _decode_crockford t = Ok (be_bytes 20 (number 0 l)) /\
  be_int (be_bytes 20 (number 0 l)) = number 0 l.
Proof.
  intros Ht Hl. destruct (digits_range t l Hl) as [Hr Hlen]. pose proof (number_bound l Hr) as Hb.
  rewrite Hlen, Ht in Hb. change (32 ^ Z.of_nat 32) with (2 ^ (8 * Z.of_nat 20)) in Hb.
  split; [|by apply be_int_be_bytes].
  unfold _decode_crockford. rewrite (decode_value_digits _ _ _ Hl), Ht. cbn [rbind].
  change (32 * 5 / 8)%nat with 20%nat.
  by destruct (Z.leb_spec (2 ^ (8 * Z.of_nat 20)) (number 0 l)); [lia|].
Qed.

(** The digits of an encoding. *)
Definition digit (value : Z) (n i : nat) : Z :=
  Z.land (Z.shiftr value (5 * (Z.of_nat n - 1 - Z.of_nat i))) 31.

Lemma digit_range value n i : 0 <= digit value n i < 32.
Proof.
  unfold digit. change 31 with (Z.ones 5). rewrite Z.land_ones by lia.
  apply Z.mod_pos_bound. lia.
Qed.

Lemma number_digits value n k :
  0 <= value -> (k <= n)%nat ->
  number (Z.shiftr value (5 * Z.of_nat k)) (map (digit value n) (seq (n - k) k)) = value.
Proof.
  intros Hv. induction k as [|k IH]; intros Hk; [by rewrite Z.shiftr_0_r|].
  cbn [seq map number foldl].
  fold (number (Z.shiftr value (5 * Z.of_nat (S k)) * 32 + digit value n (n - S k))
          (map (digit value n) (seq (S (n - S k)) k))).
  replace (S (n - S k))%nat with (n - k)%nat by lia.
  assert (Z.shiftr value (5 * Z.of_nat (S k)) * 32 + digit value n (n - S k)
          = Z.shiftr value (5 * Z.of_nat k)) as ->; [|apply IH; lia].
  unfold digit. replace (5 * (Z.of_nat n - 1 - Z.of_nat (n - S k))) with (5 * Z.of_nat k) by lia.
  change 31 with (Z.ones 5). rewrite Z.land_ones, !Z.shiftr_div_pow2 by lia.
  replace (5 * Z.of_nat (S k)) with (5 * Z.of_nat k + 5) by lia.
  rewrite Z.pow_add_r, <- Z.div_div by (try lia; apply Z.pow_nonzero; lia).
  change (2 ^ 5) with 32. pose proof (Z.div_mod (value / 2 ^ (5 * Z.of_nat k)) 32). lia.
Qed.

Lemma encode_digits data l :
  l = map (digit (be_int data) ((length data * 8 + 4) / 5)) (seq 0 ((length data * 8 + 4) / 5)) ->
  mapM (index_in _DATA_ALPHABET) (singles (_encode_crockford data)) = Some l.
Proof.
  intros ->. unfold _encode_crockford, singles. rewrite map_map. fold (digit (be_int data)).
  apply mapM_Some_2. induction (seq 0 _) as [|i l IH]; constructor; [|done].
  apply data_index, digit_range.
Qed.

Lemma encode_length data : length (_encode_crockford data) = ((length data * 8 + 4) / 5)%nat.
Proof. unfold _encode_crockford. by rewrite length_map, length_seq. Qed.

(** The digits of a code of twenty bytes, and their number. *)
Lemma code_digits raw :
  length raw = 20%nat ->
  exists l, mapM (index_in _DATA_ALPHABET) (singles (_encode_crockford raw)) = Some l /\
    length l = 32%nat /\ number 0 l = be_int raw.
Proof.
  intros Hr. eexists. split; [by apply encode_digits|]. rewrite length_map, length_seq, Hr.
  change ((20 * 8 + 4) / 5)%nat with 32%nat. split; [done|].
  pose proof (be_int_bound raw) as Hb. rewrite Hr in Hb.
  pose proof (number_digits (be_int raw) 32 32 ltac:(lia) ltac:(lia)) as Hn.
  rewrite Z.shiftr_div_pow2, Z.div_small in Hn by lia. exact Hn.
Qed.

(** ** Reading a code back *)

Lemma removelast_snoc {A} (l : list A) x : removelast (l ++ [x]) = l.
Proof. by rewrite removelast_app, app_nil_r. Qed.

Lemma parse_full raw :
  length raw = 20%nat -> parse_clean (singles (full_code raw)) = Ok raw.
Proof.
  intros Hr. destruct (code_digits raw Hr) as (l & Hl & Hlen & Hn).
  unfold parse_clean, full_code, singles. rewrite map_app.
  fold (singles (_encode_crockford raw)).
  rewrite length_app. unfold singles at 1. rewrite length_map, encode_length, Hr. simpl.
  rewrite removelast_snoc, last_last.
  destruct (decode_crockford_32 (singles (_encode_crockford raw)) l) as [-> _]; [|done|].
  { unfold singles. by rewrite length_map, encode_length, Hr. }
  cbn [rbind]. rewrite Hn, <- Hr, be_bytes_be_int, Hr. simpl.
  unfold is_ch. by rewrite bool_decide_eq_true_2.
Qed.

(** A character a user may write for a symbol of a code. *)
Definition lower_byte (c : byte) : byte :=
  let n := byte.unsigned c in if (65 <=? n) && (n <=? 90) then byte.of_Z (n + 32) else c.

Definition reads (c : byte) (g : bytes) : bool :=
  is_ch c g || is_ch (lower_byte c) g
  || bool_decide (c = "0"%byte) && one_of (lit "Oo") g
  || bool_decide (c = "1"%byte) && one_of (lit "IiLl") g.

Definition separator (g : bytes) : bool := is_ch "-"%byte g || is_ch " "%byte g.

(** [s] is a transcription of the symbols [cs]: letters in either case, O for zero, I or L
    for one, dashes and blanks anywhere. *)
Inductive transcribed : bytes -> text -> Prop :=
| transcribed_end : transcribed [] []
| transcribed_sep g cs s : separator g = true -> transcribed cs s -> transcribed cs (g :: s)
| transcribed_symbol c cs g s : reads c g = true -> transcribed cs s -> transcribed (c :: cs) (g :: s).

Lemma transcribed_app cs1 s1 cs2 s2 :
  transcribed cs1 s1 -> transcribed cs2 s2 -> transcribed (cs1 ++ cs2) (s1 ++ s2).
Proof. intros H1 H2. induction H1; simpl; [done|by constructor..]. Qed.

Lemma transcribed_rev cs s : transcribed cs s -> transcribed (rev cs) (rev s).
Proof.
  induction 1 as [|g cs s Hg _ IH|c cs g s Hg _ IH]; simpl; [constructor|..].
  - rewrite <- (app_nil_r (rev cs)). apply transcribed_app; [done|]. by repeat constructor.
  - apply transcribed_app; [done|]. by repeat constructor.
Qed.

Definition in_alphabet (c : byte) : Prop := c ∈ _CHECK_ALPHABET.

(** Facts about the 37 symbols, checked one by one. *)
Ltac each_symbol H :=
  unfold in_alphabet in H; vm_compute in H;
  repeat (apply elem_of_cons in H as [H|H]; [subst|]); [..|by apply not_elem_of_nil in H].

Lemma reads_cases c g :
  reads c g = true ->
  g = [c] \/ g = [lower_byte c] \/ (c = "0"%byte /\ (g = lit "O" \/ g = lit "o")) \/
  (c = "1"%byte /\ (g = lit "I" \/ g = lit "i" \/ g = lit "L" \/ g = lit "l")).
Proof.
  unfold reads, one_of, is_ch. cbn [existsb lit].
  rewrite !orb_true_iff, !andb_true_iff, !bool_decide_eq_true. simpl.
  rewrite !orb_true_iff, !bool_decide_eq_true. naive_solver.
Qed.

(** What the code does to one character that was written for a symbol. *)
Lemma reads_clean c g :
  in_alphabet c -> reads c g = true ->
  (exists b, g = [b] /\ byte.unsigned b < 128) /\ is_space_char g = false /\
  is_ch "-"%byte (Filenames.upper_char g) = false /\ is_ch " "%byte (Filenames.upper_char g) = false /\
  normalize_char (Filenames.upper_char g) = [c].
Proof.
  intros Hc Hr. apply reads_cases in Hr as [-> |[-> |[[-> [-> | ->]]|[-> [-> |[-> |[-> | ->]]]]]]].
  3-8: (split; [by eexists|done]).
  1-2: each_symbol Hc; (split; [by eexists|done]).
Qed.

Section Codes.
Context `{UpperCaseLaws}.

Lemma separator_clean g :
  separator g = true ->
  concat (map char_upper [g]) = [g] /\ (is_ch "-"%byte g = true \/ is_ch " "%byte g = true).
Proof.
  unfold separator, is_ch. rewrite orb_true_iff, !bool_decide_eq_true. intros [-> | ->]; simpl;
    rewrite char_upper_ascii by done; by auto.
Qed.

(** Cleaning a text that starts with no blank at either end. *)
Lemma clean_transcribed cs s :
  Forall in_alphabet cs -> transcribed cs s ->
  map normalize_char
    (List.filter (fun g => negb (is_ch " "%byte g))
      (List.filter (fun g => negb (is_ch "-"%byte g)) (concat (map char_upper s)))) = singles cs.
Proof.
  intros Hcs. induction 1 as [|g cs s Hg _ IH|c cs g s Hg _ IH]; [done|..].
  - destruct (separator_clean g Hg) as [Hu Hd]. simpl in Hu. rewrite app_nil_r in Hu.
    cbn [map concat]. rewrite Hu. cbn [app List.filter].
    destruct Hd as [-> | Hs]; cbn [negb]; [by apply IH|].
    destruct (is_ch "-"%byte g); cbn [negb List.filter]; [by apply IH|].
    rewrite Hs. cbn [negb]. by apply IH.
  - apply Forall_cons in Hcs as [Hc Hcs].
    destruct (reads_clean c g Hc Hg) as ((b & -> & Hb) & _ & Hd & Hs & Hn).
    cbn [map concat]. rewrite char_upper_ascii by done. cbn [app List.filter].
    rewrite Hd. cbn [negb List.filter]. rewrite Hs. cbn [negb map]. rewrite Hn.
    by rewrite IH.
Qed.

Lemma dropwhile_transcribed cs s :
  Forall in_alphabet cs -> transcribed cs s -> transcribed cs (dropwhile is_space_char s).
Proof.
  intros Hcs Ht. revert Hcs. induction Ht as [|g cs s Hg Ht IH|c cs g s Hg Ht _]; intros Hcs; simpl.
  - constructor.
  - destruct (is_space_char g); [by apply IH|by constructor].
  - apply Forall_cons in Hcs as [Hc Hcs].
    destruct (reads_clean c g Hc Hg) as (_ & -> & _). by constructor.
Qed.

Lemma dropwhile_spaces ws s :
  Forall (fun g => is_space_char g = true) ws ->
  dropwhile is_space_char (ws ++ s) = dropwhile is_space_char s.
Proof. induction 1 as [|g ws Hg _ IH]; [done|]. simpl. by rewrite Hg. Qed.

Lemma strip_transcribed cs ws1 s ws2 :
  Forall in_alphabet cs -> transcribed cs s ->
  Forall (fun g => is_space_char g = true) ws1 -> Forall (fun g => is_space_char g = true) ws2 ->
  cs <> [] -> transcribed cs (strip_chars is_space_char (ws1 ++ s ++ ws2)).
Proof.
  intros Hcs Ht H1 H2 Hne. unfold strip_chars, rstrip. rewrite dropwhile_spaces by done.
  assert (dropwhile is_space_char (s ++ ws2) = dropwhile is_space_char s ++ ws2) as ->.
  { clear -Hcs Ht Hne H H0. induction Ht as [|g cs s Hg Ht IH|c cs g s Hg Ht _]; simpl; [done|..].
    - destruct (is_space_char g); [by apply IH|done].
    - apply Forall_cons in Hcs as [Hc Hcs]. by destruct (reads_clean c g Hc Hg) as (_ & -> & _). }
  rewrite rev_app_distr, dropwhile_spaces.
  - rewrite <- (rev_involutive cs). apply transcribed_rev, dropwhile_transcribed.
    + by apply Forall_rev.
    + by apply transcribed_rev, dropwhile_transcribed.
  - by apply Forall_rev.
Qed.

Lemma symbol_in alphabet z :
  0 <= z < Z.of_nat (length alphabet) -> symbol alphabet z ∈ alphabet.
Proof. intros Hz. apply list_elem_of_In, nth_In. lia. Qed.

Lemma full_code_alphabet raw : Forall in_alphabet (full_code raw).
Proof.
  unfold full_code. apply Forall_app. split.
  - apply Forall_forall. intros c (i & -> & _)%list_elem_of_fmap.
    unfold in_alphabet, _CHECK_ALPHABET. apply elem_of_app. left. apply symbol_in.
    change 31 with (Z.ones 5). rewrite Z.land_ones by lia. change (Z.of_nat (length _DATA_ALPHABET)) with 32. apply Z.mod_pos_bound. lia.
  - constructor; [|constructor]. apply symbol_in. change (Z.of_nat (length _CHECK_ALPHABET)) with 37.
    apply Z.mod_pos_bound. lia.
Qed.

Lemma transcribed_self s : transcribed s (singles s).
Proof.
  induction s as [|c s IH]; simpl; constructor; [|done].
  unfold reads, is_ch. by rewrite bool_decide_eq_true_2.
Qed.

Lemma transcribed_groups fuel n s :
  (0 < n)%nat -> (length s <= fuel)%nat -> transcribed s (singles (join_dashes (groups_of fuel n s))).
Proof.
  intros Hn. revert s. induction fuel as [|fuel IH]; intros s Hf.
  { destruct s; [constructor|simpl in Hf; lia]. }
  destruct s as [|c s]; [constructor|]. cbn [groups_of].
  set (t := c :: s) in *. assert (length (drop n t) <= fuel)%nat as Hd.
  { rewrite length_drop. subst t. simpl in *. lia. }
  specialize (IH (drop n t) Hd).
  assert (transcribed t (singles (take n t) ++ singles (join_dashes (groups_of fuel n (drop n t)))))
    as Ht.
  { rewrite <- (take_drop n t) at 1. apply transcribed_app; [apply transcribed_self|done]. }
  unfold singles in Ht. rewrite <- map_app in Ht.
  destruct (groups_of fuel n (drop n t)) as [|g gs] eqn:Eg.
  - simpl in *. by rewrite app_nil_r in Ht.
  - cbn [join_dashes]. unfold singles. rewrite map_app. rewrite <- (take_drop n t) at 1.
    apply transcribed_app; [apply transcribed_self|]. cbn [map]. constructor; [done|].
    exact IH.
Qed.

Lemma transcribed_generated raw : transcribed (full_code raw) (singles (generate_recovery_code raw)).
Proof. apply transcribed_groups; [unfold GROUP_SIZE; lia|done]. Qed.

(** A recovery code is read back from any transcription of it.  Whoever copies the code
    down with dashes and blanks wherever they like, in either case, with O for zero and I or
    L for one, and with blanks around it, gets the twenty bytes back. *)
Theorem recovery_code_transcribed raw s ws1 ws2 :
  length raw = RECOVERY_CODE_BYTES -> transcribed (full_code raw) s ->
  Forall (fun g => is_space_char g = true) ws1 -> Forall (fun g => is_space_char g = true) ws2 ->
  normalize_recovery_code (ws1 ++ s ++ ws2) = Ok raw.
Proof.
  intros Hr Ht H1 H2. unfold normalize_recovery_code, clean_code.
  rewrite (clean_transcribed (full_code raw)).
  - by apply parse_full.
  - apply full_code_alphabet.
  - apply strip_transcribed; try done; [apply full_code_alphabet|].
    unfold full_code. by destruct (_encode_crockford raw).
Qed.

End Codes.

(** ** Mistyped codes *)

Lemma coprime_32 k : Z.gcd 37 (32 ^ Z.of_nat k) = 1.
Proof.
  induction k as [|k IH]; [done|]. rewrite Nat2Z.inj_succ, Z.pow_succ_r by lia.
  by apply Z.coprime_mul_r.
Qed.

(** No multiple of a small number by a power of 32 leaves the checksum unchanged. *)
Lemma checksum_moves x k : -37 < x < 37 -> x * 32 ^ Z.of_nat k mod 37 = 0 -> x = 0.
Proof.
  intros Hx Hm. apply Z.mod_divide in Hm; [|lia]. rewrite Z.mul_comm in Hm.
  apply Z.gauss in Hm as [q Hq]; [nia|]. apply coprime_32.
Qed.

Lemma number_at l1 d l2 :
  number 0 (l1 ++ d :: l2) =
  number 0 l1 * 32 ^ Z.of_nat (S (length l2)) + d * 32 ^ Z.of_nat (length l2) + number 0 l2.
Proof.
  rewrite number_app. cbn [number foldl]. fold (number (number 0 l1 * 32 + d) l2).
  rewrite number_base, Nat2Z.inj_succ, Z.pow_succ_r by lia. lia.
Qed.

Lemma check_symbol z : 0 <= z < 37 -> index_in _CHECK_ALPHABET [symbol _CHECK_ALPHABET z] = Some z.
Proof.
  intros Hd. assert (exists n, z = Z.of_nat n /\ (n < 37)%nat) as (n & -> & Hn).
  { exists (Z.to_nat z). lia. }
  do 37 (destruct n as [|n]; [by vm_compute|]). lia.
Qed.

(** Only a text of digits whose number has the given checksum is accepted with it. *)
Lemma parse_clean_Ok t c raw :
  length t = 32%nat -> parse_clean (t ++ [c]) = Ok raw ->
  exists l, mapM (index_in _DATA_ALPHABET) t = Some l /\
    c = [symbol _CHECK_ALPHABET (number 0 l mod 37)].
Proof.
  intros Ht. unfold parse_clean. rewrite length_app, Ht, removelast_snoc, last_last. simpl.
  destruct (_decode_crockford t) as [r|e] eqn:Ed; [|done]. cbn [rbind].
  assert (exists l, mapM (index_in _DATA_ALPHABET) t = Some l) as [l Hl].
  { unfold _decode_crockford in Ed. destruct (decode_value 0 t) eqn:Ev; [|done].
    by eapply decode_value_Ok. }
  destruct (decode_crockford_32 t l Ht Hl) as [Ed' Hi]. rewrite Ed' in Ed. apply Ok_inj in Ed as <-.
  rewrite length_be_bytes. simpl. unfold is_ch, _checksum_char. rewrite Hi.
  destruct (bool_decide_reflect (c = [symbol _CHECK_ALPHABET (number 0 l mod 37)])); [|done].
  intros _. by exists l.
Qed.

Lemma mod_37_eq a b : a mod 37 = b mod 37 -> (a - b) mod 37 = 0.
Proof. intros E. by rewrite Zminus_mod, E, Z.sub_diag. Qed.

Lemma check_symbol_inj a b :
  [symbol _CHECK_ALPHABET (a mod 37)] = [symbol _CHECK_ALPHABET (b mod 37)] -> (a - b) mod 37 = 0.
Proof.
  intros E. apply mod_37_eq. apply (f_equal (index_in _CHECK_ALPHABET)) in E.
  rewrite !check_symbol in E by (apply Z.mod_pos_bound; lia). by apply (inj Some) in E.
Qed.

Lemma mapM_split t1 g t2 l :
  mapM (index_in _DATA_ALPHABET) (t1 ++ g :: t2) = Some l ->
  exists l1 d l2, l = l1 ++ d :: l2 /\ mapM (index_in _DATA_ALPHABET) t1 = Some l1 /\
    index_in _DATA_ALPHABET g = Some d /\ mapM (index_in _DATA_ALPHABET) t2 = Some l2.
Proof.
  intros H. apply mapM_Some_1 in H. apply Forall2_app_inv_l in H as (l1 & l' & H1 & H2 & ->).
  inversion H2 as [|? d ? l2 Hg Ht]; subst. exists l1, d, l2.
  split_and!; [done|by apply mapM_Some_2|done|by apply mapM_Some_2].
Qed.

(** One symbol replaced by another character, or two neighbouring data symbols swapped. *)
Inductive mistyped : text -> text -> Prop :=
| wrong_symbol t1 g g' t2 : g <> g' -> mistyped (t1 ++ g :: t2) (t1 ++ g' :: t2)
| swapped t1 g g' t2 : g <> g' -> t2 <> [] -> mistyped (t1 ++ g :: g' :: t2) (t1 ++ g' :: g :: t2).

(** The digits of a code and of one in which a digit differs. *)
Lemma wrong_digit_refused t1 g g' t2 l c c' :
  length (t1 ++ g :: t2) = 32%nat -> mapM (index_in _DATA_ALPHABET) (t1 ++ g :: t2) = Some l ->
  c = [symbol _CHECK_ALPHABET (number 0 l mod 37)] -> g <> g' -> c' = c ->
  is_ok (parse_clean ((t1 ++ g' :: t2) ++ [c'])) = false.
Proof.
  intros Hlen Hl Hc Hne ->.
  destruct (parse_clean _) as [raw|] eqn:Ep; [|done]. exfalso.
  apply parse_clean_Ok in Ep as (l' & Hl' & Hc'); [|by rewrite length_app in *].
  apply mapM_split in Hl as (l1 & d & l2 & -> & H1 & Hd & H2).
  apply mapM_split in Hl' as (l1' & d' & l2' & -> & H1' & Hd' & H2').
  rewrite H1 in H1'. rewrite H2 in H2'. apply (inj Some) in H1' as <-, H2' as <-.
  rewrite Hc in Hc'. apply check_symbol_inj in Hc'. rewrite !number_at in Hc'.
  apply index_in_range in Hd as Hr, Hd' as Hr'. change (Z.of_nat (length _DATA_ALPHABET)) with 32 in *.
  assert (d - d' = 0) as E.
  { apply (checksum_moves _ (length l2)); [lia|]. rewrite <- Hc'. f_equal. lia. }
  apply Hne. eapply index_in_inj; [exact Hd|]. by replace d with d' by lia.
Qed.

Lemma swapped_digits_refused t1 g g' t2 l c :
  length (t1 ++ g :: g' :: t2) = 32%nat ->
  mapM (index_in _DATA_ALPHABET) (t1 ++ g :: g' :: t2) = Some l ->
  c = [symbol _CHECK_ALPHABET (number 0 l mod 37)] -> g <> g' ->
  is_ok (parse_clean ((t1 ++ g' :: g :: t2) ++ [c])) = false.
Proof.
  intros Hlen Hl Hc Hne. destruct (parse_clean _) as [raw|] eqn:Ep; [|done]. exfalso.
  apply parse_clean_Ok in Ep as (l' & Hl' & Hc'); [|by rewrite length_app in *].
  apply mapM_split in Hl as (l1 & d & l2 & -> & H1 & Hd & H2).
  apply mapM_split in Hl' as (l1' & d' & l2' & -> & H1' & Hd' & H2').
  rewrite H1 in H1'. apply (inj Some) in H1' as <-.
  cbn [mapM] in H2, H2'. rewrite Hd' in H2. rewrite Hd in H2'.
  apply bind_Some in H2 as (x & [= <-] & H2), H2' as (y & [= <-] & H2').
  apply bind_Some in H2 as (k & Hk & [= <-]), H2' as (k' & Hk' & [= <-]).
  rewrite Hk in Hk'. apply (inj Some) in Hk' as <-.
  rewrite Hc in Hc'. apply check_symbol_inj in Hc'.
  change (d' :: k) with ([] ++ d' :: k) in Hc'. change (d :: k) with ([] ++ d :: k) in Hc'.
  rewrite !number_at in Hc'. cbn [length app] in Hc'. change (number 0 []) with 0 in Hc'.
  apply index_in_range in Hd as Hr, Hd' as Hr'. change (Z.of_nat (length _DATA_ALPHABET)) with 32 in *.
  assert (31 * (d - d') mod 37 = 0 -> d - d' = 0) as Hsmall.
  { intros Hm. apply Z.mod_divide in Hm; [|lia]. apply Z.gauss in Hm as [q Hq]; [nia|done]. }
  assert (d - d' = 0) as E; [|apply Hne; eapply index_in_inj; [exact Hd|]; by replace d with d' by lia].
  apply Hsmall. apply Z.mod_divide; [lia|]. apply (Z.gauss _ (32 ^ Z.of_nat (length k))); [|apply coprime_32].
  apply Z.mod_divide; [lia|]. rewrite <- Hc'. f_equal.
  rewrite !Nat2Z.inj_succ, !Z.pow_succ_r by lia. lia.
Qed.

Section Mistyped.
Context `{UpperCase}.

(** A mistyped recovery code is refused at once.  When one character of a code was
    replaced by any other, or two neighbouring data characters were swapped, the check
    character exposes it: the code is refused before any key is derived. *)
Theorem mistyped_code_refused raw code :
  length raw = RECOVERY_CODE_BYTES -> mistyped (singles (full_code raw)) (clean_code code) ->
  is_ok (normalize_recovery_code code) = false.
Proof.
  intros Hr Hm. unfold normalize_recovery_code.
  destruct (code_digits raw Hr) as (l & Hl & Hlen & Hn).
  remember (singles (full_code raw)) as good eqn:Eg. remember (clean_code code) as t eqn:Et.
  assert (good = singles (_encode_crockford raw) ++ [[symbol _CHECK_ALPHABET (number 0 l mod 37)]]) as Hg.
  { rewrite Eg, Hn. unfold singles, full_code. by rewrite map_app. }
  assert (length (singles (_encode_crockford raw)) = 32%nat) as H32.
  { unfold singles. by rewrite length_map, encode_length, Hr. }
  clear Eg Et. destruct Hm as [t1 g g' t2 Hne|t1 g g' t2 Hne Ht2].
  - destruct t2 as [|c t2' _] using rev_ind.
    + apply app_inj_tail in Hg as [-> ->]. destruct (parse_clean _) as [r|] eqn:Ep; [|done].
      apply parse_clean_Ok in Ep as (l' & Hl' & ->); [|done]. by rewrite Hl in Hl'; simplify_eq.
    + change (g :: t2' ++ [c]) with ((g :: t2') ++ [c]) in Hg. rewrite app_assoc in Hg.
      apply app_inj_tail in Hg as [Hd Hc].
      change (g' :: t2' ++ [c]) with ((g' :: t2') ++ [c]). rewrite app_assoc.
      eapply wrong_digit_refused; [by rewrite Hd|by rewrite Hd|exact Hc|exact Hne|done].
  - destruct t2 as [|c t2' _] using rev_ind; [done|].
    change (g :: g' :: t2' ++ [c]) with ((g :: g' :: t2') ++ [c]) in Hg. rewrite app_assoc in Hg.
    apply app_inj_tail in Hg as [Hd Hc].
    change (g' :: g :: t2' ++ [c]) with ((g' :: g :: t2') ++ [c]). rewrite app_assoc.
    eapply swapped_digits_refused; [by rewrite Hd|by rewrite Hd|exact Hc|exact Hne].
Qed.

End Mistyped.

(** ** The keyfile *)

Lemma gcm_open_encrypt `{AesGcmLaws} key nonce p c :
  length key = 32%nat -> (8 <= length nonce <= 128)%nat -> gcm_encrypt key nonce p = Some c ->
  gcm_open key nonce c = Ok p.
Proof.
  intros Hk [H8 H128] Hc. unfold gcm_open. rewrite Hk.
  apply Nat.leb_le in H8 as ->, H128 as ->. by rewrite (gcm_decrypt_encrypt _ _ _ _ Hc).
Qed.

Definition keyfile_wf (k : VaultKeyfile) : Prop := jwf (JObj (kdf_params k)) = true.

Lemma b64_roundtrip f b : unb64 f (b64 b) = Ok b.
Proof. unfold unb64, b64. by rewrite String.list_byte_of_string_of_list_byte, b64decode_b64encode. Qed.

#[local] Arguments b64 : simpl never.
#[local] Arguments unb64 : simpl never.

Lemma opt_b64_roundtrip (b : option bytes) f d :
  jget f d = Some (opt_b64 b) -> opt_bytes f d = Ok b.
Proof.
  intros E. unfold opt_bytes. rewrite E. destruct b as [b|]; [|done]. cbn [opt_b64].
  by rewrite b64_roundtrip.
Qed.

Lemma keyfile_json_roundtrip k : from_json_dict (to_json_dict k) = Ok k.
Proof.
  unfold from_json_dict.
  rewrite (opt_b64_roundtrip (critical_key_salt k)),
    (opt_b64_roundtrip (critical_key_verifier_salt k)) by done.
  unfold bytes_at, int_at, object_at, real_at, text_at, item_at, to_json_dict. simpl.
  rewrite !b64_roundtrip. by destruct k.
Qed.

Section Vault.
Context `{AesGcmLaws, ScryptLaws, !JsonText, !JsonIndent, !JsonIndentLaws, UpperCaseLaws}.

Lemma keyfile_dict_wf k : keyfile_wf k -> jwf (JObj (to_json_dict k)) = true.
Proof.
  unfold keyfile_wf. intros Hk.
  change (bool_decide (NoDup (map fst (to_json_dict k)))
          && forallb (fun kv => jwf (snd kv)) (to_json_dict k) = true).
  apply andb_true_iff. split; [exact eq_refl|].
  unfold to_json_dict. cbn [forallb snd]. rewrite Hk.
  by destruct (critical_key_salt k), (critical_key_verifier_salt k).
Qed.

(** Loading a saved keyfile. *)
Lemma load_saved tmp path k d :
  keyfile_wf k ->
  snd (load_vault_keyfile path (run_ops (save_vault_keyfile tmp path k) d)) = Ok k.
Proof.
  intros Hk. unfold load_vault_keyfile, save_vault_keyfile.
  rewrite run_replace_file, lookup_insert_eq. cbn [snd].
  rewrite json_loads_indent by by apply keyfile_dict_wf. by rewrite keyfile_json_roundtrip.
Qed.

(** A crash never costs the keyfile.  Wherever saving a keyfile is interrupted, even in
    the middle of writing it, loading gives the keyfile that was there before or the new one,
    whole. *)
Theorem keyfile_crash_safe tmp path k k' d d' :
  tmp <> path -> keyfile_wf k' -> snd (load_vault_keyfile path d) = Ok k ->
  crashed (save_vault_keyfile tmp path k') d d' ->
  snd (load_vault_keyfile path d') = Ok k \/ snd (load_vault_keyfile path d') = Ok k'.
Proof.
  intros Hne Hk Hl Hc. apply replace_file_atomic in Hc as [Hq| ->]; [..|done].
  - left. unfold load_vault_keyfile in *. rewrite Hq by done. exact Hl.
  - right. by apply load_saved.
Qed.

Lemma derive_kek_length secret salt : length (derive_kek secret salt) = 32%nat.
Proof. apply scrypt_length. Qed.

Definition nonce_ok (nonce : bytes) : Prop := length nonce = NONCE_LEN.

Lemma unwrap_wrapped nonce kek dek w :
  nonce_ok nonce -> length kek = 32%nat -> wrap_dek nonce kek dek = Some w ->
  unwrap_dek kek (fst w) (snd w) = Ok dek.
Proof.
  intros Hn Hk. unfold wrap_dek. intros (c & Hc & [= <-])%bind_Some.
  assert (8 <= length nonce <= 128)%nat as Hr by (rewrite Hn; unfold NONCE_LEN; lia).
  unfold unwrap_dek. cbn [fst snd]. by rewrite (gcm_open_encrypt _ _ dek _ Hk Hr Hc).
Qed.

(** Some passphrase changes, one after the other; the first that fails ends them. *)
Fixpoint changes (l : list (bytes * bytes * string * option string)) (k : VaultKeyfile)
    (passphrase : string) : result VaultError (VaultKeyfile * string) :=
  match l with
  | [] => Ok (k, passphrase)
  | (salt, nonce, new, name) :: l' =>
      let? k' := change_passphrase salt nonce k passphrase new name in changes l' k' new
  end.

Lemma change_keeps salt nonce k old new name k' dek :
  nonce_ok nonce -> unlock_with_passphrase k old = Ok dek ->
  change_passphrase salt nonce k old new name = Ok k' ->
  unlock_with_passphrase k' new = Ok dek /\
  (forall code, unlock_with_recovery_code k' code = unlock_with_recovery_code k code).
Proof.
  intros Hn Hu. unfold change_passphrase. destruct (validate_passphrase new name); [|done].
  cbn [rbind]. rewrite Hu. cbn [rbind].
  destruct (wrap_dek nonce (derive_kek (str_bytes new) salt) dek) as [w|] eqn:Ew; [|done].
  cbn [or_overflow rbind]. intros <-%Ok_inj. split; [|done].
  unfold unlock_with_passphrase. simpl. by rewrite (unwrap_wrapped _ _ _ _ Hn (derive_kek_length _ _) Ew).
Qed.

Lemma changes_keep l k passphrase k' passphrase' dek s :
  Forall (fun x => nonce_ok (snd (fst (fst x)))) l ->
  changes l k passphrase = Ok (k', passphrase') ->
  unlock_with_passphrase k passphrase = Ok dek -> unlock_with_recovery_code k s = Ok dek ->
  unlock_with_passphrase k' passphrase' = Ok dek /\ unlock_with_recovery_code k' s = Ok dek.
Proof.
  revert k passphrase. induction l as [|[[[salt nonce] new] name] l IH]; intros k passphrase Hl Hc Hp Hr.
  - by apply Ok_inj in Hc as [= <- <-].
  - apply Forall_cons in Hl as [Hn Hl]. cbn [changes] in Hc.
    destruct (change_passphrase salt nonce k passphrase new name) as [k1|] eqn:Ec; [|done].
    destruct (change_keeps salt nonce k passphrase new name k1 dek Hn Hp Ec) as [Hp1 Hr1].
    apply (IH k1 new Hl Hc Hp1). by rewrite Hr1.
Qed.

(** C22: no data is lost to a change of passphrase.  When a vault was created, its keyfile
    was saved, and after any sequence of successful changes of passphrase, the current
    passphrase gives the key the vault was created with, and so does the recovery code, in
    any transcription; the saved keyfile loads as it was created. *)
Theorem vault_key_recoverable r passphrase name path d d' k code l k' passphrase' s :
  length (d_recovery r) = RECOVERY_CODE_BYTES ->
  nonce_ok (d_passphrase_nonce r) -> nonce_ok (d_recovery_nonce r) ->
  Forall (fun x => nonce_ok (snd (fst (fst x)))) l ->
  create_vault r passphrase name path d = (d', Ok (k, code)) ->
  changes l k passphrase = Ok (k', passphrase') ->
  transcribed (full_code (d_recovery r)) s ->
  snd (load_vault_keyfile path d') = Ok k /\
  unlock_with_passphrase k' passphrase' = Ok (d_dek r) /\
  unlock_with_recovery_code k' s = Ok (d_dek r).
Proof.
  intros Hrec Hpn Hrn Hl Hcreate Hch Hs. unfold create_vault in Hcreate.
  destruct (vault_exists path d); [done|]. destruct (validate_passphrase passphrase name); [|done].
  destruct (new_keyfile r passphrase) as [kc|] eqn:Ek; [|done].
  injection Hcreate as <- ->. unfold new_keyfile in Ek.
  rewrite <- (app_nil_l (map _ _)), <- (app_nil_r (map _ _)) in Ek.
  rewrite (recovery_code_transcribed (d_recovery r)) in Ek;
    [|done|apply transcribed_generated|done..].
  destruct (wrap_dek (d_passphrase_nonce r) _ _) as [wp|] eqn:Ewp; [|done].
  destruct (wrap_dek (d_recovery_nonce r) _ _) as [wr|] eqn:Ewr; [|done].
  cbn [or_overflow rbind] in Ek. apply Ok_inj in Ek. injection Ek as <- <-.
  split; [by apply load_saved|].
  match type of Hch with changes l ?k0 _ = _ =>
    assert (unlock_with_passphrase k0 passphrase = Ok (d_dek r)) as Hup;
    [|assert (unlock_with_recovery_code k0 s = Ok (d_dek r)) as Hrc] end.
  - unfold unlock_with_passphrase. simpl.
    by rewrite (unwrap_wrapped _ _ _ _ Hpn (derive_kek_length _ _) Ewp).
  - unfold unlock_with_recovery_code.
    rewrite <- (app_nil_l s), <- (app_nil_r s), (recovery_code_transcribed (d_recovery r)) by done. simpl.
    by rewrite (unwrap_wrapped _ _ _ _ Hrn (derive_kek_length _ _) Ewr).
  - by eapply changes_keep.
Qed.
End Vault.
