(* ===== verification/Link.v ===== *)
(** * Add-by-link

    Models [core/connectivity/link.py] (module [Link]), the parsing of endpoint lines and the
    PIN check of [app/ui/modals/link.py], and the two flows of [app/ui/app.py] that generate a
    link and add a peer by one (module [LinkFlow]).

    A link is a text [PEERC1:...] that carries a device's public key and endpoints, signed by
    the device and encrypted under a key derived from a PIN.  AES-GCM, Scrypt, Ed25519 and
    SHA-256 are the interfaces of [Crypto] and [VaultKeys]; the conversions of addresses, which
    the C library makes, are the interface [Inet]. *)

From Corelib Require Import SpecFloat.
From S2P Require Import Prelude Text Json Crypto Canonical Messages Trust Files VaultKeys.
From S2P Require Import Connectivity Dicts Discovery.
Import Identity Locator.
Local Open Scope peerc_scope.
Local Open Scope Z_scope.

(** ** Addresses as texts *)

(** [socket.inet_pton], [None] for the [OSError], and [socket.inet_ntop] of an address of the
    right length, for the two families. *)
Class Inet := {
  inet_pton4 : string -> option bytes;
  inet_pton6 : string -> option bytes;
  inet_ntop4 : bytes -> string;
  inet_ntop6 : bytes -> string
}.

(** The text of an address is one that is read as that address. *)
Class InetLaws `{Inet} : Prop := {
  pton4_length h b : inet_pton4 h = Some b -> length b = 4%nat;
  pton6_length h b : inet_pton6 h = Some b -> length b = 16%nat;
  pton4_ntop4 b : length b = 4%nat -> inet_pton4 (inet_ntop4 b) = Some b;
  pton6_ntop6 b : length b = 16%nat -> inet_pton6 (inet_ntop6 b) = Some b;
  pton4_empty : inet_pton4 "" = None;
  pton6_empty : inet_pton6 "" = None
}.

(** The bytes that may follow a lead byte, by their ranges; [None] for a byte that leads
    nothing. *)
Definition utf8_follow (n : Z) : option (list (Z * Z)) :=
  let cont := (0x80, 0xBF) in
  if n <? 0x80 then Some []
  else if (0xC2 <=? n) && (n <=? 0xDF) then Some [cont]
  else if n =? 0xE0 then Some [(0xA0, 0xBF); cont]
  else if n =? 0xED then Some [(0x80, 0x9F); cont]
  else if (0xE1 <=? n) && (n <=? 0xEF) then Some [cont; cont]
  else if n =? 0xF0 then Some [(0x90, 0xBF); cont; cont]
  else if (0xF1 <=? n) && (n <=? 0xF3) then Some [cont; cont; cont]
  else if n =? 0xF4 then Some [(0x80, 0x8F); cont; cont]
  else None.

(** [bytes.decode("utf-8")] succeeds; [want] are the ranges of the bytes expected. *)
Fixpoint utf8_valid (want : list (Z * Z)) (b : bytes) : bool :=
  match b, want with
  | [], [] => true
  | [], _ => false
  | c :: b', (lo, hi) :: want' =>
      (lo <=? byte.unsigned c) && (byte.unsigned c <=? hi) && utf8_valid want' b'
  | c :: b', [] =>
      match utf8_follow (byte.unsigned c) with
      | Some want' => utf8_valid want' b'
      | None => false
      end
  end.

(** ** Links *)
Module Link.
Import VaultCrypto.

Definition LINK_PREFIX : bytes := lit "PEERC1:".
Definition PIN_LENGTH : nat := 6.
Definition _LINK_SIGN_DOMAIN : bytes := lit "peerc-add-by-link" ++ NUL.
Definition _PUBLIC_KEY_LEN : nat := 32.
Definition _SIGNATURE_LEN : nat := 64.
Definition _CREATED_AT_LEN : nat := 4.
Definition _MAX_RENDEZVOUS_HOST_LEN : Z := 255.

Definition _KIND_TAGS : list (string * byte) :=
  [(KIND_DIRECT_V4, Byte.x00); (KIND_DIRECT_V6, Byte.x01); (KIND_RENDEZVOUS, Byte.x02)].

Definition tag_of (k : string) : option byte := snd <$> List.find (fun kt => bool_decide (fst kt = k)) _KIND_TAGS.
Definition _TAG_KINDS (t : byte) : option string :=
  fst <$> List.find (fun kt => bool_decide (snd kt = t)) _KIND_TAGS.

(** The exceptions: those of the module, and those that are not [LinkError]s. *)
Inductive link_error : Type :=
| LinkError
| LinkFormatError
| WrongPinError
| LinkSignatureError
| StructError           (** [struct.error] *)
| AddressLength         (** [ValueError] of [inet_ntop] *)
| LocatorError          (** of [Endpoint] *)
| CipherOverflow.       (** [OverflowError] of the cipher *)

(** What [except LinkError] catches. *)
Definition is_link_error (e : link_error) : bool :=
  match e with LinkError | LinkFormatError | WrongPinError | LinkSignatureError => true | _ => false end.

Record LinkPayload := mk_payload {
  p_device_id : string;
  p_public_key : bytes;
  p_endpoints : list Endpoint;
  p_created_at : spec_float
}.

(** [len(pin) == 6 and pin.isascii() and pin.isdigit()]. *)
Definition is_digit (c : byte) : bool := (48 <=? byte.unsigned c) && (byte.unsigned c <=? 57).
Definition _validate_pin (pin : string) : result link_error unit :=
  raise? negb ((length (str_bytes pin) =? PIN_LENGTH)%nat && forallb is_digit (str_bytes pin)) with LinkError ;;
  Ok ().

(** *** Base 64 with the URL alphabet *)

Definition to_url (c : byte) : byte :=
  if bool_decide (c = "+"%byte) then "-"%byte else if bool_decide (c = "/"%byte) then "_"%byte else c.
Definition of_url (c : byte) : byte :=
  if bool_decide (c = "-"%byte) then "+"%byte else if bool_decide (c = "_"%byte) then "/"%byte else c.

Definition _b64url_encode (raw : bytes) : bytes :=
  rstrip (fun c => bool_decide (c = "="%byte)) (map to_url (b64encode raw)).

(** [-len(s) % 4]; what is not ASCII is refused whatever the padding. *)
Definition _b64url_decode (s : bytes) : option bytes :=
  let padding := repeat "="%byte (Z.to_nat (- zlen s mod 4)) in
  if is_ascii s then a2b_base64 0 0 0 (map of_url (s ++ padding)) else None.

(** *** Endpoints *)

Section Endpoints.
Context `{Inet}.

(** [struct.pack(">B", z)] and [struct.pack(">H", z)]. *)
Definition pack_u8 (z : Z) : result link_error bytes :=
  if (0 <=? z) && (z <? 2 ^ 8) then Ok (be_bytes 1 z) else Err StructError.
Definition pack_u16 (z : Z) : result link_error bytes :=
  if (0 <=? z) && (z <? 2 ^ 16) then Ok (be_bytes 2 z) else Err StructError.

Definition host_bytes (k h : string) : result link_error bytes :=
  if decide (k = KIND_DIRECT_V4) then
    match inet_pton4 h with Some b => Ok b | None => Err LinkError end
  else if decide (k = KIND_DIRECT_V6) then
    match inet_pton6 h with Some b => Ok b | None => Err LinkError end
  else
    let host_utf8 := str_bytes h in
    raise? (_MAX_RENDEZVOUS_HOST_LEN <? zlen host_utf8) with LinkError ;;
    let? n := pack_u8 (zlen host_utf8) in Ok (n ++ host_utf8).

Definition _pack_one_endpoint (ep : Endpoint) : result link_error bytes :=
  match tag_of (kind ep) with
  | None => Err LinkError
  | Some tag =>
      let? h := host_bytes (kind ep) (host ep) in
      let? p := pack_u16 (port ep) in
      Ok (tag :: h ++ p)
  end.

Fixpoint _pack_endpoints (l : list Endpoint) : result link_error bytes :=
  match l with
  | [] => Ok []
  | ep :: l' => let? b := _pack_one_endpoint ep in let? r := _pack_endpoints l' in Ok (b ++ r)
  end.

(** What unpacking raises: [caught] what the caller turns into [LinkFormatError]
    ([struct.error], [IndexError], [UnicodeDecodeError]). *)
Inductive unpack_error : Type := Caught | UnknownTag | BadLength.

(** [buf[offset]]. *)
Definition at_index (buf : bytes) (offset : nat) : result unpack_error byte :=
  match buf !! offset with Some c => Ok c | None => Err Caught end.

(** [buf[offset:offset + n]]. *)
Definition slice (buf : bytes) (offset n : nat) : bytes := take n (drop offset buf).

Definition unpack_host (k : string) (buf : bytes) (offset : nat) : result unpack_error (string * nat) :=
  if decide (k = KIND_DIRECT_V4) then
    let b := slice buf offset 4 in
    if decide (length b = 4%nat) then Ok (inet_ntop4 b, offset + 4)%nat else Err BadLength
  else if decide (k = KIND_DIRECT_V6) then
    let b := slice buf offset 16 in
    if decide (length b = 16%nat) then Ok (inet_ntop6 b, offset + 16)%nat else Err BadLength
  else
    let? c := at_index buf offset in
    let host_len := Z.to_nat (byte.unsigned c) in
    let b := slice buf (S offset) host_len in
    if utf8_valid [] b then Ok (bytes_str b, S offset + host_len)%nat else Err Caught.

Definition unpack_one (buf : bytes) (offset : nat) : result unpack_error (string * string * Z * nat) :=
  let? tag := at_index buf offset in
  match _TAG_KINDS tag with
  | None => Err UnknownTag
  | Some k =>
      let? ho := unpack_host k buf (S offset) in
      let '(h, offset) := ho in
      let b := slice buf offset 2 in
      if decide (length b = 2%nat) then Ok (k, h, be_int b, offset + 2)%nat else Err Caught
  end.

Fixpoint _unpack_endpoints (buf : bytes) (offset count : nat)
    : result unpack_error (list (string * string * Z) * nat) :=
  match count with
  | O => Ok ([], offset)
  | S count' =>
      let? r := unpack_one buf offset in
      let '(k, h, p, offset) := r in
      let? rest := _unpack_endpoints buf offset count' in
      Ok ((k, h, p) :: fst rest, snd rest)
  end.

Fixpoint make_endpoints (device_id : string) (t : spec_float) (l : list (string * string * Z))
    : result link_error (list Endpoint) :=
  match l with
  | [] => Ok []
  | (k, h, p) :: l' =>
      match make_endpoint device_id k h p t with
      | None => Err LocatorError
      | Some e => let? es := make_endpoints device_id t l' in Ok (e :: es)
      end
  end.

End Endpoints.

(** *** Creating and decoding *)

Section Codec.
Context `{Inet, Ed25519, Sha256, AesGcm, Scrypt}.

(** An integer as a double. *)
Definition float_of (z : Z) : spec_float := binary_normalize 53 1024 z 0 false.

Definition signed_payload (public_key : bytes) (endpoints : list Endpoint) (created_at : Z)
    : result link_error bytes :=
  let? eps := _pack_endpoints endpoints in
  let? n := pack_u8 (zlen endpoints) in
  match pack_u32 created_at with
  | None => Err StructError
  | Some t => Ok (public_key ++ n ++ eps ++ t)
  end.

(** [now] is [int(time.time())]; [salt] and [nonce] are random. *)
Definition create_link (now : Z) (salt nonce : bytes) (keypair : DeviceKeypair) (endpoints : list Endpoint)
    (pin : string) : result link_error bytes :=
  let? _ := _validate_pin pin in
  raise? bool_decide (endpoints = []) with LinkError ;;
  let? payload := signed_payload (public_key_bytes keypair) endpoints now in
  let signature := sign keypair (_LINK_SIGN_DOMAIN ++ payload) in
  let kek := derive_kek (str_bytes pin) salt in
  match gcm_encrypt kek nonce (payload ++ signature) with
  | None => Err CipherOverflow
  | Some ciphertext => Ok (LINK_PREFIX ++ _b64url_encode (salt ++ nonce ++ ciphertext))
  end.

(** The signature of a decrypted payload of which [offset] bytes are signed. *)
Definition signature_ok (plaintext : bytes) (offset : nat) : bool :=
  match public_key_from_bytes (take _PUBLIC_KEY_LEN plaintext) with
  | None => false
  | Some pk =>
      ed_verify pk (slice plaintext offset _SIGNATURE_LEN) (_LINK_SIGN_DOMAIN ++ take offset plaintext)
  end.

(** The part after the decryption. *)
Definition decode_plaintext (plaintext : bytes) : result link_error LinkPayload :=
  raise? (length plaintext <? _PUBLIC_KEY_LEN + 1 + _CREATED_AT_LEN + _SIGNATURE_LEN)%nat with LinkFormatError ;;
  let public_key := take _PUBLIC_KEY_LEN plaintext in
  let count := Z.to_nat (byte.unsigned (nth _PUBLIC_KEY_LEN plaintext Byte.x00)) in
  match _unpack_endpoints plaintext (_PUBLIC_KEY_LEN + 1) count with
  | Err BadLength => Err AddressLength
  | Err _ => Err LinkFormatError
  | Ok (raw, offset) =>
      raise? (length plaintext <? offset + _CREATED_AT_LEN + _SIGNATURE_LEN)%nat with LinkFormatError ;;
      let created_at := be_int (slice plaintext offset _CREATED_AT_LEN) in
      let offset := (offset + _CREATED_AT_LEN)%nat in
      raise? negb (signature_ok plaintext offset) with LinkSignatureError ;;
      let device_id := compute_device_id public_key in
      let? eps := make_endpoints device_id (float_of created_at) raw in
      Ok (mk_payload device_id public_key eps (float_of created_at))
  end.

Definition decode_link (link : bytes) (pin : string) : result link_error LinkPayload :=
  let? _ := _validate_pin pin in
  raise? negb (bool_decide (LINK_PREFIX `prefix_of` link)) with LinkFormatError ;;
  match _b64url_decode (drop (length LINK_PREFIX) link) with
  | None => Err LinkFormatError
  | Some raw =>
      raise? (length raw <? SALT_LEN + NONCE_LEN)%nat with LinkFormatError ;;
      let salt := take SALT_LEN raw in
      let nonce := slice raw SALT_LEN NONCE_LEN in
      let ciphertext := drop (SALT_LEN + NONCE_LEN) raw in
      match gcm_decrypt (derive_kek (str_bytes pin) salt) nonce ciphertext with
      | None => Err WrongPinError
      | Some plaintext => decode_plaintext plaintext
      end
  end.

End Codec.
End Link.

(** ** The flows *)
Module LinkFlow.
Import Link.

Definition UI_TCP_PORT : Z := 5656.

Section Lines.
Context `{Inet, UnicodeDigits}.

(** [host, port] of a line between brackets or with one colon; [None] for [ValueError]. *)
Definition split_bracketed (line : text) : option (text * Z) :=
  let inside := takewhile (fun g => negb (is_ch "]"%byte g)) line in
  match drop (length inside) line with
  | [] => None
  | _ :: rest =>
      match rest with
      | c :: digits =>
          if is_ch ":"%byte c then
            if text_isdigit digits then p ← py_int digits; Some (inside, p) else None
          else Some (inside, UI_TCP_PORT)
      | [] => Some (inside, UI_TCP_PORT)
      end
  end.

Definition count_colons (line : text) : nat := length (List.filter (is_ch ":"%byte) line).

Definition split_line (line : text) : option (text * Z) :=
  match line with
  | [] => None
  | g :: line' =>
      if is_ch "["%byte g then split_bracketed line'
      else if (count_colons line =? 1)%nat then
        let host_part := takewhile (fun g => negb (is_ch ":"%byte g)) line in
        let port_str := drop (S (length host_part)) line in
        if text_isdigit port_str then p ← py_int port_str; Some (host_part, p)
        else Some (line, UI_TCP_PORT)
      else Some (line, UI_TCP_PORT)
  end.

Definition kind_of_host (h : string) : string :=
  match inet_pton4 h with
  | Some _ => KIND_DIRECT_V4
  | None => match inet_pton6 h with Some _ => KIND_DIRECT_V6 | None => KIND_RENDEZVOUS end
  end.

(** [now] is the default of [updated_at]; [None] is [ValueError]. *)
Definition _parse_endpoint_line (now : spec_float) (line : text) (device_id : string) : option Endpoint :=
  hp ← split_line (strip_chars is_space_char line);
  let h := chars_str (fst hp) in
  make_endpoint device_id (kind_of_host h) h (snd hp) now.

(** The line boundaries of [str.splitlines]. *)
Definition is_line_break (g : bytes) : bool :=
  match map byte.unsigned g with
  | [c] => (10 <=? c) && (c <=? 13) || (28 <=? c) && (c <=? 30)
  | [0xC2; c] => c =? 0x85
  | [0xE2; 0x80; c] => (c =? 0xA8) || (c =? 0xA9)
  | _ => false
  end.

(** [str.splitlines], up to lines that are empty (the carriage return and the line feed of one
    break count as two): they are skipped. *)
Fixpoint lines_of (current t : text) : list text :=
  match t with
  | [] => [current]
  | g :: t' => if is_line_break g then current :: lines_of [] t' else lines_of (current ++ [g]) t'
  end.

Definition endpoints_of (now : spec_float) (endpoints_text : text) (device_id : string) : list Endpoint :=
  omap (fun line => if bool_decide (strip_chars is_space_char line = []) then None
                    else _parse_endpoint_line now (strip_chars is_space_char line) device_id)
    (lines_of [] endpoints_text).

(** What the two modals accept as a PIN, after [strip]. *)
Definition pin_accepted (pin : text) : bool := (length pin =? 6)%nat && forallb char_isdigit pin.

End Lines.

Inductive generate_outcome : Type :=
| NoEndpoints                    (** reported *)
| NotGenerated (e : link_error)  (** reported *)
| Generated (link : bytes)
| GenerateCrashed (e : link_error).

(** What follows the modal of [_generate_link_flow]. *)
Definition _generate_link_flow `{Inet, UnicodeDigits, Ed25519, Sha256, AesGcm, Scrypt} (now : Z) (salt nonce : bytes)
    (keypair : DeviceKeypair) (peer_id : string) (endpoints_text : text) (pin : string) : generate_outcome :=
  match endpoints_of (float_of now) endpoints_text peer_id with
  | [] => NoEndpoints
  | eps =>
      match create_link now salt nonce keypair eps pin with
      | Ok link => Generated link
      | Err e => if is_link_error e then NotGenerated e else GenerateCrashed e
      end
  end.

(** The part of the application that adding a peer touches. *)
Record chat_app := mk_app {
  locators : option LocatorStore.ldb;
  peers : PeerRegistry.registry;
  active_peer_id : option string
}.

Inductive add_outcome : Type :=
| Refused (e : link_error)        (** reported *)
| AddCrashed (e : link_error)     (** the exception leaves the flow *)
| Connected (ep : Endpoint)
| Unreachable.

(** [except WrongPinError], [except LinkSignatureError], [except LinkFormatError]. *)
Definition flow_catches (e : link_error) : bool :=
  match e with WrongPinError | LinkSignatureError | LinkFormatError => true | _ => false end.

(** The attempt at one endpoint: [reached] whether dialling and greeting it raised nothing. *)
Definition _connect_to_link_endpoint (now : spec_float) (device_id : string) (ep : Endpoint) (reached : bool)
    (a : chat_app) : chat_app * bool :=
  if reached then
    match List.find (fun p => bool_decide (PeerRegistry.ip p = host ep)) (PeerRegistry.list_peers (peers a)) with
    | Some p => (mk_app (locators a) (peers a) (Some (PeerRegistry.peer_id p)), true)
    | None =>
        (mk_app (locators a)
           (fst (PeerRegistry.upsert now device_id ("Peer (" +:+ host ep +:+ ")") (host ep) (JInt (port ep))
                   [] "" (peers a)))
           (Some device_id), true)
    end
  else (a, false).

Fixpoint try_endpoints (now : spec_float) (device_id : string) (reached : Endpoint -> bool) (eps : list Endpoint)
    (a : chat_app) : chat_app * add_outcome :=
  match eps with
  | [] => (a, Unreachable)
  | ep :: eps' =>
      let '(a', ok) := _connect_to_link_endpoint now device_id ep (reached ep) a in
      if ok then (a', Connected ep) else try_endpoints now device_id reached eps' a'
  end.

(** Each [upsert_endpoint] on its own: one that raises is ignored. *)
Definition remember_endpoints (eps : list Endpoint) (a : chat_app) : chat_app :=
  mk_app ((fun l => foldl (fun l e => fst (LocatorStore.upsert_endpoint e l)) l eps) <$> locators a)
    (peers a) (active_peer_id a).

(** What follows the modal of [_add_link_flow]. *)
Definition _add_link_flow `{Inet, Ed25519, Sha256, AesGcm, Scrypt} (now : spec_float) (reached : Endpoint -> bool)
    (link_text : bytes) (pin : string) (a : chat_app) : chat_app * add_outcome :=
  match decode_link link_text pin with
  | Err e => (a, if flow_catches e then Refused e else AddCrashed e)
  | Ok payload =>
      let a := remember_endpoints (p_endpoints payload) a in
      try_endpoints now (p_device_id payload) reached (sorted_endpoints (p_endpoints payload)) a
  end.

End LinkFlow.
