(* ===== verification/VaultSession.v ===== *)
(** * The vault database and the vault session

    Models [core/vault/database.py] (module [Database]), [core/vault/persistence.py] (module
    [Persistence]) and [core/vault/session.py] (module [Session]).

    The database is its three tables of the vault itself (settings, messages and
    transfers; the tables of the trust, group and locator stores are in the models of those
    stores).  SQLite's file format is a class: a function to and from bytes. *)

From Corelib Require Import SpecFloat.
From S2P Require Import Prelude Text Json Crypto Canonical Messages Files Disk VaultKeys.
Import VaultCrypto Keyfile.
Local Open Scope peerc_scope.
Local Open Scope Z_scope.

(** ** The encrypted database *)
Module Database.

Record message_row := mk_message {
  peer_device_id : string;
  direction : string;
  msg_text : string;
  msg_timestamp : spec_float;
  msg_status : string
}.

Record transfer_row := mk_transfer {
  tr_peer : string;
  tr_direction : string;
  filename : string;
  size : Z;
  checksum : string;
  storage_mode : string;
  storage_path : string;
  tr_status : string;
  tr_timestamp : spec_float
}.

Record tables := mk_tables {
  settings : gmap string bytes;             (** JSON texts *)
  messages : gmap string message_row;
  transfers : gmap string transfer_row
}.

Definition no_tables : tables := mk_tables ∅ ∅ ∅.

(** The file of a database after a commit, and the database of a file. *)
Class SqliteFile := { sqlite_bytes : tables -> bytes; sqlite_open : bytes -> option tables }.

Class SqliteFileLaws `{SqliteFile} : Prop := {
  sqlite_open_bytes t : sqlite_open (sqlite_bytes t) = Some t
}.

(** An unlocked database: the live tables, where its plain working copy and its encrypted
    file are, and the key of the file. *)
Record VaultDatabase := mk_vdb {
  live : tables;
  working_path : string;
  vault_db_path : string;
  _db_key : bytes
}.

Inductive db_error : Type :=
| VaultCorruptError
| DbValueError                  (** [ValueError] of a file shorter than a nonce *)
| NotADatabase                  (** [sqlite3.DatabaseError] *)
| DbOverflow.

Section Lifecycle.
Context `{AesGcm, Hkdf, SqliteFile}.

(** [salt=None] is a salt of 32 zero bytes. *)
Definition _derive_db_key (dek : bytes) : bytes :=
  hkdf_derive dek (repeat Byte.x00 32) (lit "peerc-vault-database-v1") 32.

(** [conn.commit()]: the working copy is the file of the tables. *)
Definition commit (v : VaultDatabase) (d : disk) : disk :=
  <[working_path v := sqlite_bytes (live v)]> d.

(** [VaultDatabase.unlock]; [working] is the random path of the working copy. *)
Definition unlock (dek : bytes) (path working : string) (d : disk)
    : disk * result db_error VaultDatabase :=
  let db_key := _derive_db_key dek in
  let opened (t : tables) (d : disk) :=
    let v := mk_vdb t working path db_key in (commit v d, Ok v) in
  match d !! path with
  | None => opened no_tables d
  | Some blob =>
      let nonce := take NONCE_LEN blob in
      let ciphertext := drop NONCE_LEN blob in
      match gcm_open db_key nonce ciphertext with
      | Err InvalidTag => (d, Err VaultCorruptError)
      | Err GcmValueError => (d, Err DbValueError)
      | Ok plaintext =>
          let d := run_ops (write_file working plaintext) d in
          match sqlite_open plaintext with
          | None => (d, Err NotADatabase)
          | Some t => opened t d
          end
      end
  end.

(** The path [flush] writes first. *)
Definition tmp_of (path : string) : string := path +:+ ".tmp".

(** The calls of [flush] after the commit, for the bytes of the working copy. *)
Definition flush_ops (nonce : bytes) (v : VaultDatabase) (plaintext : bytes)
    : option (list disk_op) :=
  c ← gcm_encrypt (_db_key v) nonce plaintext;
  Some (replace_file (tmp_of (vault_db_path v)) (vault_db_path v) (nonce ++ c)).

Definition flush (nonce : bytes) (v : VaultDatabase) (d : disk) : disk * result db_error unit :=
  let d := commit v d in
  match flush_ops nonce v (default [] (d !! working_path v)) with
  | None => (d, Err DbOverflow)
  | Some ops => (run_ops ops d, Ok ())
  end.

(** [lock]: a last flush, then the working copy is overwritten with [noise] and removed. *)
Definition lock (nonce noise : bytes) (v : VaultDatabase) (d : disk) : disk * result db_error unit :=
  match flush nonce v d with
  | (d, Err e) => (d, Err e)
  | (d, Ok _) => (run_ops (secure_delete (working_path v) noise) d, Ok ())
  end.

End Lifecycle.
End Database.

(** ** Chat and transfer history *)
Module Persistence.
Import Database.

(** The events it listens to. *)
Record ChatReceived := mk_received { r_id : string; r_peer : option string; r_text : string }.
Record ChatMessageSent := mk_sent {
  s_id : string; s_peer : option string; s_text : string; s_timestamp : spec_float
}.
Record TransferCompleted := mk_completed {
  c_id : string; c_peer : option string; c_direction : string; c_filename : string;
  c_size : Z; c_checksum : string; c_success : bool; c_error : option string;
  c_storage_mode : option string;       (** [None]: the event has no such attribute *)
  c_secure_id : option string; c_filepath : option string; c_timestamp : spec_float
}.

Definition on_messages (f : gmap string message_row -> gmap string message_row) (t : tables) : tables :=
  mk_tables (settings t) (f (messages t)) (transfers t).

(** [x or now] of a time. *)
Definition time_or (x now : spec_float) : spec_float :=
  match x with S754_zero _ => now | t => t end.

Definition _on_chat_received (now : spec_float) (e : ChatReceived) (t : tables) : tables :=
  match or_text (r_peer e) None with
  | None => t
  | Some peer =>
      on_messages <[r_id e := mk_message peer "received" (r_text e) now "delivered"]> t
  end.

Definition _on_chat_sent (now : spec_float) (e : ChatMessageSent) (t : tables) : tables :=
  match or_text (s_peer e) None with
  | None => t
  | Some peer =>
      on_messages <[s_id e := mk_message peer "sent" (s_text e) (time_or (s_timestamp e) now) "pending"]> t
  end.

Definition set_status (status : string) (m : message_row) : message_row :=
  mk_message (peer_device_id m) (direction m) (msg_text m) (msg_timestamp m) status.

Definition _on_chat_status_changed (id status : string) (t : tables) : tables :=
  on_messages (alter (set_status status) id) t.

Definition _on_transfer_completed (now : spec_float) (e : TransferCompleted) (t : tables) : tables :=
  match or_text (c_peer e) None with
  | None => t
  | Some peer =>
      let status :=
        (if c_success e then "completed"
         else if bool_decide (c_error e = Some "rejected"%string) then "rejected" else "failed")%string in
      let mode := default "normal"%string (c_storage_mode e) in
      let path := if bool_decide (mode = "secure"%string) then or_empty (c_secure_id e)
                  else or_empty (c_filepath e) in
      mk_tables (settings t) (messages t)
        (<[c_id e := mk_transfer peer (c_direction e) (c_filename e) (c_size e) (c_checksum e)
                       mode path status (time_or (c_timestamp e) now)]> (transfers t))
  end.

End Persistence.

(** ** The session *)
Module Session.
Import Database.

Definition DEFAULT_AUTO_LOCK_SECONDS : spec_float := S754_finite false 5277655813324800 (-44).

Definition SETTING_AUTO_LOCK_SECONDS : string := "auto_lock_timeout_seconds".
Definition SETTING_REQUIRE_PASSPHRASE_INCOMING : string := "require_passphrase_for_incoming".
Definition SETTING_CRITICAL_KEY_VERIFIER : string := "critical_key_verifier".

Definition CRITICAL_AUTH_INFO : bytes := lit "peerc-critical-export-auth-v1".
Definition CRITICAL_VERIFIER_PLAINTEXT : bytes := lit "peerc-critical-export-verifier-v1".

Definition FILE_ACTIONS_REQUIRING_AUTH : list string :=
  ["open"; "export"; "move_to_secure"; "delete"]%string.

(** The session, with the disk its database lives on. *)
Record session := mk_session {
  the_disk : disk;
  auto_lock_seconds : spec_float;
  require_passphrase_for_incoming : bool;
  _dek : option bytes;
  vault_db : option VaultDatabase;
  _last_activity : spec_float;
  _dont_ask_again_files : bool
}.

Inductive session_error : Type :=
| SessionLockedError
| SessionValueError
| SettingOverflow                          (** [OverflowError] of a stored timeout *)
| SettingText                              (** a timeout stored as a text: not followed *)
| KeyAlreadyConfigured
| KeyRefused (e : VaultError)
| WrongCriticalKey
| LockFailed (e : db_error).

Abbreviation sop := (stm session session_error).

Definition zero : spec_float := S754_zero false.

(** [VaultSession(auto_lock_seconds)]. *)
Definition new_session (d : disk) (seconds : spec_float) : option session :=
  if SFltb seconds zero then None
  else Some (mk_session d seconds false None None zero false).

Definition is_unlocked (s : session) : bool :=
  bool_decide (is_Some (_dek s)) && bool_decide (is_Some (vault_db s)).

Definition set_disk (d : disk) (s : session) : session :=
  mk_session d (auto_lock_seconds s) (require_passphrase_for_incoming s) (_dek s) (vault_db s)
    (_last_activity s) (_dont_ask_again_files s).
Definition set_key (k : option bytes) (v : option VaultDatabase) (s : session) : session :=
  mk_session (the_disk s) (auto_lock_seconds s) (require_passphrase_for_incoming s) k v
    (_last_activity s) (_dont_ask_again_files s).
Definition set_timeout (t : spec_float) (s : session) : session :=
  mk_session (the_disk s) t (require_passphrase_for_incoming s) (_dek s) (vault_db s)
    (_last_activity s) (_dont_ask_again_files s).
Definition set_incoming (b : bool) (s : session) : session :=
  mk_session (the_disk s) (auto_lock_seconds s) b (_dek s) (vault_db s) (_last_activity s)
    (_dont_ask_again_files s).
Definition set_activity (t : spec_float) (s : session) : session :=
  mk_session (the_disk s) (auto_lock_seconds s) (require_passphrase_for_incoming s) (_dek s)
    (vault_db s) t (_dont_ask_again_files s).
Definition set_dont_ask (b : bool) (s : session) : session :=
  mk_session (the_disk s) (auto_lock_seconds s) (require_passphrase_for_incoming s) (_dek s)
    (vault_db s) (_last_activity s) b.

(** [secrets_equal]: no early exit on a difference. *)
Fixpoint xor_all (acc : Z) (a b : bytes) : Z :=
  match a, b with
  | x :: a', y :: b' => xor_all (Z.lor acc (Z.lxor (byte.unsigned x) (byte.unsigned y))) a' b'
  | _, _ => acc
  end.

Definition secrets_equal (a b : bytes) : bool :=
  (length a =? length b)%nat && (xor_all 0 a b =? 0).

Section Session.
Context `{AesGcm, Hkdf, Scrypt, JsonText, SqliteFile, LowerCase}.

Definition dek_bytes : sop bytes := fun s =>
  (s, match _dek s with Some k => Ok k | None => Err SessionLockedError end).

Definition _require_unlocked : sop unit := fun s =>
  (s, if is_unlocked s then Ok () else Err SessionLockedError).

(** *** Settings *)

Definition _read_setting (key : string) (s : session) : option json :=
  v ← vault_db s;
  text ← settings (live v) !! key;
  match json_loads text with Some JNull | None => None | Some j => Some j end.

(** The update of the settings table and the commit. *)
Definition put_settings (f : gmap string bytes -> gmap string bytes) (s : session) : session :=
  match vault_db s with
  | None => s
  | Some v =>
      let t := live v in
      let v' := mk_vdb (mk_tables (f (settings t)) (messages t) (transfers t)) (working_path v)
                  (vault_db_path v) (_db_key v) in
      set_disk (commit v' (the_disk s)) (set_key (_dek s) (Some v') s)
  end.

Definition _save_setting (key : string) (value : json) : sop unit :=
  modify (put_settings <[key := json_dumps value]>).

(** [float(raw)] of a stored timeout: [None] for the exceptions that are caught. *)
Definition stored_timeout (raw : json) : result session_error (option spec_float) :=
  match py_float SETTING_AUTO_LOCK_SECONDS raw with
  | Ok x => Ok (if SFleb zero x then Some x else None)
  | Err (FloatOverflow _) => Err SettingOverflow
  | Err (NotAnnotated _) => Err SettingText
  | Err _ => Ok None
  end.

Definition load_timeout : sop unit :=
  raw ← gets (_read_setting SETTING_AUTO_LOCK_SECONDS);
  match raw with
  | Some raw =>
      t ← lift (stored_timeout raw);
      match t with Some x => modify (set_timeout x) | None => mret () end
  | None =>
      t ← gets auto_lock_seconds;
      _save_setting SETTING_AUTO_LOCK_SECONDS (JFloat t)
  end.

Definition load_incoming : sop unit :=
  raw ← gets (_read_setting SETTING_REQUIRE_PASSPHRASE_INCOMING);
  match raw with
  | Some raw => modify (set_incoming (truthy raw))
  | None =>
      b ← gets require_passphrase_for_incoming;
      _save_setting SETTING_REQUIRE_PASSPHRASE_INCOMING (JBool b)
  end.

Definition _load_settings : sop unit := load_timeout ;; load_incoming.

(** *** Unlock, lock and the idle timer; [now] is the monotonic clock *)

Definition touch (now : spec_float) : sop unit := fun s =>
  (if is_unlocked s then set_activity now s else s, Ok ()).

Definition unlock (now : spec_float) (dek : bytes) (v : VaultDatabase) : sop unit :=
  raise_if (negb (length dek =? 32)%nat) SessionValueError ;;
  modify (set_key (Some dek) (Some v)) ;;
  modify (set_dont_ask false) ;;
  _load_settings ;;
  touch now.

(** [nonce] and [noise] are the random bytes of the last flush and of the overwriting. *)
Definition lock (nonce noise : bytes) : sop unit := fun s =>
  let v := vault_db s in
  let s := set_dont_ask false (set_key None None s) in
  match v with
  | None => (s, Ok ())
  | Some v =>
      match Database.lock nonce noise v (the_disk s) with
      | (d, Ok _) => (set_disk d s, Ok ())
      | (d, Err e) => (set_disk d s, Err (LockFailed e))
      end
  end.

Definition idle_expired (now : spec_float) (s : session) : bool :=
  is_unlocked s && negb (SFeqb (auto_lock_seconds s) zero)
  && SFleb (auto_lock_seconds s) (SFsub 53 1024 now (_last_activity s)).

(** [max(0.0, remaining)]. *)
Definition seconds_until_lock (now : spec_float) (s : session) : option spec_float :=
  if negb (is_unlocked s) || SFeqb (auto_lock_seconds s) zero then None
  else
    let remaining := SFsub 53 1024 (auto_lock_seconds s) (SFsub 53 1024 now (_last_activity s)) in
    Some (if SFltb zero remaining then remaining else zero).

Definition check_and_auto_lock (now : spec_float) (nonce noise : bytes) : sop bool :=
  expired ← gets (idle_expired now);
  if (expired : bool) then lock nonce noise ;; mret true else mret false.

(** *** File actions *)

Definition set_dont_ask_again_files (enabled : bool) : sop unit := fun s =>
  (if enabled && negb (is_unlocked s) then s else set_dont_ask enabled s, Ok ()).

(** [action.lower().strip()]. *)
Definition action_name (action : string) : string :=
  chars_str (strip_chars is_space_char (str_chars (str_lower action))).

Definition requires_reauth (action : string) (s : session) : bool :=
  let action := action_name action in
  if bool_decide (action = "chat"%string) then false
  else if bool_decide (action = "incoming_transfer"%string) then require_passphrase_for_incoming s
  else if bool_decide (action ∈ FILE_ACTIONS_REQUIRING_AUTH) then
    negb (_dont_ask_again_files s && is_unlocked s)
  else true.

Definition verify_passphrase (k : VaultKeyfile) (passphrase : string) : sop bool := fun s =>
  (s, match _dek s with
      | None => Err SessionLockedError
      | Some dek =>
          match unlock_with_passphrase k passphrase with
          | Ok candidate => Ok (secrets_equal candidate dek)
          | Err WrongSecretError => Ok false
          | Err e => Err (KeyRefused e)
          end
      end).

(** *** The critical-action key *)

Definition critical_action_key_configured (k : VaultKeyfile) : bool :=
  bool_decide (is_Some (critical_key_salt k)) && bool_decide (is_Some (critical_key_verifier_salt k)).

Definition auth_key (dek critical_secret salt verifier_salt : bytes) : bytes :=
  hkdf_derive (dek ++ derive_kek critical_secret salt) verifier_salt CRITICAL_AUTH_INFO KEK_LEN.

(** [_derive_critical_auth_key], whose assertions hold where it is called. *)
Definition _derive_critical_auth_key (k : VaultKeyfile) (critical_secret : string) (s : session)
    : option bytes :=
  dek ← _dek s; salt ← critical_key_salt k; vsalt ← critical_key_verifier_salt k;
  Some (auth_key dek (str_bytes critical_secret) salt vsalt).

Definition verifier_record (nonce ciphertext : bytes) : json :=
  JObj [("version", JInt 1); ("nonce", b64 nonce); ("ciphertext", b64 ciphertext)]%string.

Definition set_critical_salts (salt vsalt : option bytes) (k : VaultKeyfile) : VaultKeyfile :=
  mk_keyfile (version k) (kdf k) (kdf_params k) (passphrase_salt k) (wrapped_dek_passphrase k)
    (wrapped_dek_passphrase_nonce k) (recovery_salt k) (wrapped_dek_recovery k)
    (wrapped_dek_recovery_nonce k) (created_at k) salt vsalt.

(** What a new verifier draws. *)
Record verifier_draws := mk_vdraws { v_salt : bytes; v_verifier_salt : bytes; v_nonce : bytes }.

Definition _write_critical_verifier (r : verifier_draws) (k : VaultKeyfile)
    (critical_secret : string) : sop VaultKeyfile :=
  _require_unlocked ;;
  let k := set_critical_salts (Some (v_salt r)) (Some (v_verifier_salt r)) k in
  key ← gets (_derive_critical_auth_key k critical_secret);
  match key ≫= (fun key => gcm_encrypt key (v_nonce r) CRITICAL_VERIFIER_PLAINTEXT) with
  | None => raise SessionLockedError       (** not reached: unlocked, and the text is short *)
  | Some c =>
      _save_setting SETTING_CRITICAL_KEY_VERIFIER (verifier_record (v_nonce r) c) ;;
      mret k
  end.

(** The texts of a stored verifier. *)
Definition verifier_texts (record : option json) : option (bytes * bytes) :=
  match record with
  | Some (JObj d) =>
      match jget "nonce" d, jget "ciphertext" d with
      | Some (JStr n), Some (JStr c) => Some (str_bytes n, str_bytes c)
      | _, _ => None
      end
  | _ => None
  end.

Definition verifier_opens (key nonce_b64 ciphertext_b64 : bytes) : bool :=
  match b64decode nonce_b64, b64decode ciphertext_b64 with
  | Some nonce, Some c =>
      match gcm_open key nonce c with
      | Ok p => secrets_equal p CRITICAL_VERIFIER_PLAINTEXT
      | Err _ => false
      end
  | _, _ => false
  end.

Definition verify_critical_action_key (k : VaultKeyfile) (critical_secret : string) : sop bool :=
  _require_unlocked ;;
  gets (fun s =>
    critical_action_key_configured k &&
    match verifier_texts (_read_setting SETTING_CRITICAL_KEY_VERIFIER s),
          _derive_critical_auth_key k critical_secret s with
    | Some (n, c), Some key => verifier_opens key n c
    | _, _ => false
    end).

Definition valid_secret (secret : string) : sop unit := fun s =>
  (s, match validate_passphrase secret None with Ok _ => Ok () | Err e => Err (KeyRefused e) end).

Definition set_critical_action_key (r : verifier_draws) (k : VaultKeyfile)
    (critical_secret : string) : sop VaultKeyfile :=
  _require_unlocked ;;
  raise_if (critical_action_key_configured k) KeyAlreadyConfigured ;;
  valid_secret critical_secret ;;
  _write_critical_verifier r k critical_secret.

Definition change_critical_action_key (r : verifier_draws) (k : VaultKeyfile)
    (old_critical_secret new_critical_secret : string) : sop VaultKeyfile :=
  _require_unlocked ;;
  ok ← verify_critical_action_key k old_critical_secret;
  raise_if (negb ok) WrongCriticalKey ;;
  valid_secret new_critical_secret ;;
  _write_critical_verifier r k new_critical_secret.

Definition clear_critical_action_key (k : VaultKeyfile) (critical_secret : string)
    : sop VaultKeyfile :=
  _require_unlocked ;;
  ok ← verify_critical_action_key k critical_secret;
  raise_if (negb ok) WrongCriticalKey ;;
  modify (put_settings (delete SETTING_CRITICAL_KEY_VERIFIER)) ;;
  mret (set_critical_salts None None k).

Definition authorize_export (k : VaultKeyfile) (critical_secret : option string) : sop bool :=
  _require_unlocked ;;
  if negb (critical_action_key_configured k) then mret true
  else match critical_secret with
       | None => mret false
       | Some secret => verify_critical_action_key k secret
       end.

(** *** Changing the settings *)

Definition set_auto_lock_seconds (now seconds : spec_float) : sop unit :=
  raise_if (SFltb seconds zero) SessionValueError ;;
  modify (set_timeout seconds) ;;
  _save_setting SETTING_AUTO_LOCK_SECONDS (JFloat seconds) ;;
  touch now.

Definition set_require_passphrase_for_incoming (required : bool) : sop unit :=
  modify (set_incoming required) ;;
  _save_setting SETTING_REQUIRE_PASSPHRASE_INCOMING (JBool required).

End Session.
End Session.
