(* ===== verification/VaultSessionTheory.v ===== *)
(** * What the vault session guarantees

    While the session is locked nothing of the key is left in it and every operation that
    needs it is refused; the vault on disk survives locking and crashes with its tables
    whole; the critical-action key needs both the unlocked session and the second secret. *)

From Corelib Require Import SpecFloat.
From S2P Require Import Prelude Text Json Crypto Canonical Messages Files Disk VaultKeys.
From S2P Require Import VaultKeysTheory VaultSession.
Import VaultCrypto Keyfile Database Session.
Local Open Scope peerc_scope.
Local Open Scope Z_scope.

Create HintDb vault discriminated.

(** ** Comparing secrets *)

Lemma xor_all_zero acc a b :
  0 <= acc -> length a = length b -> xor_all acc a b = 0 <-> acc = 0 /\ a = b.
Proof.
  revert acc b. induction a as [|x a IH]; intros acc [|y b] Hacc Hl; simpl in Hl; try lia; simpl.
  - tauto.
  - pose proof (byte_bound x). pose proof (byte_bound y).
    assert (0 <= Z.lxor (byte.unsigned x) (byte.unsigned y)) by (apply Z.lxor_nonneg; lia).
    rewrite IH by (try lia; apply Z.lor_nonneg; lia). rewrite Z.lor_eq_0_iff, Z.lxor_eq_0_iff. split.
    + intros [[-> Hx] ->]. split; [done|]. f_equal.
      rewrite <- (byte.of_Z_unsigned x), <- (byte.of_Z_unsigned y). by f_equal.
    + intros [-> [= -> ->]]. done.
Qed.

(** The comparison without early exit decides equality. *)
Lemma secrets_equal_spec a b : secrets_equal a b = bool_decide (a = b).
Proof.
  unfold secrets_equal. destruct (Nat.eqb_spec (length a) (length b)) as [Hl|Hl]; simpl.
  - apply eq_true_iff_eq. rewrite Z.eqb_eq, bool_decide_eq_true, xor_all_zero by (try lia; done). tauto.
  - symmetry. apply bool_decide_eq_false. by intros ->.
Qed.

(** ** The state of the session *)

(** What every operation but locking and unlocking leaves alone. *)
Record steady (s s' : session) : Prop := {
  steady_dek : _dek s' = _dek s;
  steady_db : is_Some (vault_db s') <-> is_Some (vault_db s);
  steady_ask : _dont_ask_again_files s' = _dont_ask_again_files s
}.

#[export] Instance steady_preorder : PreOrder steady.
Proof.
  split; [by split|]. intros s1 s2 s3 [H1 H2 H3] [H4 H5 H6]. split; try congruence. tauto.
Qed.

Lemma steady_unlocked s s' : steady s s' -> is_unlocked s' = is_unlocked s.
Proof.
  intros [Hd Hv _]. unfold is_unlocked. rewrite Hd. f_equal. by apply bool_decide_ext.
Qed.

Section Session.
Context `{AesGcm, Hkdf, Scrypt, !JsonText, SqliteFile, LowerCase}.

Lemma put_settings_steady f s s' : steady s s' -> steady s (put_settings f s').
Proof.
  intros Hs. transitivity s'; [done|]. unfold put_settings.
  destruct (vault_db s') as [v|] eqn:E; [|done].
  split; [done| |done]. simpl. rewrite E. by split; intros _; eexists.
Qed.

Lemma set_incoming_steady_r b s s' : steady s s' -> steady s (set_incoming b s').
Proof. by intros []. Qed.

Lemma set_timeout_steady_r x s s' : steady s s' -> steady s (set_timeout x s').
Proof. by intros []. Qed.

#[local] Hint Resolve put_settings_steady set_incoming_steady_r set_timeout_steady_r : vault.
#[local] Hint Extern 0 (steady ?s ?s) => reflexivity : vault.

Lemma wp_require_unlocked (Q : unit -> session -> Prop) X s :
  (is_unlocked s = false -> X s) -> (is_unlocked s = true -> Q () s) -> wp _require_unlocked Q X s.
Proof. unfold wp, _require_unlocked. destruct (is_unlocked s); auto. Qed.

Lemma wp_valid_secret secret (Q : unit -> session -> Prop) X s :
  X s -> Q () s -> wp (valid_secret secret) Q X s.
Proof. unfold wp, valid_secret. by destruct (validate_passphrase secret None). Qed.

Lemma wp_lift {A} (r : result session_error A) (Q : A -> session -> Prop) X s :
  X s -> (forall a, r = Ok a -> Q a s) -> wp (lift r) Q X s.
Proof. unfold wp, lift. destruct r; auto. Qed.

Ltac sstep :=
  lazymatch goal with
  | |- wp (mbind _ _) _ _ _ => apply wp_bind
  | |- wp (mret _) _ _ _ => apply wp_ret
  | |- wp (gets _) _ _ _ => apply wp_gets
  | |- wp (modify _) _ _ _ => apply wp_modify
  | |- wp (raise _) _ _ _ => apply wp_raise
  | |- wp (lift _) _ _ _ => let G := fresh "G" in apply wp_lift; [|intros ? G]
  | |- wp (raise_if _ _) _ _ _ => let G := fresh "G" in apply wp_raise_if; intros G
  | |- wp _require_unlocked _ _ _ => let G := fresh "G" in apply wp_require_unlocked; intros G
  | |- wp (valid_secret _) _ _ _ => apply wp_valid_secret
  | |- wp (_save_setting _ _) _ _ _ => unfold _save_setting
  | |- wp (verify_critical_action_key _ _) _ _ _ => unfold verify_critical_action_key
  | |- wp (match ?x with _ => _ end) _ _ _ => destruct x eqn:?
  end; cbv beta.

Ltac ssteps := repeat (sstep; try done).

Lemma load_settings_steady : within steady _load_settings.
Proof.
  intros s. apply (wp_state (steady s)). unfold _load_settings, load_timeout, load_incoming.
  ssteps; auto 10 with vault.
Qed.

Lemma touch_steady now : within steady (touch now).
Proof. intros s. unfold touch. by destruct (is_unlocked s). Qed.

Lemma write_verifier_steady r k secret : within steady (_write_critical_verifier r k secret).
Proof.
  intros s. apply (wp_state (steady s)). unfold _write_critical_verifier. ssteps.
  auto with vault.
Qed.

Lemma set_critical_steady r k secret : within steady (set_critical_action_key r k secret).
Proof.
  intros s. apply (wp_state (steady s)). unfold set_critical_action_key. ssteps.
  apply wp_state, write_verifier_steady.
Qed.

Lemma change_critical_steady r k old new : within steady (change_critical_action_key r k old new).
Proof.
  intros s. apply (wp_state (steady s)). unfold change_critical_action_key. ssteps.
  apply wp_state, write_verifier_steady.
Qed.

Lemma clear_critical_steady k secret : within steady (clear_critical_action_key k secret).
Proof.
  intros s. apply (wp_state (steady s)). unfold clear_critical_action_key. ssteps.
  auto with vault.
Qed.

Lemma set_auto_lock_steady now seconds : within steady (set_auto_lock_seconds now seconds).
Proof.
  intros s. apply (wp_state (steady s)). unfold set_auto_lock_seconds. ssteps.
  apply (wp_state (steady s)). etransitivity; [|apply touch_steady].
  auto with vault.
Qed.

Lemma set_incoming_steady required : within steady (set_require_passphrase_for_incoming required).
Proof.
  intros s. apply (wp_state (steady s)). unfold set_require_passphrase_for_incoming. ssteps.
  auto with vault.
Qed.

(** ** Runs *)

Inductive scall : Type :=
| Unlock (now : spec_float) (dek : bytes) (v : VaultDatabase)
| Touch (now : spec_float)
| Lock (nonce noise : bytes)
| AutoLock (now : spec_float) (nonce noise : bytes)
| DontAsk (enabled : bool)
| SetCritical (r : verifier_draws) (k : VaultKeyfile) (secret : string)
| ChangeCritical (r : verifier_draws) (k : VaultKeyfile) (old new : string)
| ClearCritical (k : VaultKeyfile) (secret : string)
| SetAutoLock (now seconds : spec_float)
| SetIncoming (required : bool).

Definition scall_run (c : scall) (s : session) : session :=
  match c with
  | Unlock now dek v => fst (Session.unlock now dek v s)
  | Touch now => fst (touch now s)
  | Lock nonce noise => fst (Session.lock nonce noise s)
  | AutoLock now nonce noise => fst (check_and_auto_lock now nonce noise s)
  | DontAsk enabled => fst (set_dont_ask_again_files enabled s)
  | SetCritical r k secret => fst (set_critical_action_key r k secret s)
  | ChangeCritical r k old new => fst (change_critical_action_key r k old new s)
  | ClearCritical k secret => fst (clear_critical_action_key k secret s)
  | SetAutoLock now seconds => fst (set_auto_lock_seconds now seconds s)
  | SetIncoming required => fst (set_require_passphrase_for_incoming required s)
  end.

Definition srun (l : list scall) (s : session) : session := foldl (fun s c => scall_run c s) s l.

(** The key is there exactly when the database is, it has 32 bytes, and the "don't ask
    again" flag is on only then. *)
Record sound (s : session) : Prop := {
  sound_db : is_Some (_dek s) <-> is_Some (vault_db s);
  sound_ask : _dont_ask_again_files s = true -> is_Some (_dek s);
  sound_dek : forall k, _dek s = Some k -> length k = 32%nat
}.

Lemma steady_sound s s' : steady s s' -> sound s -> sound s'.
Proof.
  intros [Hd Hv Ha] [Hs1 Hs2 Hs3]. split; rewrite ?Hd, ?Ha; try done. by rewrite Hv.
Qed.

Lemma lock_effect nonce noise s :
  _dek (fst (Session.lock nonce noise s)) = None /\ vault_db (fst (Session.lock nonce noise s)) = None /\
  _dont_ask_again_files (fst (Session.lock nonce noise s)) = false.
Proof.
  unfold Session.lock. destruct (vault_db s) as [v|]; [|done].
  by destruct (Database.lock nonce noise v _) as [d [[]|e]].
Qed.

Lemma lock_sound nonce noise s : sound (fst (Session.lock nonce noise s)).
Proof.
  destruct (lock_effect nonce noise s) as (Hd & Hv & Ha).
  split; rewrite ?Hd, ?Hv, ?Ha; try done; by split; intros [? ?].
Qed.

Lemma scall_sound c s : sound s -> sound (scall_run c s).
Proof.
  intros Hs. destruct c; cbn [scall_run].
  - unfold Session.unlock. cbv [mbind stm_bind raise_if].
    destruct (Nat.eqb_spec (length dek) 32) as [Hl|]; [|done]. simpl.
    set (s1 := set_dont_ask false (set_key (Some dek) (Some v) s)).
    assert (sound s1) as Hs1.
    { split; simpl; [by split; intros _; eexists|done|by intros k [= <-]]. }
    pose proof (load_settings_steady s1) as Hl1.
    destruct (_load_settings s1) as [s2 [[]|e]]; simpl in Hl1.
    + eapply steady_sound; [|exact Hs1]. etransitivity; [exact Hl1|apply touch_steady].
    + by eapply steady_sound.
  - eapply steady_sound; [apply touch_steady|done].
  - apply lock_sound.
  - unfold check_and_auto_lock. cbv [mbind stm_bind gets]. destruct (idle_expired now s); [|done].
    pose proof (lock_sound nonce noise s) as Hk. by destruct (Session.lock nonce noise s) as [s' [[]|e]].
  - unfold set_dont_ask_again_files. destruct (enabled && negb (is_unlocked s)) eqn:E; [done|].
    destruct Hs as [Hs1 Hs2 Hs3]. split; simpl; try done. intros ->. simpl in E.
    apply negb_false_iff in E. unfold is_unlocked in E. apply andb_true_iff in E as [E _].
    by apply bool_decide_eq_true in E.
  - eapply steady_sound; [apply set_critical_steady|done].
  - eapply steady_sound; [apply change_critical_steady|done].
  - eapply steady_sound; [apply clear_critical_steady|done].
  - eapply steady_sound; [apply set_auto_lock_steady|done].
  - eapply steady_sound; [apply set_incoming_steady|done].
Qed.

Lemma srun_sound l s : sound s -> sound (srun l s).
Proof. revert s. induction l as [|c l IH]; intros s Hs; [done|]. apply IH, scall_sound, Hs. Qed.

(** The calls that do not switch the question off. *)
Definition asks (c : scall) : Prop := match c with DontAsk true => False | _ => True end.

Lemma scall_asks c s :
  asks c -> _dont_ask_again_files s = false -> _dont_ask_again_files (scall_run c s) = false.
Proof.
  intros Hc Hs. destruct c; cbn [scall_run].
  - unfold Session.unlock. cbv [mbind stm_bind raise_if].
    destruct (Nat.eqb_spec (length dek) 32) as [Hl|]; [|done]. simpl.
    set (s1 := set_dont_ask false (set_key (Some dek) (Some v) s)).
    pose proof (load_settings_steady s1) as Hl1.
    destruct (_load_settings s1) as [s2 [[]|e]]; simpl in Hl1; [|exact (steady_ask _ _ Hl1)].
    etransitivity; [exact (steady_ask _ _ (touch_steady now s2))|exact (steady_ask _ _ Hl1)].
  - by rewrite (steady_ask _ _ (touch_steady now s)).
  - apply lock_effect.
  - unfold check_and_auto_lock. cbv [mbind stm_bind gets]. destruct (idle_expired now s); [|done].
    pose proof (lock_effect nonce noise s) as (_ & _ & Hk).
    by destruct (Session.lock nonce noise s) as [s' [[]|e]].
  - destruct enabled; [done|]. by unfold set_dont_ask_again_files.
  - by rewrite (steady_ask _ _ (set_critical_steady r k secret s)).
  - by rewrite (steady_ask _ _ (change_critical_steady r k old new s)).
  - by rewrite (steady_ask _ _ (clear_critical_steady k secret s)).
  - by rewrite (steady_ask _ _ (set_auto_lock_steady now seconds s)).
  - by rewrite (steady_ask _ _ (set_incoming_steady required s)).
Qed.

Lemma srun_asks l d seconds s :
  new_session d seconds = Some s -> Forall asks l -> _dont_ask_again_files (srun l s) = false.
Proof.
  intros Hn Hl. assert (_dont_ask_again_files s = false) as Hs.
  { unfold new_session in Hn. destruct (SFltb seconds zero); [done|]. by injection Hn as <-. }
  clear Hn. revert s Hs. induction Hl as [|c l Hc _ IH]; intros s Hs; [done|].
  apply IH. by apply scall_asks.
Qed.

Lemma new_session_sound d seconds s : new_session d seconds = Some s -> sound s.
Proof.
  unfold new_session. destruct (SFltb seconds zero); [done|]. intros [= <-].
  split; simpl; [by split; intros [? ?]|done|done].
Qed.

(** The operations that need the key. *)
Inductive guarded : Type :=
| GDek
| GVerify (k : VaultKeyfile) (passphrase : string)
| GVerifyCritical (k : VaultKeyfile) (secret : string)
| GSetCritical (r : verifier_draws) (k : VaultKeyfile) (secret : string)
| GChangeCritical (r : verifier_draws) (k : VaultKeyfile) (old new : string)
| GClearCritical (k : VaultKeyfile) (secret : string)
| GAuthorize (k : VaultKeyfile) (secret : option string).

(** One of them, what it returns forgotten. *)
Definition guarded_run (g : guarded) : sop unit :=
  match g with
  | GDek => dek_bytes ;; mret ()
  | GVerify k p => verify_passphrase k p ;; mret ()
  | GVerifyCritical k x => verify_critical_action_key k x ;; mret ()
  | GSetCritical r k x => set_critical_action_key r k x ;; mret ()
  | GChangeCritical r k x y => change_critical_action_key r k x y ;; mret ()
  | GClearCritical k x => clear_critical_action_key k x ;; mret ()
  | GAuthorize k x => authorize_export k x ;; mret ()
  end.

Lemma guarded_locked g s : _dek s = None -> guarded_run g s = (s, Err SessionLockedError).
Proof.
  intros Hd. assert (is_unlocked s = false) as Hu by (unfold is_unlocked; by rewrite Hd).
  destruct g; simpl; cbv [mbind stm_bind dek_bytes verify_passphrase verify_critical_action_key
    set_critical_action_key change_critical_action_key clear_critical_action_key authorize_export
    _require_unlocked]; by rewrite ?Hu, ?Hd.
Qed.

(** C24: the key never outlives the session.  After any sequence of calls on a new session,
    failed ones included, the session holds a key of 32 bytes exactly while it holds an open
    database and asks for the passphrase again unless it does; and once it holds none, by a lock,
    by the idle timer or by a lock that failed half-way, no file action is waved through and every
    operation that needs the key is refused and changes nothing. *)
Theorem session_key_guarded d seconds s l :
  new_session d seconds = Some s ->
  let s' := srun l s in
  sound s' /\
  (is_unlocked s' = false ->
   (forall a, a ∈ FILE_ACTIONS_REQUIRING_AUTH ->
      action_name a = a -> requires_reauth a s' = true) /\
   (forall g, guarded_run g s' = (s', Err SessionLockedError))) /\
  (forall nonce noise, _dek (fst (Session.lock nonce noise s')) = None).
Proof.
  intros Hs s'. assert (sound s') as Hs' by by eapply srun_sound, new_session_sound.
  split; [done|]. split; [|intros; apply lock_effect].
  intros Hu. assert (_dek s' = None) as Hd.
  { destruct (_dek s') as [k|] eqn:E; [|done]. unfold is_unlocked in Hu.
    rewrite !bool_decide_eq_true_2 in Hu; [done|..]; [apply sound_db; [done|]|]; by rewrite E. }
  split; [|intros g; by apply guarded_locked].
  intros a Ha He. unfold requires_reauth. rewrite He, Hu, andb_false_r, (bool_decide_eq_true_2 (a ∈ _)) by done.
  unfold FILE_ACTIONS_REQUIRING_AUTH in Ha. rewrite !elem_of_cons in Ha.
  by destruct Ha as [-> |[-> |[-> |[-> |Ha%elem_of_nil]]]].
Qed.

(** ** The encrypted file of the database *)

Context `{!AesGcmLaws, !HkdfLaws, !ScryptLaws, !JsonTextLaws, !SqliteFileLaws}.

Lemma db_key_length dek : length (_derive_db_key dek) = 32%nat.
Proof. apply hkdf_length. Qed.

(** The tables one gets by unlocking with the key. *)
Definition readable (dek : bytes) (path working : string) (d : disk) (t : tables) : Prop :=
  exists d' v, Database.unlock dek path working d = (d', Ok v) /\ live v = t.

Lemma readable_file dek path working d nonce t c :
  length nonce = NONCE_LEN -> gcm_encrypt (_derive_db_key dek) nonce (sqlite_bytes t) = Some c ->
  d !! path = Some (nonce ++ c) -> readable dek path working d t.
Proof.
  intros Hn Hc Hd. unfold readable, Database.unlock. rewrite Hd, <- Hn.
  rewrite take_app_length, drop_app_length.
  assert (8 <= length nonce <= 128)%nat as Hr by (rewrite Hn; unfold NONCE_LEN; lia).
  rewrite (gcm_open_encrypt _ _ _ _ (db_key_length dek) Hr Hc), sqlite_open_bytes. by do 2 eexists.
Qed.

Lemma readable_same dek path working d d' t :
  d' !! path = d !! path -> readable dek path working d t -> readable dek path working d' t.
Proof.
  intros E (d1 & v & Hu & Ht). unfold readable, Database.unlock in *. rewrite E.
  destruct (d !! path) as [blob|]; [|by injection Hu as <- <-; do 2 eexists].
  destruct (gcm_open _ _ _) as [p|[]]; [|done..].
  destruct (sqlite_open p) as [t'|]; [|done]. injection Hu as <- <-. by do 2 eexists.
Qed.

(** The three paths of an open database are different ones. *)
Definition paths_apart (v : VaultDatabase) : Prop :=
  working_path v <> vault_db_path v /\ working_path v <> tmp_of (vault_db_path v).

Lemma tmp_of_ne path : tmp_of path <> path.
Proof. unfold tmp_of. induction path as [|c p IH]; [done|]. by intros [= E]. Qed.

(** C23: the vault is never lost.  Locking an open database flushes its tables to the
    encrypted file, where unlocking with the same key finds them, and leaves no plain working
    copy.  Wherever the flush or the wiping after it is interrupted, unlocking finds either
    what the encrypted file held before or the new tables, whole. *)
Theorem vault_never_lost dek nonce noise v d ops :
  _db_key v = _derive_db_key dek -> length nonce = NONCE_LEN -> paths_apart v ->
  flush_ops nonce v (sqlite_bytes (live v)) = Some ops ->
  (exists d', Database.lock nonce noise v d = (d', Ok ()) /\
     d' !! working_path v = None /\
     forall w, readable dek (vault_db_path v) w d' (live v)) /\
  (forall d' w t, crashed (ops ++ secure_delete (working_path v) noise) (commit v d) d' ->
     readable dek (vault_db_path v) w d t ->
     readable dek (vault_db_path v) w d' t \/ readable dek (vault_db_path v) w d' (live v)).
Proof.
  intros Hk Hn [Hw1 Hw2] Hops.
  assert (forall w d', d' !! vault_db_path v = run_ops ops (commit v d) !! vault_db_path v ->
    readable dek (vault_db_path v) w d' (live v)) as Hnew.
  { intros w d' E. unfold flush_ops in Hops. apply bind_Some in Hops as (c & Hc & [= <-]).
    rewrite run_replace_file, lookup_insert_eq in E. rewrite Hk in Hc. by eapply readable_file. }
  split.
  - unfold Database.lock, flush. cbv zeta.
    replace (commit v d !! working_path v) with (Some (sqlite_bytes (live v)))
      by (symmetry; apply lookup_insert_eq).
    cbn [default from_option id]. rewrite Hops. eexists. split; [done|]. split; [simpl; by rewrite lookup_delete_eq|].
    intros w. apply Hnew, run_ops_frame. by apply secure_delete_frame.
  - intros d' w t Hc Ht. apply crashed_app in Hc as [Hc|Hc].
    + unfold flush_ops in Hops. apply bind_Some in Hops as (c & Hce & [= <-]).
      apply replace_file_atomic in Hc as [Hq| ->]; [|by right; apply Hnew|apply tmp_of_ne].
      left. eapply readable_same; [|exact Ht]. rewrite Hq by (apply not_eq_sym, tmp_of_ne).
      unfold commit. by rewrite lookup_insert_ne.
    + right. apply Hnew. eapply crashed_frame; [exact Hc|]. by apply secure_delete_frame.
Qed.

(** ** The critical-action key *)

Lemma read_put key j s :
  jwf j = true -> j <> JNull -> is_Some (vault_db s) ->
  _read_setting key (put_settings <[key := json_dumps j]> s) = Some j.
Proof.
  intros Hj Hn [v E]. unfold _read_setting, put_settings. rewrite E. simpl.
  rewrite lookup_insert_eq. simpl. rewrite json_loads_dumps by done. by destruct j.
Qed.

Lemma put_derive k secret f s :
  _derive_critical_auth_key k secret (put_settings f s) = _derive_critical_auth_key k secret s.
Proof. unfold _derive_critical_auth_key. by rewrite (steady_dek _ _ (put_settings_steady f s s (reflexivity _))). Qed.

Lemma derived_length k secret s key :
  _derive_critical_auth_key k secret s = Some key -> length key = 32%nat.
Proof.
  unfold _derive_critical_auth_key. intros H'. apply bind_Some in H' as (? & _ & H').
  apply bind_Some in H' as (? & _ & H'). apply bind_Some in H' as (? & _ & [= <-]). apply hkdf_length.
Qed.

(** A verifier just written accepts its secret. *)
Lemma written_verifies r k secret s s' k' :
  length (v_nonce r) = NONCE_LEN ->
  _write_critical_verifier r k secret s = (s', Ok k') ->
  critical_action_key_configured k' = true /\ is_unlocked s' = true /\
  verify_critical_action_key k' secret s' = (s', Ok true).
Proof.
  intros Hn. unfold _write_critical_verifier. set (k1 := set_critical_salts _ _ k).
  cbv [mbind stm_bind _require_unlocked gets]. destruct (is_unlocked s) eqn:Hu; [|done].
  destruct (_derive_critical_auth_key k1 secret s) as [key|] eqn:Hkey; simpl; [|done].
  destruct (gcm_encrypt key (v_nonce r) CRITICAL_VERIFIER_PLAINTEXT) as [c|] eqn:Hc; [|done].
  unfold _save_setting, modify. intros [= <- <-].
  set (f := <[_ := _]>). assert (is_unlocked (put_settings f s) = true) as Hu'.
  { rewrite (steady_unlocked s); [done|]. auto with vault. }
  split; [done|]. split; [done|]. unfold verify_critical_action_key, mbind, stm_bind, _require_unlocked, gets.
  rewrite Hu'. f_equal. f_equal. change (critical_action_key_configured k1) with true. simpl.
  subst f. rewrite read_put, put_derive, Hkey; [|done..|].
  - unfold verifier_texts, verifier_record. simpl. unfold b64. rewrite !String.list_byte_of_string_of_list_byte.
    unfold verifier_opens. rewrite !b64decode_b64encode, (gcm_open_encrypt _ _ _ _ (derived_length _ _ _ _ Hkey)
      ltac:(rewrite Hn; unfold NONCE_LEN; lia) Hc), secrets_equal_spec. by apply bool_decide_eq_true.
  - unfold is_unlocked in Hu. apply andb_true_iff in Hu as [_ Hu]. by apply bool_decide_eq_true in Hu.
Qed.

(** The changes of the critical-action key, on the keyfile and the secret its owner last chose. *)
Inductive critical_call : Type :=
| CSet (r : verifier_draws) (secret : string)
| CChange (r : verifier_draws) (old new : string)
| CClear (secret : string).

Definition critical_run (c : critical_call) (p : VaultKeyfile * option string)
    : sop (VaultKeyfile * option string) :=
  match c with
  | CSet r x => k ← set_critical_action_key r (fst p) x; mret (k, Some x)
  | CChange r x y => k ← change_critical_action_key r (fst p) x y; mret (k, Some y)
  | CClear x => k ← clear_critical_action_key (fst p) x; mret (k, None)
  end.

Fixpoint critical_runs (l : list critical_call) (p : VaultKeyfile * option string)
    : sop (VaultKeyfile * option string) :=
  match l with
  | [] => mret p
  | c :: l' => p' ← critical_run c p; critical_runs l' p'
  end.

Definition critical_nonces (c : critical_call) : Prop :=
  match c with CSet r _ | CChange r _ _ => length (v_nonce r) = NONCE_LEN | CClear _ => True end.

(** The export gate does what the owner last chose. *)
Definition gated (p : VaultKeyfile * option string) (s : session) : Prop :=
  is_unlocked s = true /\
  match snd p with
  | None => critical_action_key_configured (fst p) = false
  | Some secret =>
      critical_action_key_configured (fst p) = true /\
      verify_critical_action_key (fst p) secret s = (s, Ok true)
  end.

Lemma write_gated r k x s :
  length (v_nonce r) = NONCE_LEN ->
  wp (_write_critical_verifier r k x) (fun k' s' => gated (k', Some x) s') (fun _ => True) s.
Proof.
  intros Hn. unfold wp. destruct (_write_critical_verifier r k x s) as [s1 [k1|e]] eqn:E; [|done].
  apply written_verifies in E as (? & ? & ?); [|done]. done.
Qed.

Lemma critical_run_gated c p s :
  critical_nonces c -> wp (critical_run c p) (fun p' s' => gated p' s') (fun _ => True) s.
Proof.
  destruct p as [k o]. destruct c as [r x|r x y|x]; simpl; intros Hn; unfold set_critical_action_key,
    change_critical_action_key, clear_critical_action_key; ssteps.
  - eapply wp_mono; [by apply write_gated|]. intros; by sstep.
  - eapply wp_mono; [by apply write_gated|]. intros; by sstep.
  - split; [|done]. rewrite (steady_unlocked s); [done|]. auto with vault.
Qed.

Lemma critical_runs_gated l p s :
  Forall critical_nonces l -> gated p s -> wp (critical_runs l p) gated (fun _ => True) s.
Proof.
  intros Hl. revert p s. induction Hl as [|c l Hc _ IH]; intros p s Hp; simpl.
  - by sstep.
  - sstep. eapply wp_mono; [by apply critical_run_gated|]. intros p' s' Hp'. by apply IH.
Qed.

(** Exporting needs the second secret as soon as there is one.  After any sequence of
    setting, changing and clearing the critical-action key that succeeds, with the keyfile it
    returns: where the owner chose a secret last, giving it authorises an export and giving
    none does not; where the key was cleared or never set, an unlocked session is enough.
    Locking the session refuses both. *)
Theorem export_needs_secret l k s s' k' chosen nonce noise :
  is_unlocked s = true -> critical_action_key_configured k = false -> Forall critical_nonces l ->
  critical_runs l (k, None) s = (s', Ok (k', chosen)) ->
  match chosen with
  | Some secret =>
      authorize_export k' (Some secret) s' = (s', Ok true) /\
      authorize_export k' None s' = (s', Ok false)
  | None => forall given, authorize_export k' given s' = (s', Ok true)
  end /\
  let locked := fst (Session.lock nonce noise s') in
  forall given, authorize_export k' given locked = (locked, Err SessionLockedError).
Proof.
  intros Hu Hk Hl E. pose proof (critical_runs_gated l (k, None) s Hl (conj Hu Hk)) as Hg.
  unfold wp in Hg. rewrite E in Hg. destruct Hg as [Hu' Hg]. cbn [fst snd] in Hg. split.
  - unfold authorize_export, mbind, stm_bind, _require_unlocked. rewrite Hu'.
    destruct chosen as [secret|]; [destruct Hg as [Hc Hv]; by rewrite Hc|]. by rewrite Hg.
  - intros locked given. unfold authorize_export, mbind, stm_bind, _require_unlocked.
    unfold is_unlocked. subst locked. by destruct (lock_effect nonce noise s') as (-> & _).
Qed.

End Session.
