(* ===== verification/Partial.v ===== *)
(** * Partial downloads

    Models [core/transfer/resume.py], [core/transfer/partial.py],
    [core/transfer/chunker.py], [core/transfer/hashing.py] and the path resolution of
    [core/transfer/receiver.py], on the directory of [Files.FS].  A path inside the
    downloads directory is the name of its last component.

    A sidecar is the JSON text of its record; what a write to it does when the disk
    fails is the boolean [io_ok] of [write_meta].  [json.load] of a sidecar that holds
    a huge integer lets [float] raise [OverflowError], which no caller catches: the
    readers return a [result]. *)

From Corelib Require Import SpecFloat.
From S2P Require Import Prelude Text Json Messages Crypto Files.
Import FS.
Local Open Scope peerc_scope.
Local Open Scope Z_scope.

Definition PART_EXTENSION : string := ".part".
Definition META_SUFFIX : string := ".meta".
Definition META_VERSION : Z := 1.
Definition MAX_META_BYTES : Z := 4096.
Definition COMMIT_INTERVAL : Z := 4 * 1024 * 1024.
Definition DEFAULT_CHUNK_SIZE : Z := 64 * 1024.
Definition _MAX_TEXT : Z := 1024.

(** [7 * 24 * 3600] as a double. *)
Definition PARTIAL_MAX_AGE_SECONDS : spec_float := S754_finite false 5195192441241600 (-33).

(** ** Naming and finalizing *)

Definition get_part_path (dest : string) : string := (dest +:+ PART_EXTENSION)%string.
Definition meta_path_for (part : string) : string := (part +:+ META_SUFFIX)%string.

Definition get_partial_bytes (part : string) (d : fs) : Z :=
  if isfile part d then default 0 (getsize part d) else 0.

Definition cleanup_part_file (part : string) (d : fs) : fs :=
  if exists_ part d then remove part d else d.

(** [None] is [FileNotFoundError] or another [OSError]. *)
Definition finalize_part_file (part dest : string) (d : fs) : option fs :=
  if isfile part d then replace part dest d else None.

Definition discard (part : string) (d : fs) : fs := remove (meta_path_for part) (remove part d).

(** ** Chunks and hashes *)

(** [sha256_file]: the digest of the whole content, read in pieces. *)
Definition sha256_hex `{Sha256} (b : bytes) : string := bytes_str (hex_text (sha256 b)).

Definition sha256_file `{Sha256} (n : string) (d : fs) : option string := sha256_hex <$> read n d.

(** The loop of [read_chunks]: index, offset and bytes of each piece. *)
Fixpoint chunks_from (fuel : nat) (chunk_size : nat) (index offset : Z) (rest : bytes)
    : list (Z * Z * bytes) :=
  match fuel with
  | O => []
  | S fuel' =>
      match take chunk_size rest with
      | [] => []
      | chunk => (index, offset, chunk)
          :: chunks_from fuel' chunk_size (index + 1) (offset + zlen chunk) (drop chunk_size rest)
      end
  end.

(** [None] is the [ValueError]; [data] is the content of the file. *)
Definition read_chunks (data : bytes) (start_offset chunk_size : Z)
    : option (list (Z * Z * bytes)) :=
  if zlen data <? start_offset then None
  else
    let rest := drop (Z.to_nat start_offset) data in
    Some (chunks_from (S (length rest)) (Z.to_nat chunk_size)
            (start_offset / chunk_size) start_offset rest).

(** ** Sidecars *)

Record PartialInfo := mk_info {
  part_path : string;
  dest_name : string;
  peer_device_id : string;
  filename : string;
  size : Z;
  checksum : string;
  committed : Z;
  created_at : spec_float;
  updated_at : spec_float
}.

Definition meta_path (i : PartialInfo) : string := meta_path_for (part_path i).

Inductive overflow : Type := OverflowError.

(** [float(x)] of a number; an integer too large raises. *)
Definition to_float (v : json) : result overflow spec_float :=
  let of_int z :=
    match binary_normalize 53 1024 z 0 false with
    | S754_infinity _ => Err OverflowError
    | f => Ok f
    end in
  match v with
  | JInt z => of_int z
  | JFloat f => Ok f
  | _ => of_int 0
  end.

Definition str_within (limit : Z) (v : json) : bool :=
  match v with
  | JStr s => (0 <? code_points (str_bytes s)) && (code_points (str_bytes s) <=? limit)
  | _ => false
  end.

Definition has_byte (c : byte) (s : string) : bool :=
  existsb (fun d => bool_decide (d = c)) (str_bytes s).

Definition _is_plain_name (v : json) : bool :=
  match v with
  | JStr s =>
      str_within _MAX_TEXT v && negb (bool_decide (s = "."%string))
        && negb (bool_decide (s = ".."%string))
        && negb (has_byte "/"%byte s) && negb (has_byte "\"%byte s)
        && negb (has_byte Byte.x00 s)
  | _ => false
  end.

(** [_CHECKSUM_RE]: [$] also matches before a final newline. *)
Definition checksum_match (s : bytes) : bool :=
  let hex64 t := (length t =? 64)%nat && forallb is_hex t in
  hex64 s || (hex64 (take 64 s) && bool_decide (drop 64 s = [Byte.x0a])).

Definition _is_int (v : json) : option Z := match v with JInt z => Some z | _ => None end.
Definition _is_number (v : json) : bool :=
  match v with JInt _ | JFloat _ => true | _ => false end.

Definition ends_with (suffix s : string) : bool :=
  let b := str_bytes s in let e := str_bytes suffix in
  (length e <=? length b)%nat && bool_decide (drop (length b - length e) b = e).

(** [meta_path[:-len(META_SUFFIX)]]. *)
Definition strip_meta (m : string) : string :=
  bytes_str (take (length (str_bytes m) - length (str_bytes META_SUFFIX)) (str_bytes m)).

Definition _validate (data : json) (meta : string) : result overflow (option PartialInfo) :=
  match data with
  | JObj m =>
      let field k := default JNull (jget k m) in
      if negb (equals_int META_VERSION (field "version"%string)) then Ok None
      else if negb (str_within 128 (field "peer_device_id"%string)) then Ok None
      else if negb (str_within _MAX_TEXT (field "filename"%string)) then Ok None
      else if negb (_is_plain_name (field "dest_name"%string)) then Ok None
      else
        match field "peer_device_id"%string, field "filename"%string, field "dest_name"%string,
              field "checksum"%string, _is_int (field "size"%string),
              _is_int (field "committed"%string) with
        | JStr peer, JStr filename, JStr dest, JStr sum, Some size, Some committed =>
            if negb (checksum_match (str_bytes sum)) then Ok None
            else if negb ((0 <=? committed) && (committed <=? size)) then Ok None
            else if negb (_is_number (field "created_at"%string)
                          && _is_number (field "updated_at"%string)) then Ok None
            else if negb (ends_with (PART_EXTENSION +:+ META_SUFFIX) meta) then Ok None
            else
              let part := strip_meta meta in
              if negb (bool_decide (part = get_part_path dest)) then Ok None
              else
                let? created := to_float (field "created_at"%string) in
                let? updated := to_float (field "updated_at"%string) in
                Ok (Some {| part_path := part; dest_name := dest; peer_device_id := peer;
                            filename := filename; size := size; checksum := sum;
                            committed := committed; created_at := created;
                            updated_at := updated |})
        | _, _, _, _, _, _ => Ok None
        end
  | _ => Ok None
  end.

Definition meta_record (peer filename : string) (size : Z) (checksum dest_name : string)
    (committed : Z) (created now : spec_float) : json :=
  JObj [("version", JInt META_VERSION); ("peer_device_id", JStr peer); ("filename", JStr filename);
        ("size", JInt size); ("checksum", JStr checksum); ("dest_name", JStr dest_name);
        ("committed", JInt committed); ("created_at", JFloat created);
        ("updated_at", JFloat now)]%string.

Section Sidecars.
Context `{JsonText}.

(** [None] is the [ValueError] for an invalid record or, when [io_ok] is false, the
    [OSError] of the disk; the directory is then as before. *)
Definition write_meta (io_ok : bool) (now : spec_float) (part peer filename : string) (size : Z)
    (checksum dest_name : string) (committed : Z) (d : fs) : option (PartialInfo * fs) :=
  let record := meta_record peer filename size checksum dest_name committed now now in
  match _validate record (meta_path_for part) with
  | Ok (Some info) =>
      match entries d !! meta_path_for part with
      | Some EDir => None
      | _ =>
          if io_ok then Some (info, put_file (meta_path_for part) (json_dumps record) d)
          else None
      end
  | _ => None
  end.

(** The callers' [try: write_meta(...) except Exception: pass]. *)
Definition try_write_meta (io_ok : bool) (now : spec_float) (part peer filename : string)
    (size : Z) (checksum dest_name : string) (committed : Z) (d : fs) : fs :=
  match write_meta io_ok now part peer filename size checksum dest_name committed d with
  | Some (_, d') => d'
  | None => d
  end.

Definition read_meta (meta : string) (d : fs) : result overflow (option PartialInfo) :=
  if islink meta d then Ok None
  else
    match read meta d with
    | None => Ok None
    | Some text =>
        if MAX_META_BYTES <? zlen text then Ok None
        else match json_loads text with
             | None => Ok None
             | Some data => _validate data meta
             end
    end.

Definition _part_is_usable (part : string) (d : fs) : bool :=
  isfile part d && negb (islink part d).

(** The names of the directory, in the order [os.scandir] yields them. *)
Definition scandir (d : fs) : list string := map fst (map_to_list (entries d)).

Definition same_offer (peer filename' : string) (size' : Z) (checksum' : string)
    (i : PartialInfo) : bool :=
  bool_decide (peer_device_id i = peer) && bool_decide (filename i = filename')
    && (size i =? size') && bool_decide (checksum i = checksum').

Fixpoint find_in (names : list string) (peer filename' : string) (size' : Z)
    (checksum' : string) (d : fs) (best : option PartialInfo)
    : result overflow (option PartialInfo) :=
  match names with
  | [] => Ok best
  | n :: rest =>
      let continue := find_in rest peer filename' size' checksum' d in
      if negb (ends_with (PART_EXTENSION +:+ META_SUFFIX) n) then continue best
      else
        let? info := read_meta n d in
        match info with
        | None => continue best
        | Some i =>
            if negb (same_offer peer filename' size' checksum' i) then continue best
            else if negb (_part_is_usable (part_path i) d) then continue best
            else continue (match best with
                           | None => Some i
                           | Some b => if SFltb (updated_at b) (updated_at i) then Some i
                                       else Some b
                           end)
        end
  end.

Definition find_resumable (peer filename' : string) (size' : Z) (checksum' : string) (d : fs)
    : result overflow (option PartialInfo) :=
  find_in (scandir d) peer filename' size' checksum' d None.

Definition resume_offset_for (i : PartialInfo) (chunk_size : Z) (d : fs) : Z :=
  match getsize (part_path i) d with
  | None => 0
  | Some actual =>
      let trusted := Z.min (Z.min (committed i) actual) (size i) in
      trusted - trusted mod chunk_size
  end.

Fixpoint sweep_in (names : list string) (now max_age : spec_float) (d : fs)
    : fs * result overflow (list string) :=
  match names with
  | [] => (d, Ok [])
  | n :: rest =>
      if negb (ends_with (PART_EXTENSION +:+ META_SUFFIX) n) then sweep_in rest now max_age d
      else
        match read_meta n d with
        | Err e => (d, Err e)
        | Ok None => sweep_in rest now max_age d
        | Ok (Some i) =>
            if SFltb max_age (SFsub 53 1024 now (updated_at i)) then
              let '(d', r) := sweep_in rest now max_age (discard (part_path i) d) in
              (d', let? removed := r in Ok (part_path i :: removed))
            else sweep_in rest now max_age d
        end
  end.

Definition sweep_expired (now : spec_float) (d : fs) : fs * result overflow (list string) :=
  sweep_in (scandir d) now PARTIAL_MAX_AGE_SECONDS d.

End Sidecars.

(** ** The destination of a download *)

Definition MAX_INCOMING_FILE_SIZE : Z := 2 * 1024 * 1024 * 1024.
Definition DISK_SAFETY_MARGIN : Z := 10 * 1024 * 1024.

(** [free] is what [shutil.disk_usage] reports, [None] when it fails. *)
Definition check_disk_space (free : option Z) (required_bytes : Z) : bool :=
  match free with
  | Some f => required_bytes + DISK_SAFETY_MARGIN <=? f
  | None => true
  end.

Inductive security_error : Type := TransferSecurityError.

Definition candidate (base ext : string) (counter : nat) : string :=
  (base +:+ " (" +:+ pretty counter +:+ ")" +:+ ext)%string.

(** A name is taken while it, or its part file, exists. *)
Definition taken (allow_existing_part : bool) (n : string) (d : fs) : bool :=
  exists_ n d || negb allow_existing_part && exists_ (get_part_path n) d.

Fixpoint first_free (fuel : nat) (allow : bool) (base ext name : string) (counter : nat) (d : fs)
    : option string :=
  match fuel with
  | O => None
  | S fuel' =>
      if taken allow name d
      then first_free fuel' allow base ext (candidate base ext counter) (S counter) d
      else Some name
  end.

(** Whether [realpath] of a name that does not exist stays in the directory. *)
Definition stays_inside (n : string) (d : fs) : bool :=
  match entries d !! n with Some (ELink _ inside) => inside | _ => true end.

Definition resolve_safe_dest_path (windows : bool) (filename : string) (allow : bool) (d : fs)
    : result security_error string :=
  match Filenames.sanitize_filename (JStr filename) None windows
          (Filenames.MAX_FILENAME_BYTES - 16) with
  | None => Err TransferSecurityError
  | Some name =>
      let '(base, ext) := splitext (str_chars name) in
      match first_free (2 + 2 * base.size (entries d)) allow (chars_str base) (chars_str ext) name 1 d with
      | Some c => if stays_inside c d then Ok c else Err TransferSecurityError
      | None => Err TransferSecurityError
      end
  end.

(** ** Names *)

Lemma str_app_assoc (a b c : string) : ((a +:+ b) +:+ c = a +:+ b +:+ c)%string.
Proof. induction a as [|x a IH]; [done|]. exact (f_equal (String x) IH). Qed.

Lemma str_app_inj_l a b c : (a +:+ b = a +:+ c)%string -> b = c.
Proof.
  intros E. apply (f_equal str_bytes) in E. rewrite !str_bytes_app in E.
  by apply app_inv_head, str_bytes_inj in E.
Qed.

Lemma str_app_inj_r a b c : (a +:+ c = b +:+ c)%string -> a = b.
Proof.
  intros E. apply (f_equal str_bytes) in E. rewrite !str_bytes_app in E.
  by apply app_inv_tail, str_bytes_inj in E.
Qed.

Lemma get_part_path_inj a b : get_part_path a = get_part_path b -> a = b.
Proof. apply str_app_inj_r. Qed.

Lemma meta_path_for_inj a b : meta_path_for a = meta_path_for b -> a = b.
Proof. apply str_app_inj_r. Qed.

Lemma ends_with_app suffix a : ends_with suffix (a +:+ suffix)%string = true.
Proof.
  unfold ends_with. rewrite str_bytes_app, length_app.
  replace (length (str_bytes a) + length (str_bytes suffix) - length (str_bytes suffix))%nat
    with (length (str_bytes a)) by lia.
  rewrite drop_app_length, bool_decide_true by done. apply andb_true_iff. split; [|done].
  apply Nat.leb_le. lia.
Qed.

Lemma ends_with_inv suffix s : ends_with suffix s = true -> exists a, s = (a +:+ suffix)%string.
Proof.
  unfold ends_with. intros [Hl E]%andb_true_iff. apply bool_decide_eq_true in E.
  exists (bytes_str (take (length (str_bytes s) - length (str_bytes suffix)) (str_bytes s))).
  apply str_bytes_inj. rewrite str_bytes_app, String.list_byte_of_string_of_list_byte.
  rewrite <- (take_drop (length (str_bytes s) - length (str_bytes suffix)) (str_bytes s)) at 1.
  by rewrite E.
Qed.

Lemma strip_meta_path part : strip_meta (meta_path_for part) = part.
Proof.
  apply str_bytes_inj. unfold strip_meta, meta_path_for.
  rewrite String.list_byte_of_string_of_list_byte, str_bytes_app, length_app.
  replace (length (str_bytes part) + length (str_bytes META_SUFFIX)
           - length (str_bytes META_SUFFIX))%nat with (length (str_bytes part)) by lia.
  by rewrite take_app_length.
Qed.

(** A part name is never the name of a sidecar. *)
Lemma str_app_ne (a b : string) : b <> ""%string -> (a +:+ b)%string <> a.
Proof.
  intros Hb Heq. apply Hb. apply (f_equal String.length) in Heq.
  assert (forall x y, String.length (x +:+ y)%string = (String.length x + String.length y)%nat) as Hl.
  { intros x y. induction x as [|c x IH]; [done|]. simpl. by rewrite IH. }
  rewrite Hl in Heq. destruct b; [done|]. simpl in Heq. lia.
Qed.

Lemma part_ne dest : get_part_path dest <> dest.
Proof. by apply str_app_ne. Qed.

Lemma part_not_meta a b : get_part_path a <> meta_path_for b.
Proof.
  intros E. apply (f_equal str_bytes) in E. unfold get_part_path, meta_path_for in E.
  rewrite !str_bytes_app in E. apply (f_equal (@rev byte)) in E.
  rewrite !rev_app_distr in E. by vm_compute in E.
Qed.

(** ** Chunks *)

Lemma chunks_from_spec fuel cs index offset rest :
  (0 < cs)%nat -> (length rest < fuel)%nat ->
  concat (map snd (chunks_from fuel cs index offset rest)) = rest.
Proof.
  intros Hcs. revert index offset rest. induction fuel as [|fuel IH]; intros index offset rest Hf;
    [lia|]. cbn [chunks_from]. destruct (take cs rest) as [|c t] eqn:E.
  - destruct rest; [done|]. destruct cs; [lia|]. done.
  - cbn [map concat snd]. rewrite IH.
    + rewrite <- E. apply take_drop.
    + rewrite length_drop. destruct rest; [by destruct cs|]. simpl in *. lia.
Qed.

(** The [k]-th chunk: its index and offset, its length, and that only the last can be
    short. *)
Lemma chunks_from_lookup fuel cs index offset rest k i o c :
  (0 < cs)%nat -> chunks_from fuel cs index offset rest !! k = Some (i, o, c) ->
  i = index + Z.of_nat k /\ o = offset + Z.of_nat k * Z.of_nat cs /\
  c = take cs (drop (k * cs) rest) /\ c <> [].
Proof.
  intros Hcs. revert index offset rest k. induction fuel as [|fuel IH];
    intros index offset rest k Hk; [done|]. cbn [chunks_from] in Hk.
  destruct (take cs rest) as [|x t] eqn:E; [done|]. destruct k as [|k].
  - simpl in Hk. injection Hk as <- <- <-. rewrite Nat.mul_0_l, drop_0, E. split; [lia|].
    split; [lia|done].
  - cbn [lookup list_lookup] in Hk. apply IH in Hk as (-> & -> & -> & Hne).
    rewrite drop_drop. replace (cs + k * cs)%nat with (S k * cs)%nat by lia.
    rewrite drop_drop in Hne. replace (cs + k * cs)%nat with (S k * cs)%nat in Hne by lia.
    split; [lia|]. split; [|done].
    (* the first chunk is full, since another one follows it *)
    assert (zlen (x :: t) = Z.of_nat cs) as ->; [|lia].
    rewrite <- E. unfold zlen. rewrite length_take.
    destruct (decide (cs <= length rest)%nat); [lia|]. exfalso. apply Hne.
    rewrite drop_ge; [by destruct cs|]. lia.
Qed.

(** The chunks of a whole file from an aligned offset. *)
Lemma read_chunks_spec data start cs :
  0 < cs -> 0 <= start <= zlen data -> start mod cs = 0 ->
  exists l, read_chunks data start cs = Some l /\
    concat (map snd l) = drop (Z.to_nat start) data /\
    forall k i o c, l !! k = Some (i, o, c) ->
      i = start / cs + Z.of_nat k /\ o = start + Z.of_nat k * cs /\ c <> [] /\
      o = i * cs /\ c = take (Z.to_nat cs) (drop (Z.to_nat o) data).
Proof.
  intros Hcs Hs Hmod. unfold read_chunks.
  destruct (Z.ltb_spec (zlen data) start); [lia|]. eexists. split; [reflexivity|]. split.
  - apply chunks_from_spec; lia.
  - intros k i o c Hk. apply chunks_from_lookup in Hk as (-> & -> & -> & Hne); [|lia].
    rewrite Z2Nat.id by lia. split; [done|]. split; [done|].
    rewrite drop_drop in Hne |- *. split; [done|]. split.
    + pose proof (Z.div_mod start cs). lia.
    + f_equal. f_equal. lia.
Qed.

(** ** Sidecars *)

Section SidecarTheory.
Context `{JsonTextLaws}.

Lemma read_put_file n b d : read n (put_file n b d) = Some b.
Proof.
  unfold read, put_file, content. cbn [entries contents]. rewrite lookup_insert_eq. simpl.
  by rewrite lookup_insert_eq.
Qed.

(** What a validated record says about its fields. *)
Lemma validate_Some data meta i :
  _validate data meta = Ok (Some i) ->
  meta = meta_path_for (part_path i) /\ part_path i = get_part_path (dest_name i) /\
  0 <= committed i <= size i /\ _is_plain_name (JStr (dest_name i)) = true.
Proof.
  unfold _validate. destruct data as [| | | | | |m]; try done. cbv zeta.
  destruct (negb (equals_int _ _)); [done|].
  destruct (negb (str_within 128 _)); [done|]. destruct (negb (str_within _MAX_TEXT _)); [done|].
  destruct (negb (_is_plain_name _)) eqn:Hp; [done|].
  repeat (case_match; try done). intros Hr.
  apply rbind_Ok in Hr as (cr & _ & Hr). apply rbind_Ok in Hr as (up & _ & Hr).
  apply Ok_inj, (inj Some) in Hr. subst i. cbn [part_path dest_name committed size].
  bool_to_prop. subst. split; [|done]. apply ends_with_inv in H10 as [a ->].
  change (a +:+ PART_EXTENSION +:+ META_SUFFIX)%string
    with (a +:+ (PART_EXTENSION +:+ META_SUFFIX))%string.
  assert ((a +:+ (PART_EXTENSION +:+ META_SUFFIX))%string = meta_path_for (get_part_path a)) as ->;
    [|by rewrite strip_meta_path].
  apply str_bytes_inj. unfold meta_path_for, get_part_path.
  by rewrite !str_bytes_app, app_assoc.
Qed.

Lemma read_meta_Some n d i :
  read_meta n d = Ok (Some i) ->
  exists text data, read n d = Some text /\ json_loads text = Some data /\
    _validate data n = Ok (Some i).
Proof.
  unfold read_meta. destruct (islink n d); [done|]. destruct (read n d) as [text|]; [|done].
  destruct (_ <? _); [done|]. destruct (json_loads text) as [data|] eqn:E; [|done]. eauto 6.
Qed.

(** The time of a sidecar is the one in its record. *)
Lemma validate_updated m meta i :
  _validate (JObj m) meta = Ok (Some i) ->
  to_float (default JNull (jget "updated_at" m)) = Ok (updated_at i).
Proof.
  unfold _validate. cbv zeta.
  destruct (negb (equals_int _ _)); [done|].
  destruct (negb (str_within 128 _)); [done|]. destruct (negb (str_within _MAX_TEXT _)); [done|].
  destruct (negb (_is_plain_name _)) eqn:Hp; [done|].
  repeat (case_match; try done). intros Hr.
  apply rbind_Ok in Hr as (c & _ & Hr). apply rbind_Ok in Hr as (u & Hu & Hr).
  apply Ok_inj, (inj Some) in Hr. by subst i.
Qed.

(** What is written is read back. *)
Lemma read_write_meta now part peer fn sz sum dest com d info d' :
  write_meta true now part peer fn sz sum dest com d = Some (info, d') ->
  zlen (json_dumps (meta_record peer fn sz sum dest com now now)) <= MAX_META_BYTES ->
  read_meta (meta_path_for part) d' = Ok (Some info).
Proof.
  unfold write_meta. destruct (_validate _ _) as [[i|]|] eqn:Ev; try done. intros Hw Hl.
  assert (i = info /\ d' = put_file (meta_path_for part)
    (json_dumps (meta_record peer fn sz sum dest com now now)) d) as [-> ->].
  { destruct (entries d !! _) as [[]|]; simplify_eq; done. }
  unfold read_meta, islink. cbn [entries put_file]. rewrite lookup_insert_eq, read_put_file.
  destruct (Z.ltb_spec MAX_META_BYTES (zlen (json_dumps (meta_record peer fn sz sum dest com now now))));
    [lia|].
  unfold meta_record in *. rewrite json_loads_dumps; [done|]. by vm_compute.
Qed.

(** The sidecar [n] of the directory describes exactly this offer, and its part file
    is there. *)
Definition offers (peer fn : string) (sz : Z) (sum : string) (d : fs) (n : string)
    (i : PartialInfo) : Prop :=
  ends_with (PART_EXTENSION +:+ META_SUFFIX) n = true /\ read_meta n d = Ok (Some i) /\
  same_offer peer fn sz sum i = true /\ _part_is_usable (part_path i) d = true.

Definition not_older (a b : PartialInfo) : Prop := SFltb (updated_at a) (updated_at b) = false.

Lemma not_older_refl a : not_older a a.
Proof.
  unfold not_older. destruct (SFltb _ _) eqn:E; [|done]. by rewrite (SFltb_asym _ _ E) in E.
Qed.

Lemma not_older_trans a b c :
  is_nan (updated_at b) = false -> not_older a b -> not_older b c -> not_older a c.
Proof.
  unfold not_older. intros Hn Hab Hbc. apply not_true_is_false. intros Hac.
  destruct (SFltb_split _ (updated_at b) _ Hn Hac); congruence.
Qed.

(** One entry of the directory updates the best match so far. *)
Definition better (best : option PartialInfo) (i : PartialInfo) : option PartialInfo :=
  match best with
  | None => Some i
  | Some b => if SFltb (updated_at b) (updated_at i) then Some i else Some b
  end.

Lemma find_in_step n names peer fn sz sum d best r :
  find_in (n :: names) peer fn sz sum d best = Ok r ->
  (find_in names peer fn sz sum d best = Ok r /\ forall i, ~ offers peer fn sz sum d n i) \/
  exists i, offers peer fn sz sum d n i /\
    find_in names peer fn sz sum d (better best i) = Ok r.
Proof.
  cbn [find_in]. cbv zeta. unfold offers.
  destruct (ends_with _ n); cbn [negb]; [|intros ->; left; split; [done|]; by intros i (? & _)].
  intros (info & Hi & Hr)%rbind_Ok. rewrite Hi.
  destruct info as [i|]; [|left; split; [done|]; by intros j (_ & ? & _)].
  destruct (same_offer _ _ _ _ i) eqn:Hs; cbn [negb] in Hr.
  2: { left. split; [done|]. intros j (_ & Hj & Hsj & _). simplify_eq. congruence. }
  destruct (_part_is_usable _ _) eqn:Hu; cbn [negb] in Hr.
  2: { left. split; [done|]. intros j (_ & Hj & _ & Huj). simplify_eq. congruence. }
  right. exists i. done.
Qed.

(** What is found is for the same offer. *)
Lemma find_in_same_offer names peer fn sz sum d best i :
  (forall b, best = Some b -> same_offer peer fn sz sum b = true) ->
  find_in names peer fn sz sum d best = Ok (Some i) -> same_offer peer fn sz sum i = true.
Proof.
  revert best. induction names as [|n names IH]; intros best Hb Hr.
  { apply Ok_inj in Hr. auto. }
  apply find_in_step in Hr as [[Hr _]|(j & (_ & _ & Hj & _) & Hr)]; [by eapply IH|].
  eapply IH; [|exact Hr]. unfold better. intros b.
  destruct best as [b'|]; [destruct (SFltb _ _)|]; intros Heq; simplify_eq; auto.
Qed.

Lemma find_in_spec names peer fn sz sum d best r :
  (forall n i, offers peer fn sz sum d n i -> is_nan (updated_at i) = false) ->
  (forall b, best = Some b -> is_nan (updated_at b) = false) ->
  find_in names peer fn sz sum d best = Ok r ->
  (forall i, r = Some i -> best = Some i \/ exists n, n ∈ names /\ offers peer fn sz sum d n i) /\
  (forall b, best = Some b -> exists i, r = Some i /\ not_older i b) /\
  (forall n j, n ∈ names -> offers peer fn sz sum d n j -> exists i, r = Some i /\ not_older i j).
Proof.
  intros Hnan. revert best. induction names as [|n names IH]; intros best Hb Hr.
  { apply Ok_inj in Hr. subst r. split; [auto|]. split; [|by intros ? ? ?%elem_of_nil].
    intros b ->. eauto using not_older_refl. }
  apply find_in_step in Hr as [[Hr Hno]|(i & Ho & Hr)].
  - destruct (IH best Hb Hr) as (H1 & H2 & H3). split; [|split; [done|]].
    + intros j Hj. destruct (H1 j Hj) as [|(m & Hm & Hmo)]; [by left|].
      right. exists m. split; [by right|done].
    + intros m j [->|Hm]%elem_of_cons Hmo; [by destruct (Hno j)|by eapply H3].
  - assert (exists c, better best i = Some c /\ is_nan (updated_at c) = false /\ not_older c i /\
      (best = Some c \/ c = i) /\ forall b, best = Some b -> not_older c b)
      as (c & Hc & Hcn & Hci & Hor & Hcb).
    { unfold better. destruct best as [b|].
      - destruct (SFltb (updated_at b) (updated_at i)) eqn:E.
        + exists i. split; [done|]. split; [by eapply Hnan|]. split; [apply not_older_refl|].
          split; [by right|]. intros b' [= <-]. by apply SFltb_asym.
        + exists b. split; [done|]. split; [by apply Hb|]. split; [done|]. split; [by left|].
          intros b' [= <-]. apply not_older_refl.
      - exists i. split; [done|]. split; [by eapply Hnan|]. split; [apply not_older_refl|].
        split; [by right|done]. }
    destruct (IH (better best i)) as (H1 & H2 & H3).
    { intros b Hbb. rewrite Hc in Hbb. by injection Hbb as <-. }
    { done. }
    destruct (H2 c Hc) as (x & Hx & Hxc). split; [|split].
    + intros j Hj. destruct (H1 j Hj) as [Hbj|(m & Hm & Hmo)].
      * rewrite Hc in Hbj. injection Hbj as <-. destruct Hor as [?|Hor]; [by left|subst c].
        right. exists n. split; [by left|done].
      * right. exists m. split; [by right|done].
    + intros b Hbb. exists x. split; [done|]. eapply not_older_trans; [|done|by apply Hcb]. done.
    + intros m j [->|Hm]%elem_of_cons Hmo; [|by eapply H3].
      assert (j = i) as ->.
      { destruct Ho as (_ & Ho & _), Hmo as (_ & Hmo & _). congruence. }
      exists x. split; [done|]. by eapply not_older_trans.
Qed.

Lemma elem_of_scandir n d : n ∈ scandir d <-> is_Some (entries d !! n).
Proof.
  unfold scandir. rewrite list_elem_of_fmap. split.
  - intros ([k e] & -> & Hin). apply elem_of_map_to_list in Hin. by eexists.
  - intros [e He]. exists (n, e). split; [done|]. by apply elem_of_map_to_list.
Qed.

Lemma offers_in_scan peer fn sz sum d n i : offers peer fn sz sum d n i -> n ∈ scandir d.
Proof.
  intros (_ & Hr & _). apply elem_of_scandir. unfold read_meta, read in Hr.
  destruct (islink n d); [done|]. destruct (entries d !! n); [eauto|done].
Qed.

Lemma same_offer_fields peer fn sz sum i :
  same_offer peer fn sz sum i = true ->
  peer_device_id i = peer /\ filename i = fn /\ size i = sz /\ checksum i = sum.
Proof. unfold same_offer. intros Hs. bool_to_prop. done. Qed.

Lemma resume_offset_bounds i cs d actual :
  0 < cs -> 0 <= committed i <= size i -> getsize (part_path i) d = Some actual ->
  let off := resume_offset_for i cs d in
  0 <= off /\ off <= committed i /\ off <= actual /\ off <= size i /\ off mod cs = 0 /\
  Z.min (committed i) actual - off < cs.
Proof.
  intros Hcs Hc Hg. unfold resume_offset_for. rewrite Hg.
  assert (0 <= actual) as Ha.
  { unfold getsize in Hg. destruct (read _ _); [|done]. injection Hg as <-. apply zlen_nonneg. }
  set (t := Z.min (Z.min (committed i) actual) (size i)). cbv zeta.
  assert (0 <= t) by lia. pose proof (Z.mod_pos_bound t cs Hcs). pose proof (Z.mod_le t cs).
  assert (t - t mod cs = cs * (t / cs)) as E by (pose proof (Z.div_mod t cs); lia).
  split; [lia|]. split; [lia|]. split; [lia|]. split; [lia|].
  split; [rewrite E, Z.mul_comm; apply Z.mod_mul; lia|]. lia.
Qed.

(** A download is resumed only from its own partial.  What [find_resumable]
    returns was recorded in a valid sidecar by the same authenticated peer for the same
    file name, size and checksum, its part file is a regular file, and no other such
    sidecar is more recent; if it returns nothing, there is no such sidecar.  The
    offset it is resumed at is a multiple of the chunk size, at most what was committed
    and at most what the part file holds. *)
Theorem find_resumable_spec peer fn sz sum d r cs :
  0 < cs ->
  (forall n i, offers peer fn sz sum d n i -> is_nan (updated_at i) = false) ->
  find_resumable peer fn sz sum d = Ok r ->
  match r with
  | Some i =>
      (exists n, offers peer fn sz sum d n i) /\
      (peer_device_id i = peer /\ filename i = fn /\ size i = sz /\ checksum i = sum) /\
      (forall n j, offers peer fn sz sum d n j -> not_older i j) /\
      exists actual, getsize (part_path i) d = Some actual /\
        0 <= resume_offset_for i cs d <= Z.min (committed i) actual /\
        resume_offset_for i cs d mod cs = 0 /\ resume_offset_for i cs d <= sz
  | None => forall n i, ~ offers peer fn sz sum d n i
  end.
Proof.
  intros Hcs Hnan Hr. apply find_in_spec in Hr as (H1 & _ & H3); [|done|done].
  destruct r as [i|].
  - destruct (H1 i eq_refl) as [|(n & _ & Ho)]; [done|]. pose proof Ho as (_ & Hm & Hs & Hu).
    split; [eauto|]. split; [by apply same_offer_fields|]. split.
    { intros m j Hmo. destruct (H3 m j) as (x & [= <-] & ?); [by eapply offers_in_scan|done..]. }
    apply read_meta_Some in Hm as (text & data & _ & _ & Hm). apply validate_Some in Hm as (_ & _ & Hc & _).
    unfold _part_is_usable, isfile in Hu. apply andb_true_iff in Hu as [Hu _].
    apply bool_decide_eq_true in Hu as [ino Hino].
    assert (getsize (part_path i) d = Some (zlen (content d ino))) as Hg
      by (unfold getsize, read; by rewrite Hino).
    exists (zlen (content d ino)). split; [done|].
    apply same_offer_fields in Hs as (_ & _ & <- & _).
    pose proof (resume_offset_bounds i cs d _ Hcs Hc Hg). cbv zeta in *. lia.
  - intros n i Ho. destruct (H3 n i) as (x & ? & _); [by eapply offers_in_scan|done..].
Qed.

(** *** The sweep *)

(** The directory after some names were removed. *)
Definition shrinks (d d' : fs) : Prop :=
  contents d' = contents d /\
  forall k, entries d' !! k = entries d !! k \/ entries d' !! k = None.

#[export] Instance shrinks_preorder : PreOrder shrinks.
Proof.
  split.
  - intros d. split; [done|]. by left.
  - intros a b c [H1 H2] [H3 H4]. split; [congruence|]. intros k.
    destruct (H4 k) as [->|]; [done|by right].
Qed.

Lemma remove_entries n d k :
  entries (remove n d) !! k = if decide (k = n)
    then match entries d !! n with Some EDir => Some EDir | _ => None end
    else entries d !! k.
Proof.
  unfold remove. case_decide as Hk; [subst k|];
    destruct (entries d !! n) as [[]|] eqn:E; rewrite ?E; try done; cbn [entries set_entries];
    rewrite ?lookup_delete_eq, ?lookup_delete_ne by done; done.
Qed.

Lemma remove_shrinks n d : shrinks d (remove n d).
Proof.
  split; [unfold remove; by destruct (entries d !! n) as [[]|]|].
  intros k. rewrite remove_entries. case_decide; [subst k|by left].
  destruct (entries d !! n) as [[]|]; auto.
Qed.

Lemma discard_shrinks part d : shrinks d (discard part d).
Proof. unfold discard. etransitivity; apply remove_shrinks. Qed.

Lemma discard_other part d k :
  k <> part -> k <> meta_path_for part -> entries (discard part d) !! k = entries d !! k.
Proof.
  intros H1 H2. unfold discard. rewrite !remove_entries. by rewrite !decide_False.
Qed.

Lemma read_meta_shrinks d d' n i :
  shrinks d d' -> read_meta n d' = Ok (Some i) -> read_meta n d = Ok (Some i).
Proof.
  intros [Hc He]. unfold read_meta, islink, read, content. destruct (He n) as [-> | ->]; [|done].
  by rewrite Hc.
Qed.

Definition is_expired (now max_age : spec_float) (i : PartialInfo) : bool :=
  SFltb max_age (SFsub 53 1024 now (updated_at i)).

Lemma sweep_in_spec names now max_age d k :
  let d' := fst (sweep_in names now max_age d) in
  entries d' !! k = entries d !! k \/
  exists n i, n ∈ names /\ read_meta n d = Ok (Some i) /\ is_expired now max_age i = true /\
    (k = part_path i \/ k = meta_path_for (part_path i)).
Proof.
  cbv zeta. revert d. induction names as [|n names IH]; intros d; [by left|].
  assert (entries (fst (sweep_in names now max_age d)) !! k = entries d !! k \/
    exists m i, m ∈ n :: names /\ read_meta m d = Ok (Some i) /\ is_expired now max_age i = true /\
    (k = part_path i \/ k = meta_path_for (part_path i))) as Hskip.
  { destruct (IH d) as [|(m & i & Hm & ?)]; [by left|]. right. exists m, i. split; [by right|done]. }
  cbn [sweep_in]. destruct (ends_with _ n); cbn [negb]; [|done].
  destruct (read_meta n d) as [[i|]|e] eqn:Er; [|done|by left].
  change (SFltb max_age _) with (is_expired now max_age i).
  destruct (is_expired now max_age i) eqn:Ex; [|done].
  pose proof (IH (discard (part_path i) d)) as IHd.
  destruct (sweep_in names now max_age (discard (part_path i) d)) as [d' r]. cbn [fst] in *.
  destruct (decide (k = part_path i \/ k = meta_path_for (part_path i))) as [Hk|Hk].
  - right. exists n, i. split; [by left|done].
  - destruct IHd as [->|(m & j & Hm & Hj & Hx)].
    + left. apply discard_other; tauto.
    + right. exists m, j. split; [by right|]. split; [|done].
      by eapply read_meta_shrinks; [apply discard_shrinks|].
Qed.

(** The sweep removes nothing but expired partial downloads.  Whatever the
    directory holds and whether or not the sweep fails, every name is left as it was
    unless it is the part file, or the sidecar, of a valid sidecar that has expired. *)
Theorem sweep_only_expired now d k :
  entries (fst (sweep_expired now d)) !! k = entries d !! k \/
  exists n i, read_meta n d = Ok (Some i) /\ is_expired now PARTIAL_MAX_AGE_SECONDS i = true /\
    (k = get_part_path (dest_name i) \/ k = n).
Proof.
  destruct (sweep_in_spec (scandir d) now PARTIAL_MAX_AGE_SECONDS d k)
    as [?|(n & i & _ & Hr & Hx & Hk)]; [by left|]. right. exists n, i.
  split; [done|]. split; [done|]. apply read_meta_Some in Hr as (text & data & _ & _ & Hr).
  apply validate_Some in Hr as (-> & <- & _). done.
Qed.

End SidecarTheory.

(** ** Destinations *)
Import FilenameTheory.

Lemma unchars_chars s : unchars (chars s) = s.
Proof.
  unfold unchars. induction s as [|c s IH]; [done|]. simpl.
  destruct (chars s) as [|[|d g] t]; simpl in *; [by rewrite <- IH|by rewrite <- IH|].
  destruct (is_cont d); simpl; by rewrite <- IH.
Qed.

Definition is_digit (c : byte) : bool := (48 <=? byte.unsigned c) && (byte.unsigned c <=? 57).

Lemma pretty_N_char_digit x :
  (x < 10)%N -> exists c, str_bytes (String (pretty_N_char x) "") = [c] /\ is_digit c = true.
Proof.
  intros Hx. assert (x = 0 \/ x = 1 \/ x = 2 \/ x = 3 \/ x = 4 \/ x = 5 \/ x = 6 \/ x = 7 \/ x = 8
    \/ x = 9)%N as Hc by lia.
  repeat destruct Hc as [->|Hc]; [by eexists..|]. subst. by eexists.
Qed.

Lemma pretty_N_go_digits x s :
  forallb is_digit (str_bytes s) = true -> forallb is_digit (str_bytes (pretty_N_go x s)) = true.
Proof.
  revert s. induction (N.lt_wf_0 x) as [x _ IH]. intros s Hs.
  destruct (decide (x = 0)%N) as [->|Hx]; [by rewrite pretty_N_go_0|].
  rewrite pretty_N_go_step by lia. apply IH; [apply N.div_lt; lia|].
  destruct (pretty_N_char_digit (x `mod` 10)) as (c & Hc & Hd); [apply N.mod_lt; lia|].
  change (str_bytes (String (pretty_N_char (x `mod` 10)) s))
    with (str_bytes (String (pretty_N_char (x `mod` 10)) "") ++ str_bytes s).
  rewrite Hc. simpl. by rewrite Hd, Hs.
Qed.

Lemma pretty_nat_digits (n : nat) : forallb is_digit (str_bytes (pretty n)) = true.
Proof.
  unfold pretty, pretty_nat, pretty, pretty_N. case_decide; [done|].
  by apply pretty_N_go_digits.
Qed.

Lemma digits_harmless s :
  forallb is_digit s = true -> Forall harmless_byte s.
Proof.
  intros Hs. apply Forall_forall. intros c Hc. rewrite forallb_forall in Hs.
  apply list_elem_of_In, Hs in Hc. unfold is_digit in Hc. bool_to_prop. unfold harmless_byte.
  split; [lia|]. split; [lia|].
  split; intros ->; [change (byte.unsigned "/"%byte) with 47 in *
                    |change (byte.unsigned "\"%byte) with 92 in *]; lia.
Qed.

Lemma candidate_inj base ext i j : candidate base ext i = candidate base ext j -> i = j.
Proof.
  unfold candidate. intros E. apply str_app_inj_l, str_app_inj_l in E.
  apply str_app_inj_r in E. by apply (inj pretty) in E.
Qed.

(** While no free name was found, all the names tried are taken. *)
Lemma first_free_None fuel allow base ext name counter d j :
  first_free fuel allow base ext name counter d = None -> (S j < fuel)%nat ->
  taken allow (candidate base ext (counter + j)) d = true.
Proof.
  revert name counter j. induction fuel as [|fuel IH]; intros name counter j Hn Hj; [lia|].
  cbn [first_free] in Hn. destruct (taken allow name d); [|done].
  destruct fuel as [|fuel]; [lia|]. destruct j as [|j].
  - rewrite Nat.add_0_r. cbn [first_free] in Hn.
    by destruct (taken allow (candidate base ext counter) d).
  - replace (counter + S j)%nat with (S counter + j)%nat by lia. eapply IH; [exact Hn|lia].
Qed.

Lemma first_free_Some fuel allow base ext name counter d c :
  first_free fuel allow base ext name counter d = Some c ->
  taken allow c d = false /\ (c = name \/ exists j, c = candidate base ext j).
Proof.
  revert name counter. induction fuel as [|fuel IH]; intros name counter; [done|].
  cbn [first_free]. destruct (taken allow name d) eqn:E.
  - intros Hf. apply IH in Hf as [Ht [->|?]]; eauto.
  - intros [= <-]. auto.
Qed.

Lemma exists_entry n d : exists_ n d = true -> n ∈ dom (entries d).
Proof. unfold exists_. rewrite elem_of_dom. destruct (entries d !! n); [eauto|done]. Qed.

(** Names that map into the directory injectively are no more than its entries. *)
Lemma names_bound (f : string -> string) (l : list string) (d : fs) :
  (forall a b, f a = f b -> a = b) -> NoDup l -> (forall n, n ∈ l -> f n ∈ dom (entries d)) ->
  (length l <= base.size (entries d))%nat.
Proof.
  intros Hf Hnd Hin. rewrite <- size_dom, <- (length_fmap f).
  assert (NoDup (f <$> l)) as Hnf.
  { apply (NoDup_fmap_2_strong f); [|done]. intros x y _ _. apply Hf. }
  rewrite <- (size_list_to_set (C := gset string) (f <$> l) Hnf). apply subseteq_size.
  intros x Hx. apply elem_of_list_to_set, list_elem_of_fmap in Hx as (n & -> & Hn). by apply Hin.
Qed.

(** The counter always reaches a free name. *)
Lemma first_free_total allow base ext name d :
  is_Some (first_free (2 + 2 * base.size (entries d)) allow base ext name 1 d).
Proof.
  destruct (first_free _ _ _ _ _ _ _) as [c|] eqn:E; [eauto|exfalso].
  set (n := base.size (entries d)) in *.
  set (l := (fun j => candidate base ext (1 + j)) <$> seq 0 (1 + 2 * n)).
  assert (forall c, c ∈ l -> taken allow c d = true) as Hall.
  { intros c Hc. apply list_elem_of_fmap in Hc as (j & -> & Hj). apply elem_of_seq in Hj.
    eapply first_free_None; [exact E|lia]. }
  assert (NoDup l) as Hnd.
  { apply (NoDup_fmap_2_strong _ _); [|apply NoDup_seq].
    intros x y _ _ Hxy%candidate_inj. lia. }
  pose proof (names_bound (fun x => x) (filter (fun c => exists_ c d = true) l) d) as H1.
  pose proof (names_bound get_part_path (filter (fun c => ~ exists_ c d = true) l) d) as H2.
  assert (length l = (1 + 2 * n)%nat) as Hlen
    by (unfold l; rewrite length_fmap; apply length_seq).
  rewrite <- (filter_app_complement (fun c => exists_ c d = true) l), length_app in Hlen.
  assert (length (filter (fun c => exists_ c d = true) l) <= n)%nat.
  { apply H1; [done|by apply NoDup_filter|].
    intros c Hc. apply list_elem_of_filter in Hc as [Hc _]. by apply exists_entry. }
  assert (length (filter (fun c => ~ exists_ c d = true) l) <= n)%nat.
  { apply H2; [apply get_part_path_inj|by apply NoDup_filter|].
    intros c Hc. apply list_elem_of_filter in Hc as [Hc Hl]. apply Hall in Hl.
    unfold taken in Hl. apply orb_true_iff in Hl as [|Hl]; [done|].
    apply andb_true_iff in Hl as [_ Hl]. by apply exists_entry. }
  lia.
Qed.


Lemma Forall_str_app (P : byte -> Prop) a b :
  Forall P (str_bytes (a +:+ b)) <-> Forall P (str_bytes a) /\ Forall P (str_bytes b).
Proof. rewrite str_bytes_app. apply Forall_app. Qed.

Lemma candidate_harmless base ext j :
  Forall harmless_byte (str_bytes base) -> Forall harmless_byte (str_bytes ext) ->
  Forall harmless_byte (str_bytes (candidate base ext j)).
Proof.
  intros Hb He. unfold candidate. rewrite !Forall_str_app. split; [done|].
  split; [by repeat constructor|]. split; [apply digits_harmless, pretty_nat_digits|].
  split; [by repeat constructor|done].
Qed.

Lemma candidate_length base ext j : (3 <= length (str_bytes (candidate base ext j)))%nat.
Proof.
  unfold candidate. rewrite !str_bytes_app, !length_app.
  change (length (str_bytes " (")) with 2%nat. change (length (str_bytes ")")) with 1%nat. lia.
Qed.

(** A destination: a harmless name that is not in use. *)
Definition fresh_destination (allow : bool) (c : string) (d : fs) : Prop :=
  exists_ c d = false /\ (allow = false -> exists_ (get_part_path c) d = false) /\
  stays_inside c d = true /\ Forall harmless_byte (str_bytes c) /\
  c <> ""%string /\ c <> "."%string /\ c <> ".."%string.

Lemma not_taken allow c d :
  taken allow c d = false -> exists_ c d = false /\
    (allow = false -> exists_ (get_part_path c) d = false).
Proof.
  unfold taken. intros [H1 H2]%orb_false_iff. split; [done|]. intros ->. done.
Qed.

(** A download never leaves the downloads directory and never takes the name of
    an existing file.  For every file name a peer can send, [resolve_safe_dest_path]
    terminates; the name it returns is a harmless single component, does not exist,
    has no part file of its own unless that was asked for, and does not resolve to a
    place outside the directory.  It fails only if nothing usable is left of the name
    or the free name is a dangling link out of the directory. *)
Theorem resolve_safe_dest_path_spec windows fn allow d :
  is_text (str_chars fn) = true ->
  match resolve_safe_dest_path windows fn allow d with
  | Ok c => fresh_destination allow c d
  | Err _ =>
      Filenames.sanitize_filename (JStr fn) None windows (Filenames.MAX_FILENAME_BYTES - 16) = None
      \/ exists c, taken allow c d = false /\ stays_inside c d = false
  end.
Proof.
  intros Ht. unfold resolve_safe_dest_path.
  destruct (Filenames.sanitize_filename _ _ _ _) as [name|] eqn:Es; [|by left].
  assert (safe_component (Filenames.MAX_FILENAME_BYTES - 16) (str_bytes name)) as Hsafe.
  { eapply sanitized_component; [exact Ht| |exact Es]. by vm_compute. }
  destruct Hsafe as (N0 & N1 & N2 & _ & Hh).
  destruct (splitext (str_chars name)) as [base ext] eqn:Ex. apply splitext_spec in Ex as [Ex _].
  assert (Forall harmless_byte (unchars base) /\ Forall harmless_byte (unchars ext)) as [Hb He].
  { apply Forall_app. unfold unchars. rewrite <- concat_app, <- Ex.
    unfold str_chars. by rewrite unchars_chars. }
  destruct (first_free_total allow (chars_str base) (chars_str ext) name d) as [c Hc].
  rewrite Hc. apply first_free_Some in Hc as [Htk Hor].
  destruct (stays_inside c d) eqn:Hin; [|right; by exists c].
  apply not_taken in Htk as [H1 H2]. split; [done|]. split; [done|]. split; [done|].
  destruct Hor as [-> | [j ->]].
  - split; [done|]. repeat split; by intros ->.
  - split; [apply candidate_harmless; unfold chars_str;
            by rewrite String.list_byte_of_string_of_list_byte|].
    pose proof (candidate_length (chars_str base) (chars_str ext) j) as Hl.
    repeat split; intros E; rewrite E in Hl; vm_compute in Hl; lia.
Qed.

(** ** Evaluations *)

Definition example_sum : string := bytes_str (repeat "a"%byte 64).
Definition one_day : spec_float := binary_normalize 53 1024 86400 0 false.
Definition one_month : spec_float := binary_normalize 53 1024 2592000 0 false.

Definition example_record : json :=
  meta_record "peer" "a.bin" 300000 example_sum "a.bin" 131072 one_day one_day.

(** A codec whose only document is the record above. *)
#[local] Instance one_document : JsonText :=
  {| json_dumps _ := [Byte.x7b]; json_loads _ := Some example_record |}.

(** A part file of 200 bytes with its sidecar, and a file of the user. *)
Definition example_dir : fs :=
  put_file "a.bin.part.meta" [Byte.x7b]
    (put_file "a.bin.part" (repeat Byte.x00 200)
       (put_file "notes.part" [Byte.x00] {| entries := ∅; contents := ∅; next_inode := 0 |})).

Lemma find_resumable_spec_witness :
  exists i, find_resumable "peer" "a.bin" 300000 example_sum example_dir = Ok (Some i) /\
    checksum i = example_sum /\ resume_offset_for i 64 example_dir = 192.
Proof.
  destruct (find_resumable "peer" "a.bin" 300000 example_sum example_dir) as [[i|]|] eqn:E;
    [|vm_compute in E; discriminate E..].
  exists i. split; [reflexivity|].
  assert (match Some i with
          | Some i => peer_device_id i = "peer"%string /\ filename i = "a.bin"%string /\
                      size i = 300000 /\ checksum i = example_sum
          | None => False
          end) as Hf.
  { pose proof (find_resumable_spec "peer" "a.bin" 300000 example_sum example_dir (Some i) 64) as H.
    destruct H as (_ & Hf & _).
    - lia.
    - intros n j (_ & Hr & _). apply read_meta_Some in Hr as (text & data & _ & Hl & Hr).
      apply (inj Some) in Hl. subst data. apply validate_updated in Hr.
      change (@Ok overflow _ one_day = Ok (updated_at j)) in Hr. apply Ok_inj in Hr.
      rewrite <- Hr. vm_compute. exact eq_refl.
    - exact E.
    - exact Hf. }
  split; [apply Hf|]. vm_compute in E. injection E as <-. vm_compute. exact eq_refl.
Defined.

Lemma resolve_safe_dest_path_spec_witness :
  resolve_safe_dest_path false "../a.bin" false example_dir = Ok "a (1).bin"%string /\
  fresh_destination false "a (1).bin" example_dir.
Proof.
  assert (resolve_safe_dest_path false "../a.bin" false example_dir = Ok "a (1).bin"%string) as E
    by (vm_compute; exact eq_refl).
  split; [exact E|].
  pose proof (resolve_safe_dest_path_spec false "../a.bin" false example_dir) as H.
  rewrite E in H. apply H. vm_compute. exact eq_refl.
Defined.
