(* ===== verification/DiscoveryTheory.v ===== *)
(** * What holds of discovery

    Whatever packets arrive, a registry holds only peers whose identifier is the hash of the
    key they announced, never the device itself.  An announcement is understood by the other
    devices, and its mDNS form is the same packet.  Replies are not replied to. *)

From Corelib Require Import SpecFloat.
From S2P Require Import Prelude Dicts Text Json Crypto Canonical Messages Trust Files Discovery Partial.
Import Identity PeerRegistry Announce Mdns.
Local Open Scope peerc_scope.
Local Open Scope Z_scope.

(** ** Numbers *)

Definition digit (d : Z) : byte := byte.of_Z (48 + d).

Lemma digit_spec d :
  0 <= d < 10 ->
  ascii_digit [digit d] = Some d /\ byte.unsigned (digit d) < 128 /\ is_ch "_"%byte [digit d] = false /\
  is_ch "-"%byte [digit d] = false /\ is_ch "+"%byte [digit d] = false /\ is_space_char [digit d] = false /\
  is_cont (digit d) = false.
Proof.
  intros Hd. assert (d = 0 \/ d = 1 \/ d = 2 \/ d = 3 \/ d = 4 \/ d = 5 \/ d = 6 \/ d = 7 \/ d = 8 \/ d = 9)
    as Hc by lia.
  repeat destruct Hc as [->|Hc]; [by vm_compute..|]. subst. by vm_compute.
Qed.

(** The digits of a number, most significant first. *)
Definition value (ds : list Z) : Z := foldl (fun a d => 10 * a + d) 0 ds.

Lemma pretty_char x : (x < 10)%N -> str_bytes (String (pretty_N_char x) "") = [digit (Z.of_N x)].
Proof.
  intros Hx. assert (x = 0 \/ x = 1 \/ x = 2 \/ x = 3 \/ x = 4 \/ x = 5 \/ x = 6 \/ x = 7 \/ x = 8
    \/ x = 9)%N as Hc by lia.
  repeat destruct Hc as [->|Hc]; [by vm_compute..|]. subst. by vm_compute.
Qed.

Lemma pretty_digits k x s :
  (x < 10 ^ N.of_nat k)%N ->
  exists ds, str_bytes (pretty_N_go x s) = map digit ds ++ str_bytes s /\ (length ds <= k)%nat /\
    Forall (fun d => 0 <= d < 10) ds /\ value ds = Z.of_N x /\ ((0 < x)%N -> ds <> []).
Proof.
  revert x s. induction k as [|k IH]; intros x s Hx.
  { assert (x = 0)%N as -> by (cbn in Hx; lia). exists []. rewrite pretty_N_go_0. split_and!; done. }
  destruct (decide (x = 0)%N) as [->|H0].
  { exists []. rewrite pretty_N_go_0. split_and!; [done|simpl; lia|done..]. }
  rewrite pretty_N_go_step by lia.
  pose proof (N.mod_lt x 10 ltac:(done)) as Hm. pose proof (N.div_mod x 10 ltac:(done)) as Hdm.
  destruct (IH (x `div` 10)%N (String (pretty_N_char (x `mod` 10)) s)) as (ds & E & Hl & Hd & Hv & _).
  { rewrite Nat2N.inj_succ, N.pow_succ_r' in Hx. apply N.Div0.div_lt_upper_bound. lia. }
  exists (ds ++ [Z.of_N (x `mod` 10)]). rewrite E. split_and!.
  - change (str_bytes (String (pretty_N_char (x `mod` 10)) s))
      with (str_bytes (String (pretty_N_char (x `mod` 10)) "") ++ str_bytes s).
    rewrite pretty_char by done. rewrite map_app. cbn [map]. by rewrite <- app_assoc.
  - rewrite length_app. simpl. lia.
  - apply Forall_app. split; [done|]. apply Forall_singleton.
    clear -Hm. revert Hm. generalize (x `mod` 10)%N. lia.
  - unfold value in *. rewrite foldl_app, Hv. cbn [foldl]. clear -Hdm. revert Hdm.
    generalize (x / 10)%N (x `mod` 10)%N. lia.
  - intros _ E'. by destruct ds.
Qed.

Lemma chars_digits ds :
  Forall (fun d => 0 <= d < 10) ds -> chars (map digit ds) = map (fun d => [digit d]) ds.
Proof.
  induction 1 as [|d ds Hd Hds IH]; [done|]. cbn [map]. change (chars (digit d :: map digit ds)) with
    (match chars (map digit ds) with
     | (x :: g) :: rest => if is_cont x then (digit d :: x :: g) :: rest else [digit d] :: (x :: g) :: rest
     | r => [digit d] :: r
     end).
  rewrite IH. destruct Hds as [|d' ds Hd' _]; [done|]. cbn [map].
  destruct (digit_spec d' Hd') as (_ & _ & _ & _ & _ & _ & ->). done.
Qed.

(** The text of a natural number, digit by digit. *)
Lemma pretty_decimal k z :
  (1 <= k)%nat -> 0 <= z < 10 ^ Z.of_nat k ->
  exists ds, str_bytes (pretty z) = map digit ds /\ (length ds <= k)%nat /\
    Forall (fun d => 0 <= d < 10) ds /\ value ds = z /\ ds <> [].
Proof.
  intros Hk Hz. destruct z as [|p|p]; [|..|lia].
  - exists [0]. split_and!; [done|simpl; lia|by apply Forall_singleton|done|done].
  - destruct (pretty_digits k (N.pos p) "") as (ds & E & Hl & Hd & Hv & Hne).
    { apply N2Z.inj_lt. rewrite N2Z.inj_pow, nat_N_Z. apply Hz. }
    exists ds. split_and!; [|lia|done..|by apply Hne].
    by rewrite app_nil_r in E.
Qed.

Section Numbers.
Context `{UnicodeDigitsLaws}.

Lemma digits_value_digits ds acc b :
  Forall (fun d => 0 <= d < 10) ds ->
  digits_value acc b (map (fun d => [digit d]) ds)
    = if b || negb (bool_decide (ds = [])) then Some (foldl (fun a d => 10 * a + d) acc ds) else None.
Proof.
  intros Hds. revert acc b. induction Hds as [|d ds Hd _ IH]; intros acc b.
  - cbn. by destruct b.
  - destruct (digit_spec d Hd) as (Ha & Hlt & Hu & _). cbn [map digits_value]. rewrite Hu.
    rewrite char_decimal_ascii, Ha, IH by done. cbn [foldl]. by destruct b.
Qed.

(** [str(z).isdigit()]. *)
Lemma text_isdigit_pretty k z :
  (1 <= k)%nat -> 0 <= z < 10 ^ Z.of_nat k -> text_isdigit (str_chars (pretty z)) = true.
Proof.
  intros Hk Hz. destruct (pretty_decimal k z Hk Hz) as (ds & E & _ & Hd & _ & Hne).
  unfold text_isdigit, str_chars. rewrite E, chars_digits by done.
  rewrite bool_decide_false by (by destruct ds). cbn [negb andb]. apply forallb_forall.
  intros g (d & <- & Hin)%in_map_iff. rewrite Forall_forall in Hd.
  destruct (digit_spec d) as (Ha & Hlt & _); [by apply Hd, list_elem_of_In|].
  by rewrite char_isdigit_ascii, Ha.
Qed.

(** [int(str(z)) == z]. *)
Lemma py_int_pretty k z :
  (1 <= k <= MAX_STR_DIGITS)%nat -> 0 <= z < 10 ^ Z.of_nat k -> py_int (str_chars (pretty z)) = Some z.
Proof.
  intros Hk Hz. destruct (pretty_decimal k z) as (ds & E & Hl & Hd & Hv & Hne); [lia|done|].
  assert (length ds <= MAX_STR_DIGITS)%nat as Hlm by lia.
  unfold py_int, str_chars. rewrite E, chars_digits by done.
  set (t := map _ ds).
  assert (forall l, Forall (fun d => 0 <= d < 10) l ->
            dropwhile is_space_char (map (fun d => [digit d]) l) = map (fun d => [digit d]) l) as Hdrop.
  { intros l []; [done|]. cbn [map dropwhile].
    destruct (digit_spec x) as (_ & _ & _ & _ & _ & -> & _); done. }
  assert (strip_chars is_space_char t = t) as ->.
  { unfold strip_chars, rstrip, t. rewrite Hdrop by done. rewrite <- map_rev, Hdrop, map_rev by (by apply Forall_rev).
    apply rev_involutive. }
  assert (List.filter (fun g => negb (is_ch "_"%byte g)) t = t) as Hfilter.
  { unfold t. clear -Hd. induction Hd as [|d ds Hd _ IH]; [done|]. cbn [map List.filter].
    destruct (digit_spec d Hd) as (_ & _ & -> & _). cbn. by rewrite IH. }
  destruct ds as [|d ds]; [done|]. unfold t in *. cbn [map] in *.
  inversion Hd as [|? ? Hd0 Hds]; subst. destruct (digit_spec d Hd0) as (_ & _ & _ & Hm & Hp & _).
  rewrite Hm, Hp. rewrite Hfilter.
  rewrite decide_False by (cbn [length]; rewrite length_map; cbn [length] in Hl; lia).
  change ([digit d] :: map (fun d => [digit d]) ds) with (map (fun d => [digit d]) (d :: ds)).
  rewrite digits_value_digits by done. cbn [orb negb]. rewrite bool_decide_false by done. simpl. f_equal.
  unfold value in *. simpl. lia.
Qed.

End Numbers.

(** ** Keys in packets *)

Lemma strict_char q l p d s :
  0 <= d < 64 ->
  a2b_strict q l p false (b64_char d :: s) =
    match q with
    | 0%nat => a2b_strict 1 d 0 false s
    | 1%nat => cons (byte.of_Z (l * 4 + d / 16)) <$> a2b_strict 2 (d mod 16) 0 false s
    | 2%nat => cons (byte.of_Z (l * 16 + d / 4)) <$> a2b_strict 3 (d mod 4) 0 false s
    | _ => cons (byte.of_Z (l * 64 + d)) <$> a2b_strict 0 0 0 false s
    end.
Proof.
  intros Hd. destruct (b64_char_spec d Hd) as (Hv & Hp & _). cbn [a2b_strict].
  by rewrite bool_decide_false, Hv.
Qed.

Lemma strict_b64encode bs : a2b_strict 0 0 0 false (b64encode bs) = Some bs.
Proof.
  remember (length bs) as n eqn:Hn. assert (length bs <= n)%nat as Hle by lia. clear Hn.
  revert bs Hle. induction n as [|n IH]; intros bs Hle; [by destruct bs; simpl in *; try lia|].
  destruct bs as [|a [|b [|c bs]]]; cbn [b64encode]; [done|..]; cbv zeta;
    pose proof (byte_bound a); try pose proof (byte_bound b); try pose proof (byte_bound c).
  - do 2 rewrite strict_char by lia_div.
    simpl. f_equal. f_equal. apply of_Z_eq. lia_div.
  - do 3 rewrite strict_char by lia_div.
    simpl. f_equal. f_equal; [apply of_Z_eq; lia_div|].
    f_equal. apply of_Z_eq. lia_div.
  - do 4 rewrite strict_char by lia_div. rewrite IH by (simpl in Hle; lia).
    simpl. f_equal. f_equal; [apply of_Z_eq; lia_div|].
    f_equal; [apply of_Z_eq; lia_div|]. f_equal. apply of_Z_eq. lia_div.
Qed.

Lemma b64decode_strict_b64encode bs : b64decode_strict (b64encode bs) = Some bs.
Proof.
  unfold b64decode_strict. destruct (b64encode bs) as [|c s] eqn:E.
  - pose proof (a2b_b64encode bs) as Ha. by rewrite E in Ha.
  - rewrite <- E, b64encode_ascii, strict_b64encode. rewrite bool_decide_false; [done|]. intros ->.
    destruct bs as [|a [|b [|x bs]]]; cbn [b64encode] in E; cbv zeta in E; [done|..];
      injection E as E _; pose proof (byte_bound a);
      by destruct (b64_char_spec (byte.unsigned a / 4)) as (_ & Hp & _); [lia_div|].
Qed.

(** ** The registry *)

Section Discovery.
Context `{Sha256Laws, JsonTextLaws}.

(** What the loops of a device do to its registry. *)
Inductive devent : Type :=
| DPacket (now : spec_float) (source_ip : string) (data : bytes)
| DPrune (now : spec_float).

Definition dstep (d : Discovery) (e : devent) (r : registry) : registry * list effect :=
  match e with
  | DPacket now ip data => _handle_packet now d ip data r
  | DPrune now => let '(r', ns) := prune_stale now r in (r', map Notified ns)
  end.

Fixpoint drun (d : Discovery) (l : list devent) (r : registry) : registry * list effect :=
  match l with
  | [] => (r, [])
  | e :: l' => let '(r1, o1) := dstep d e r in let '(r2, o2) := drun d l' r1 in (r2, o1 ++ o2)
  end.

(** A peer as a registry may hold it. *)
Record peer_ok (d : Discovery) (id : string) (p : Peer) : Prop := {
  ok_id : peer_id p = id;
  ok_key : compute_device_id (public_key p) = id;
  ok_key_length : length (public_key p) = 32%nat;
  ok_other : id <> d_peer_id d;
  ok_port : port_in_range (tcp_port p) = true
}.

Definition registry_ok (d : Discovery) (r : registry) : Prop :=
  Forall (fun kp => peer_ok d (fst kp) (snd kp)) r.

(** A packet that asks for no answer gets none. *)
Lemma handle_announce_silent now d ip d' r a j :
  SentTo a j ∉ snd (handle_announce now d ip (_build_payload false d') r).
Proof.
  unfold handle_announce, _build_payload at 1. set (m := [_; _; _; _; _; _; _; _]).
  change (jget "reply" m) with (Some (JBool false)). cbn [from_option truthy id]. cbv iota.
  repeat match goal with
  | |- context [if ?b then _ else _] => destruct b
  | |- context [match ?x with Some _ => _ | None => _ end] => destruct x
  end; cbn [snd]; try (by intros ?%elem_of_nil); try (by intros ?%list_elem_of_singleton);
    destruct (upsert _ _ _ _ _ _ _ _) as [r' ns]; cbn [snd]; rewrite app_nil_r;
    by intros (n & ? & _)%list_elem_of_fmap.
Qed.

(** A packet that is accepted: the peer it names, and the answer it gets. *)
Lemma handle_announce_cases now d ip v r :
  let '(r', o) := handle_announce now d ip v r in
  (r' = r /\ forall a j, SentTo a j ∉ o) \/
  exists id nm port pk mdl ns reply,
    upsert now id nm ip port pk mdl r = (r', ns) /\
    compute_device_id pk = id /\ length pk = 32%nat /\ id <> d_peer_id d /\ port_in_range port = true /\
    o = map Notified ns ++ (if reply : bool then [SentTo ip (_build_payload false d)] else []).
Proof.
  unfold handle_announce.
  assert (forall l : list effect, (forall a j, SentTo a j ∉ l) -> (r = r /\ forall a j, SentTo a j ∉ l) \/
    exists id nm port pk mdl ns reply,
      upsert now id nm ip port pk mdl r = (r, ns) /\
      compute_device_id pk = id /\ length pk = 32%nat /\ id <> d_peer_id d /\ port_in_range port = true /\
      l = map Notified ns ++ (if reply : bool then [SentTo ip (_build_payload false d)] else [])) as Hno
    by auto.
  destruct v as [| | | | | |m]; try (apply Hno; by intros ? ? ?%elem_of_nil).
  destruct (str_is "announce" (jget "type" m)); cbn [negb]; [|apply Hno; by intros ? ? ?%elem_of_nil].
  destruct (jget "version" m) as [ver|]; [|apply Hno; by intros ? ? ?%elem_of_nil].
  destruct (equals_int PROTOCOL_VERSION ver); cbn [negb]; [|apply Hno; by intros ? ? ?%elem_of_nil].
  destruct (nonempty_text (jget "device_id" m)) as [id|]; [|apply Hno; by intros ? ? ?%elem_of_nil].
  destruct (nonempty_text (jget "public_key" m)) as [b|]; [|apply Hno; by intros ? ? ?%elem_of_nil].
  destruct (b64decode_strict (str_bytes b)) as [pk|]; [|apply Hno; by intros ? ? ?%elem_of_nil].
  destruct (Nat.eqb_spec (length pk) 32) as [Hl|]; cbn [negb]; [|apply Hno; by intros ? ? ?%elem_of_nil].
  destruct (bool_decide_reflect (compute_device_id pk = id)) as [Hid|]; cbn [negb];
    [|apply Hno; by intros ? ? ?%list_elem_of_singleton].
  destruct (bool_decide_reflect (id = d_peer_id d)) as [|Hne]; [apply Hno; by intros ? ? ?%elem_of_nil|].
  destruct (port_in_range (default (JInt 0) (jget "tcp_port" m))) eqn:Hp; cbn [negb];
    [|apply Hno; by intros ? ? ?%elem_of_nil].
  destruct (upsert _ _ _ _ _ _ _ _) as [r' ns] eqn:Eu. right.
  eexists id, _, _, pk, _, ns, _. eauto 10.
Qed.

Lemma upsert_ok now d id nm ip port pk mdl r :
  registry_ok d r -> compute_device_id pk = id -> length pk = 32%nat -> id <> d_peer_id d ->
  port_in_range port = true -> registry_ok d (fst (upsert now id nm ip port pk mdl r)).
Proof.
  intros Hr Hid Hl Hne Hp. unfold upsert.
  destruct (OrderedDict.get id r) as [e|] eqn:Ee; apply OrderedDict.Forall_set; try done.
  apply OrderedDict.elem_get in Ee. unfold registry_ok in Hr. rewrite Forall_forall in Hr.
  destruct (Hr _ Ee). simpl in *. rewrite bool_decide_false by (by intros ->). by split.
Qed.

Lemma dstep_ok d e r : registry_ok d r -> registry_ok d (fst (dstep d e r)).
Proof.
  intros Hr. destruct e as [now ip data|now]; cbn [dstep].
  - unfold _handle_packet. destruct (json_loads data) as [v|]; [|done].
    pose proof (handle_announce_cases now d ip v r) as Hc.
    destruct (handle_announce now d ip v r) as [r' o].
    destruct Hc as [[-> _]|(id & nm & port & pk & mdl & ns & b & Eu & Hid & Hl & Hne & Hp & _)]; [done|].
    pose proof (upsert_ok now d id nm ip port pk mdl r Hr Hid Hl Hne Hp) as Hu. by rewrite Eu in Hu.
  - cbn. apply Forall_forall. intros kp Hin. unfold registry_ok in Hr. rewrite Forall_forall in Hr. apply Hr.
    apply list_elem_of_In in Hin. apply filter_In in Hin as [Hin _]. by apply list_elem_of_In.
Qed.

(** A discovered peer cannot lie about its identifier.  Whatever packets reach a device and
    however its registry is pruned in between, every peer in the registry is filed under the
    hash of the 32-byte public key it announced, with a port that can be dialled, and none is the
    device itself. *)
Theorem registry_consistent d l : registry_ok d (fst (drun d l [])).
Proof.
  assert (forall r, registry_ok d r -> registry_ok d (fst (drun d l r))) as Hg; [|apply Hg; constructor].
  induction l as [|e l IH]; intros r Hr; [done|]. cbn [drun]. pose proof (dstep_ok d e r Hr) as Hs.
  destruct (dstep d e r) as [r1 o1]. specialize (IH r1 Hs). by destruct (drun d l r1).
Qed.

(** ** Announcements *)

Lemma payload_wf reply d : jwf (_build_payload reply d) = true.
Proof. unfold _build_payload. cbn [jwf map fst snd]. apply andb_true_iff. split; [by vm_compute|done]. Qed.

Lemma compute_device_id_nonempty pk : compute_device_id pk <> EmptyString.
Proof.
  unfold compute_device_id. pose proof (length_hex_text (sha256 pk)) as Hl. rewrite sha256_length in Hl.
  intros E. apply (f_equal str_bytes) in E. rewrite String.list_byte_of_string_of_list_byte in E.
  by rewrite E in Hl.
Qed.

(** A device whose announcements are its own. *)
Record device_ok (d : Discovery) : Prop := {
  dev_id : d_peer_id d = compute_device_id (d_public_key d);
  dev_key : length (d_public_key d) = 32%nat;
  dev_port : 0 < d_tcp_port d < 65536
}.

(** How an announcement of a device is handled by another one. *)
Lemma handle_own_payload now d d' ip reply r :
  device_ok d' -> d_peer_id d <> d_peer_id d' ->
  let '(r', ns) := upsert now (d_peer_id d') (announced_name [("name", JStr (d_name d'))]%string ip) ip
                     (JInt (d_tcp_port d')) (d_public_key d') (truncated (d_model d')) r in
  _handle_packet now d ip (json_dumps (_build_payload reply d')) r
    = (r', map Notified ns ++ if reply : bool then [SentTo ip (_build_payload false d)] else []).
Proof.
  intros [Hid Hk Hp] Hne. destruct (upsert _ _ _ _ _ _ _ _) as [r' ns] eqn:Eu.
  unfold _handle_packet. rewrite json_loads_dumps by apply payload_wf.
  unfold handle_announce, _build_payload at 1.
  set (m := [_; _; _; _; _; _; _; _]).
  change (str_is _ (jget "type" m)) with true. change (jget "version" m) with (Some (JInt PROTOCOL_VERSION)).
  change (jget "device_id" m) with (Some (JStr (d_peer_id d'))).
  change (jget "public_key" m) with (Some (JStr (bytes_str (b64encode (d_public_key d'))))).
  change (jget "tcp_port" m) with (Some (JInt (d_tcp_port d'))).
  change (jget "reply" m) with (Some (JBool reply)).
  change (announced_name m ip) with (announced_name [("name", JStr (d_name d'))]%string ip).
  change (announced_model m) with (truncated (d_model d')). cbn [negb equals_int Z.eqb PROTOCOL_VERSION from_option id].
  assert (nonempty_text (Some (JStr (d_peer_id d'))) = Some (d_peer_id d')) as ->.
  { unfold nonempty_text, text_is_empty. rewrite bool_decide_false; [done|].
    rewrite Hid. apply compute_device_id_nonempty. }
  assert (nonempty_text (Some (JStr (bytes_str (b64encode (d_public_key d')))))
          = Some (bytes_str (b64encode (d_public_key d')))) as ->.
  { unfold nonempty_text, text_is_empty. rewrite bool_decide_false; [done|].
    destruct (d_public_key d') as [|x [|y [|z l]]]; [done|..]; by cbn. }
  rewrite String.list_byte_of_string_of_list_byte, b64decode_strict_b64encode, Hk. cbn [Nat.eqb negb].
  rewrite (bool_decide_true (compute_device_id (d_public_key d') = d_peer_id d')) by done. cbn [negb].
  rewrite bool_decide_false by congruence. cbv iota.
  assert (port_in_range (JInt (d_tcp_port d')) = true) as ->.
  { unfold port_in_range. cbn [as_int]. apply andb_true_iff. rewrite !Z.ltb_lt. lia. }
  cbn [negb truthy]. change (mk_discovery _ _ _ _ _) with d'. by rewrite Eu.
Qed.

(** The entry an announcement leaves. *)
Lemma announced_entry now d d' ip reply r :
  device_ok d' -> d_peer_id d <> d_peer_id d' ->
  exists p, get (d_peer_id d') (fst (_handle_packet now d ip (json_dumps (_build_payload reply d')) r)) = Some p /\
    PeerRegistry.ip p = ip /\ tcp_port p = JInt (d_tcp_port d') /\ public_key p = d_public_key d' /\
    last_seen p = now.
Proof.
  intros Hd Hne. pose proof (handle_own_payload now d d' ip reply r Hd Hne) as Hh.
  destruct (upsert _ _ _ _ _ _ _ _) as [r' ns] eqn:Eu. rewrite Hh. clear Hh. cbn [fst].
  unfold upsert in Eu. assert (d_public_key d' <> []) as Hk.
  { intros E. pose proof (dev_key d' Hd) as Hl. by rewrite E in Hl. }
  destruct (OrderedDict.get (d_peer_id d') r); injection Eu as <- _; unfold get;
    rewrite OrderedDict.get_set, decide_True by done; eexists; split; [done| |done|].
  - cbn. by rewrite bool_decide_false by done.
  - done.
Qed.

(** Devices that announce themselves find each other.  A packet that another device builds
    for itself, by broadcast or over mDNS, puts that device into the registry: under its
    identifier, at the address the packet came from, with its key and port. *)
Theorem announced_peer_registered now d d' ip reply r :
  device_ok d' -> d_peer_id d <> d_peer_id d' ->
  exists p, get (d_peer_id d') (fst (_handle_packet now d ip (json_dumps (_build_payload reply d')) r)) = Some p /\
    PeerRegistry.ip p = ip /\ tcp_port p = JInt (d_tcp_port d') /\ public_key p = d_public_key d' /\
    last_seen p = now.
Proof. apply announced_entry. Qed.

(** An exchange of announcements ends.  A packet is answered with at most one datagram, to
    the address it came from, and the answer is itself never answered, whoever receives it. *)
Theorem announcement_answered_once now d ip data r :
  (forall a j, SentTo a j ∈ snd (_handle_packet now d ip data r) -> a = ip /\ j = _build_payload false d) /\
  (length (List.filter (fun e => match e with SentTo _ _ => true | _ => false end)
     (snd (_handle_packet now d ip data r))) <= 1)%nat /\
  forall now' d' ip' r' a j,
    SentTo a j ∉ snd (_handle_packet now' d' ip' (json_dumps (_build_payload false d)) r').
Proof.
  unfold _handle_packet. split; [|split].
  - intros a j. destruct (json_loads data) as [v|]; [|by intros ?%elem_of_nil].
    pose proof (handle_announce_cases now d ip v r) as Hc. destruct (handle_announce now d ip v r) as [r1 o].
    destruct Hc as [[_ Hn]|(? & ? & ? & ? & ? & ns & b & _ & _ & _ & _ & _ & ->)]; [by intros ?%Hn|].
    cbn [snd]. rewrite elem_of_app. intros [(n & ? & _)%list_elem_of_fmap|Hs]; [done|].
    destruct b; [|by apply elem_of_nil in Hs]. by apply list_elem_of_singleton in Hs as [= -> ->].
  - destruct (json_loads data) as [v|]; [|simpl; lia].
    pose proof (handle_announce_cases now d ip v r) as Hc. destruct (handle_announce now d ip v r) as [r1 o].
    cbn [snd]. destruct Hc as [[_ Hn]|(? & ? & ? & ? & ? & ns & b & _ & _ & _ & _ & _ & ->)].
    + assert (List.filter (fun e => match e with SentTo _ _ => true | _ => false end) o = []) as ->; [|simpl; lia].
      clear -Hn. induction o as [|e o IH]; [done|]. cbn [List.filter].
      destruct e; [apply IH|apply IH|destruct (Hn address payload); by left]; intros a j Hin; apply (Hn a j); by right.
    + rewrite List.filter_app, length_app.
      assert (List.filter (fun e => match e with SentTo _ _ => true | _ => false end) (map Notified ns) = []) as ->
        by (clear; by induction ns).
      destruct b; simpl; lia.
  - intros now' d' ip' r' a j. rewrite json_loads_dumps by apply payload_wf.
    pose proof (handle_announce_silent now' d' ip' d r') as Hs. apply Hs.
Qed.

(** The two ways to announce agree.  For a device whose name and model fit the limit, the
    packet that a receiver makes of its mDNS record is the one it would have broadcast, without
    the request for an answer. *)
Theorem mdns_same_packet `{UnicodeDigitsLaws} d ip :
  (length (str_chars (d_name d)) <= 64)%nat -> (length (str_chars (d_model d)) <= 64)%nat ->
  0 <= d_tcp_port d < 65536 ->
  _mdns_txt_to_packet (_build_mdns_txt d) ip = _build_payload false d.
Proof.
  intros Hn Hm Hp.
  assert (forall s, (length (str_chars s) <= 64)%nat -> truncated s = s) as Ht.
  { intros s Hs. unfold truncated, str_prefix. rewrite take_ge by done.
    rewrite unchars_chars. apply String.string_of_list_byte_of_string. }
  unfold _mdns_txt_to_packet, txt_get. set (txt := _build_mdns_txt d).
  change (OrderedDict.get "version" txt) with (Some (pretty PROTOCOL_VERSION)).
  change (OrderedDict.get "device_id" txt) with (Some (d_peer_id d)).
  change (OrderedDict.get "public_key" txt) with (Some (bytes_str (b64encode (d_public_key d)))).
  change (OrderedDict.get "name" txt) with (Some (truncated (d_name d))).
  change (OrderedDict.get "tcp_port" txt) with (Some (pretty (d_tcp_port d))).
  change (OrderedDict.get "model" txt) with (Some (truncated (d_model d))). cbn [from_option id].
  rewrite !Ht by done. unfold _safe_int. rewrite (py_int_pretty 1), (py_int_pretty 5); [done|..].
  - unfold MAX_STR_DIGITS. lia.
  - lia.
  - unfold MAX_STR_DIGITS. lia.
  - done.
Qed.

End Discovery.
