(* ===== verification/VaultFiles.v ===== *)
(** * Secure files and what may be done with them

    Models [core/vault/secure_file.py] (module [SecureFile]), [core/vault/executable_detection.py]
    (module [Detection]), [core/vault/file_actions.py] (module [FileActions]) and the commands
    /open, /export, /secure and /delete of [app/ui/app.py] (module [Commands]), on the disk of
    the vault session.  Directories and permission bits are not modelled: a path is a
    string, and making a directory changes nothing.

    Random bytes, temporary names and clock readings are arguments; [windows] is the
    platform, as in [Files]. *)

From Corelib Require Import SpecFloat.
From S2P Require Import Prelude Text Json Crypto Canonical Security Messages Trust Group GroupStore.
From S2P Require Import GroupPolicy Files Disk VaultKeys VaultSession Partial.
Import VaultCrypto Session.
Local Open Scope peerc_scope.
Local Open Scope Z_scope.

(** [os.path.join] of two components, and [os.path.basename]. *)
Definition path_join (a b : string) : string :=
  if String.prefix "/" b then b
  else if text_is_empty a || ends_with "/" a then a +:+ b
  else a +:+ "/" +:+ b.

Definition basename (p : string) : string :=
  chars_str (rev (takewhile (fun g => negb (is_ch "/"%byte g)) (rev (str_chars p)))).

(** ** Files encrypted one by one *)
Module SecureFile.

Definition SECURE_FILE_EXTENSION : string := ".peercfile".
Definition METADATA_EXTENSION : string := ".meta".
Definition FILE_KEY_LEN : nat := 32.

(** The objects [json.load] gives are kept as they are where nothing checks them. *)
Record SecureFileMetadata := mk_file_meta {
  secure_id : json;
  original_filename : json;
  size : json;
  salt : bytes;
  nonce : bytes;
  encrypted_at : json;
  checksum : json
}.

Inductive file_error : Type :=
| FileNotFoundError
| SecureFileError
| SecureFileCorruptError
| MetaTypeError                     (** [TypeError] on metadata of another shape *)
| NotFollowed.                      (** times of another type than encrypting writes *)

Abbreviation fop := (stm disk file_error).

(** What encrypting draws. *)
Record file_draws := mk_file_draws {
  f_secure_id : string;
  f_salt : bytes;
  f_nonce : bytes;
  f_now : spec_float
}.

Definition secure_path_of (dir id : string) : string :=
  path_join dir (id +:+ SECURE_FILE_EXTENSION).
Definition meta_path_of (dir id : string) : string := path_join dir (id +:+ METADATA_EXTENSION).

(** [x or y] on texts. *)
Definition name_or (name : option string) (other : string) : string :=
  match or_text name None with Some n => n | None => other end.

(** [sanitize_filename(name, fallback="file")]. *)
Definition plain_name (windows : bool) (name : json) : string :=
  default "file"%string
    (Filenames.sanitize_filename name (Some "file"%string) windows Filenames.MAX_FILENAME_BYTES).

Definition opt_json (s : option string) : json := match s with Some s => JStr s | None => JNull end.

Section Files.
Context `{AesGcm, Hkdf, JsonText, JsonIndent}.

Definition _derive_file_key (dek salt : bytes) : bytes :=
  hkdf_derive dek salt (lit "peerc-secure-file-v1") FILE_KEY_LEN.

Definition metadata_record (m : SecureFileMetadata) : json :=
  JObj [("secure_id", secure_id m); ("original_filename", original_filename m);
        ("size", size m); ("salt", JStr (bytes_str (hex_text (salt m))));
        ("nonce", JStr (bytes_str (hex_text (nonce m)))); ("encrypted_at", encrypted_at m);
        ("checksum", checksum m)]%string.

(** [_save_metadata] for the identifier the file was given. *)
Definition _save_metadata (dir id : string) (m : SecureFileMetadata) : list disk_op :=
  let meta_path := meta_path_of dir id in
  replace_file (meta_path +:+ ".tmp") meta_path (json_dumps_indent (metadata_record m)).

Definition new_metadata (r : file_draws) (windows : bool) (name : string) (checksum : option string)
    (plaintext : bytes) : SecureFileMetadata :=
  mk_file_meta (JStr (f_secure_id r)) (JStr (plain_name windows (JStr name)))
    (JInt (zlen plaintext)) (f_salt r) (f_nonce r) (JFloat (f_now r)) (opt_json checksum).

(** The calls of [encrypt_file] once the ciphertext is there. *)
Definition encrypt_ops (r : file_draws) (dir : string) (c : bytes) (m : SecureFileMetadata)
    : list disk_op :=
  write_file (secure_path_of dir (f_secure_id r)) c ++ _save_metadata dir (f_secure_id r) m.

Definition encrypt_file (r : file_draws) (windows : bool) (plaintext_path dir : string)
    (dek : bytes) (original_filename checksum : option string) : fop SecureFileMetadata := fun d =>
  match d !! plaintext_path with
  | None => (d, Err FileNotFoundError)
  | Some plaintext =>
      match gcm_encrypt (_derive_file_key dek (f_salt r)) (f_nonce r) plaintext with
      | None => (d, Err SecureFileError)
      | Some c =>
          let m := new_metadata r windows (name_or original_filename (basename plaintext_path))
                     checksum plaintext in
          (run_ops (encrypt_ops r dir c m) d, Ok m)
      end
  end.

(** [bytes.fromhex(x)]. *)
Definition hex_field (x : json) : result file_error bytes :=
  match x with
  | JStr s => match fromhex (str_bytes s) with Some b => Ok b | None => Err SecureFileError end
  | _ => Err MetaTypeError
  end.

Definition key_of (k : string) (o : dict) : result file_error json :=
  match jget k o with Some v => Ok v | None => Err SecureFileError end.

Definition metadata_of (j : json) : result file_error SecureFileMetadata :=
  match j with
  | JObj o =>
      let? id := key_of "secure_id" o in
      let? name := key_of "original_filename" o in
      let? size := key_of "size" o in
      let? salt_text := key_of "salt" o in
      let? salt := hex_field salt_text in
      let? nonce_text := key_of "nonce" o in
      let? nonce := hex_field nonce_text in
      let? t := key_of "encrypted_at" o in
      Ok (mk_file_meta id name size salt nonce t (default JNull (jget "checksum" o)))
  | _ => Err MetaTypeError
  end.

Definition load_metadata (dir id : string) (d : disk) : result file_error SecureFileMetadata :=
  match d !! meta_path_of dir id with
  | None => Err FileNotFoundError
  | Some text =>
      match json_loads text with
      | None => Err SecureFileError
      | Some j => metadata_of j
      end
  end.

Definition decrypt_file (id dir : string) (dek : bytes) (output_path : string)
    : fop SecureFileMetadata := fun d =>
  match load_metadata dir id d with
  | Err e => (d, Err e)
  | Ok m =>
      match d !! secure_path_of dir id with
      | None => (d, Err FileNotFoundError)
      | Some c =>
          match gcm_open (_derive_file_key dek (salt m)) (nonce m) c with
          | Err _ => (d, Err SecureFileCorruptError)
          | Ok plaintext =>
              if equals_int (zlen plaintext) (size m)
              then (run_ops (write_file output_path plaintext) d, Ok m)
              else (d, Err SecureFileCorruptError)
          end
      end
  end.

Definition delete_secure_file (id dir : string) : fop unit := fun d =>
  match d !! secure_path_of dir id with
  | None => (d, Err FileNotFoundError)
  | Some _ =>
      let d := apply_op (Unlink (secure_path_of dir id)) d in
      (match d !! meta_path_of dir id with
       | Some _ => apply_op (Unlink (meta_path_of dir id)) d
       | None => d
       end, Ok ())
  end.

(** [os.listdir]: the names of the files right below the directory. *)
Definition name_in (dir p : string) : option string :=
  let prefix := path_join dir "" in
  if String.prefix prefix p then
    let name := String.substring (String.length prefix) (String.length p) p in
    if text_is_empty name || has_byte "/"%byte name then None else Some name
  else None.

Definition listdir (dir : string) (d : disk) : list string :=
  omap (name_in dir) (map fst (map_to_list d)).

Definition without_suffix (suffix name : string) : string :=
  String.substring 0 (String.length name - String.length suffix) name.

(** The loop of [list_secure_files], whose [except] does not cover a [TypeError]. *)
Fixpoint load_all (dir : string) (names : list string) (d : disk)
    : result file_error (list SecureFileMetadata) :=
  match names with
  | [] => Ok []
  | name :: names' =>
      if ends_with METADATA_EXTENSION name then
        match load_metadata dir (without_suffix METADATA_EXTENSION name) d with
        | Ok m => let? ms := load_all dir names' d in Ok (m :: ms)
        | Err (FileNotFoundError | SecureFileError | SecureFileCorruptError) => load_all dir names' d
        | Err e => Err e
        end
      else load_all dir names' d
  end.

Definition time_of (m : SecureFileMetadata) : option spec_float :=
  match encrypted_at m with JFloat S754_nan => None | JFloat t => Some t | _ => None end.

(** [sorted(..., reverse=True)]: later times first, equal ones in their order.  One file is
    not compared with anything. *)
Definition newest_first (ms : list SecureFileMetadata)
    : result file_error (list SecureFileMetadata) :=
  if (length ms <=? 1)%nat then Ok ms
  else match mapM (fun m => t ← time_of m; Some (t, m)) ms with
       | None => Err NotFollowed
       | Some l => Ok (map snd (sort_by (fun a b => SFltb (fst b) (fst a)) l))
       end.

Definition list_secure_files (dir : string) (d : disk)
    : result file_error (list SecureFileMetadata) :=
  let? ms := load_all dir (listdir dir d) d in newest_first ms.

End Files.
End SecureFile.

(** ** Executable content *)
Module Detection.

Definition magic (l : list Z) : bytes := map byte.of_Z l.

Definition MAGIC_PE : bytes := lit "MZ".
Definition MAGIC_ELF : bytes := byte.of_Z 0x7f :: lit "ELF".
Definition MAGIC_MACH_O_32 : bytes := magic [0xfe; 0xed; 0xfa; 0xce].
Definition MAGIC_MACH_O_64 : bytes := magic [0xfe; 0xed; 0xfa; 0xcf].
Definition MAGIC_MACH_O_32_REV : bytes := magic [0xce; 0xfa; 0xed; 0xfe].
Definition MAGIC_MACH_O_64_REV : bytes := magic [0xcf; 0xfa; 0xed; 0xfe].
Definition MAGIC_MACH_O_FAT : bytes := magic [0xca; 0xfe; 0xba; 0xbe].
Definition MAGIC_MACH_O_FAT_REV : bytes := magic [0xbe; 0xba; 0xfe; 0xca].
Definition MAGIC_SHEBANG : bytes := lit "#!".

Definition EXECUTABLE_EXTENSIONS : list string :=
  [".exe"; ".dll"; ".com"; ".bat"; ".cmd"; ".msi"; ".scr"; ".vbs"; ".js";
   ".wsf"; ".ps1"; ".psm1";
   ".sh"; ".bash"; ".zsh"; ".fish"; ".ksh"; ".csh";
   ".py"; ".pyw"; ".pyc"; ".pyo";
   ".rb"; ".pl"; ".php"; ".awk"; ".sed";
   ".app"; ".command";
   ".so"; ".dylib"; ".run"]%string.

Definition MAX_HEADER_BYTES : nat := 4096.

(** [header.startswith(p)]. *)
Definition startswith (p header : bytes) : bool := bool_decide (take (length p) header = p).

Definition printable_byte (c : byte) : bool :=
  let n := byte.unsigned c in
  ((0x20 <=? n) && (n <=? 0x7e)) || (n =? 0x09) || (n =? 0x0a) || (n =? 0x0d).

(** The double nearest to 0.95. *)
Definition ninety_five : spec_float := S754_finite false 8556839292003942 (-53).

Definition float_of (n : nat) : spec_float := binary_normalize 53 1024 (Z.of_nat n) 0 false.

(** [printable / len(data) >= 0.95]; the quotient of two small integers is rounded once. *)
Definition ratio_ok (printable total : nat) : bool :=
  SFleb ninety_five (SFdiv 53 1024 (float_of printable) (float_of total)).

Definition _is_likely_text (data : bytes) : bool :=
  match data with
  | [] => false
  | _ => ratio_ok (length (List.filter printable_byte data)) (length data)
  end.

Definition _is_known_safe_format (header : bytes) : bool :=
  startswith (lit "%PDF") header
  || startswith (byte.of_Z 0x89 :: lit "PNG" ++ magic [13; 10; 0x1a; 10]) header
  || startswith (magic [0xff; 0xd8; 0xff]) header
  || (startswith (lit "GIF87a") header || startswith (lit "GIF89a") header)
  || (startswith (lit "PK" ++ magic [3; 4]) header || startswith (lit "PK" ++ magic [5; 6]) header)
  || startswith (magic [0xef; 0xbb; 0xbf]) header
  || (negb (length header =? 0)%nat && _is_likely_text (take 512 header)).

(** The signatures, in the order they are tried. *)
Definition signatures : list bytes :=
  [MAGIC_PE; MAGIC_ELF; MAGIC_MACH_O_32; MAGIC_MACH_O_64; MAGIC_MACH_O_32_REV;
   MAGIC_MACH_O_64_REV; MAGIC_MACH_O_FAT; MAGIC_MACH_O_FAT_REV; MAGIC_SHEBANG].

Definition _check_magic_bytes (path : string) (d : disk) : option bool :=
  match d !! path with
  | None => None
  | Some content =>
      let header := take MAX_HEADER_BYTES content in
      if (length header =? 0)%nat then Some false
      else if existsb (fun p => startswith p header) signatures then Some true
      else if _is_known_safe_format header then Some false
      else None
  end.

Section Extension.
Context `{LowerCase}.

Definition extension_of (path : string) : string := chars_str (snd (splitext (str_chars path))).

Definition _check_extension (path : string) : bool :=
  bool_decide (str_lower (extension_of path) ∈ EXECUTABLE_EXTENSIONS).

Definition is_executable (path : string) (strict : bool) (d : disk) : bool :=
  match d !! path with
  | None => false
  | Some _ =>
      let content_executable := _check_magic_bytes path d in
      let extension_suspicious := _check_extension path in
      match content_executable with
      | Some true => true
      | None => if strict then true else extension_suspicious
      | Some false => extension_suspicious
      end
  end.

(** Whether [check_executable_for_open] raises. *)
Definition check_executable_for_open (path : string) (d : disk) : bool := is_executable path true d.

Definition describe_file_type (path : string) (d : disk) : string :=
  match d !! path with
  | None => "Unknown (cannot read file)"
  | Some content =>
      let header := take MAX_HEADER_BYTES content in
      let has p := startswith p header in
      if has MAGIC_PE then "Windows PE executable"
      else if has MAGIC_ELF then "Linux ELF executable"
      else if has MAGIC_SHEBANG then "Script with shebang"
      else if has MAGIC_MACH_O_32 || has MAGIC_MACH_O_64 || has MAGIC_MACH_O_32_REV
              || has MAGIC_MACH_O_64_REV then "macOS Mach-O executable"
      else if has MAGIC_MACH_O_FAT || has MAGIC_MACH_O_FAT_REV then "macOS universal binary"
      else if has (lit "%PDF") then "PDF document"
      else if has (byte.of_Z 0x89 :: lit "PNG") then "PNG image"
      else if has (magic [0xff; 0xd8; 0xff]) then "JPEG image"
      else if has (lit "GIF87a") || has (lit "GIF89a") then "GIF image"
      else if _check_extension path
           then "Suspicious file extension (" +:+ extension_of path +:+ ")"
      else "Unknown file type"
  end%string.

End Extension.
End Detection.

(** ** The actions *)
Module FileActions.
Import SecureFile Detection.

Inductive action_error : Type :=
| ActionLocked                                (** [SessionLockedError] *)
| AuthorizationError
| ExecutableBlockedError (detected_type : string)
| FileExistsError
| ActionFile (e : file_error)
| ActionSession (e : session_error)
| ActionPolicy (e : policy_error).

(** The session and the store of groups. *)
Abbreviation aop := (stm (session * gdb) action_error).

Definition on_session {A} (m : sop A) : aop A := fun w =>
  match m (fst w) with
  | (s, Ok a) => ((s, snd w), Ok a)
  | (s, Err SessionLockedError) => ((s, snd w), Err ActionLocked)
  | (s, Err e) => ((s, snd w), Err (ActionSession e))
  end.

Definition on_disk {A} (m : fop A) : aop A := fun w =>
  match m (the_disk (fst w)) with
  | (d, Ok a) => ((set_disk d (fst w), snd w), Ok a)
  | (d, Err e) => ((set_disk d (fst w), snd w), Err (ActionFile e))
  end.

Definition ops (l : list disk_op) : aop unit := fun w =>
  ((set_disk (run_ops l (the_disk (fst w))) (fst w), snd w), Ok ()).

Definition of_disk {A} (f : disk -> A) : aop A := fun w => (w, Ok (f (the_disk (fst w)))).

Definition read_metadata (f : disk -> result file_error SecureFileMetadata) : aop SecureFileMetadata :=
  fun w => (w, match f (the_disk (fst w)) with Ok m => Ok m | Err e => Err (ActionFile e) end).

Definition unlocked : aop unit := fun w =>
  (w, if is_unlocked (fst w) then Ok () else Err ActionLocked).

Definition _secure_delete_temp (path : string) (noise : bytes) : aop unit :=
  ops (secure_delete path noise).

Section Actions.
Context `{AesGcm, Hkdf, Scrypt, JsonText, JsonIndent, LowerCase}.
Context `{Ed25519, Sha256, CompactJson}.

Definition authorized (action : string) : aop unit :=
  needs ← gets (fun w => requires_reauth action (fst w));
  raise_if needs AuthorizationError.

(** [temp_dir] is the directory given or the one [mkdtemp] made; the checker says whether
    it raises. *)
Definition open_secure_file (noise : bytes) (windows : bool) (id dir temp_dir : string)
    (executable_checker : option (string -> disk -> bool)) : aop (string * SecureFileMetadata) :=
  unlocked ;;
  authorized "open" ;;
  m ← read_metadata (load_metadata dir id);
  let temp_path := path_join temp_dir (plain_name windows (original_filename m)) in
  dek ← on_session dek_bytes;
  on_disk (decrypt_file id dir dek temp_path) ;;
  match executable_checker with
  | None => mret (temp_path, m)
  | Some checker =>
      blocked ← of_disk (checker temp_path);
      if (blocked : bool) then
        detected_type ← of_disk (describe_file_type temp_path);
        _secure_delete_temp temp_path noise ;;
        raise (ExecutableBlockedError detected_type)
      else mret (temp_path, m)
  end.

(** Gate 1: the policy of the groups, [None] without an enforcer. *)
Definition group_gate (enforcer : option bool) (t : string -> readings)
    (group_id device_id file_id : option string) (active_admin_keys : option (list string))
    : aop unit :=
  match enforcer with
  | None => mret ()
  | Some has_store => fun w =>
      match check_export has_store t group_id device_id file_id active_admin_keys (snd w) with
      | (g, Ok _) => ((fst w, g), Ok ())
      | (g, Err (ExportDeniedError _)) => ((fst w, g), Err AuthorizationError)
      | (g, Err e) => ((fst w, g), Err (ActionPolicy e))
      end
  end.

Definition export_secure_file (id dir destination_path : string) (k : Keyfile.VaultKeyfile)
    (critical_secret : option string) (enforcer : option bool) (t : string -> readings)
    (group_id device_id : option string) (active_admin_keys : option (list string))
    : aop SecureFileMetadata :=
  unlocked ;;
  group_gate enforcer t group_id device_id (Some id) active_admin_keys ;;
  ok ← on_session (authorize_export k critical_secret);
  raise_if (negb ok) AuthorizationError ;;
  taken ← of_disk (fun d => bool_decide (is_Some (d !! destination_path)));
  raise_if taken FileExistsError ;;
  dek ← on_session dek_bytes;
  on_disk (decrypt_file id dir dek destination_path).

Definition move_to_secure_storage (r : file_draws) (noise : bytes) (windows : bool)
    (plaintext_path dir : string) (checksum : option string) (delete_source : bool)
    : aop SecureFileMetadata :=
  unlocked ;;
  authorized "move_to_secure" ;;
  there ← of_disk (fun d => bool_decide (is_Some (d !! plaintext_path)));
  raise_if (negb there) (ActionFile FileNotFoundError) ;;
  dek ← on_session dek_bytes;
  m ← on_disk (encrypt_file r windows plaintext_path dir dek (Some (basename plaintext_path)) checksum);
  (if delete_source then ops (secure_delete plaintext_path noise) else mret ()) ;;
  mret m.

Definition delete_secure_file_action (id dir : string) : aop SecureFileMetadata :=
  unlocked ;;
  authorized "delete" ;;
  m ← read_metadata (load_metadata dir id);
  on_disk (delete_secure_file id dir) ;;
  mret m.

Definition handle_incoming_transfer (accept : bool) : aop bool :=
  unlocked ;;
  if negb accept then mret false
  else authorized "incoming_transfer" ;; mret true.

End Actions.
End FileActions.

(** ** The commands *)
Module Commands.
Import SecureFile Detection FileActions.

(** What a command shows when it does not raise. *)
Inductive shown : Type :=
| Usage
| VaultIsLocked
| NotFound
| Cancelled
| WrongPassphrase
| ExportNotAuthorized
| NoSuchFile
| Blocked (detected_type : string)
| Failed (e : action_error)                  (** [except Exception] *)
| FailedKeyfile
| Opened (path : string) (m : SecureFileMetadata)
| Exported (path : string) (m : SecureFileMetadata)
| Secured (m : SecureFileMetadata)
| Deleted (m : SecureFileMetadata).

(** What a command lets escape. *)
Inductive escaped_error : Type :=
| EscapedKeyfile (e : Keyfile.VaultError)
| EscapedSession (e : action_error)
| EscapedListing (e : file_error)
| EscapedAttribute                           (** [AttributeError] of an identifier that is no text *)
| LoopLimit.                                 (** not reached: see [free_destination_found] *)

Abbreviation cop := (stm (session * gdb) escaped_error).

(** Where the program keeps its files. *)
Record config := mk_config {
  keyfile_path : string;
  secure_storage_dir : string;
  downloads_dir : string;
  is_windows : bool;
  peer_id : string;
  policy_enforcer : option bool              (** whether there is one, and whether it has a store *)
}.

(** [next((f for f in files if f.secure_id.startswith(file_id)), None)]. *)
Fixpoint find_file (file_id : string) (files : list SecureFileMetadata)
    : result escaped_error (option (string * SecureFileMetadata)) :=
  match files with
  | [] => Ok None
  | f :: files' =>
      match secure_id f with
      | JStr id => if String.prefix file_id id then Ok (Some (id, f)) else find_file file_id files'
      | _ => Err EscapedAttribute
      end
  end.

Section Commands.
Context `{AesGcm, Hkdf, Scrypt, JsonText, JsonIndent, LowerCase}.
Context `{Ed25519, Sha256, CompactJson}.
Context (cfg : config).

Definition load_keyfile : cop Keyfile.VaultKeyfile := fun w =>
  (w, match snd (Keyfile.load_vault_keyfile (keyfile_path cfg) (the_disk (fst w))) with
      | Ok k => Ok k
      | Err e => Err (EscapedKeyfile e)
      end).

(** An action outside the [try]. *)
Definition bare {A} (m : aop A) : cop A := fun w =>
  match m w with (w', Ok a) => (w', Ok a) | (w', Err e) => (w', Err (EscapedSession e)) end.

(** An action under [except Exception], and what a success shows. *)
Definition tried {A} (m : aop A) (k : A -> shown) : cop shown := fun w =>
  match m w with
  | (w', Ok a) => (w', Ok (k a))
  | (w', Err (ExecutableBlockedError t)) => (w', Ok (Blocked t))
  | (w', Err e) => (w', Ok (Failed e))
  end.

Definition lookup_file (file_id : string) : cop (option (string * SecureFileMetadata)) := fun w =>
  (w, match list_secure_files (secure_storage_dir cfg) (the_disk (fst w)) with
      | Err e => Err (EscapedListing e)
      | Ok files => find_file file_id files
      end).

(** The question before a file action.  The dialog answers with its mode and the text
    typed; the program takes the first of the two. *)
Definition reauthenticate (action : string) (answer : option (string * string)) : cop (option shown) :=
  needs ← gets (fun w => requires_reauth action (fst w));
  if (needs : bool) then
    match answer with
    | None => mret (Some Cancelled)
    | Some result =>
        let passphrase_provided := fst result in
        k ← load_keyfile;
        ok ← bare (on_session (verify_passphrase k passphrase_provided));
        mret (if (ok : bool) then None else Some WrongPassphrase)
    end
  else mret None.

(** The command behind its checks: an argument, an unlocked vault. *)
Definition guarded_command (arg : string) (body : cop shown) : cop shown :=
  if text_is_empty arg then mret Usage
  else
    u ← gets (fun w => is_unlocked (fst w));
    if negb u then mret VaultIsLocked else body.

Definition or_show (q : cop (option shown)) (body : cop shown) : cop shown :=
  stop ← q; match stop with Some x => mret x | None => body end.

Definition _handle_open_file (noise : bytes) (temp_dir : string) (answer : option (string * string))
    (file_id : string) : cop shown :=
  guarded_command file_id (or_show (reauthenticate "open" answer) (
    found ← lookup_file file_id;
    match found with
    | None => mret NoSuchFile
    | Some (id, _) =>
        tried (open_secure_file noise (is_windows cfg) id (secure_storage_dir cfg) temp_dir
                 (Some check_executable_for_open)) (fun pm => Opened (fst pm) (snd pm))
    end)).

(** [_prompt_for_export_authorization], called on an unlocked session. *)
Definition _prompt_for_export_authorization (answer : option string) : cop bool :=
  k ← load_keyfile;
  if negb (critical_action_key_configured k) then mret true
  else match answer with
       | None => mret false
       | Some secret => bare (on_session (authorize_export k (Some secret)))
       end.

(** The numbered names tried while the destination exists. *)
Fixpoint free_destination (fuel : nat) (base ext destination : string) (counter : nat) (d : disk)
    : option string :=
  match fuel with
  | O => None
  | S fuel' =>
      match d !! destination with
      | Some _ => free_destination fuel' base ext
                    (path_join (downloads_dir cfg) (candidate base ext counter)) (S counter) d
      | None => Some destination
      end
  end.

Definition export_destination (m : SecureFileMetadata) (d : disk) : option string :=
  let export_name := plain_name (is_windows cfg) (original_filename m) in
  let '(base, ext) := splitext (str_chars export_name) in
  free_destination (2 + base.size d) (chars_str base) (chars_str ext)
    (path_join (downloads_dir cfg) export_name) 1 d.

Definition _handle_export_file (t : string -> readings) (answer : option string)
    (file_id : string) : cop shown :=
  guarded_command file_id (
    authorized ← _prompt_for_export_authorization answer;
    if negb authorized then mret ExportNotAuthorized
    else
      found ← lookup_file file_id;
      match found with
      | None => mret NoSuchFile
      | Some (id, m) =>
          dest ← gets (fun w => export_destination m (the_disk (fst w)));
          match dest with
          | None => raise LoopLimit
          | Some destination =>
              k ← gets (fun w => snd (Keyfile.load_vault_keyfile (keyfile_path cfg) (the_disk (fst w))));
              match k with
              | Err _ => mret FailedKeyfile
              | Ok k =>
                  tried (export_secure_file id (secure_storage_dir cfg) destination k None
                           (policy_enforcer cfg) t None (Some (peer_id cfg)) None)
                    (Exported destination)
              end
          end
      end).

Definition _handle_move_to_secure (r : file_draws) (answer : option (string * string))
    (filepath : string) : cop shown :=
  if text_is_empty filepath then mret Usage
  else
    there ← gets (fun w => bool_decide (is_Some (the_disk (fst w) !! filepath)));
    if negb there then mret NotFound
    else
      guarded_command filepath (or_show (reauthenticate "move_to_secure" answer) (
        content ← gets (fun w => default [] (the_disk (fst w) !! filepath));
        tried (move_to_secure_storage r [] (is_windows cfg) filepath (secure_storage_dir cfg)
                 (Some (sha256_hex content)) false) Secured)).

Definition _handle_delete_file (answer : option (string * string)) (file_id : string) : cop shown :=
  guarded_command file_id (or_show (reauthenticate "delete" answer) (
    found ← lookup_file file_id;
    match found with
    | None => mret NoSuchFile
    | Some (id, _) =>
        tried (delete_secure_file_action id (secure_storage_dir cfg)) Deleted
    end)).

(** *** The critical-action key *)

Inductive key_shown : Type :=
| KeyLocked
| KeyStatus (configured : bool)
| KeyAlreadySet
| KeyNotSet
| KeyCancelled
| KeyDone
| KeyWeak
| KeyWrong
| KeyUsage.

(** A change of the key, then the keyfile saved: the database is committed first.  What
    the [except] clauses of the command catch is shown, the rest escapes. *)
Definition change_key (tmp : string) (catches_weak catches_wrong : bool) (m : sop Keyfile.VaultKeyfile)
    : cop key_shown := fun w =>
  match on_session m w with
  | (w', Ok k) =>
      (fst (ops (Keyfile.save_vault_keyfile tmp (keyfile_path cfg) k) w'), Ok KeyDone)
  | (w', Err e) =>
      (w', match e with
           | ActionSession (KeyRefused (Keyfile.WeakPassphraseError _)) =>
               if catches_weak then Ok KeyWeak else Err (EscapedSession e)
           | ActionSession WrongCriticalKey =>
               if catches_wrong then Ok KeyWrong else Err (EscapedSession e)
           | _ => Err (EscapedSession e)
           end)
  end.

(** [answer] is what the dialog returns: one secret, or the old and the new one. *)
Definition _handle_critical_key_command `{Database.SqliteFile} (r : verifier_draws) (tmp : string)
    (answer : option (string * string)) (arg : string) : cop key_shown :=
  u ← gets (fun w => is_unlocked (fst w));
  if negb u then mret KeyLocked
  else
    let action := str_lower (if text_is_empty arg then "status"%string else arg) in
    k ← load_keyfile;
    let configured := critical_action_key_configured k in
    if bool_decide (action = "status"%string) || bool_decide (action = "show"%string)
    then mret (KeyStatus configured)
    else if bool_decide (action = "set"%string) then
      if configured then mret KeyAlreadySet
      else match answer with
           | None => mret KeyCancelled
           | Some (secret, _) => change_key tmp true false (set_critical_action_key r k secret)
           end
    else if bool_decide (action = "change"%string) then
      if negb configured then mret KeyNotSet
      else match answer with
           | None => mret KeyCancelled
           | Some (old, new) => change_key tmp true true (change_critical_action_key r k old new)
           end
    else if bool_decide (action = "clear"%string) then
      if negb configured then mret KeyNotSet
      else match answer with
           | None => mret KeyCancelled
           | Some (secret, _) => change_key tmp false true (clear_critical_action_key k secret)
           end
    else mret KeyUsage.

(** *** Unlocking at the start *)

(** The answers of the dialog in turn; [None]: it is still waiting for one. *)
Fixpoint _unlock_vault_loop `{UpperCase} (k : Keyfile.VaultKeyfile) (answers : list (string * string))
    : result Keyfile.VaultError (option bytes) :=
  match answers with
  | [] => Ok None
  | (mode, value) :: answers' =>
      match (if bool_decide (mode = "passphrase"%string)
             then Keyfile.unlock_with_passphrase k value
             else Keyfile.unlock_with_recovery_code k (str_chars value)) with
      | Ok dek => Ok (Some dek)
      | Err (Keyfile.WrongSecretError | Keyfile.RecoveryError _) => _unlock_vault_loop k answers'
      | Err e => Err e
      end
  end.

End Commands.
End Commands.
