(* ===== verification/VaultFilesTheory.v ===== *)
(** * What secure files guarantee

    A file survives encryption, also across crashes; opening never leaves executable content
    behind; an export passes both gates or writes nothing.  The commands are another matter:
    as they are wired, opening, securing and deleting can never succeed, and neither can an
    export once a critical-action key is set. *)

From Corelib Require Import SpecFloat.
From S2P Require Import Prelude Text Json Crypto Canonical Security Messages Trust Group GroupStore.
From S2P Require Import GroupPolicy Files Disk VaultKeys VaultKeysTheory VaultSession.
From S2P Require Import VaultSessionTheory Partial VaultFiles.
Import VaultCrypto Session SecureFile Detection FileActions Commands FilenameTheory.
Local Open Scope peerc_scope.
Local Open Scope Z_scope.

(** ** Paths *)

Lemma prefix_slash_app a b :
  String.prefix "/" a = false -> a <> ""%string -> String.prefix "/" (a +:+ b) = false.
Proof. destruct a as [|c a]; [done|]. simpl. case_match; [|done]. by destruct a. Qed.

(** Below a directory. *)
Definition dir_prefix (dir : string) : string :=
  if text_is_empty dir || ends_with "/" dir then dir else dir +:+ "/".

Lemma path_join_below dir x : String.prefix "/" x = false -> path_join dir x = dir_prefix dir +:+ x.
Proof.
  intros Hx. unfold path_join, dir_prefix. rewrite Hx.
  destruct (_ || _); [done|]. by rewrite str_app_assoc.
Qed.

(** An identifier such as [generate_secure_id] makes: no separator in front. *)
Definition plain_id (id : string) : Prop := id <> ""%string /\ String.prefix "/" id = false.

Lemma secure_path_below dir id :
  plain_id id -> secure_path_of dir id = dir_prefix dir +:+ id +:+ SECURE_FILE_EXTENSION.
Proof. intros [? ?]. by apply path_join_below, prefix_slash_app. Qed.

Lemma meta_path_below dir id :
  plain_id id -> meta_path_of dir id = dir_prefix dir +:+ id +:+ METADATA_EXTENSION.
Proof. intros [? ?]. by apply path_join_below, prefix_slash_app. Qed.

Lemma app_id_inj a x y : a +:+ x = a +:+ y -> x = y.
Proof. induction a as [|c a IH]; [done|]. intros [= E]. by apply IH. Qed.

(** The three files of a secure file are different ones. *)
Lemma secure_ne_meta dir id : plain_id id -> secure_path_of dir id <> meta_path_of dir id.
Proof.
  intros Hid. rewrite secure_path_below, meta_path_below by done. by intros E%app_id_inj%app_id_inj.
Qed.

Lemma secure_ne_tmp dir id :
  plain_id id -> secure_path_of dir id <> meta_path_of dir id +:+ ".tmp".
Proof.
  intros Hid. rewrite secure_path_below, meta_path_below, !str_app_assoc by done.
  by intros E%app_id_inj%app_id_inj.
Qed.

Lemma tmp_ne_meta dir id : meta_path_of dir id +:+ ".tmp" <> meta_path_of dir id.
Proof. apply tmp_of_ne. Qed.

(** ** Encrypting and decrypting *)

Section Files.
Context `{AesGcmLaws, HkdfLaws, !JsonText, !JsonIndent, !JsonIndentLaws}.

Definition metadata_wf (m : SecureFileMetadata) : Prop :=
  jwf (secure_id m) = true /\ jwf (original_filename m) = true /\ jwf (size m) = true /\
  jwf (encrypted_at m) = true /\ jwf (checksum m) = true.

Lemma hex_field_text b : hex_field (JStr (bytes_str (hex_text b))) = Ok b.
Proof.
  unfold hex_field. by rewrite String.list_byte_of_string_of_list_byte, fromhex_hex_text.
Qed.

#[local] Arguments hex_field : simpl never.

Lemma metadata_roundtrip m : metadata_of (metadata_record m) = Ok m.
Proof.
  unfold metadata_of, metadata_record, key_of. simpl. rewrite !hex_field_text. by destruct m.
Qed.

Lemma load_saved_metadata dir id m d :
  metadata_wf m -> load_metadata dir id (run_ops (_save_metadata dir id m) d) = Ok m.
Proof.
  intros (H1' & H2' & H3' & H4' & H5'). unfold load_metadata, _save_metadata.
  rewrite run_replace_file, lookup_insert_eq, json_loads_indent; [apply metadata_roundtrip|].
  unfold metadata_record. cbn [jwf forallb snd]. rewrite H1', H2', H3', H4', H5'. by vm_compute.
Qed.

Lemma new_metadata_wf r windows name sum b : metadata_wf (new_metadata r windows name sum b).
Proof. repeat split; try done. by destruct sum. Qed.

(** What an encryption leaves: the ciphertext and its metadata, nothing else changed. *)
Lemma encrypted_disk r dir c m d :
  plain_id (f_secure_id r) -> metadata_wf m ->
  let d' := run_ops (encrypt_ops r dir c m) d in
  d' !! secure_path_of dir (f_secure_id r) = Some c /\
  load_metadata dir (f_secure_id r) d' = Ok m /\
  (forall q, q <> secure_path_of dir (f_secure_id r) -> q <> meta_path_of dir (f_secure_id r) ->
     q <> meta_path_of dir (f_secure_id r) +:+ ".tmp" -> d' !! q = d !! q).
Proof.
  intros Hid Hm. unfold encrypt_ops. cbv zeta. rewrite run_ops_app, run_write_file.
  split; [|split; [by apply load_saved_metadata|]]; unfold _save_metadata; rewrite run_replace_file.
  - rewrite lookup_insert_ne, lookup_delete_ne, lookup_insert_eq; [done|..];
      apply not_eq_sym; [by apply secure_ne_tmp|by apply secure_ne_meta].
  - intros q H1' H2' H3'. rewrite lookup_insert_ne, lookup_delete_ne, lookup_insert_ne; auto.
Qed.

Lemma equals_int_self z : equals_int z (JInt z) = true.
Proof. apply Z.eqb_refl. Qed.

Lemma file_key_length dek salt : length (_derive_file_key dek salt) = 32%nat.
Proof. apply hkdf_length. Qed.

Lemma decrypt_encrypted r windows name sum dir dek out c b d :
  length (f_nonce r) = NONCE_LEN ->
  gcm_encrypt (_derive_file_key dek (f_salt r)) (f_nonce r) b = Some c ->
  d !! secure_path_of dir (f_secure_id r) = Some c ->
  load_metadata dir (f_secure_id r) d = Ok (new_metadata r windows name sum b) ->
  decrypt_file (f_secure_id r) dir dek out d = (<[out := b]> d, Ok (new_metadata r windows name sum b)).
Proof.
  intros Hn Hc Hd Hl. unfold decrypt_file. rewrite Hl, Hd. cbn [salt nonce size new_metadata].
  rewrite (gcm_open_encrypt _ _ b _ (file_key_length _ _) ltac:(rewrite Hn; unfold NONCE_LEN; lia) Hc).
  by rewrite equals_int_self, run_write_file.
Qed.

(** Encrypting a file and decrypting it gives its bytes back.  For a file of less than
    2^31 bytes, encryption succeeds, touches only the three paths of the new identifier and
    keeps the source, and decrypting with the same key to any path writes exactly the bytes
    there were, with the metadata returned at first. *)
Theorem secure_file_roundtrip r windows path dir dek name sum b d out :
  plain_id (f_secure_id r) -> length (f_nonce r) = NONCE_LEN ->
  d !! path = Some b -> zlen b < 2 ^ 31 ->
  exists d' m,
    encrypt_file r windows path dir dek name sum d = (d', Ok m) /\
    (forall q, q <> secure_path_of dir (f_secure_id r) -> q <> meta_path_of dir (f_secure_id r) ->
       q <> meta_path_of dir (f_secure_id r) +:+ ".tmp" -> d' !! q = d !! q) /\
    decrypt_file (f_secure_id r) dir dek out d' = (<[out := b]> d', Ok m).
Proof.
  intros Hid Hn Hp Hb. unfold encrypt_file. rewrite Hp.
  destruct (gcm_encrypt_fits (_derive_file_key dek (f_salt r)) (f_nonce r) b Hb) as [c Hc]. rewrite Hc.
  set (m := new_metadata _ _ _ _ _). do 2 eexists. split; [done|].
  destruct (encrypted_disk r dir c m d Hid (new_metadata_wf _ _ _ _ _)) as (H1' & H2' & H3').
  split; [done|]. by apply (decrypt_encrypted _ _ _ _ _ _ _ c).
Qed.

(** C28: a secure file is there whole or not at all.  Wherever encrypting a file under a
    new identifier is interrupted, either no metadata is there, so that the file is neither
    listed nor opened, or decrypting gives back all the bytes of the source; the source itself is untouched. *)
Theorem secure_file_crash_safe r windows path dir dek name sum b c d d' out :
  plain_id (f_secure_id r) -> length (f_nonce r) = NONCE_LEN ->
  gcm_encrypt (_derive_file_key dek (f_salt r)) (f_nonce r) b = Some c ->
  d !! path = Some b -> load_metadata dir (f_secure_id r) d = Err FileNotFoundError ->
  path ∉ [secure_path_of dir (f_secure_id r); meta_path_of dir (f_secure_id r);
          meta_path_of dir (f_secure_id r) +:+ ".tmp"] ->
  let m := new_metadata r windows name sum b in
  crashed (encrypt_ops r dir c m) d d' ->
  d' !! path = Some b /\
  (load_metadata dir (f_secure_id r) d' = Err FileNotFoundError \/
   decrypt_file (f_secure_id r) dir dek out d' = (<[out := b]> d', Ok m)).
Proof.
  intros Hid Hn Hc Hp Hl Hne m Hcr.
  rewrite !not_elem_of_cons in Hne. destruct Hne as (Hp1 & Hp2 & Hp3 & _).
  split.
  { erewrite (crashed_frame _ _ _ path Hcr), Hp; [done|]. simpl.
    by rewrite !bool_decide_eq_false_2 by auto. }
  unfold load_metadata in Hl. apply crashed_app in Hcr as [Hcr|Hcr].
  - left. unfold load_metadata. erewrite (crashed_frame _ _ _ _ Hcr); [exact Hl|]. simpl.
    by rewrite !bool_decide_eq_false_2 by by apply secure_ne_meta.
  - apply replace_file_atomic in Hcr as [Hq| ->]; [..|apply tmp_ne_meta].
    + left. unfold load_metadata. rewrite Hq, run_write_file, lookup_insert_ne;
        [exact Hl|by apply secure_ne_meta|apply not_eq_sym, tmp_ne_meta].
    + right. rewrite <- run_ops_app. fold (_save_metadata dir (f_secure_id r) m).
      destruct (encrypted_disk r dir c m d Hid (new_metadata_wf _ _ _ _ _)) as (H1' & H2' & _).
      by apply (decrypt_encrypted _ _ _ _ _ _ _ c).
Qed.

End Files.

(** ** Opening *)

(** Content the detection lets through: no executable signature in front. *)
Definition inert (content : bytes) : Prop := Forall (fun p => ~ p `prefix_of` content) signatures.

Lemma startswith_prefix p header :
  startswith p header = true <-> p `prefix_of` header.
Proof.
  unfold startswith. rewrite bool_decide_eq_true. split.
  - intros <-. apply prefix_take.
  - intros [k ->]. by rewrite take_app_length.
Qed.

Lemma header_prefix (p content : bytes) :
  (length p <= MAX_HEADER_BYTES)%nat -> p `prefix_of` content -> p `prefix_of` take MAX_HEADER_BYTES content.
Proof.
  intros Hl [k ->]. rewrite take_app_ge by done. by exists (take (MAX_HEADER_BYTES - length p) k).
Qed.

Lemma signature_lengths p : p ∈ signatures -> (0 < length p <= MAX_HEADER_BYTES)%nat.
Proof.
  intros Hp. assert (0 < length p <= 4)%nat as [H0 H4].
  { assert (forallb (fun p => (0 <? length p)%nat && (length p <=? 4)%nat) signatures = true) as Hf by done.
    rewrite forallb_forall in Hf. apply list_elem_of_In, Hf, andb_true_iff in Hp as [H0 H4].
    split; [by apply Nat.ltb_lt|by apply Nat.leb_le]. }
  split; [done|]. etransitivity; [exact H4|]. by apply Nat.leb_le.
Qed.

Section Opening.
Context `{LowerCase}.

(** What passes the check is inert, and its name has no suspicious extension. *)
Lemma not_executable path strict d content :
  d !! path = Some content -> is_executable path strict d = false ->
  strict = true -> inert content /\ _check_extension path = false.
Proof.
  intros Hd Hx ->. unfold is_executable, _check_magic_bytes in Hx. rewrite Hd in Hx.
  destruct (Nat.eqb_spec (length (take MAX_HEADER_BYTES content)) 0) as [H0|H0].
  - split; [|done]. apply Forall_forall. intros p Hp Hpre. pose proof (signature_lengths p Hp) as [Hl Hl'].
    apply header_prefix, prefix_length in Hpre; [|done]. lia.
  - destruct (existsb _ signatures) eqn:He; [done|].
    destruct (_is_known_safe_format _); [|done]. split; [|done].
    apply Forall_forall. intros p Hp Hpre. pose proof (signature_lengths p Hp) as [_ Hl].
    apply header_prefix, startswith_prefix in Hpre; [|done].
    rewrite <- not_true_iff_false, existsb_exists in He. apply He. exists p. by rewrite <- list_elem_of_In.
Qed.

End Opening.

(** ** The actions *)

Section Actions.
Context `{AesGcm, Hkdf, Scrypt, !JsonText, !JsonIndent, LowerCase}.
Context `{Ed25519, Sha256, CompactJson}.

Implicit Types w : session * gdb.

Lemma wp_unlocked Q X w :
  X w -> (is_unlocked (fst w) = true -> Q () w) -> wp unlocked Q X w.
Proof. unfold wp, unlocked. destruct (is_unlocked (fst w)); auto. Qed.

Lemma wp_read_metadata f Q X w :
  X w -> (forall m, f (the_disk (fst w)) = Ok m -> Q m w) -> wp (read_metadata f) Q X w.
Proof. unfold wp, read_metadata. destruct (f _); auto. Qed.

Lemma wp_dek Q X w :
  X w -> (forall k, _dek (fst w) = Some k -> Q k w) -> wp (on_session dek_bytes) Q X w.
Proof. destruct w as [s g]. unfold wp, on_session, dek_bytes. simpl. destruct (_dek s); auto. Qed.

Lemma wp_of_disk {A} (f : disk -> A) (Q : A -> session * gdb -> Prop) X w :
  Q (f (the_disk (fst w))) w -> wp (of_disk f) Q X w.
Proof. done. Qed.

Lemma set_disk_same s : set_disk (the_disk s) s = s.
Proof. by destruct s. Qed.

(** The world with another disk. *)
Definition with_disk (d : disk) (w : session * gdb) : session * gdb := (set_disk d (fst w), snd w).

Lemma with_disk_same w : with_disk (the_disk (fst w)) w = w.
Proof. unfold with_disk. rewrite set_disk_same. by destruct w. Qed.

Lemma wp_ops l (Q : unit -> session * gdb -> Prop) X w :
  Q () (with_disk (run_ops l (the_disk (fst w))) w) -> wp (ops l) Q X w.
Proof. done. Qed.

(** A decryption writes one file, or nothing. *)
Lemma wp_decrypt id dir dek out Q X w :
  X w ->
  (forall m content, load_metadata dir id (the_disk (fst w)) = Ok m ->
     Q m (with_disk (<[out := content]> (the_disk (fst w))) w)) ->
  wp (on_disk (decrypt_file id dir dek out)) Q X w.
Proof.
  intros HX HQ. unfold wp, on_disk, decrypt_file.
  destruct (load_metadata dir id _) as [m|e]; [|by rewrite set_disk_same; destruct w].
  destruct (_ !! secure_path_of dir id); [|by rewrite set_disk_same; destruct w].
  destruct (gcm_open _ _ _) as [p|]; [|by rewrite set_disk_same; destruct w].
  destruct (equals_int _ _); [|by rewrite set_disk_same; destruct w].
  rewrite run_write_file. by apply HQ.
Qed.

Ltac fstep :=
  lazymatch goal with
  | |- wp (mbind _ _) _ _ _ => apply wp_bind
  | |- wp (mret _) _ _ _ => apply wp_ret
  | |- wp (gets _) _ _ _ => apply wp_gets
  | |- wp (raise _) _ _ _ => apply wp_raise
  | |- wp (raise_if _ _) _ _ _ => let G := fresh "G" in apply wp_raise_if; intros G
  | |- wp unlocked _ _ _ => let G := fresh "G" in apply wp_unlocked; [|intros G]
  | |- wp (authorized _) _ _ _ => unfold authorized
  | |- wp (read_metadata _) _ _ _ => let G := fresh "G" in apply wp_read_metadata; [|intros ? G]
  | |- wp (on_session dek_bytes) _ _ _ => let G := fresh "G" in apply wp_dek; [|intros ? G]
  | |- wp (of_disk _) _ _ _ => apply wp_of_disk
  | |- wp (ops _) _ _ _ => apply wp_ops
  | |- wp (_secure_delete_temp _ _) _ _ _ => unfold _secure_delete_temp
  | |- wp (on_disk (decrypt_file _ _ _ _)) _ _ _ => let G := fresh "G" in apply wp_decrypt; [|intros ? ? G]
  end; cbv beta.

Ltac fsteps HX := repeat (fstep; try exact HX; try (intros _; exact HX)).

(** C26: an opened file cannot run.  With the check the program uses, opening a secure file
    either writes one file, in the temporary directory under a plain name, whose content
    starts with none of the executable signatures and whose extension is not an executable
    one; or it fails, and then what it decrypted is not on the disk: every other path is as before,
    and the temporary one is as before or gone.  The store of groups is not touched. *)
Theorem opened_files_inert noise windows id dir temp_dir w w' res :
  open_secure_file noise windows id dir temp_dir (Some check_executable_for_open) w = (w', res) ->
  let d := the_disk (fst w) in let d' := the_disk (fst w') in
  snd w' = snd w /\
  match res with
  | Ok (path, m) =>
      path = path_join temp_dir (plain_name windows (original_filename m)) /\
      exists content, d' = <[path := content]> d /\ inert content /\ _check_extension path = false
  | Err _ => d' = d \/ exists path, d' = delete path d /\
      forall m, load_metadata dir id d = Ok m ->
        path = path_join temp_dir (plain_name windows (original_filename m))
  end.
Proof.
  intros E d d'.
  set (Q := fun (pm : string * SecureFileMetadata) w1 => snd w1 = snd w /\
       fst pm = path_join temp_dir (plain_name windows (original_filename (snd pm))) /\
       exists content, the_disk (fst w1) = <[fst pm := content]> d /\ inert content /\
         _check_extension (fst pm) = false).
  set (X := fun w1 => snd w1 = snd w /\ (the_disk (fst w1) = d \/
       exists path, the_disk (fst w1) = delete path d /\
         forall m, load_metadata dir id d = Ok m ->
           path = path_join temp_dir (plain_name windows (original_filename m)))).
  assert (X w) as HX by (split; [|left]; reflexivity).
  assert (wp (open_secure_file noise windows id dir temp_dir (Some check_executable_for_open)) Q X w) as Hw.
  { unfold open_secure_file. fsteps HX. unfold check_executable_for_open.
    destruct (is_executable _ true _) eqn:Hx; fsteps HX.
    - split; [reflexivity|]. right. eexists. split; [|intros m' Hm'].
      + cbn [with_disk fst the_disk set_disk]. rewrite run_secure_delete. apply delete_insert_eq.
      + subst d. rewrite G1 in Hm'. by apply Ok_inj in Hm' as <-.
    - split; [reflexivity|]. split; [reflexivity|]. eexists. split; [reflexivity|].
      eapply not_executable; [|exact Hx|reflexivity]. apply lookup_insert_eq. }
  unfold wp in Hw. rewrite E in Hw. destruct res as [[path m]|e]; exact Hw.
Qed.

Lemma authorize_pure k secret s : fst (authorize_export k secret s) = s.
Proof.
  unfold authorize_export, mbind, stm_bind, _require_unlocked. destruct (is_unlocked s) eqn:Hu; [|done].
  destruct (critical_action_key_configured k); [|done]. destruct secret as [x|]; [|done].
  unfold verify_critical_action_key, mbind, stm_bind, _require_unlocked. cbn. by rewrite Hu.
Qed.

Lemma wp_authorize k secret Q X w :
  X w -> (forall b, authorize_export k secret (fst w) = (fst w, Ok b) -> Q b w) ->
  wp (on_session (authorize_export k secret)) Q X w.
Proof.
  intros HX HQ. unfold wp, on_session. pose proof (authorize_pure k secret (fst w)) as Hp.
  destruct (authorize_export k secret (fst w)) as [s [b|e]]; simpl in Hp; subst s; destruct w as [s g].
  - by apply HQ.
  - by destruct e.
Qed.

(** The check of the groups' policies, when there is an enforcer. *)
Definition group_gate_passed (enforcer : option bool) (t : string -> readings)
    (gid dv file : option string) (keys : option (list string)) (g g' : gdb) : Prop :=
  match enforcer with
  | None => g' = g
  | Some has_store => check_export has_store t gid dv file keys g = (g', Ok ())
  end.

Lemma wp_group_gate enforcer t gid dv file keys Q X w :
  (forall g', X (fst w, g')) ->
  (forall g', group_gate_passed enforcer t gid dv file keys (snd w) g' -> Q () (fst w, g')) ->
  wp (group_gate enforcer t gid dv file keys) Q X w.
Proof.
  intros HX HQ. destruct w as [s g]. unfold group_gate, group_gate_passed in *.
  destruct enforcer as [b|]; [|by apply HQ]. unfold wp. cbn [fst snd] in *.
  destruct (check_export b t gid dv file keys g) as [g' [[]|e]]; [by apply HQ|].
  destruct e; apply HX.
Qed.

(** What an export has done when it ends. *)
Lemma export_effect id dir dest k secret enforcer t gid dv keys w w' res :
  export_secure_file id dir dest k secret enforcer t gid dv keys w = (w', res) ->
  let d := the_disk (fst w) in
  match res with
  | Ok m =>
      is_unlocked (fst w) = true /\
      group_gate_passed enforcer t gid dv (Some id) keys (snd w) (snd w') /\
      authorize_export k secret (fst w) = (fst w, Ok true) /\ d !! dest = None /\
      exists content, fst w' = set_disk (<[dest := content]> d) (fst w)
  | Err _ => fst w' = fst w
  end.
Proof.
  intros E d.
  set (Q := fun (_ : SecureFileMetadata) w1 => is_unlocked (fst w) = true /\
    group_gate_passed enforcer t gid dv (Some id) keys (snd w) (snd w1) /\
    authorize_export k secret (fst w) = (fst w, Ok true) /\ d !! dest = None /\
    exists content, fst w1 = set_disk (<[dest := content]> d) (fst w)).
  set (X := fun w1 : session * gdb => fst w1 = fst w).
  assert (forall g, X (fst w, g)) as HX by reflexivity.
  assert (wp (export_secure_file id dir dest k secret enforcer t gid dv keys) Q X w) as Hw.
  { unfold export_secure_file. fstep. fstep; [reflexivity|]. fstep. apply wp_group_gate; [done|].
    intros g' Hg. fstep. apply wp_authorize; [done|]. intros b Hb.
    assert (Hx := HX g'). fsteps Hx. apply negb_false_iff in G0 as ->.
    split; [done|]. split; [done|]. split; [done|]. split; [|by eexists].
    apply bool_decide_eq_false in G1. by apply eq_None_not_Some. }
  unfold wp in Hw. rewrite E in Hw. by destruct res.
Qed.

(** C27: an export passes both gates or writes nothing.  When an export returns, the session
    is unlocked, the policies of the groups let it through, the critical-action key authorised it
    and the destination did not exist; the decrypted file is all that was written.  When it fails
    for whatever reason, no byte was written, though the groups may have consumed a capability. *)
Theorem export_passes_both_gates id dir dest k secret enforcer t gid dv keys w w' res :
  export_secure_file id dir dest k secret enforcer t gid dv keys w = (w', res) ->
  let d := the_disk (fst w) in
  match res with
  | Ok m =>
      is_unlocked (fst w) = true /\
      group_gate_passed enforcer t gid dv (Some id) keys (snd w) (snd w') /\
      authorize_export k secret (fst w) = (fst w, Ok true) /\ d !! dest = None /\
      exists content, fst w' = set_disk (<[dest := content]> d) (fst w)
  | Err _ => fst w' = fst w
  end.
Proof. apply export_effect. Qed.

End Actions.

(** ** The commands *)

Section Commands.
Context `{AesGcm, Hkdf, Scrypt, !JsonText, !JsonIndent, LowerCaseLaws, Database.SqliteFile}.
Context `{Ed25519, Sha256, CompactJson}.
Context (cfg : config).

(** The numbered names run out after the files there are: the loop ends. *)
Lemma free_destination_None fuel base ext dest counter d j :
  free_destination cfg fuel base ext dest counter d = None -> (S j < fuel)%nat ->
  path_join (downloads_dir cfg) (candidate base ext (counter + j)) ∈ dom d.
Proof.
  revert dest counter j. induction fuel as [|fuel IH]; intros dest counter j Hn Hj; [lia|].
  cbn [free_destination] in Hn. destruct (d !! dest); [|done].
  destruct fuel as [|fuel]; [lia|]. destruct j as [|j].
  - rewrite Nat.add_0_r. cbn [free_destination] in Hn. apply elem_of_dom.
    by destruct (d !! path_join (downloads_dir cfg) (candidate base ext counter)).
  - replace (counter + S j)%nat with (S counter + j)%nat by lia. eapply IH; [exact Hn|lia].
Qed.

Lemma free_destination_Some fuel base ext dest counter d c :
  free_destination cfg fuel base ext dest counter d = Some c -> d !! c = None.
Proof.
  revert dest counter. induction fuel as [|fuel IH]; intros dest counter; [done|].
  cbn [free_destination]. destruct (d !! dest) eqn:E; [apply IH|by intros [= <-]].
Qed.

Lemma candidate_no_slash base ext j :
  String.prefix "/" base = false -> String.prefix "/" (candidate base ext j) = false.
Proof. destruct base as [|c b]; intros Hb; [done|]. by apply prefix_slash_app. Qed.

Lemma join_candidate_inj base ext i j :
  String.prefix "/" base = false ->
  path_join (downloads_dir cfg) (candidate base ext i) =
  path_join (downloads_dir cfg) (candidate base ext j) -> i = j.
Proof.
  intros Hb. rewrite !path_join_below by by apply candidate_no_slash.
  intros E%app_id_inj. by apply candidate_inj in E.
Qed.

Lemma free_destination_found base ext dest d :
  String.prefix "/" base = false ->
  exists c, free_destination cfg (2 + base.size d) base ext dest 1 d = Some c /\ d !! c = None.
Proof.
  intros Hb. destruct (free_destination _ _ _ _ _ _ _) as [c|] eqn:E;
    [by eauto using free_destination_Some|exfalso].
  set (f j := path_join (downloads_dir cfg) (candidate base ext (1 + j))).
  assert (NoDup (f <$> seq 0 (1 + base.size d))) as Hnd.
  { apply (NoDup_fmap_2_strong _ _); [|apply NoDup_seq].
    intros x y _ _ Hxy%join_candidate_inj; [lia|done..]. }
  pose proof (size_list_to_set (C := gset string) _ Hnd) as Hs.
  rewrite length_fmap, length_seq in Hs. rewrite <- size_dom in Hs.
  assert (list_to_set (C := gset string) (f <$> seq 0 (1 + base.size (dom d))) ⊆ dom d) as Hsub%subseteq_size.
  { intros x Hx. apply elem_of_list_to_set, list_elem_of_fmap in Hx as (j & -> & Hj).
    apply elem_of_seq in Hj. rewrite size_dom in Hj. eapply free_destination_None; [exact E|lia]. }
  lia.
Qed.

(** The texts in metadata are those [json.load] can give. *)
Definition name_is_text (name : json) : Prop :=
  forall s, name = JStr s -> is_text (str_chars s) = true.

Lemma plain_name_safe windows name :
  name_is_text name -> safe_component 255 (str_bytes (plain_name windows name)).
Proof.
  intros Ht. assert (safe_component 255 (str_bytes "file")) as Hf.
  { repeat split; try done. by repeat (constructor; [by repeat split; vm_compute|]). }
  unfold plain_name. destruct name as [| | | |s| |]; try exact Hf.
  destruct (Filenames.sanitize_filename (JStr s) None windows 255) as [n|] eqn:E.
  - replace (Filenames.sanitize_filename _ _ _ _) with (Some n).
    + eapply sanitized_component; [by apply Ht| |exact E]. lia.
    + unfold Filenames.sanitize_filename in *. by destruct (Filenames.unusable_leaf _).
  - replace (Filenames.sanitize_filename _ _ _ _) with (Some "file"%string); [exact Hf|].
    unfold Filenames.sanitize_filename in *. by destruct (Filenames.unusable_leaf _).
Qed.

Lemma harmless_no_slash s : Forall harmless_byte (str_bytes s) -> String.prefix "/" s = false.
Proof.
  destruct s as [|c s]; [done|]. intros Hs. simpl. case_match; [|done].
  apply Forall_cons in Hs as [Hc _]. subst c. by destruct Hc as (_ & _ & Hc & _).
Qed.

Lemma export_destination_found m d :
  name_is_text (original_filename m) ->
  exists c, export_destination cfg m d = Some c /\ d !! c = None.
Proof.
  intros Ht. pose proof (plain_name_safe (is_windows cfg) _ Ht) as (_ & _ & _ & _ & Hh).
  unfold export_destination. set (name := plain_name _ _) in *.
  destruct (splitext (str_chars name)) as [base ext] eqn:Ex. apply splitext_spec in Ex as [Ex _].
  apply free_destination_found, harmless_no_slash. unfold chars_str.
  rewrite String.list_byte_of_string_of_list_byte.
  assert (Forall harmless_byte (unchars base ++ unchars ext)) as Hb; [|by apply Forall_app in Hb as [? _]].
  unfold unchars. rewrite <- concat_app, <- Ex. unfold str_chars. by rewrite unchars_chars.
Qed.

(** Without "don't ask again", every file action asks again. *)
Lemma asks_again action s :
  action ∈ ["open"; "move_to_secure"; "delete"]%string -> _dont_ask_again_files s = false ->
  requires_reauth action s = true.
Proof.
  intros Ha Hs. unfold requires_reauth. assert (action_name action = action) as ->.
  { unfold action_name. rewrite !elem_of_cons in Ha.
    destruct Ha as [-> |[-> |[-> |Ha%elem_of_nil]]]; [..|done];
      rewrite str_lower_ascii by done; by vm_compute. }
  rewrite Hs. cbn [andb negb]. rewrite !elem_of_cons in Ha.
  by destruct Ha as [-> |[-> |[-> |Ha%elem_of_nil]]].
Qed.

(** A command that changes nothing and shows nothing but a refusal. *)
Definition refused (w : session * gdb) (r : (session * gdb) * result escaped_error shown) : Prop :=
  fst r = w /\
  match snd r with
  | Ok (Opened _ _ | Exported _ _ | Secured _ | Deleted _ | Blocked _) => False
  | _ => True
  end.

Lemma refused_action {A} action (body : aop A) (k : A -> shown) w :
  requires_reauth action (fst w) = true ->
  refused w (tried (unlocked ;; authorized action ;; body) k w).
Proof.
  intros Hr. unfold tried, unlocked, authorized, mbind, stm_bind, gets, raise_if.
  destruct (is_unlocked (fst w)); [|done]. cbn. by rewrite Hr.
Qed.

Lemma refused_guard arg body w : refused w (body w) -> refused w (guarded_command arg body w).
Proof.
  intros Hb. unfold guarded_command, mbind, stm_bind, gets. destruct (text_is_empty arg); [done|].
  by destruct (is_unlocked (fst w)).
Qed.

(** Asking again leaves everything as it was. *)
Lemma reauthenticate_pure action answer w : exists r, reauthenticate cfg action answer w = (w, r) /\
  match r with Ok (Some x) => x = Cancelled \/ x = WrongPassphrase | _ => True end.
Proof.
  unfold reauthenticate, mbind, stm_bind, gets. destruct (requires_reauth action (fst w)); [|by eexists].
  destruct answer as [a|]; [|eexists; split; [reflexivity|by left]]. unfold load_keyfile.
  destruct (snd _) as [k|e]; [|by eexists]. unfold bare, on_session, verify_passphrase. cbn.
  destruct w as [s g]. cbn. destruct (_dek s) as [dek|]; [|by eexists].
  destruct (Keyfile.unlock_with_passphrase k _) as [c|[]]; (eexists; split; [reflexivity|]); try done.
  - destruct (secrets_equal c dek); [done|by right].
  - by right.
Qed.

Lemma refused_ask action answer body w :
  refused w (body w) -> refused w (or_show (reauthenticate cfg action answer) body w).
Proof.
  intros Hb. unfold or_show. destruct (reauthenticate_pure action answer w) as (r & Hr & Hx).
  unfold mbind, stm_bind. rewrite Hr. destruct r as [[x|]|e]; [|done|done]. by destruct Hx as [-> | ->].
Qed.

Lemma prompt_pure answer w : exists r, _prompt_for_export_authorization cfg answer w = (w, r).
Proof.
  unfold _prompt_for_export_authorization, mbind, stm_bind, load_keyfile.
  destruct (snd _) as [k|e]; [|by eexists].
  destruct (critical_action_key_configured k); [|by eexists]. destruct answer as [x|]; [|by eexists].
  cbn. unfold bare, on_session. pose proof (authorize_pure k (Some x) (fst w)) as Hp.
  destruct (authorize_export k (Some x) (fst w)) as [s1 [b|[]]]; simpl in Hp; subst s1; destruct w; by eexists.
Qed.

(** As the commands are wired, /open, /secure and /delete never do anything.  After any
    calls on a session but switching the question off, which the program never does, each
    of the three commands leaves the session, the disk and the store of groups as they were
    and shows a refusal, whatever the user answers; and the text typed into the dialog has
    no influence on it, since the program verifies the name of the dialog's mode. *)
Theorem file_commands_never_succeed d seconds s l g :
  new_session d seconds = Some s -> Forall asks l ->
  let w := (srun l s, g) in
  (forall noise temp_dir answer file_id,
     refused w (_handle_open_file cfg noise temp_dir answer file_id w)) /\
  (forall r answer path, refused w (_handle_move_to_secure cfg r answer path w)) /\
  (forall answer file_id, refused w (_handle_delete_file cfg answer file_id w)) /\
  (forall mode typed typed' file_id,
     _handle_delete_file cfg (Some (mode, typed)) file_id w =
     _handle_delete_file cfg (Some (mode, typed')) file_id w).
Proof.
  intros Hn Hl w. pose proof (srun_asks l d seconds s Hn Hl) as Hs.
  assert (forall a, a ∈ ["open"; "move_to_secure"; "delete"]%string ->
    requires_reauth a (fst w) = true) as Ha by (intros a Ha; by apply asks_again).
  assert (forall id body, (forall id, refused w (body id w)) ->
    refused w ((lookup_file cfg id ≫= fun found =>
      match found with None => mret NoSuchFile | Some (id, _) => body id end) w)) as Hf.
  { intros id body Hb. unfold lookup_file, mbind, stm_bind. destruct (list_secure_files _ _) as [fs|]; [|done].
    destruct (find_file id fs) as [[[i m]|]|]; [apply Hb|done|done]. }
  split; [|split; [|split]].
  - intros noise temp_dir answer file_id.
    apply refused_guard, refused_ask, (Hf file_id (fun id => tried _ _)). intros id.
    apply refused_action, Ha. by left.
  - intros r answer path. unfold _handle_move_to_secure, mbind, stm_bind, gets.
    destruct (text_is_empty path); [done|]. destruct (bool_decide _); [|done].
    apply refused_guard, refused_ask. apply refused_action, Ha. by right; left.
  - intros answer file_id.
    apply refused_guard, refused_ask, (Hf file_id (fun id => tried _ _)). intros id.
    apply refused_action, Ha. by right; right; left.
  - done.
Qed.

#[local] Arguments export_secure_file : simpl never.

(** Setting a critical-action key ends exporting.  Once the keyfile has one, the command
    /export never exports and writes nothing, whatever the user answers: it asks for the secret
    and checks it, then calls the export without it, which is refused; but only after the groups'
    policies were asked, who may have consumed the one-shot capability. *)
Theorem critical_key_ends_export t answer file_id w k :
  snd (Keyfile.load_vault_keyfile (keyfile_path cfg) (the_disk (fst w))) = Ok k ->
  critical_action_key_configured k = true ->
  let r := _handle_export_file cfg t answer file_id w in
  fst (fst r) = fst w /\ forall path m, snd r <> Ok (Exported path m).
Proof.
  intros Hk Hc r. unfold Keyfile.load_vault_keyfile in Hk. cbn [snd] in Hk. unfold r, _handle_export_file, guarded_command, mbind, stm_bind, gets.
  destruct (text_is_empty file_id); [done|]. destruct (is_unlocked (fst w)); [|done]. simpl.
  destruct (prompt_pure answer w) as (r1 & ->). destruct r1 as [[]|e]; simpl; [|done|done].
  unfold lookup_file. destruct (list_secure_files _ _) as [fs|]; [|done].
  destruct (find_file file_id fs) as [[[i m]|]|]; simpl; [|done|done].
  destruct (export_destination cfg m _) as [dest|]; simpl; [|done]. rewrite Hk. unfold tried.
  destruct (export_secure_file _ _ _ _ _ _ _ _ _ _ w) as [w' [m'|e]] eqn:E; apply export_effect in E.
  - destruct E as (_ & _ & Ha & _). unfold authorize_export, mbind, stm_bind, _require_unlocked in Ha.
    destruct (is_unlocked (fst w)); [|done]. by rewrite Hc in Ha.
  - by destruct e.
Qed.

End Commands.
