(* ===== verification/VaultScenarios.v ===== *)
(** * The vault on concrete inputs

    Concrete ciphers, codecs and files for the interfaces of the vault, and the theorems
    about the vault applied to a small one: one device with a passphrase, a recovery code,
    a database and a secure file. *)

From Corelib Require Import SpecFloat.
From S2P Require Import Prelude Text Json Crypto Canonical Security Messages Trust Group GroupStore.
From S2P Require Import GroupPolicy Files Disk VaultKeys VaultKeysTheory VaultSession.
From S2P Require Import VaultSessionTheory Partial VaultFiles VaultFilesTheory.
Import VaultCrypto RecoveryCode Keyfile Database Session SecureFile Detection FileActions Commands.
Local Open Scope peerc_scope.
Local Open Scope Z_scope.

Module VaultSample.

#[export] Existing Instances BitText.text BitText.text_laws.

#[export] Instance gcm : AesGcm := {
  gcm_encrypt k n p := @aead_encrypt Crypto.Sample.aead k n p None;
  gcm_decrypt k n c := @aead_decrypt Crypto.Sample.aead k n c None
}.

#[export] Instance gcm_laws : AesGcmLaws.
Proof.
  split; simpl.
  - intros k n p Hp. case_match; [bool_to_prop; lia|eauto].
  - intros k n p c. apply (@aead_encrypt_length _ Crypto.Sample.aead_laws k n p None).
  - intros k n p c. apply (@aead_decrypt_encrypt _ Crypto.Sample.aead_laws k n p None).
Qed.

#[export] Instance kdf : Scrypt := { scrypt s salt := Crypto.Sample.digest 32 (salt ++ s) }.

#[export] Instance kdf_laws : ScryptLaws.
Proof. split. intros. apply Crypto.Sample.length_digest. Qed.

#[export] Instance indent : JsonIndent := { json_dumps_indent := @json_dumps BitText.text }.

#[export] Instance indent_laws : JsonIndentLaws.
Proof. split. apply (@json_loads_dumps _ BitText.text_laws). Qed.

#[export] Instance upper : UpperCase := { char_upper g := [Filenames.upper_char g] }.

#[export] Instance upper_laws : UpperCaseLaws.
Proof. by split. Qed.

(** A file format for the tables: their rows as one JSON value. *)
Definition message_json (km : string * message_row) : json :=
  let m := snd km in
  JList [JStr (fst km); JStr (peer_device_id m); JStr (direction m); JStr (msg_text m);
         JFloat (msg_timestamp m); JStr (msg_status m)].

Definition transfer_json (kt : string * transfer_row) : json :=
  let t := snd kt in
  JList [JStr (fst kt); JStr (tr_peer t); JStr (tr_direction t); JStr (filename t);
         JInt (Database.size t); JStr (Database.checksum t); JStr (storage_mode t);
         JStr (storage_path t); JStr (tr_status t); JFloat (tr_timestamp t)].

Definition setting_json (kb : string * bytes) : json := JList [JStr (fst kb); JStr (bytes_str (snd kb))].

Definition tables_json (t : tables) : json :=
  JList [JList (map setting_json (map_to_list (settings t)));
         JList (map message_json (map_to_list (messages t)));
         JList (map transfer_json (map_to_list (transfers t)))].

Definition json_message (j : json) : option (string * message_row) :=
  match j with
  | JList [JStr k; JStr a; JStr b; JStr c; JFloat t; JStr e] => Some (k, mk_message a b c t e)
  | _ => None
  end.

Definition json_transfer (j : json) : option (string * transfer_row) :=
  match j with
  | JList [JStr k; JStr a; JStr b; JStr c; JInt n; JStr e; JStr f; JStr g; JStr h; JFloat t] =>
      Some (k, mk_transfer a b c n e f g h t)
  | _ => None
  end.

Definition json_setting (j : json) : option (string * bytes) :=
  match j with JList [JStr k; JStr v] => Some (k, str_bytes v) | _ => None end.

Definition json_tables (j : json) : option tables :=
  match j with
  | JList [JList a; JList b; JList c] =>
      a ← mapM json_setting a; b ← mapM json_message b; c ← mapM json_transfer c;
      Some (mk_tables (list_to_map a) (list_to_map b) (list_to_map c))
  | _ => None
  end.

#[export] Instance sqlite : SqliteFile := {
  sqlite_bytes t := json_dumps (tables_json t);
  sqlite_open b := json_loads b ≫= json_tables
}.

Lemma mapM_inverse {A} (f : A -> json) (g : json -> option A) (l : list A) :
  (forall a, g (f a) = Some a) -> mapM g (map f l) = Some l.
Proof. intros Hgf. induction l as [|a l IH]; [done|]. simpl. by rewrite Hgf, IH. Qed.

Lemma jwf_rows {A} (f : A -> json) (l : list A) :
  (forall a, jwf (f a) = true) -> forallb jwf (map f l) = true.
Proof. intros Hf. induction l as [|a l IH]; [done|]. simpl. by rewrite Hf, IH. Qed.

#[export] Instance sqlite_laws : SqliteFileLaws.
Proof.
  split. intros [a b c]. cbn [sqlite_open sqlite_bytes sqlite]. rewrite json_loads_dumps.
  - cbn [json_tables tables_json mbind option_bind].
    rewrite (mapM_inverse setting_json json_setting), (mapM_inverse message_json json_message),
      (mapM_inverse transfer_json json_transfer); [|by intros [k []]..|].
    + cbn. by rewrite !list_to_map_to_list.
    + intros [k v]. unfold setting_json, json_setting. cbn [fst snd].
      by rewrite String.list_byte_of_string_of_list_byte.
  - simpl. by rewrite !jwf_rows.
Qed.

End VaultSample.

(** ** One small vault *)

Import VaultSample.

#[local] Existing Instances Crypto.Sample.hkdf Crypto.Sample.hkdf_laws Crypto.Sample.sha
  Crypto.Sample.ed25519 SampleText.lower SampleText.lower_laws SampleText.compact.

Definition a_key : bytes := repeat "k"%byte 32.
Definition a_nonce : bytes := repeat "n"%byte 12.
Definition a_salt : bytes := repeat "s"%byte 16.
Definition a_code : bytes := repeat "r"%byte 20.
Definition a_time : spec_float := binary_normalize 53 1024 1700000000 0 false.
Definition ten_minutes : spec_float := binary_normalize 53 1024 600 0 false.

Definition a_draw : draws :=
  mk_draws a_key a_code a_salt a_nonce (repeat "t"%byte 16) a_nonce "/home/.tmp" a_time.

(** The symbols of the code, each as it may be typed. *)
Definition typed (l : bytes) : text := map (fun c => [lower_byte c]) l.

Lemma typed_transcribed l : transcribed l (typed l).
Proof.
  induction l as [|c l IH]; constructor; [|exact IH]. unfold reads, is_ch.
  by rewrite (bool_decide_eq_true_2 ([lower_byte c] = [lower_byte c])), orb_true_r.
Qed.

Lemma mistyped_code_refused_witness :
  is_ok (normalize_recovery_code (["7"%byte] :: tail (singles (full_code a_code)))) = false.
Proof.
  apply (mistyped_code_refused a_code); [reflexivity|].
  replace (clean_code (["7"%byte] :: tail (singles (full_code a_code))))
    with ([] ++ ["7"%byte] :: tail (singles (full_code a_code))) by (vm_compute; exact eq_refl).
  replace (singles (full_code a_code))
    with ([] ++ hd [] (singles (full_code a_code)) :: tail (singles (full_code a_code))) at 1
    by (vm_compute; exact eq_refl).
  apply wrong_symbol. vm_compute. discriminate.
Defined.

Lemma vault_key_recoverable_witness :
  exists d' k code k',
    create_vault a_draw "correct horse" (Some "laptop"%string) "/home/vault.json" ∅ = (d', Ok (k, code)) /\
    changes [(a_salt, a_nonce, "battery staple"%string, None)] k "correct horse"
      = Ok (k', "battery staple"%string) /\
    snd (load_vault_keyfile "/home/vault.json" d') = Ok k /\
    unlock_with_passphrase k' "battery staple" = Ok a_key /\
    unlock_with_recovery_code k' (typed (full_code a_code)) = Ok a_key.
Proof.
  destruct (create_vault a_draw "correct horse" (Some "laptop"%string) "/home/vault.json" ∅)
    as [d' [[k code]|e]] eqn:E; [|apply (f_equal (fun r => is_ok (snd r))) in E; vm_compute in E; discriminate].
  destruct (changes [(a_salt, a_nonce, "battery staple"%string, None)] k "correct horse") as [[k' p]|e] eqn:E'.
  - assert (p = "battery staple"%string) as ->.
    { simpl in E'. destruct (change_passphrase _ _ _ _ _ _); [|discriminate]. by injection E'. }
    exists d', k, code, k'. split; [reflexivity|]. split; [exact E'|].
    eapply (vault_key_recoverable a_draw "correct horse" (Some "laptop"%string) "/home/vault.json" ∅ d' k code
      [(a_salt, a_nonce, "battery staple"%string, None)] k' "battery staple" (typed (full_code a_code)));
      [reflexivity..| | | |]; [by repeat constructor|exact E|exact E'|apply typed_transcribed].
  - exfalso. assert (snd (create_vault a_draw "correct horse" (Some "laptop"%string) "/home/vault.json" ∅)
      = Ok (k, code)) as Hk by by rewrite E.
    vm_compute in Hk. injection Hk as <- <-. vm_compute in E'. discriminate.
Defined.

(** ** The database and the session *)

Definition some_tables : tables :=
  mk_tables {["theme"%string := lit "dark"]}
    {["m1"%string := mk_message "peer" "received" "hello" a_time "delivered"]} ∅.

Definition open_db : VaultDatabase := mk_vdb some_tables "/run/work.db" "/home/vault.db" (_derive_db_key a_key).

Definition open_session (d : disk) : session :=
  mk_session d ten_minutes false (Some a_key) (Some open_db) a_time false.

Lemma vault_never_lost_witness :
  exists ops, flush_ops a_nonce open_db (sqlite_bytes some_tables) = Some ops /\
  (exists d', Database.lock a_nonce [] open_db ∅ = (d', Ok ()) /\
     d' !! "/run/work.db"%string = None /\
     forall w, readable a_key "/home/vault.db" w d' some_tables) /\
  (forall d' w t, crashed (ops ++ secure_delete "/run/work.db" []) (commit open_db ∅) d' ->
     readable a_key "/home/vault.db" w ∅ t ->
     readable a_key "/home/vault.db" w d' t \/ readable a_key "/home/vault.db" w d' some_tables).
Proof.
  destruct (flush_ops a_nonce open_db (sqlite_bytes some_tables)) as [ops|] eqn:E;
    [|vm_compute in E; discriminate].
  exists ops. split; [reflexivity|].
  apply (vault_never_lost a_key a_nonce [] open_db ∅ ops); [reflexivity|reflexivity| |exact E].
  split; discriminate.
Defined.

Lemma session_key_guarded_witness :
  exists s, new_session ∅ ten_minutes = Some s /\
  let s' := srun [Unlock a_time a_key open_db; DontAsk true; Lock a_nonce []] s in
  sound s' /\
  (is_unlocked s' = false ->
   (forall a, a ∈ FILE_ACTIONS_REQUIRING_AUTH ->
      action_name a = a -> requires_reauth a s' = true) /\
   (forall g, guarded_run g s' = (s', Err SessionLockedError))) /\
  (forall nonce noise, _dek (fst (Session.lock nonce noise s')) = None).
Proof.
  destruct (new_session ∅ ten_minutes) as [s|] eqn:E; [|vm_compute in E; discriminate].
  exists s. split; [reflexivity|].
  exact (session_key_guarded ∅ ten_minutes s [Unlock a_time a_key open_db; DontAsk true; Lock a_nonce []] E).
Defined.

Definition a_keyfile : VaultKeyfile :=
  mk_keyfile 1 "scrypt" scrypt_params a_salt [] a_nonce a_salt [] a_nonce a_time None None.

Definition a_verifier_draw : verifier_draws := mk_vdraws a_salt (repeat "v"%byte 16) a_nonce.

Definition two_changes : list critical_call :=
  [CSet a_verifier_draw "open sesame"; CChange a_verifier_draw "open sesame" "second secret"].

Lemma export_needs_secret_witness :
  exists s' k', critical_runs two_changes (a_keyfile, None) (open_session ∅)
                = (s', Ok (k', Some "second secret"%string)) /\
  (authorize_export k' (Some "second secret"%string) s' = (s', Ok true) /\
   authorize_export k' None s' = (s', Ok false)) /\
  let locked := fst (Session.lock a_nonce [] s') in
  forall given, authorize_export k' given locked = (locked, Err SessionLockedError).
Proof.
  destruct (critical_runs two_changes (a_keyfile, None) (open_session ∅)) as [s' [[k' o]|e]] eqn:E;
    [|apply (f_equal (fun r => is_ok (snd r))) in E; vm_compute in E; discriminate].
  assert (o = Some "second secret"%string) as ->.
  { apply (f_equal (fun r => snd r)) in E. vm_compute in E. by injection E. }
  exists s', k'. split; [reflexivity|].
  apply (export_needs_secret two_changes a_keyfile (open_session ∅) s' k'
    (Some "second secret"%string) a_nonce []); [reflexivity|reflexivity| |exact E].
  repeat constructor.
Defined.

(** ** Secure files *)

Definition a_file_draw : file_draws := mk_file_draws "ab12" a_salt a_nonce a_time.
Definition a_disk : disk := {["/home/note.txt"%string := lit "hello"]}.

Lemma plain_ab12 : plain_id "ab12".
Proof. split; [discriminate|reflexivity]. Qed.

Lemma secure_file_roundtrip_witness :
  exists d' m,
    encrypt_file a_file_draw false "/home/note.txt" "/home/secure" a_key None None a_disk = (d', Ok m) /\
    (forall q, q <> secure_path_of "/home/secure" "ab12" -> q <> meta_path_of "/home/secure" "ab12" ->
       q <> (meta_path_of "/home/secure" "ab12" +:+ ".tmp")%string -> d' !! q = a_disk !! q) /\
    decrypt_file "ab12" "/home/secure" a_key "/tmp/out" d' = (<["/tmp/out"%string := lit "hello"]> d', Ok m).
Proof.
  apply (secure_file_roundtrip a_file_draw false "/home/note.txt" "/home/secure" a_key None None
    (lit "hello") a_disk "/tmp/out"); [apply plain_ab12|reflexivity|reflexivity|reflexivity].
Defined.

(** A crash in the middle of writing the ciphertext. *)
Lemma secure_file_crash_safe_witness :
  exists c, gcm_encrypt (_derive_file_key a_key a_salt) a_nonce (lit "hello") = Some c /\
  let d' := apply_op (Append "/home/secure/ab12.peercfile" (take 3 c))
              (apply_op (Create "/home/secure/ab12.peercfile") a_disk) in
  let m := new_metadata a_file_draw false "note.txt" None (lit "hello") in
  crashed (encrypt_ops a_file_draw "/home/secure" c m) a_disk d' /\
  d' !! "/home/note.txt"%string = Some (lit "hello") /\
  (load_metadata "/home/secure" "ab12" d' = Err SecureFile.FileNotFoundError \/
   decrypt_file "ab12" "/home/secure" a_key "/tmp/out" d'
   = (<["/tmp/out"%string := lit "hello"]> d', Ok m)).
Proof.
  destruct (gcm_encrypt (_derive_file_key a_key a_salt) a_nonce (lit "hello")) as [c|] eqn:E;
    [|vm_compute in E; discriminate].
  exists c. split; [reflexivity|]. intros d' m.
  assert (crashed (encrypt_ops a_file_draw "/home/secure" c m) a_disk d') as Hc.
  { apply crash_later, crash_in_write. }
  split; [exact Hc|].
  apply (secure_file_crash_safe a_file_draw false "/home/note.txt" "/home/secure" a_key "note.txt" None
    (lit "hello") c a_disk d' "/tmp/out"); [apply plain_ab12|reflexivity|exact E|reflexivity| |..|exact Hc].
  - vm_compute. reflexivity.
  - rewrite !not_elem_of_cons. repeat split; try discriminate. apply not_elem_of_nil.
Defined.

(** The disk with the encrypted note, and a session that does not ask. *)
Definition secured : disk :=
  fst (encrypt_file a_file_draw false "/home/note.txt" "/home/secure" a_key None None a_disk).

Definition trusting : session := set_dont_ask true (open_session secured).

Lemma opened_files_inert_witness :
  exists w' m,
    open_secure_file [] false "ab12" "/home/secure" "/tmp/peerc_open_1" (Some check_executable_for_open)
      (trusting, empty_gdb) = (w', Ok ("/tmp/peerc_open_1/note.txt"%string, m)) /\
    snd w' = empty_gdb /\
    "/tmp/peerc_open_1/note.txt"%string
      = path_join "/tmp/peerc_open_1" (plain_name false (original_filename m)) /\
    exists content, the_disk (fst w') = <["/tmp/peerc_open_1/note.txt"%string := content]> secured /\
      inert content /\ _check_extension "/tmp/peerc_open_1/note.txt" = false.
Proof.
  destruct (open_secure_file [] false "ab12" "/home/secure" "/tmp/peerc_open_1"
    (Some check_executable_for_open) (trusting, empty_gdb)) as [w' [[p m]|e]] eqn:E;
    [|apply (f_equal (fun r => is_ok (snd r))) in E; vm_compute in E; discriminate].
  assert (p = "/tmp/peerc_open_1/note.txt"%string) as ->.
  { apply (f_equal (fun r => snd r)) in E. vm_compute in E. by injection E. }
  exists w', m. split; [reflexivity|].
  exact (opened_files_inert [] false "ab12" "/home/secure" "/tmp/peerc_open_1" (trusting, empty_gdb) w' _ E).
Defined.

Lemma export_passes_both_gates_witness :
  exists w' m,
    export_secure_file "ab12" "/home/secure" "/home/out.txt" a_keyfile None None
      (fun _ => mk_readings a_time a_time a_time) None None None (open_session secured, empty_gdb)
      = (w', Ok m) /\
    is_unlocked (open_session secured) = true /\
    group_gate_passed None (fun _ => mk_readings a_time a_time a_time) None None
      (Some "ab12"%string) None empty_gdb (snd w') /\
    authorize_export a_keyfile None (open_session secured) = (open_session secured, Ok true) /\
    secured !! "/home/out.txt"%string = None /\
    exists content, fst w' = set_disk (<["/home/out.txt"%string := content]> secured) (open_session secured).
Proof.
  destruct (export_secure_file "ab12" "/home/secure" "/home/out.txt" a_keyfile None None
      (fun _ => mk_readings a_time a_time a_time) None None None (open_session secured, empty_gdb))
    as [w' [m|e]] eqn:E;
    [|apply (f_equal (fun r => is_ok (snd r))) in E; vm_compute in E; discriminate].
  exists w', m. split; [reflexivity|].
  exact (export_passes_both_gates "ab12" "/home/secure" "/home/out.txt" a_keyfile None None
    (fun _ => mk_readings a_time a_time a_time) None None None (open_session secured, empty_gdb) w' _ E).
Defined.

Definition a_config : config :=
  mk_config "/home/vault.json" "/home/secure" "/home/downloads" false "me" None.

Lemma file_commands_never_succeed_witness :
  exists s, new_session secured ten_minutes = Some s /\
  let w := (srun [Unlock a_time a_key open_db; Touch a_time] s, empty_gdb) in
  (forall noise temp_dir answer file_id,
     refused w (_handle_open_file a_config noise temp_dir answer file_id w)) /\
  (forall r answer path, refused w (_handle_move_to_secure a_config r answer path w)) /\
  (forall answer file_id, refused w (_handle_delete_file a_config answer file_id w)) /\
  (forall mode typed typed' file_id,
     _handle_delete_file a_config (Some (mode, typed)) file_id w =
     _handle_delete_file a_config (Some (mode, typed')) file_id w).
Proof.
  destruct (new_session secured ten_minutes) as [s|] eqn:E;
    [|apply (f_equal (fun r => bool_decide (is_Some r))) in E; vm_compute in E; discriminate].
  exists s. split; [reflexivity|].
  apply (file_commands_never_succeed a_config secured ten_minutes s
    [Unlock a_time a_key open_db; Touch a_time] empty_gdb); [exact E|by repeat constructor].
Defined.

Definition critical_keyfile : VaultKeyfile := set_critical_salts (Some a_salt) (Some a_salt) a_keyfile.

Definition critical_world : session * gdb :=
  (open_session (run_ops (save_vault_keyfile "/home/.tmp" "/home/vault.json" critical_keyfile) secured),
   empty_gdb).

Lemma critical_key_ends_export_witness :
  critical_action_key_configured critical_keyfile = true /\
  let r := _handle_export_file a_config (fun _ => mk_readings a_time a_time a_time)
             (Some "open sesame"%string) "ab" critical_world in
  fst (fst r) = fst critical_world /\ forall path m, snd r <> Ok (Exported path m).
Proof.
  split; [reflexivity|].
  apply (critical_key_ends_export a_config (fun _ => mk_readings a_time a_time a_time)
    (Some "open sesame"%string) "ab" critical_world critical_keyfile); [|reflexivity].
  apply (load_saved "/home/.tmp" "/home/vault.json" critical_keyfile secured). reflexivity.
Defined.
