(* ===== verification/TrustApp.v ===== *)
(** * Trust decisions and the lock in the application

    Models the parts of [app/ui/app.py] and [app/ui/modals/identity.py] that decide about
    devices and lock the vault: the queue of trust prompts (module [Prompts]), the decisions
    taken in prompts, in the detail view and by command (module [Decisions]), locking and
    unlocking again (module [Locking]) and the review of security events (module [Review]).

    A screen of the Textual library is what the program asks of it: [push_screen] puts it on top
    of the stack, [pop_screen] takes the top one away, and the callback given to [push_screen]
    runs, later, when the screen was dismissed.  What [dismiss] does to a screen that is not on
    top is an argument of the lock. *)

From Corelib Require Import SpecFloat.
From S2P Require Import Prelude Dicts Text Json Crypto Canonical Security Messages Trust Group GroupStore.
From S2P Require Import GroupPolicy Connectivity Files Discovery GroupApp Disk VaultKeys VaultSession VaultFiles.
Local Open Scope peerc_scope.
Local Open Scope Z_scope.

(** ** The queue of prompts *)
Module Prompts.

(** The event of a connection that needs a decision. *)
Record TrustRequired := mk_required {
  peer_id : string;
  peer_name : string;
  public_key : string;
  addr_key : option string;
  reason : string
}.

Definition combo (e : TrustRequired) : string * string := (peer_id e, public_key e).

Inductive screen : Type :=
| TrustPromptModal (e : TrustRequired)
| FileOfferModal
| VaultUnlockModal
| VaultCreateModal
| VaultRecoveryCodeModal
| CriticalActionKeyModal
| OtherScreen.

Definition blocks (s : screen) : bool :=
  match s with TrustPromptModal _ | OtherScreen => false | _ => true end.

Record prompts := mk_prompts {
  _trust_prompt_queue : list TrustRequired;
  _trust_prompt_open : bool;
  _current_trust_prompt : option TrustRequired;
  screen_stack : list screen;         (** the top one first *)
  _relocking : bool;
  session_locked : bool;              (** there is a session and it is locked *)
  callbacks : nat;                    (** [_on_prompt_dismissed] of dismissed screens, to run *)
  refreshes : nat                     (** [call_after_refresh(_dequeue_next_trust_prompt)] *)
}.

Definition with_prompt (q : list TrustRequired) (o : bool) (c : option TrustRequired) (st : list screen)
    (p : prompts) : prompts :=
  mk_prompts q o c st (_relocking p) (session_locked p) (callbacks p) (refreshes p).
Definition with_pending (c r : nat) (p : prompts) : prompts :=
  mk_prompts (_trust_prompt_queue p) (_trust_prompt_open p) (_current_trust_prompt p) (screen_stack p)
    (_relocking p) (session_locked p) c r.

Definition _has_blocking_modal (p : prompts) : bool := _relocking p || existsb blocks (screen_stack p).

(** [push_screen(TrustPromptModal(evt), callback=...)] with the two fields set before. *)
Definition open_prompt (q : list TrustRequired) (e : TrustRequired) (p : prompts) : prompts :=
  with_prompt q true (Some e) (TrustPromptModal e :: screen_stack p) p.

Definition already_open (e : TrustRequired) (p : prompts) : bool :=
  match _trust_prompt_open p, _current_trust_prompt p with
  | true, Some c => bool_decide (combo c = combo e)
  | _, _ => false
  end.

Definition _on_trust_required (e : TrustRequired) (p : prompts) : prompts :=
  if existsb (fun i => bool_decide (combo i = combo e)) (_trust_prompt_queue p) then p
  else if already_open e p then p
  else if _has_blocking_modal p || _trust_prompt_open p then
    with_prompt (_trust_prompt_queue p ++ [e]) (_trust_prompt_open p) (_current_trust_prompt p)
      (screen_stack p) p
  else open_prompt (_trust_prompt_queue p) e p.

Definition _dequeue_next_trust_prompt (p : prompts) : prompts :=
  if _trust_prompt_open p then p
  else if _has_blocking_modal p then p
  else if session_locked p then p
  else
    match _trust_prompt_queue p with
    | [] => p
    | e :: q => open_prompt (List.filter (fun i => negb (bool_decide (combo i = combo e))) q) e p
    end.

Definition _on_prompt_dismissed (p : prompts) : prompts :=
  if negb (_trust_prompt_open p) && negb (bool_decide (is_Some (_current_trust_prompt p))) then p
  else
    _dequeue_next_trust_prompt
      (with_prompt (_trust_prompt_queue p) false None (screen_stack p) p).

(** [ChatApp.pop_screen]. *)
Definition pop_screen (p : prompts) : prompts :=
  match screen_stack p with
  | [] => p
  | s :: st =>
      let p' := with_prompt (_trust_prompt_queue p) (_trust_prompt_open p) (_current_trust_prompt p) st p in
      match s with
      | TrustPromptModal _ => _on_prompt_dismissed p'
      | _ => if blocks s then with_pending (callbacks p') (S (refreshes p')) p' else p'
      end
  end.

(** [dismiss] of the screen on top: its callback is scheduled, and it is popped. *)
Definition dismiss (p : prompts) : prompts :=
  match screen_stack p with
  | TrustPromptModal _ :: _ => pop_screen (with_pending (S (callbacks p)) (refreshes p) p)
  | _ => pop_screen p
  end.

(** What the event loop of Textual runs later. *)
Definition run_callback (p : prompts) : prompts :=
  match callbacks p with
  | O => p
  | S n => _on_prompt_dismissed (with_pending n (refreshes p) p)
  end.
Definition run_refresh (p : prompts) : prompts :=
  match refreshes p with
  | O => p
  | S n => _dequeue_next_trust_prompt (with_pending (callbacks p) n p)
  end.

(** A screen that is not a prompt is pushed. *)
Definition push_other (s : screen) (p : prompts) : prompts :=
  match s with
  | TrustPromptModal _ => p
  | _ => with_prompt (_trust_prompt_queue p) (_trust_prompt_open p) (_current_trust_prompt p)
           (s :: screen_stack p) p
  end.

(** The part of [_perform_hard_lock] that is about prompts; [inactive] is [dismiss] of the
    prompts of a stack whose top is no prompt. *)
Definition clear_prompts (inactive : list screen -> list screen) (p : prompts) : prompts :=
  let p := with_prompt [] (_trust_prompt_open p) (_current_trust_prompt p) (screen_stack p) p in
  let p := match screen_stack p with
           | TrustPromptModal _ :: _ => pop_screen p
           | st => with_prompt [] (_trust_prompt_open p) (_current_trust_prompt p) (inactive st) p
           end in
  with_prompt (_trust_prompt_queue p) false None (screen_stack p) p.

Definition set_relocking (b : bool) (p : prompts) : prompts :=
  mk_prompts (_trust_prompt_queue p) (_trust_prompt_open p) (_current_trust_prompt p) (screen_stack p) b
    (session_locked p) (callbacks p) (refreshes p).
Definition set_session_locked (b : bool) (p : prompts) : prompts :=
  mk_prompts (_trust_prompt_queue p) (_trust_prompt_open p) (_current_trust_prompt p) (screen_stack p)
    (_relocking p) b (callbacks p) (refreshes p).

(** *** Runs *)

Inductive event : Type :=
| Required (e : TrustRequired)
| Dismissed                              (** the top screen, by its own buttons *)
| Pushed (s : screen)
| CallbackRuns
| RefreshRuns
| OfferAnswered                          (** [_on_offer_received] after its dialog *)
| Locked (inactive : list screen -> list screen)
| Relocking (b : bool)
| SessionLocked (b : bool).

Definition step (ev : event) (p : prompts) : prompts :=
  match ev with
  | Required e => _on_trust_required e p
  | Dismissed => dismiss p
  | Pushed s => push_other s p
  | CallbackRuns => run_callback p
  | RefreshRuns => run_refresh p
  | OfferAnswered => _dequeue_next_trust_prompt p
  | Locked inactive => clear_prompts inactive p
  | Relocking b => set_relocking b p
  | SessionLocked b => set_session_locked b p
  end.

Definition run (l : list event) (p : prompts) : prompts := foldl (fun p ev => step ev p) p l.

Definition fresh : prompts := mk_prompts [] false None [] false true 0 0.

End Prompts.

(** ** Decisions *)
Module Decisions.
Import Trust.Store Prompts.

Record desk := mk_desk {
  screens : prompts;
  trust_store : option Store.db;
  group_store : option gdb;
  locator_store : option LocatorStore.ldb;
  policy_enforcer : bool;                   (** set; it is over [group_store] *)
  persistence : option bool;                (** when there is one: attached to a database *)
  vault_session : option Session.session;
  vault_db : option Database.VaultDatabase;
  display_name : string
}.

(** Exceptions that leave a handler. *)
Inductive desk_error : Type :=
| TrustRaised (e : trust_error)
| PolicyRaised (e : policy_error)
| SessionRaised (e : Session.session_error)
| DatabaseRaised (e : Database.db_error)
| KeyfileRaised (e : Keyfile.VaultError).

Abbreviation dop := (stm desk desk_error).

Definition set_screens (p : prompts) (d : desk) : desk :=
  mk_desk p (trust_store d) (group_store d) (locator_store d) (policy_enforcer d) (persistence d)
    (vault_session d) (vault_db d) (display_name d).
Definition on_screens (f : prompts -> prompts) (d : desk) : desk := set_screens (f (screens d)) d.
Definition set_trust (t : option Store.db) (d : desk) : desk :=
  mk_desk (screens d) t (group_store d) (locator_store d) (policy_enforcer d) (persistence d)
    (vault_session d) (vault_db d) (display_name d).
Definition set_group (g : option gdb) (d : desk) : desk :=
  mk_desk (screens d) (trust_store d) g (locator_store d) (policy_enforcer d) (persistence d)
    (vault_session d) (vault_db d) (display_name d).

Definition on_trust {A} (t : Store.db) (m : Store.op A) (k : result trust_error A -> dop unit) : dop unit :=
  fun d => let '(t', r) := m t in k r (set_trust (Some t') d).

(** *** The list of devices *)

(** [ORDER BY last_seen DESC]. *)
Definition list_all (st : option TrustStatus) : Store.op (list (string * TrustedDevice)) :=
  Store._require_conn ;;
  gets (fun d =>
    sort_by (fun a b => SFltb (last_seen (snd b)) (last_seen (snd a)))
      (List.filter (fun kd => match st with Some s => bool_decide (status (snd kd) = s) | None => true end)
         (map_to_list (devices d)))).

Inductive resolution : Type :=
| NoDevice
| Ambiguous
| Found (d : string * TrustedDevice).

(** The device a prefix names: the only match, or the one that is equal. *)
Definition resolve `{LowerCase} (prefix : string) (all : list (string * TrustedDevice)) : resolution :=
  match List.filter (fun d => startswith (str_lower (fst d)) (str_lower prefix)) all with
  | [] => NoDevice
  | [d] => Found d
  | matches =>
      match List.filter (fun d => bool_decide (str_lower (fst d) = str_lower prefix)) matches with
      | [d] => Found d
      | _ => Ambiguous
      end
  end.

Section Decide.
Context `{Ed25519, Sha256, JsonText, CompactJson, LowerCase}.

Definition approve_in_store (t : Store.db) (device_id : string) : dop unit :=
  on_trust t (approve device_id) (fun r =>
    match r with
    | Ok _ | Err (CannotApprove _) => mret ()
    | Err er => raise (TrustRaised er)
    end).

(** [clock]: the readings of the policy check, by group. *)
Definition _do_trust_approve (clock : string -> spec_float) (device_id : string) : dop unit := fun d =>
  match trust_store d with
  | None => (d, Ok ())
  | Some t =>
      match group_store d with
      | None => approve_in_store t device_id d
      | Some g =>
          let '(g', r) := check_external_trust true clock device_id g in
          let d := set_group (Some g') d in
          match r with
          | Ok _ => approve_in_store t device_id d
          | Err (ExternalTrustDeniedError _) => (d, Ok ())
          | Err er => (d, Err (PolicyRaised er))
          end
      end
  end.

Definition _do_trust_revoke (now : spec_float) (device_id : string) (why : option string) : dop unit := fun d =>
  match trust_store d with
  | None => (d, Ok ())
  | Some t =>
      let by_ := GroupApp.or_else (Some (display_name d)) "local user" in
      on_trust t (revoke_device now device_id by_ why) (fun r =>
        match r with
        | Ok _ | Err (CannotRevoke _) => mret ()
        | Err er => raise (TrustRaised er)
        end) d
  end.

(** *** The dialogs *)

Inductive action : Type := TrustIt | RejectIt | RevokeIt.

(** [TrustConfirmModal]: confirmed with the text of its field, or cancelled. *)
Definition confirm_result (a : action) (confirmed : bool) (field : string) : option string :=
  if negb confirmed then None
  else match a with TrustIt => Some ""%string | _ => Some (stripped field) end.

(** The decision buttons of [TrustDeviceDetailModal]. *)
Definition detail_buttons (s : TrustStatus) : list action :=
  match s with PENDING => [TrustIt; RejectIt] | TRUSTED => [RevokeIt] | REVOKED => [] end.

Definition decide_on (now : spec_float) (clock : string -> spec_float) (a : action) (device_id : string)
    (why : option string) : dop unit :=
  match a with
  | TrustIt => _do_trust_approve clock device_id
  | RejectIt | RevokeIt => _do_trust_revoke now device_id why
  end.

(** [_refresh]: the record shown next; [None] closes the view. *)
Definition _refresh (device_id : string) : dop (option TrustedDevice) := fun d =>
  match trust_store d with
  | None => (d, Ok None)
  | Some t =>
      match snd (get_device device_id t) with
      | Ok o => (d, Ok o)
      | Err er => (d, Err (TrustRaised er))
      end
  end.

(** A button of the detail view and the answer of its confirmation. *)
Definition detail_pressed (now : spec_float) (clock : string -> spec_float) (a : action) (device_id : string)
    (answer : option string) (shown : TrustedDevice) : dop (option TrustedDevice) :=
  match answer with
  | None => mret (Some shown)
  | Some why => decide_on now clock a device_id (or_text (Some why) None) ;; _refresh device_id
  end.

(** A button of the prompt on top; the prompt stays when the decision raises. *)
Inductive prompt_button : Type := PressTrust | PressReject | PressLater.

Definition prompt_pressed (now : spec_float) (clock : string -> spec_float) (b : prompt_button) : dop unit :=
  st ← gets (fun d => screen_stack (screens d));
  match st with
  | TrustPromptModal e :: _ =>
      match b with
      | PressTrust => _do_trust_approve clock (peer_id e)
      | PressReject => _do_trust_revoke now (peer_id e) None
      | PressLater => mret ()
      end ;;
      modify (on_screens dismiss)
  | _ => mret ()
  end.

(** *** Commands *)

(** [/trust]: the device whose view opens. *)
Definition _cmd_trust_detail (arg : string) : dop (option (string * TrustedDevice)) := fun d =>
  match trust_store d with
  | None => (d, Ok None)
  | Some t =>
      if is_blank arg then (d, Ok None) else
      match snd (list_all None t) with
      | Err er => (d, Err (TrustRaised er))
      | Ok all =>
          match resolve (stripped arg) all with
          | Found dev => (d, Ok (Some dev))
          | _ => (d, Ok None)
          end
      end
  end.

(** [/revoke] up to its dialog: the device, the verb and the reason shown. *)
Definition _cmd_revoke (arg : string) : dop (option (string * action * string)) := fun d =>
  match trust_store d with
  | None => (d, Ok None)
  | Some t =>
      match split_once (str_chars (stripped arg)) with
      | None => (d, Ok None)
      | Some (prefix, why) =>
          match snd (list_all None t) with
          | Err er => (d, Err (TrustRaised er))
          | Ok all =>
              match resolve prefix all with
              | Found dev =>
                  (d, Ok (Some (fst dev,
                       if bool_decide (status (snd dev) = TRUSTED) then RevokeIt else RejectIt,
                       or_empty why)))
              | _ => (d, Ok None)
              end
          end
      end
  end.

(** The rest of [/revoke], with the answer of the dialog. *)
Definition revoke_answered (now : spec_float) (device_id : string) (answer : option string) : dop unit :=
  match answer with
  | None => mret ()
  | Some why => _do_trust_revoke now device_id (or_text (Some why) None)
  end.

End Decide.
End Decisions.

(** ** Locking and unlocking again *)
Module Locking.
Import Prompts Decisions.

Section Lock.
Context `{AesGcm, Hkdf, Scrypt, JsonText, Database.SqliteFile, UpperCase}.

Definition set_session (s : option Session.session) (d : desk) : desk :=
  let locked := match s with Some s => negb (Session.is_unlocked s) | None => false end in
  mk_desk (set_session_locked locked (screens d)) (trust_store d) (group_store d) (locator_store d)
    (policy_enforcer d) (persistence d) s (vault_db d) (display_name d).

(** The stores, the history and the enforcer are attached ([true]) or detached; attaching makes
    an enforcer only when there is a group store. *)
Definition attach (b : bool) (d : desk) : desk :=
  mk_desk (screens d)
    ((fun t => fst (Store.adopt_conn b t)) <$> trust_store d)
    ((fun g => fst (adopt_conn b g)) <$> group_store d)
    ((fun l => fst (LocatorStore.adopt_conn b l)) <$> locator_store d)
    (if b then policy_enforcer d || bool_decide (is_Some (group_store d)) else false)
    ((fun _ => b) <$> persistence d) (vault_session d) (vault_db d) (display_name d).

Definition set_vault_db (v : option Database.VaultDatabase) (d : desk) : desk :=
  mk_desk (screens d) (trust_store d) (group_store d) (locator_store d) (policy_enforcer d) (persistence d)
    (vault_session d) v (display_name d).

(** [_perform_hard_lock] after it cancelled the transfers. *)
Definition _perform_hard_lock (inactive : list screen -> list screen) (nonce noise : bytes) : dop unit := fun d =>
  let d := attach false (on_screens (clear_prompts inactive) d) in
  match vault_session d with
  | Some s =>
      if Session.is_unlocked s then
        let '(s', r) := Session.lock nonce noise s in
        let d := set_session (Some s') d in
        match r with
        | Ok _ => (set_vault_db None d, Ok ())
        | Err er => (d, Err (SessionRaised er))
        end
      else (set_vault_db None d, Ok ())
  | None => (set_vault_db None d, Ok ())
  end.

(** [_reunlock_vault] up to its dialog: whether it opens. *)
Definition reunlock_start : dop bool := fun d =>
  if _relocking (screens d) then (d, Ok false)
  else (on_screens (set_relocking true) d, Ok true).

(** What to do when the lock is asked for: nothing, the dialog only, or the lock before it. *)
Definition _lock_and_reprompt (d : desk) : option bool :=
  if _relocking (screens d) then None
  else match vault_session d with
       | Some s => Some (Session.is_unlocked s)
       | None => Some false
       end.

Definition finally {A} (m : dop A) (f : desk -> desk) : dop A := fun d =>
  let '(d', r) := m d in (f d', r).

(** The rest, with the answers of the dialog; [false] while it waits for another. *)
Definition reunlock_answered (now seconds : spec_float) (k : Keyfile.VaultKeyfile)
    (answers : list (string * string)) (path working : string) (disk0 : Disk.disk) : dop bool := fun d =>
  match Commands._unlock_vault_loop k answers with
  | Ok None => (d, Ok false)
  | r =>
      finally (fun d =>
        match r with
        | Err er => (d, Err (KeyfileRaised er))
        | Ok None => (d, Ok false)
        | Ok (Some dek) =>
            let disk := match vault_session d with Some s => Session.the_disk s | None => disk0 end in
            let '(disk, opened) := Database.unlock dek path working disk in
            let s := match vault_session d with
                     | Some s => Some (Session.set_disk disk s)
                     | None => Session.new_session disk seconds
                     end in
            match opened, s with
            | Err er, Some s => (set_session (Some s) d, Err (DatabaseRaised er))
            | Err er, None => (d, Err (DatabaseRaised er))
            | Ok _, None => (d, Err (SessionRaised Session.SessionValueError))
            | Ok v, Some s =>
                let '(s', u) := Session.unlock now dek v s in
                let d := set_session (Some s') (set_vault_db (Some v) d) in
                match u with
                | Err er => (d, Err (SessionRaised er))
                | Ok _ => (attach true d, Ok true)
                end
            end
        end) (on_screens (set_relocking false)) d
  end.

(** One turn of [_auto_lock_loop]: whether it locks. *)
Definition auto_lock_due (now : spec_float) (d : desk) : bool :=
  negb (_relocking (screens d)) &&
  match vault_session d with
  | Some s => Session.is_unlocked s && Session.idle_expired now s
  | None => false
  end.

End Lock.
End Locking.

(** ** The review of security events *)
Module Review.
Import Security.

Definition _SECURITY_EVENT_LOG_CAP : nat := 200.

Definition _on_security_event_buffered (ev : SecurityEvent) (log : list SecurityEvent) : list SecurityEvent :=
  let log := log ++ [ev] in drop (length log - _SECURITY_EVENT_LOG_CAP) log.

Definition group_key (ev : SecurityEvent) : string * string := (event_type ev, or_empty (device_id ev)).

(** One step of the loop over the dictionary [best]. *)
Fixpoint keep_latest (ev : SecurityEvent) (best : list ((string * string) * SecurityEvent))
    : list ((string * string) * SecurityEvent) :=
  match best with
  | [] => [(group_key ev, ev)]
  | (k, prev) :: best' =>
      if bool_decide (k = group_key ev) then
        (k, if SFleb (timestamp prev) (timestamp ev) then ev else prev) :: best'
      else (k, prev) :: keep_latest ev best'
  end.

Definition _group_security_events (events : list SecurityEvent) : list SecurityEvent :=
  sort_by (fun a b => SFltb (timestamp b) (timestamp a))
    (map snd (foldl (fun best ev => keep_latest ev best) [] events)).

(** [validate_display_name]: control characters, and 32 characters at most. *)
Definition validate_display_name (name : string) : bool :=
  negb (existsb (fun c => (byte.unsigned c <? 32) || (byte.unsigned c =? 127)) (str_bytes name))
  && (length (str_chars name) <=? 32)%nat.

End Review.
