(* ===== verification/TrustAppTheory.v ===== *)
(** * What trust prompts, decisions and the lock guarantee

    Theorems about [TrustApp]: prompts are consistent and no request is lost, devices become
    trusted by a decision only, a lock detaches everything and unlocking attaches it again, and
    the review of security events shows the latest of each kind. *)

From Corelib Require Import SpecFloat.
From S2P Require Import Prelude Dicts Text Json Crypto Canonical Security Messages Trust Group GroupStore.
From S2P Require Import GroupPolicy Connectivity Files Discovery GroupApp Disk VaultKeys VaultSession VaultFiles.
From S2P Require Import VaultSessionTheory VaultScenarios TrustApp.
Local Open Scope peerc_scope.
Local Open Scope Z_scope.

(** ** Prompts *)
Module PromptTheory.
Import Prompts.

(** The topmost prompt of a stack. *)
Fixpoint topmost (st : list screen) : option TrustRequired :=
  match st with
  | [] => None
  | TrustPromptModal e :: _ => Some e
  | _ :: st' => topmost st'
  end.

Record consistent (p : prompts) : Prop := {
  queue_distinct : NoDup (map combo (_trust_prompt_queue p));
  closed_none : _trust_prompt_open p = false -> _current_trust_prompt p = None;
  open_current : _trust_prompt_open p = true ->
    exists c, _current_trust_prompt p = Some c /\ topmost (screen_stack p) = Some c /\
      combo c ∉ map combo (_trust_prompt_queue p)
}.

Lemma filter_combo_elem e q k :
  k ∈ map combo (List.filter (fun i => negb (bool_decide (combo i = combo e))) q) <->
  k ∈ map combo q /\ k <> combo e.
Proof.
  rewrite !list_elem_of_fmap. setoid_rewrite list_elem_of_In. setoid_rewrite filter_In.
  setoid_rewrite negb_true_iff. setoid_rewrite bool_decide_eq_false. split.
  - intros (i & -> & Hin & Hne). split; [by exists i|done].
  - intros [(i & -> & Hin) Hne]. by exists i.
Qed.

Lemma filter_combo_nodup f q : NoDup (map combo q) -> NoDup (map combo (List.filter f q)).
Proof.
  induction q as [|i q IH]; intros Hnd; [done|]. cbn in Hnd. apply NoDup_cons in Hnd as [Hi Hnd]. cbn.
  destruct (f i); [|by apply IH]. cbn. apply NoDup_cons. split; [|by apply IH]. contradict Hi.
  apply list_elem_of_fmap in Hi as (j & E & Hin). apply list_elem_of_fmap. exists j. split; [done|].
  rewrite list_elem_of_In in Hin. apply filter_In in Hin as [Hin _]. by rewrite list_elem_of_In.
Qed.

Lemma existsb_combo q e :
  existsb (fun i => bool_decide (combo i = combo e)) q = true <-> combo e ∈ map combo q.
Proof.
  rewrite existsb_exists, list_elem_of_fmap. setoid_rewrite bool_decide_eq_true.
  setoid_rewrite list_elem_of_In. split; intros (x & H1 & H2); eauto.
Qed.

Lemma consistent_open q e p :
  NoDup (map combo q) -> combo e ∉ map combo q -> consistent (open_prompt q e p).
Proof. intros Hq He. split; cbn; [done|done|]. intros _. by exists e. Qed.

Lemma consistent_dequeue p : consistent p -> consistent (_dequeue_next_trust_prompt p).
Proof.
  intros Hc. unfold _dequeue_next_trust_prompt.
  destruct (_trust_prompt_open p); [done|]. destruct (_has_blocking_modal p); [done|].
  destruct (session_locked p); [done|]. destruct (_trust_prompt_queue p) as [|e q] eqn:Eq; [done|].
  pose proof (queue_distinct p Hc) as Hnd. rewrite Eq in Hnd. cbn in Hnd. apply NoDup_cons in Hnd as [He Hnd].
  apply consistent_open; [by apply filter_combo_nodup|]. rewrite filter_combo_elem. by intros [_ ?].
Qed.

Lemma consistent_closed q st p : NoDup (map combo q) -> consistent (with_prompt q false None st p).
Proof. intros Hq. split; cbn; done. Qed.

Lemma consistent_dismissed p :
  NoDup (map combo (_trust_prompt_queue p)) ->
  (_trust_prompt_open p = false -> _current_trust_prompt p = None) ->
  consistent (_on_prompt_dismissed p).
Proof.
  intros Hq Hn. unfold _on_prompt_dismissed.
  destruct (_trust_prompt_open p) eqn:Eo; cbn [negb andb];
    [by apply consistent_dequeue, consistent_closed|].
  rewrite (Hn eq_refl), bool_decide_eq_false_2 by (intros []; done). cbn [negb].
  split; rewrite ?Eo, ?(Hn eq_refl); done.
Qed.

(** Changes of the other fields. *)
Lemma consistent_same p p' :
  _trust_prompt_queue p' = _trust_prompt_queue p -> _trust_prompt_open p' = _trust_prompt_open p ->
  _current_trust_prompt p' = _current_trust_prompt p -> topmost (screen_stack p') = topmost (screen_stack p) ->
  consistent p -> consistent p'.
Proof. intros E1 E2 E3 E4 [H1 H2 H3]. split; rewrite ?E1, ?E2, ?E3, ?E4; done. Qed.

Lemma consistent_pop p : consistent p -> consistent (pop_screen p).
Proof.
  intros Hc. unfold pop_screen. destruct (screen_stack p) as [|s st] eqn:Es; [done|].
  destruct s; cbn [blocks]; try (by eapply consistent_same; [..|exact Hc]; cbn; rewrite ?Es).
  destruct Hc as [Hq Hn _]. by apply consistent_dismissed.
Qed.

Lemma consistent_required e p : consistent p -> consistent (_on_trust_required e p).
Proof.
  intros Hc. unfold _on_trust_required.
  destruct (existsb _ _) eqn:Ex; [done|]. destruct (already_open e p) eqn:Ea; [done|].
  assert (combo e ∉ map combo (_trust_prompt_queue p)) as He
    by (rewrite <- existsb_combo, Ex; discriminate).
  destruct (_has_blocking_modal p || _trust_prompt_open p) eqn:Eb;
    [|apply consistent_open; [apply Hc|done]].
  destruct Hc as [Hq Hn Ho]. split; cbn; rewrite ?map_app.
  - apply NoDup_app. split_and!; [done| |by apply NoDup_singleton].
    intros k Hk ->%list_elem_of_singleton. done.
  - done.
  - intros Eo. destruct (Ho Eo) as (c & Ec & Et & Hc). exists c. split_and!; [done|done|].
    rewrite elem_of_app. intros [?|E%list_elem_of_singleton]; [done|].
    unfold already_open in Ea. rewrite Eo, Ec in Ea. by apply bool_decide_eq_false in Ea.
Qed.

Lemma consistent_step ev p : consistent p -> consistent (step ev p).
Proof.
  intros Hc. destruct ev; cbn [step].
  - by apply consistent_required.
  - unfold dismiss. destruct (screen_stack p) as [|[] st] eqn:Es; try by apply consistent_pop.
    apply consistent_pop. by eapply consistent_same; [..|exact Hc].
  - unfold push_other. destruct s; try done; by eapply consistent_same; [..|exact Hc].
  - unfold run_callback. destruct (callbacks p); [done|]. destruct Hc as [Hq Hn _].
    by apply consistent_dismissed.
  - unfold run_refresh. destruct (refreshes p); [done|].
    apply consistent_dequeue. by eapply consistent_same; [..|exact Hc].
  - by apply consistent_dequeue.
  - unfold clear_prompts. apply consistent_closed.
    match goal with |- NoDup (map combo (_trust_prompt_queue ?q)) => set (p' := q) end.
    enough (_trust_prompt_queue p' = []) as -> by constructor. subst p'. cbn.
    destruct (screen_stack p) as [|[] st] eqn:Es; try reflexivity.
    unfold pop_screen. cbn. unfold _on_prompt_dismissed. cbn.
    destruct (negb _ && negb _); [done|]. unfold _dequeue_next_trust_prompt. cbn.
    by destruct (_has_blocking_modal _), (session_locked p).
  - by eapply consistent_same; [..|exact Hc].
  - by eapply consistent_same; [..|exact Hc].
Qed.

Lemma consistent_run l p : consistent p -> consistent (run l p).
Proof. unfold run. revert p. induction l as [|ev l IH]; intros p Hc; [done|]. by apply IH, consistent_step. Qed.

Lemma consistent_fresh : consistent fresh.
Proof. by split; cbn; [constructor|..]. Qed.

(** Prompts are consistent.  In any interleaving of requests, dialogs, callbacks and locks the
    queue holds each device and key at most once, a prompt counts as open exactly when one is
    recorded, and that one is the topmost prompt on the screen and not in the queue. *)
Theorem prompts_consistent l : consistent (run l fresh).
Proof. apply consistent_run, consistent_fresh. Qed.

(** *** No request is lost *)

(** The request waits in the queue or its prompt is on the screen. *)
Definition tracked (p : prompts) (k : string * string) : Prop :=
  k ∈ map combo (_trust_prompt_queue p) \/
  exists e, TrustPromptModal e ∈ screen_stack p /\ combo e = k.

(** The event ends the request: its own prompt is dismissed, or the vault is locked. *)
Definition ends (k : string * string) (p : prompts) (ev : event) : bool :=
  match ev with
  | Locked _ => true
  | Dismissed => match screen_stack p with TrustPromptModal e :: _ => bool_decide (combo e = k) | _ => false end
  | _ => false
  end.

Fixpoint ended (k : string * string) (p : prompts) (l : list event) : bool :=
  match l with
  | [] => false
  | ev :: l' => ends k p ev || ended k (step ev p) l'
  end.

Lemma tracked_same p p' k :
  _trust_prompt_queue p' = _trust_prompt_queue p ->
  (forall e, TrustPromptModal e ∈ screen_stack p -> TrustPromptModal e ∈ screen_stack p') ->
  tracked p k -> tracked p' k.
Proof. intros Eq Es [Hq|(e & Hin & Hk)]; [left; by rewrite Eq|right; eauto]. Qed.

Lemma tracked_dequeue p k : tracked p k -> tracked (_dequeue_next_trust_prompt p) k.
Proof.
  intros Ht. unfold _dequeue_next_trust_prompt.
  destruct (_trust_prompt_open p); [done|]. destruct (_has_blocking_modal p); [done|].
  destruct (session_locked p); [done|]. destruct (_trust_prompt_queue p) as [|e q] eqn:Eq; [done|].
  destruct Ht as [Hk|(i & Hin & Hk)]; [|right; exists i; split; [by right|done]].
  rewrite Eq in Hk. destruct (decide (k = combo e)) as [-> |Hne]; [right; exists e; split; [by left|done]|].
  left. cbn. rewrite filter_combo_elem. split; [|done]. cbn in Hk. by apply elem_of_cons in Hk as [?|?].
Qed.

Lemma tracked_dismissed p k : tracked p k -> tracked (_on_prompt_dismissed p) k.
Proof. intros Ht. unfold _on_prompt_dismissed. destruct (_ && _); [done|]. by apply tracked_dequeue. Qed.

Lemma tracked_pop p k :
  (forall e st, screen_stack p = TrustPromptModal e :: st -> combo e <> k) -> tracked p k -> tracked (pop_screen p) k.
Proof.
  intros Htop Ht. unfold pop_screen. destruct (screen_stack p) as [|s st] eqn:Es; [done|].
  assert (tracked (with_prompt (_trust_prompt_queue p) (_trust_prompt_open p) (_current_trust_prompt p) st p) k) as Ht'.
  { destruct Ht as [Hq|(i & Hin & Hk)]; [by left|]. rewrite Es in Hin. apply elem_of_cons in Hin as [E|Hin].
    - destruct (Htop i st); [by rewrite E|done].
    - right. by exists i. }
  destruct s; cbn [blocks]; try exact Ht'. by apply tracked_dismissed.
Qed.

Lemma tracked_step ev p k : ends k p ev = false -> tracked p k -> tracked (step ev p) k.
Proof.
  intros He Ht. destruct ev; cbn [step]; try exact Ht.
  - unfold _on_trust_required. destruct (existsb _ _); [done|]. destruct (already_open e p); [done|].
    destruct (_ || _).
    + destruct Ht as [Hq|Hs]; [left|by right]. cbn. rewrite map_app, elem_of_app. by left.
    + eapply tracked_same; [..|exact Ht]; [done|]. intros i Hi. by right.
  - assert (forall e st, screen_stack p = TrustPromptModal e :: st -> combo e <> k) as Htop.
    { intros e st Es. cbn in He. rewrite Es in He. by apply bool_decide_eq_false in He. }
    unfold dismiss. destruct (screen_stack p) as [|[] st] eqn:Es; apply tracked_pop; try done; cbn; by rewrite Es.
  - unfold push_other. destruct s; try done; (eapply tracked_same; [..|exact Ht]; [done|]; intros i Hi; by right).
  - unfold run_callback. destruct (callbacks p); [done|]. by apply tracked_dismissed.
  - unfold run_refresh. destruct (refreshes p); [done|]. by apply tracked_dequeue.
  - by apply tracked_dequeue.
  - discriminate.
Qed.

Lemma topmost_elem st e : topmost st = Some e -> TrustPromptModal e ∈ st.
Proof.
  induction st as [|s st IH]; [done|]. destruct s; cbn; try (intros; right; by apply IH).
  intros [= ->]. by left.
Qed.

Lemma required_tracked e p : consistent p -> tracked (step (Required e) p) (combo e).
Proof.
  intros Hc. cbn. unfold _on_trust_required. destruct (existsb _ _) eqn:Ex; [left; by apply existsb_combo|].
  destruct (already_open e p) eqn:Ea.
  - unfold already_open in Ea. destruct (_trust_prompt_open p) eqn:Eo; [|done].
    destruct (open_current p Hc Eo) as (c & Ec & Et & _). rewrite Ec in Ea. apply bool_decide_eq_true in Ea.
    right. exists c. split; [by apply topmost_elem|done].
  - destruct (_ || _).
    + left. cbn. rewrite map_app, elem_of_app. right. by left.
    + right. exists e. split; [by left|done].
Qed.

(** No request for a decision is lost.  After a request arrived it waits in the queue or its
    prompt is on the screen, whatever requests, dialogs and callbacks follow, until its own
    prompt is dismissed or the vault is locked. *)
Theorem request_not_lost l e l' :
  let p := run (l ++ [Required e]) fresh in
  ended (combo e) p l' = false -> tracked (run l' p) (combo e).
Proof.
  cbv zeta.
  assert (tracked (run (l ++ [Required e]) fresh) (combo e)) as Ht.
  { unfold run. rewrite foldl_app. apply required_tracked, (consistent_run l), consistent_fresh. }
  revert Ht. generalize (run (l ++ [Required e]) fresh). clear. induction l' as [|ev l' IH]; intros p Ht He; [done|].
  cbn in He. apply orb_false_iff in He as [He He']. apply IH; [by apply tracked_step|done].
Qed.

(** *** Runs that go wrong *)

Definition ask (id : string) : TrustRequired := mk_required id id ("key-" +:+ id) None "first_seen".

Lemma request_not_lost_witness :
  tracked (run [Required (ask "b"); Dismissed; CallbackRuns]
             (run ([SessionLocked false; Required (ask "c")] ++ [Required (ask "a")]) fresh))
    (combo (ask "a")).
Proof. apply request_not_lost. vm_compute. reflexivity. Defined.

(** A dismissed prompt advances the queue twice: [pop_screen] reports the dismissal, and so does
    the callback given to [push_screen], which runs when the next prompt is already open.  That
    prompt is then taken for the dismissed one, and a third opens on top of it: the second device
    is on the screen, no longer recorded as the open prompt, and a new request of it is queued
    although its prompt is there. *)
Theorem prompts_stack_up :
  let p := run [SessionLocked false; Required (ask "a"); Required (ask "b"); Required (ask "c");
                Dismissed; CallbackRuns] fresh in
  screen_stack p = [TrustPromptModal (ask "c"); TrustPromptModal (ask "b")] /\
  _current_trust_prompt p = Some (ask "c") /\
  map peer_id (_trust_prompt_queue (step (Required (ask "b")) p)) = ["b"%string].
Proof. vm_compute. split_and!; reflexivity. Qed.

(** A request that arrives while the vault is locked stays unseen after the unlock: the dialog's
    dismissal schedules a look at the queue, which finds [_relocking] still set, and nothing
    looks again when the vault is open. *)
Theorem request_unseen_after_unlock :
  let p := run [SessionLocked true; Relocking true; Pushed VaultUnlockModal; Required (ask "a");
                Dismissed; RefreshRuns; SessionLocked false; Relocking false] fresh in
  _trust_prompt_queue p = [ask "a"] /\ screen_stack p = [] /\ callbacks p = 0%nat /\ refreshes p = 0%nat.
Proof. vm_compute. split_and!; reflexivity. Qed.

End PromptTheory.

(** ** Decisions *)
Module DecisionTheory.
Import Trust.Store Prompts Decisions.

Section Decide.
Context `{Ed25519, Sha256, JsonText, CompactJson, LowerCase}.

Definition status_in (d : desk) (id : string) : option TrustStatus :=
  t ← trust_store d; status <$> devices t !! id.

(** The policies of the groups do not forbid to trust the device. *)
Definition allowed (d : desk) (clock : string -> spec_float) (id : string) : bool :=
  match group_store d with
  | None => true
  | Some g => is_ok (snd (check_external_trust true clock id g))
  end.

Definition not_revoked (o : option TrustStatus) : bool :=
  match o with Some PENDING | Some TRUSTED => true | _ => false end.

Lemma approve_run id t :
  snd (approve id t) = Ok () /\
    (exists dev, devices t !! id = Some dev /\ status dev <> REVOKED) /\ Store.connected t = true /\
    devices (fst (approve id t)) = alter (set_status TRUSTED) id (devices t) \/
  fst (approve id t) = t /\
    (Store.connected t = false /\ snd (approve id t) = Err VaultLocked \/
     Store.connected t = true /\ snd (approve id t) = Err (CannotApprove id) /\
     forall dev, devices t !! id = Some dev -> status dev = REVOKED).
Proof.
  unfold approve, get_device, update_device, mbind, stm_bind, gets, Store._require_conn, raise_if.
  destruct (Store.connected t) eqn:Ec; [|right; cbn; rewrite ?Ec; auto].
  destruct (devices t !! id) as [dev|] eqn:Ed; cbn; [|right; split; [done|]; right; by split_and!].
  case_bool_decide as Hst; cbn.
  - right. split; [done|]. right. split_and!; [done|done|]. by intros dev' [= <-].
  - left. rewrite Ec. cbn. split_and!; try done. by exists dev.
Qed.

Definition trusted_next (d : desk) (clock : string -> spec_float) (id : string) : bool :=
  allowed d clock id && not_revoked (status_in d id)
  && match trust_store d with Some t => Store.connected t | None => false end.

Lemma approve_in_store_spec t id d :
  trust_store d = Some t ->
  let d' := fst (approve_in_store t id d) in
  let r := snd (approve_in_store t id d) in
  (forall id', id' <> id -> status_in d' id' = status_in d id') /\
  status_in d' id =
    (if not_revoked (status_in d id) && Store.connected t then Some TRUSTED else status_in d id) /\
  r = (if Store.connected t then Ok () else Err (TrustRaised VaultLocked)).
Proof.
  intros Et. cbv zeta. unfold approve_in_store, on_trust, status_in. rewrite Et. cbn [mbind option_bind].
  rewrite (surjective_pairing (approve id t)).
  destruct (approve_run id t) as [(-> & (dev & Ed & Hst) & Hc & Edev)|(-> & Hr)]; cbn.
  - rewrite Edev, Hc, Ed, lookup_alter_eq, Ed. cbn. split_and!; [|by destruct (status dev)|done].
    intros id' Hne. by rewrite lookup_alter_ne.
  - destruct Hr as [(Hc & ->)|(Hc & -> & Hrev)]; rewrite Hc; cbn; rewrite ?andb_false_r; [done|].
    split_and!; [done| |done]. destruct (devices t !! id) as [dev|] eqn:Ed; [|done]. cbn. by rewrite (Hrev dev).
Qed.

(** What approving does.  [_do_trust_approve] makes a device trusted exactly when the store
    knows it as not revoked, the vault is open and no group policy forbids it; otherwise, and
    for every other device, the status stays what it was.  It raises only when the vault is
    locked or the group store fails. *)
Theorem approval_decided clock id d t :
  trust_store d = Some t ->
  let d' := fst (_do_trust_approve clock id d) in
  let r := snd (_do_trust_approve clock id d) in
  (forall id', id' <> id -> status_in d' id' = status_in d id') /\
  status_in d' id = (if trusted_next d clock id then Some TRUSTED else status_in d id) /\
  (r = Ok () \/ Store.connected t = false \/ exists er, r = Err (PolicyRaised er)).
Proof.
  intros Et. cbv zeta. unfold _do_trust_approve, trusted_next, allowed. rewrite Et.
  destruct (group_store d) as [g|] eqn:Eg.
  - rewrite (surjective_pairing (check_external_trust true clock id g)).
    destruct (snd (check_external_trust true clock id g)) as [u|er]; cbn [is_ok andb].
    + destruct (approve_in_store_spec t id
                  (set_group (Some (fst (check_external_trust true clock id g))) d) Et) as (W1 & W2 & W3).
      cbn zeta in *. split_and!; [exact W1|exact W2|]. rewrite W3. destruct (Store.connected t); auto.
    + destruct er; cbn; split_and!; try done; eauto.
  - destruct (approve_in_store_spec t id d Et) as (W1 & W2 & W3). cbn [andb].
    split_and!; [exact W1|exact W2|]. rewrite W3. destruct (Store.connected t); auto.
Qed.

(** The device a prefix names is a device of the list, and no other device of it matches the
    prefix unless the one named is the only one equal to it. *)
Theorem resolve_names_one prefix all d :
  resolve prefix all = Found d ->
  d ∈ all /\ startswith (str_lower (fst d)) (str_lower prefix) = true /\
  forall d', d' ∈ all -> startswith (str_lower (fst d')) (str_lower prefix) = true ->
    d' = d \/ str_lower (fst d) = str_lower prefix /\ str_lower (fst d') <> str_lower prefix.
Proof.
  assert (forall (P : string * Store.TrustedDevice -> bool) l x, x ∈ List.filter P l <-> x ∈ l /\ P x = true) as Hf
    by (intros P l x; rewrite !list_elem_of_In; apply filter_In).
  unfold resolve. destruct (List.filter _ all) as [|a [|b l]] eqn:E; [done| |].
  - intros [= <-]. assert (a ∈ [a]) as Ha by left. rewrite <- E, Hf in Ha. split_and!; [apply Ha..|].
    intros d' Hd Hs. left. apply list_elem_of_singleton. rewrite <- E. by apply Hf.
  - destruct (List.filter _ (a :: b :: l)) as [|c [|c' l']] eqn:E2; [done| |done]. intros [= <-].
    assert (c ∈ [c]) as Hc by left. rewrite <- E2, Hf, <- E, Hf in Hc. destruct Hc as [[Hin Hs] Heq].
    apply bool_decide_eq_true in Heq. split_and!; [done..|]. intros d' Hd Hs'.
    destruct (decide (str_lower (fst d') = str_lower prefix)) as [He|He]; [left|by right].
    apply list_elem_of_singleton. rewrite <- E2, Hf, <- E, Hf. by rewrite bool_decide_eq_true.
Qed.

End Decide.
End DecisionTheory.

(** ** Locking *)
Module LockTheory.
Import Prompts Decisions Locking.

(** No store is attached, no key is held and no prompt is open or queued. *)
Record detached (d : desk) : Prop := {
  trust_detached : forall t, trust_store d = Some t -> Store.connected t = false;
  group_detached : forall g, group_store d = Some g -> connected g = false;
  locator_detached : forall l, locator_store d = Some l -> LocatorStore.connected l = false;
  no_enforcer : policy_enforcer d = false;
  no_history : persistence d <> Some true;
  session_closed : forall s, vault_session d = Some s -> Session.is_unlocked s = false;
  prompts_closed : _trust_prompt_queue (screens d) = [] /\ _trust_prompt_open (screens d) = false /\
                   _current_trust_prompt (screens d) = None
}.

(** The stores hold the same tables, attached as [b] says. *)
Record holds_tables (b : bool) (d d' : desk) : Prop := {
  same_trust : trust_store d' = (fun t => fst (Store.adopt_conn b t)) <$> trust_store d;
  same_group : group_store d' = (fun g => fst (adopt_conn b g)) <$> group_store d;
  same_locator : locator_store d' = (fun l => fst (LocatorStore.adopt_conn b l)) <$> locator_store d;
  same_history : persistence d' = (fun _ => b) <$> persistence d
}.

Lemma attach_again b c d d' : holds_tables b d d' -> holds_tables c d (attach c d').
Proof.
  intros [Et Eg El Eh]. split; cbn.
  - rewrite Et. by destruct (trust_store d).
  - rewrite Eg. by destruct (group_store d).
  - rewrite El. by destruct (locator_store d).
  - rewrite Eh. by destruct (persistence d).
Qed.

Lemma clear_prompts_closed inactive p :
  _trust_prompt_queue (clear_prompts inactive p) = [] /\
  _trust_prompt_open (clear_prompts inactive p) = false /\
  _current_trust_prompt (clear_prompts inactive p) = None.
Proof.
  unfold clear_prompts. cbn. split; [|done].
  destruct (screen_stack p) as [|sc st] eqn:E; [done|].
  destruct sc; try done. unfold pop_screen. cbn.
  unfold _on_prompt_dismissed, _dequeue_next_trust_prompt. cbn. by repeat case_match.
Qed.

Section Lock.
Context `{!AesGcm, !Hkdf, !Scrypt, !JsonText, !Database.SqliteFile, !UpperCase}.
Context `{!Ed25519, !Sha256, !CompactJson, !LowerCase}.

Lemma hard_lock_detaches inactive nonce noise d :
  let d' := fst (_perform_hard_lock inactive nonce noise d) in
  detached d' /\ holds_tables false d d'.
Proof.
  assert (forall s v p, (forall s0, s = Some s0 -> Session.is_unlocked s0 = false) ->
    _trust_prompt_queue p = [] /\ _trust_prompt_open p = false /\ _current_trust_prompt p = None ->
    let d' := mk_desk p (trust_store (attach false d)) (group_store (attach false d))
                (locator_store (attach false d)) false (persistence (attach false d)) s v (display_name d) in
    detached d' /\ holds_tables false d d') as Hall.
  { intros s v p Hs Hp. cbn. split; [|by split]. split; cbn; try done.
    - intros t E. by apply fmap_Some in E as (t0 & _ & ->).
    - intros g E. by apply fmap_Some in E as (g0 & _ & ->).
    - intros l E. by apply fmap_Some in E as (l0 & _ & ->).
    - intros E. by apply fmap_Some in E as (b & _ & ?). }
  cbv zeta. unfold _perform_hard_lock, on_screens.
  generalize (clear_prompts_closed inactive (screens d)).
  generalize (clear_prompts inactive (screens d)). intros p Hp. cbn [attach set_screens vault_session].
  destruct (vault_session d) as [s|] eqn:Es.
  - destruct (Session.is_unlocked s) eqn:Eu.
    + destruct (lock_effect nonce noise s) as (Ed & _ & _).
      destruct (Session.lock nonce noise s) as [s' r]. cbn in Ed.
      assert (forall s0, Some s' = Some s0 -> Session.is_unlocked s0 = false) as Hs'
        by (intros s0 [= <-]; unfold Session.is_unlocked; by rewrite Ed).
      destruct r; [exact (Hall (Some s') None (set_session_locked _ _) Hs' Hp)
        |exact (Hall (Some s') (vault_db d) (set_session_locked _ _) Hs' Hp)].
    + refine (Hall (vault_session d) None p _ Hp). rewrite Es. by intros s0 [= <-].
  - refine (Hall (vault_session d) None p _ Hp). by rewrite Es.
Qed.

Lemma desk_set_group d : set_group (group_store d) d = d.
Proof. by destruct d. Qed.
Lemma desk_set_trust d : set_trust (trust_store d) d = d.
Proof. by destruct d. Qed.

Lemma approve_locked clock id d t :
  trust_store d = Some t -> detached d ->
  _do_trust_approve clock id d = (d, Err (TrustRaised Store.VaultLocked)).
Proof.
  intros Et Hd. pose proof (trust_detached d Hd t Et) as Hc.
  assert (approve_in_store t id d = (d, Err (TrustRaised Store.VaultLocked))) as Hs.
  { unfold approve_in_store, on_trust, Store.approve, Store.get_device, Store._require_conn, raise_if,
      mbind, stm_bind. rewrite Hc. cbn. by rewrite <- Et, desk_set_trust. }
  unfold _do_trust_approve. rewrite Et. destruct (group_store d) as [g|] eqn:Eg; [|done].
  unfold check_external_trust, list_groups, _require_conn, raise_if, mbind, stm_bind. cbn [negb].
  rewrite (group_detached d Hd g Eg). cbn. by rewrite <- Eg, desk_set_group.
Qed.

Lemma revoke_locked now id why d t :
  trust_store d = Some t -> detached d ->
  _do_trust_revoke now id why d = (d, Err (TrustRaised Store.VaultLocked)).
Proof.
  intros Et Hd. unfold _do_trust_revoke. rewrite Et. unfold on_trust, Store.revoke_device, Store.get_device,
    Store._require_conn, raise_if, mbind, stm_bind. rewrite (trust_detached d Hd t Et). cbn.
  by rewrite <- Et, desk_set_trust.
Qed.

Lemma unlock_opens now dek v s s' :
  Session.unlock now dek v s = (s', Ok ()) ->
  Session._dek s' = Some dek /\ Session.is_unlocked s' = true.
Proof.
  unfold Session.unlock. cbv [mbind stm_bind raise_if modify].
  destruct (negb _); [done|].
  set (s1 := Session.set_dont_ask false (Session.set_key (Some dek) (Some v) s)).
  pose proof (load_settings_steady s1) as W1. destruct (Session._load_settings s1) as [s2 [[]|e]]; [|done].
  pose proof (touch_steady now s2) as W2. intros E. rewrite E in W2.
  assert (steady s1 s') as W by (etransitivity; [exact W1|exact W2]).
  split; [apply (steady_dek _ _ W)|]. by rewrite (steady_unlocked _ _ W).
Qed.

(** Every store is attached again, with the tables it had, and the session holds [dek]. *)
Record reopened (dek : bytes) (d d' : desk) : Prop := {
  tables_back : holds_tables true d d';
  enforcer_back : is_Some (group_store d) -> policy_enforcer d' = true;
  key_back : exists s, vault_session d' = Some s /\ Session._dek s = Some dek /\ Session.is_unlocked s = true;
  not_relocking : _relocking (screens d') = false
}.

Lemma reunlock_reopens now seconds k answers path working disk0 d0 d d' :
  holds_tables false d0 d ->
  reunlock_answered now seconds k answers path working disk0 d = (d', Ok true) ->
  exists dek, Commands._unlock_vault_loop k answers = Ok (Some dek) /\ reopened dek d0 d'.
Proof.
  intros Hh. unfold reunlock_answered.
  destruct (Commands._unlock_vault_loop k answers) as [[dek|]|er]; [|done|done].
  unfold finally. destruct (Database.unlock dek path working _) as [disk [v|er]];
    [|by destruct (vault_session d) as [s0|]; [|destruct (Session.new_session _ _)]].
  destruct (match vault_session d with Some s => _ | None => _ end) as [s|]; [|done].
  destruct (Session.unlock now dek v s) as [s' [[]|er]] eqn:Eu; [|done].
  intros [= <-]. exists dek. split; [done|].
  pose proof (unlock_opens _ _ _ _ _ Eu) as [Hk Ho].
  split; cbn; try done.
  - by destruct (attach_again false true d0 d Hh).
  - intros [g Eg]. rewrite (same_group _ _ _ Hh), Eg. cbn. by rewrite orb_true_r.
  - by exists s'.
Qed.


End Lock.
End LockTheory.

(** ** The review of security events *)
Module ReviewTheory.
Import Security Review.

Abbreviation newer := (fun a b => SFltb (timestamp b) (timestamp a)).

(** The dictionary after the events seen so far. *)
Record covers (seen : list SecurityEvent) (best : list ((string * string) * SecurityEvent)) : Prop := {
  keys_distinct : NoDup (map fst best);
  keyed : forall k e, (k, e) ∈ best -> k = group_key e /\ e ∈ seen;
  latest : forall ev, ev ∈ seen ->
    exists e, (group_key ev, e) ∈ best /\ SFltb (timestamp e) (timestamp ev) = false
}.

Lemma keep_latest_keys ev best k :
  k ∈ map fst (keep_latest ev best) <-> k = group_key ev \/ k ∈ map fst best.
Proof.
  induction best as [|[k0 p] best IH]; cbn [keep_latest map fst]; [set_solver|].
  case_bool_decide as E; cbn [map fst]; [subst; set_solver|]. rewrite !elem_of_cons, IH. tauto.
Qed.

Lemma keep_latest_distinct ev best :
  NoDup (map fst best) -> NoDup (map fst (keep_latest ev best)).
Proof.
  induction best as [|[k0 p] best IH]; cbn [keep_latest map fst]; intros Hn; [repeat constructor; set_solver|].
  apply NoDup_cons in Hn as [Hk Hn]. case_bool_decide as E; cbn [map fst]; apply NoDup_cons; [done|].
  split; [|by apply IH]. rewrite keep_latest_keys. by intros [?|?].
Qed.

Lemma SFleb_not_newer f g : SFleb f g = true -> SFltb g f = false.
Proof.
  unfold SFleb, SFltb. rewrite (SFcompare_swap f g). by destruct (SFcompare f g) as [[]|].
Qed.
Lemma SFltb_SFleb f g : SFltb f g = true -> SFleb f g = true.
Proof. unfold SFleb, SFltb. by destruct (SFcompare f g) as [[]|]. Qed.
Lemma SFltb_irrefl f : SFltb f f = false.
Proof. destruct (SFltb f f) eqn:E; [|done]. by rewrite (SFltb_asym _ _ E) in E. Qed.

(** The entry of the event's key becomes an entry at least as new; the others stay. *)
Lemma keep_latest_entries ev best k e :
  NoDup (map fst best) ->
  (k, e) ∈ keep_latest ev best ->
  (k, e) ∈ best \/ k = group_key ev /\ e = ev.
Proof.
  induction best as [|[k0 p] best IH]; cbn [keep_latest map fst]; intros Hn Hin; [set_solver|].
  apply NoDup_cons in Hn as [_ Hn].
  case_bool_decide as E; apply elem_of_cons in Hin as [[= -> ->]|Hin].
  - destruct (SFleb _ _); [by right|left; left].
  - left. by right.
  - left. left.
  - destruct (IH Hn Hin) as [?|?]; [left; by right|by right].
Qed.

Lemma keep_latest_later ev best k e :
  (k, e) ∈ best -> is_nan (timestamp e) = false ->
  exists e', (k, e') ∈ keep_latest ev best /\
    (e' = e \/ k = group_key ev /\ SFleb (timestamp e) (timestamp ev) = true /\ e' = ev).
Proof.
  induction best as [|[k0 p] best IH]; cbn [keep_latest]; intros Hin Hnan; [set_solver|].
  apply elem_of_cons in Hin as [[= <- <-]|Hin]; case_bool_decide as E.
  - destruct (SFleb (timestamp e) (timestamp ev)) eqn:El; [exists ev|exists e]; (split; [left|]); auto.
  - exists e. split; [left|by left].
  - exists e. split; [by right|by left].
  - destruct (IH Hin Hnan) as (e' & He & Ho). exists e'. split; [by right|done].
Qed.

Lemma keep_latest_own ev best :
  exists e, (group_key ev, e) ∈ keep_latest ev best /\ SFltb (timestamp e) (timestamp ev) = false.
Proof.
  induction best as [|[k0 p] best IH]; cbn [keep_latest].
  - exists ev. split; [left|apply SFltb_irrefl].
  - case_bool_decide as E.
    + subst. destruct (SFleb (timestamp p) (timestamp ev)) eqn:El; eexists; (split; [left|]);
        [apply SFltb_irrefl|]. destruct (SFltb _ _) eqn:Elt; [|done]. by rewrite (SFltb_SFleb _ _ Elt) in El.
    + destruct IH as (e & He & Hn). exists e. split; [by right|done].
Qed.

Lemma keep_latest_covers seen ev best :
  Forall (fun e => is_nan (timestamp e) = false) (seen ++ [ev]) ->
  covers seen best -> covers (seen ++ [ev]) (keep_latest ev best).
Proof.
  intros Hnan [Hd Hk Hl]. split.
  - by apply keep_latest_distinct.
  - intros k e Hin. destruct (keep_latest_entries _ _ _ _ Hd Hin) as [Hb|[-> ->]]; [|set_solver].
    destruct (Hk _ _ Hb). set_solver.
  - intros e [He|He]%elem_of_app; [|apply list_elem_of_singleton in He as ->; apply keep_latest_own].
    destruct (Hl e He) as (m & Hm & Hlt). destruct (Hk _ _ Hm) as [_ Hs].
    rewrite Forall_forall in Hnan. assert (is_nan (timestamp m) = false) as Hn by (apply Hnan; set_solver).
    destruct (keep_latest_later ev best _ _ Hm Hn) as (m' & Hm' & [-> |(Ek & Hle & ->)]); [by exists m|].
    exists ev. split; [done|]. destruct (SFltb (timestamp ev) (timestamp e)) eqn:E; [|done].
    destruct (SFltb_split _ _ _ Hn E) as [E'|E']; [by rewrite (SFleb_not_newer _ _ Hle) in E'|congruence].
Qed.

Lemma best_covers events :
  Forall (fun e => is_nan (timestamp e) = false) events ->
  covers events (foldl (fun best ev => keep_latest ev best) [] events).
Proof.
  induction events as [|ev events IH] using rev_ind; intros Hnan; [split; [constructor|set_solver..]|].
  rewrite foldl_app. cbn [foldl]. apply keep_latest_covers; [done|]. apply IH. by apply Forall_app in Hnan as [? _].
Qed.

(** The buffer after a sequence of events. *)
Definition buffer (events : list SecurityEvent) : list SecurityEvent :=
  foldl (fun log ev => _on_security_event_buffered ev log) [] events.

Lemma buffer_last events : buffer events = drop (length events - _SECURITY_EVENT_LOG_CAP) events.
Proof.
  induction events as [|ev events IH] using rev_ind; [done|].
  unfold buffer in *. rewrite foldl_app. cbn [foldl]. rewrite IH. unfold _on_security_event_buffered. cbv zeta.
  rewrite !length_app, length_drop. cbn [length].
  rewrite <- (drop_app_le events [ev] (length events - _SECURITY_EVENT_LOG_CAP)) by lia.
  rewrite drop_drop. f_equal. lia.
Qed.

(** What the review shows.  Of the last 200 events, the ones the buffer holds, it shows one
    for each kind and device that occurs, newest first; each is an event of the buffer, and
    no event of its kind and device there is newer. *)
Theorem review_shows_latest events :
  Forall (fun e => is_nan (timestamp e) = false) events ->
  let recent := drop (length events - _SECURITY_EVENT_LOG_CAP) events in
  let shown := _group_security_events (buffer events) in
  NoDup (map group_key shown) /\
  (forall e, e ∈ shown -> e ∈ recent) /\
  (forall ev, ev ∈ recent -> exists e, e ∈ shown /\ group_key e = group_key ev /\
                                       SFltb (timestamp e) (timestamp ev) = false) /\
  in_order newer shown.
Proof.
  intros Hnan recent shown. unfold shown. rewrite buffer_last. fold recent.
  assert (Forall (fun e => is_nan (timestamp e) = false) recent) as Hr by by apply Forall_drop.
  destruct (best_covers recent Hr) as [Hd Hk Hl]. unfold _group_security_events.
  set (best := foldl _ [] recent) in *.
  assert (map group_key (map snd best) = map fst best) as Ek.
  { rewrite map_map. apply map_ext_in. intros [k e] Hin%list_elem_of_In. symmetry. apply (Hk _ _ Hin). }
  split_and!.
  - rewrite (sort_by_perm newer), Ek. exact Hd.
  - intros e. rewrite (sort_by_perm newer). intros ([k e'] & -> & Hin)%list_elem_of_fmap. apply (Hk _ _ Hin).
  - intros ev Hev. destruct (Hl ev Hev) as (e & He & Hlt). exists e. rewrite (sort_by_perm newer).
    split_and!; [|symmetry; apply (Hk _ _ He)|done]. apply list_elem_of_fmap. by exists (group_key ev, e).
  - apply sort_by_in_order. intros a b. apply SFltb_asym.
Qed.

End ReviewTheory.

(** ** A desk with one pending device *)
Module TrustSample.
Import Prompts Decisions Locking DecisionTheory LockTheory ReviewTheory VaultScenarios.VaultSample.

#[local] Existing Instances Crypto.Sample.ed25519 Crypto.Sample.sha Crypto.Sample.hkdf.
#[local] Existing Instances SampleText.lower SampleText.compact.

Definition pending_device : Trust.Store.TrustedDevice :=
  Trust.Store.mk_device "key" "Ann" a_time a_time Trust.Store.PENDING None None None.
Definition one_device : Trust.Store.db :=
  Trust.Store.mk_db true {["ann"%string := pending_device]} ∅ [].

Definition a_desk : desk :=
  mk_desk fresh (Some one_device) (Some empty_gdb) None true (Some true) (Some (open_session ∅)) (Some open_db) "me".

Lemma approval_decided_witness :
  let d' := fst (_do_trust_approve (fun _ => a_time) "ann" a_desk) in
  status_in a_desk "ann" = Some Trust.Store.PENDING /\ status_in d' "ann" = Some Trust.Store.TRUSTED.
Proof.
  split; [reflexivity|].
  destruct (approval_decided (fun _ => a_time) "ann" a_desk one_device eq_refl) as (_ & E & _).
  rewrite E. vm_compute. reflexivity.
Defined.


Definition an_event (n : Z) : Security.SecurityEvent :=
  Security.mk_event "login_failed" Security.INFO "" None (binary_normalize 53 1024 n 0 false) [] None None.

Lemma review_shows_latest_witness :
  let shown := Review._group_security_events (buffer [an_event 1; an_event 2]) in
  shown = [an_event 2] /\ NoDup (map Review.group_key shown).
Proof.
  split; [vm_compute; reflexivity|].
  apply (review_shows_latest [an_event 1; an_event 2]). repeat constructor.
Defined.

End TrustSample.
