(* ===== verification/IdentityFile.v ===== *)
(** * The identity of the device on disk, and the old trust file

    Models [core/identity/key_storage.py] (module [KeyStorage]), [core/identity/identity_file.py]
    with [core/discovery/identity_loader.py] (module [IdentityFile]) and
    [core/vault/migration.py] (module [Migration]).

    The private key lives in the keyring of the system or in a plain file, the public data in a
    JSON file.  What an operation writes is the list of its calls, so that a crash can stop it
    between two of them.  The text of a key (PKCS8 PEM) is code of the cryptography package;
    whether a call of the keyring works is an argument of the operation that makes it.
    Directories and permissions are not modelled. *)

From Corelib Require Import SpecFloat.
From S2P Require Import Prelude Dicts Text Json Crypto Canonical Messages Trust Disk VaultKeys.
Local Open Scope peerc_scope.
Local Open Scope Z_scope.

(** ** Private keys as text *)

Class Pem `{Ed25519} := {
  private_key_pem : ed_private -> string;
  load_pem_private_key : string -> option ed_private   (** [None]: it raises *)
}.

Class PemLaws `{Pem} : Prop := {
  load_pem_pem sk : load_pem_private_key (private_key_pem sk) = Some sk
}.

(** ** Where the private key lives *)
Module KeyStorage.

Definition SERVICE_NAME : string := "peerc-device-identity".

(** The passwords of the keyring, by service and user, and the files. *)
Record host := mk_host { passwords : gmap (string * string) string; files : disk }.

Inductive host_op : Type :=
| SetPassword (service user value : string)
| DeletePassword (service user : string)
| OnDisk (o : disk_op).

Definition apply_host (o : host_op) (h : host) : host :=
  match o with
  | SetPassword s u v => mk_host (<[(s, u) := v]> (passwords h)) (files h)
  | DeletePassword s u => mk_host (delete (s, u) (passwords h)) (files h)
  | OnDisk o => mk_host (passwords h) (apply_op o (files h))
  end.

Definition run_host (l : list host_op) (h : host) : host := foldl (fun h o => apply_host o h) h l.

(** What a crash leaves; a password is set at once. *)
Inductive host_crashed : list host_op -> host -> host -> Prop :=
| host_crash_now l h : host_crashed l h h
| host_crash_in_write p b k l h :
    host_crashed (OnDisk (Append p b) :: l) h (apply_host (OnDisk (Append p (take k b))) h)
| host_crash_later o l h h' : host_crashed l (apply_host o h) h' -> host_crashed (o :: l) h h'.

Inductive backend : Type := KEYRING | PLAINTEXT_FILE.

#[global] Instance backend_eq : EqDecision backend.
Proof. solve_decision. Defined.

(** The module of the keyring's class; [None]: [get_keyring] raises. *)
Definition _keyring_usable (module_name : option string) : bool :=
  match module_name with
  | None => false
  | Some m => negb (bool_decide (m = "keyring.backends.fail"%string))
  end.

Record KeyStore := mk_key_store { plaintext_fallback_path : string; backend_name : backend }.

Definition new_key_store (path : string) (module_name : option string) : KeyStore :=
  mk_key_store path (if _keyring_usable module_name then KEYRING else PLAINTEXT_FILE).

Definition uses_keyring (k : KeyStore) : bool := bool_decide (backend_name k = KEYRING).

Definition _save_plaintext (k : KeyStore) (key_pem : string) : list host_op :=
  map OnDisk (write_file (plaintext_fallback_path k) (str_bytes key_pem)).

Definition _load_plaintext (k : KeyStore) (h : host) : option string :=
  bytes_str <$> files h !! plaintext_fallback_path k.

(** [works]: [set_password] does not raise [KeyringError]. *)
Definition save_private_key (works : bool) (username key_pem : string) (k : KeyStore)
    : list host_op * backend :=
  if uses_keyring k && works then ([SetPassword SERVICE_NAME username key_pem], KEYRING)
  else (_save_plaintext k key_pem, PLAINTEXT_FILE).

Definition load_private_key (works : bool) (username : string) (k : KeyStore) (h : host) : option string :=
  if uses_keyring k && works then
    match passwords h !! (SERVICE_NAME, username) with
    | Some value => Some value
    | None => _load_plaintext k h
    end
  else _load_plaintext k h.

Definition delete_private_key (works : bool) (username : string) (k : KeyStore) (h : host) : list host_op :=
  (if uses_keyring k && works then [DeletePassword SERVICE_NAME username] else []) ++
  match files h !! plaintext_fallback_path k with
  | Some _ => [OnDisk (Unlink (plaintext_fallback_path k))]
  | None => []
  end.

End KeyStorage.

(** ** The identity file *)
Module IdentityFile.
Import Identity Rotation KeyStorage.

Definition IDENTITY_SCHEMA_VERSION : Z := 1.
Definition KEYRING_USERNAME : string := "device-identity".

Inductive identity_error : Type :=
| KeyMissing                     (** [IdentityError]: the file without its key *)
| OutOfSync                      (** [IdentityError]: the key is another device's *)
| NoIdentityFile                 (** [FileNotFoundError] *)
| NotJson                        (** [JSONDecodeError] *)
| NotAnObject                    (** [AttributeError] of [meta.get] *)
| BadPem                         (** what [load_pem_private_key] raises *)
| SameKey                        (** [RotationError] *)
| WrongPeer.                     (** [ValueError] of [save_identity] *)

Section Identity.
Context `{Pem, Sha256, JsonText, JsonIndent}.

Record DeviceIdentity := mk_identity {
  keypair : DeviceKeypair;
  name : json;
  created_at : json;
  storage_backend : backend;
  is_new : bool
}.

Definition identity_id (i : DeviceIdentity) : string := device_id (keypair i).

(** [a or b]. *)
Definition or_json (a : option json) (b : json) : json :=
  match a with Some j => if truthy j then j else b | None => b end.
Definition given_name (o : option string) (b : json) : json := or_json (JStr <$> o) b.

Definition read_meta (identity_file : string) (h : host) : result identity_error json :=
  match files h !! identity_file with
  | None => Err NoIdentityFile
  | Some text => match json_loads text with Some j => Ok j | None => Err NotJson end
  end.

Definition as_object (j : json) : result identity_error dict :=
  match j with JObj meta => Ok meta | _ => Err NotAnObject end.

(** [meta.get("device_id") == device_id]. *)
Definition names_device (device_id : string) (meta : dict) : bool :=
  match jget "device_id" meta with Some (JStr s) => bool_decide (s = device_id) | _ => false end.

(** [works]: the keyring answers; [now]: the clock. *)
Definition _load_existing (works : bool) (now : spec_float) (identity_file : string) (k : KeyStore) (h : host)
    : result identity_error DeviceIdentity :=
  let? meta := read_meta identity_file h in
  match load_private_key works KEYRING_USERNAME k h with
  | None => Err KeyMissing
  | Some pem =>
      match load_pem_private_key pem with
      | None => Err BadPem
      | Some sk =>
          let keypair := _keypair_from_private_key sk in
          let? meta := as_object meta in
          if names_device (device_id keypair) meta then
            Ok (mk_identity keypair (or_json (jget "name" meta) (JStr "peer"))
                  (default (JFloat now) (jget "created_at" meta)) (backend_name k) false)
          else Err OutOfSync
      end
  end.

Definition public_meta (keypair : DeviceKeypair) (name : json) (created_at : spec_float) : dict :=
  [("version", JInt IDENTITY_SCHEMA_VERSION);
   ("device_id", JStr (device_id keypair));
   ("public_key", JStr (b64_text (public_key_bytes keypair)));
   ("name", name);
   ("created_at", JFloat created_at)]%string.

Definition write_meta (identity_file : string) (meta : dict) : list host_op :=
  map OnDisk (write_file identity_file (json_dumps_indent (JObj meta))).

(** [sk]: the key that is generated. *)
Definition _create_new (works : bool) (now : spec_float) (sk : ed_private) (name : json) (identity_file : string)
    (k : KeyStore) : list host_op * DeviceIdentity :=
  let keypair := _keypair_from_private_key sk in
  let '(saved, backend_used) := save_private_key works KEYRING_USERNAME (private_key_pem sk) k in
  (saved ++ write_meta identity_file (public_meta keypair name now),
   mk_identity keypair name (JFloat now) backend_used true).

Definition load_or_create_identity (works : bool) (now : spec_float) (sk : ed_private) (name : option string)
    (identity_file : string) (k : KeyStore) (h : host)
    : list host_op * result identity_error DeviceIdentity :=
  match files h !! identity_file with
  | Some _ => ([], _load_existing works now identity_file k h)
  | None =>
      let '(ops, i) := _create_new works now sk (given_name name (JStr "peer")) identity_file k in
      (ops, Ok i)
  end.

(** The new identity, the certificate for the peers and the security event. *)
Definition rotate_identity (works : bool) (now : spec_float) (sk : ed_private) (current : DeviceIdentity)
    (new_name : option string) (identity_file : string) (k : KeyStore)
    : list host_op * result identity_error (DeviceIdentity * TransitionCertificate * SecurityEvent) :=
  let new_keypair := _keypair_from_private_key sk in
  match create_transition_certificate (keypair current) new_keypair now with
  | None => ([], Err SameKey)
  | Some cert =>
      let '(saved, backend_used) := save_private_key works KEYRING_USERNAME (private_key_pem sk) k in
      let name := given_name new_name (name current) in
      let meta := public_meta new_keypair name now
                    ++ [("rotated_from"%string, JStr (identity_id current))] in
      (saved ++ write_meta identity_file meta,
       Ok (mk_identity new_keypair name (JFloat now) backend_used false, cert,
           mk_event KEY_ROTATION (device_id new_keypair)))
  end.

(** [identity_loader.save_identity]: the new display name. *)
Definition save_identity (peer_id name : string) (identity_file : string) (h : host)
    : list host_op * result identity_error unit :=
  match files h !! identity_file with
  | None => ([], Ok ())
  | Some _ =>
      match (let? meta := read_meta identity_file h in as_object meta) with
      | Err e => ([], Err e)
      | Ok meta =>
          if names_device peer_id meta then
            (write_meta identity_file (OrderedDict.set "name" (JStr name) meta), Ok ())
          else ([], Err WrongPeer)
      end
  end.

(** [identity_loader.load_or_create_identity]. *)
Definition load_or_create_pair (works : bool) (now : spec_float) (sk : ed_private) (hostname : string)
    (identity_file : string) (k : KeyStore) (h : host)
    : list host_op * result identity_error (string * json) :=
  let '(ops, r) := load_or_create_identity works now sk (Some hostname) identity_file k h in
  (ops, let? i := r in Ok (identity_id i, name i)).

End Identity.
End IdentityFile.

(** ** The old trust file *)
Module Migration.
Import Trust.Store.

(** The tables of a [trust.db]; a table may be missing. *)
Record old_tables := mk_old {
  old_devices : option (list (string * TrustedDevice));
  old_transitions : option (list ((string * string) * Transition))
}.

(** SQLite's reading of such a file; [None]: it is no database. *)
Class OldTrustFile := { open_old : bytes -> option old_tables }.

Inductive migration_error : Type :=
| NotADatabase
| NoDeviceTable                            (** [OperationalError] *)
| FlushFailed.

(** The rows in the open vault, those in its encrypted file, and the files. *)
Record vault := mk_vault { working : db; encrypted : db; vault_files : disk }.

(** [INSERT OR REPLACE] of each row. *)
Definition insert_rows (devs : list (string * TrustedDevice)) (trs : list ((string * string) * Transition))
    (d : db) : db :=
  mk_db (connected d)
    (foldl (fun m r => <[fst r := snd r]> m) (devices d) devs)
    (foldl (fun m r => <[fst r := snd r]> m) (transitions d) trs)
    (events d).

Definition insert_step devs trs (v : vault) : vault :=
  mk_vault (insert_rows devs trs (working v)) (encrypted v) (vault_files v).
Definition flush_step (v : vault) : vault := mk_vault (working v) (working v) (vault_files v).
Definition remove_step (path : string) (v : vault) : vault :=
  mk_vault (working v) (encrypted v) (delete path (vault_files v)).

Definition run_steps (l : list (vault -> vault)) (v : vault) : vault := foldl (fun v f => f v) v l.

(** The effects in their order, and the result; [flushes]: the flush does not raise. *)
Definition migrate_plaintext_trust_db `{OldTrustFile} (flushes : bool) (path : string) (v : vault)
    : list (vault -> vault) * result migration_error nat :=
  match vault_files v !! path with
  | None => ([], Ok 0%nat)
  | Some file =>
      match open_old file with
      | None => ([], Err NotADatabase)
      | Some t =>
          match old_devices t with
          | None => ([], Err NoDeviceTable)
          | Some device_rows =>
              let transition_rows := default [] (old_transitions t) in
              let inserts := insert_step device_rows transition_rows in
              if flushes then ([inserts; flush_step; remove_step path], Ok (length device_rows))
              else ([inserts], Err FlushFailed)
          end
      end
  end.

End Migration.
