(* ===== verification/IdentityFileTheory.v ===== *)
(** * What the identity file guarantees

    Theorems about [IdentityFile]: the file and the key stay in step through any history of
    loads, renames and rotations, an identity is never replaced silently, a crash strands the
    device at worst, a rotation is accepted by peers that trusted the old key, and the
    migration of an old trust file loses no row. *)

From Corelib Require Import SpecFloat.
From S2P Require Import Prelude Dicts Text Json Crypto Canonical Messages Trust Disk VaultKeys IdentityFile.
Local Open Scope peerc_scope.
Local Open Scope Z_scope.

(** ** Keys *)
Module KeyTheory.
Import KeyStorage.

Lemma run_host_app l1 l2 h : run_host (l1 ++ l2) h = run_host l2 (run_host l1 h).
Proof. apply foldl_app. Qed.

Lemma run_on_disk l h : run_host (map OnDisk l) h = mk_host (passwords h) (run_ops l (files h)).
Proof.
  revert h. induction l as [|o l IH]; intros h; [by destruct h|].
  change (run_host (map OnDisk l) (apply_host (OnDisk o) h) = mk_host (passwords h) (run_ops (o :: l) (files h))).
  by rewrite IH.
Qed.

Lemma run_write_host p b h :
  run_host (map OnDisk (write_file p b)) h = mk_host (passwords h) (<[p := b]> (files h)).
Proof. by rewrite run_on_disk, run_write_file. Qed.

Lemma run_save works u pem k h :
  run_host (fst (save_private_key works u pem k)) h =
  if uses_keyring k && works then mk_host (<[(SERVICE_NAME, u) := pem]> (passwords h)) (files h)
  else mk_host (passwords h) (<[plaintext_fallback_path k := str_bytes pem]> (files h)).
Proof.
  unfold save_private_key. destruct (_ && _); [done|]. apply run_write_host.
Qed.

(** The key saved is the one loaded later: the keyring works both times, or the plain file is
    used both times and no password of the keyring is in its way. *)
Definition key_found (w r : bool) (u : string) (k : KeyStore) (h : host) : Prop :=
  uses_keyring k = false \/ w = true /\ r = true \/
  w = false /\ (r = false \/ passwords h !! (SERVICE_NAME, u) = None).

Lemma stored_key_loads w r u pem k h :
  key_found w r u k h -> load_private_key r u k (run_host (fst (save_private_key w u pem k)) h) = Some pem.
Proof.
  intros Hf. rewrite run_save. unfold load_private_key, _load_plaintext.
  assert (forall m, bytes_str <$> (<[plaintext_fallback_path k := str_bytes pem]> m : disk)
            !! plaintext_fallback_path k = Some pem) as Hp
    by (intros m; rewrite lookup_insert_eq; cbn; f_equal; apply String.string_of_list_byte_of_string).
  destruct Hf as [-> |[[-> ->]|[-> Hr]]]; cbn [andb].
  - apply Hp.
  - destruct (uses_keyring k); cbn; [by rewrite lookup_insert_eq|apply Hp].
  - rewrite andb_false_r. destruct Hr as [-> |Hn]; [rewrite andb_false_r; apply Hp|].
    destruct (_ && _); [cbn; rewrite Hn|]; apply Hp.
Qed.

(** Writing another file does not touch the key. *)
Lemma load_key_frame r u k p b h :
  p <> plaintext_fallback_path k ->
  load_private_key r u k (mk_host (passwords h) (<[p := b]> (files h))) = load_private_key r u k h.
Proof. intros Hne. unfold load_private_key, _load_plaintext. cbn. by rewrite lookup_insert_ne. Qed.

Lemma save_files_frame w u pem k h p :
  p <> plaintext_fallback_path k ->
  files (run_host (fst (save_private_key w u pem k)) h) !! p = files h !! p.
Proof. intros Hne. rewrite run_save. destruct (_ && _); [done|]. cbn. by rewrite lookup_insert_ne. Qed.

(** After a deletion with a working keyring nothing is left to load. *)
Theorem deleted_key_gone r u k h :
  load_private_key r u k (run_host (delete_private_key true u k h) h) = None.
Proof.
  unfold delete_private_key, load_private_key, _load_plaintext. rewrite run_host_app, andb_true_r.
  destruct (files h !! plaintext_fallback_path k) as [f|] eqn:Ef; destruct (uses_keyring k); cbn;
    rewrite ?lookup_delete_eq, ?Ef; cbn; destruct r; cbn; rewrite ?lookup_delete_eq, ?Ef; done.
Qed.

End KeyTheory.

(** ** The file and the key *)
Module IdentityTheory.
Import Identity Rotation KeyStorage IdentityFile KeyTheory.

Lemma jget_set k v d k' :
  jget k' (OrderedDict.set k v d) = if decide (k' = k) then Some v else jget k' d.
Proof.
  induction d as [|[k0 v0] d IH]; cbn; [done|].
  destruct (decide (k0 = k)) as [->|Hne]; cbn.
  - by destruct (decide (k' = k)).
  - rewrite IH. destruct (decide (k' = k0)) as [->|]; [|done]. by rewrite decide_False.
Qed.

Lemma set_keys k (v : json) d x : x ∈ map fst (OrderedDict.set k v d) -> x = k \/ x ∈ map fst d.
Proof.
  induction d as [|[k0 v0] d IH]; cbn; [set_solver|].
  destruct (decide (k0 = k)) as [->|]; cbn; [set_solver|]. rewrite !elem_of_cons. intros [->|Hx]; [tauto|].
  destruct (IH Hx); tauto.
Qed.

Lemma jwf_set k v d : jwf (JObj d) = true -> jwf v = true -> jwf (JObj (OrderedDict.set k v d)) = true.
Proof.
  cbn. rewrite !andb_true_iff, !bool_decide_eq_true. intros [Hn Hd] Hv. revert Hn Hd.
  induction d as [|[k0 v0] d IH]; cbn; intros Hn Hd; [by rewrite Hv; split; [repeat constructor; set_solver|]|].
  apply NoDup_cons in Hn as [Hk Hn]. apply andb_true_iff in Hd as [Hv0 Hd].
  destruct (decide (k0 = k)) as [->|Hne]; cbn.
  - rewrite Hv, Hd. split; [by apply NoDup_cons|done].
  - destruct (IH Hn Hd) as [Hn' Hd']. rewrite Hv0, Hd'. split; [|done]. apply NoDup_cons. split; [|done].
    intros Hx%set_keys. destruct Hx; [done|contradiction].
Qed.

Section Identity.
Context `{PemLaws, Sha256, JsonText, JsonIndent, !JsonIndentLaws}.

(** An identity as the user knows it. *)
Record known := mk_known { k_key : ed_private; k_name : json; k_created : json }.

Definition known_pair (a : known) : DeviceKeypair := _keypair_from_private_key (k_key a).
Definition shown_name (a : known) : json := or_json (Some (k_name a)) (JStr "peer").
Definition as_identity (b : backend) (a : known) : DeviceIdentity :=
  mk_identity (known_pair a) (shown_name a) (k_created a) b false.

(** The host holds the identity: the file names the device of the key that is stored. *)
Record holds (k : KeyStore) (file : string) (h : host) (a : known) : Prop := {
  key_stored : load_private_key true KEYRING_USERNAME k h = Some (private_key_pem (k_key a));
  name_wf : jwf (k_name a) = true;
  meta_stored : exists meta, read_meta file h = Ok (JObj meta) /\ jwf (JObj meta) = true /\
    jget "device_id" meta = Some (JStr (device_id (known_pair a))) /\
    jget "name" meta = Some (k_name a) /\ jget "created_at" meta = Some (k_created a)
}.

Lemma read_meta_written file meta h :
  jwf (JObj meta) = true -> read_meta file (run_host (write_meta file meta) h) = Ok (JObj meta).
Proof.
  intros Hj. unfold read_meta, write_meta. rewrite run_write_host. cbn [files]. rewrite lookup_insert_eq.
  by rewrite json_loads_indent.
Qed.

Lemma holds_loads k file h a now :
  holds k file h a -> _load_existing true now file k h = Ok (as_identity (backend_name k) a).
Proof.
  intros [Hk _ (meta & Hm & _ & Hi & Hn & Hc)]. unfold _load_existing. rewrite Hm. cbn [rbind]. rewrite Hk, load_pem_pem.
  cbn [rbind as_object]. unfold names_device. rewrite Hi, Hn, Hc. cbn [device_id].
  by rewrite bool_decide_eq_true_2.
Qed.

Lemma meta_wf kp nm now extra :
  jwf nm = true -> extra = [] \/ (exists s, extra = [("rotated_from"%string, JStr s)]) ->
  jwf (JObj (public_meta kp nm now ++ extra)) = true.
Proof.
  intros Hj [->|[s ->]]; cbn [app public_meta jwf map fst snd forallb];
    rewrite Hj; rewrite bool_decide_eq_true_2; try done;
    repeat (apply NoDup_cons; split; [set_solver|]); apply NoDup_nil_2.
Qed.

(** Saving a key and then the file of its device. *)
Lemma saved_holds w file k h sk nm now extra :
  file <> plaintext_fallback_path k -> key_found w true KEYRING_USERNAME k h -> jwf nm = true ->
  extra = [] \/ (exists s, extra = [("rotated_from"%string, JStr s)]) ->
  holds k file
    (run_host (fst (save_private_key w KEYRING_USERNAME (private_key_pem sk) k) ++
               write_meta file (public_meta (_keypair_from_private_key sk) nm now ++ extra)) h)
    (mk_known sk nm (JFloat now)).
Proof.
  intros Hne Hf Hj He. pose proof (meta_wf (_keypair_from_private_key sk) nm now extra Hj He) as Hw.
  rewrite run_host_app. split; [|done|].
  - unfold write_meta. rewrite run_write_host, load_key_frame by done. by apply stored_key_loads.
  - eexists. split; [by apply read_meta_written|]. split; [done|].
    destruct He as [->|[s ->]]; done.
Qed.

(** *** A history of the identity *)

Inductive call : Type :=
| Start (now : spec_float) (sk : ed_private) (name : option string)
| Rename (peer_id name : string)
| Rotate (now : spec_float) (sk : ed_private) (new_name : option string).

(** The keyring works; a rotation starts from the identity loaded. *)
Definition call_run (file : string) (k : KeyStore) (h : host) (c : call) : host :=
  match c with
  | Start now sk nm => run_host (fst (load_or_create_identity true now sk nm file k h)) h
  | Rename peer nm => run_host (fst (save_identity peer nm file h)) h
  | Rotate now sk nm =>
      match _load_existing true now file k h with
      | Ok current => run_host (fst (rotate_identity true now sk current nm file k)) h
      | Err _ => h
      end
  end.

(** What the calls do to the identity the user knows. *)
Definition known_step (a : known) (c : call) : known :=
  match c with
  | Start _ _ _ => a
  | Rename peer nm =>
      if bool_decide (peer = device_id (known_pair a)) then mk_known (k_key a) (JStr nm) (k_created a) else a
  | Rotate now sk nm =>
      if bool_decide (device_id (known_pair a) = device_id (_keypair_from_private_key sk)) then a
      else mk_known sk (given_name nm (shown_name a)) (JFloat now)
  end.

Lemma given_name_wf nm j : jwf j = true -> jwf (given_name nm j) = true.
Proof. intros Hj. unfold given_name, or_json. by destruct nm as [s|]; cbn; [destruct (bool_decide _)|]. Qed.

Lemma shown_name_wf a : jwf (k_name a) = true -> jwf (shown_name a) = true.
Proof. unfold shown_name, or_json. by destruct (truthy _). Qed.

Lemma call_holds file k h a c :
  file <> plaintext_fallback_path k -> holds k file h a -> holds k file (call_run file k h c) (known_step a c).
Proof.
  intros Hne Hh. pose proof Hh as [Hk Hj (meta & Hm & Hw & Hi & Hn & Hc)].
  assert (exists text, files h !! file = Some text) as [text Et].
  { unfold read_meta in Hm. destruct (files h !! file); [by eexists|done]. }
  destruct c as [now sk nm|peer nm|now sk nm]; cbn [call_run known_step].
  - unfold load_or_create_identity. by rewrite Et.
  - unfold save_identity. rewrite Et, Hm. cbn [rbind as_object]. unfold names_device. rewrite Hi.
    destruct (bool_decide_reflect (device_id (known_pair a) = peer)) as [<-|Hp];
      [rewrite bool_decide_eq_true_2 by done|by rewrite bool_decide_eq_false_2].
    assert (jwf (JObj (OrderedDict.set "name" (JStr nm) meta)) = true) as Hw' by by apply jwf_set.
    split; [|done|].
    + cbn [fst]. unfold write_meta. by rewrite run_write_host, load_key_frame.
    + exists (OrderedDict.set "name" (JStr nm) meta). rewrite !jget_set. cbn [fst].
      split; [by apply read_meta_written|done].
  - rewrite (holds_loads _ _ _ _ now Hh). unfold rotate_identity, create_transition_certificate. cbn [keypair as_identity].
    destruct (decide _) as [He|He]; [by rewrite bool_decide_eq_true_2|]. rewrite bool_decide_eq_false_2 by done.
    rewrite (surjective_pairing (save_private_key _ _ _ _)). cbn [fst].
    apply saved_holds; [done|right; by left|by apply given_name_wf, shown_name_wf|right; by eexists].
Qed.

Lemma rename_ok file k h a n :
  holds k file h a -> snd (save_identity (device_id (known_pair a)) n file h) = Ok ().
Proof.
  intros [_ _ (meta & Hm & _ & Hi & _)]. unfold save_identity. destruct (files h !! file); [|done].
  rewrite Hm. cbn [rbind as_object]. unfold names_device. by rewrite Hi, bool_decide_eq_true_2.
Qed.


(** *** No silent change *)

Lemma loaded_id w now file k h i :
  _load_existing w now file k h = Ok i ->
  is_new i = false /\
  (exists pem sk, load_private_key w KEYRING_USERNAME k h = Some pem /\ load_pem_private_key pem = Some sk /\
     keypair i = _keypair_from_private_key sk) /\
  exists meta, read_meta file h = Ok (JObj meta) /\ jget "device_id" meta = Some (JStr (identity_id i)).
Proof.
  unfold _load_existing. destruct (read_meta file h) as [meta|] eqn:Hm; [|done]. cbn [rbind].
  destruct (load_private_key _ _ _ _) as [pem|] eqn:Hp; [|done].
  destruct (load_pem_private_key pem) as [sk|] eqn:Hs; [|done].
  destruct meta as [| | | | | |meta]; try done. cbn [rbind as_object]. unfold names_device.
  destruct (jget "device_id" meta) as [j|] eqn:Hj; [|done]. destruct j; try done.
  case_bool_decide as He; [|done]. intros <-%Ok_inj. split; [done|]. split.
  - exists pem, sk. split_and!; done.
  - exists meta. split; [done|]. by rewrite Hj, He.
Qed.

(** An identity is never replaced silently.  Where an identity file exists, a start writes
    nothing and generates no key: it returns the device the file names, with the stored
    private key whose public key hashes to that name, or it raises. *)
Theorem identity_never_swapped w now sk nm file k h :
  is_Some (files h !! file) ->
  fst (load_or_create_identity w now sk nm file k h) = [] /\
  forall i, snd (load_or_create_identity w now sk nm file k h) = Ok i ->
    is_new i = false /\
    (exists pem sk', load_private_key w KEYRING_USERNAME k h = Some pem /\
       load_pem_private_key pem = Some sk' /\ keypair i = _keypair_from_private_key sk') /\
    exists meta, read_meta file h = Ok (JObj meta) /\ jget "device_id" meta = Some (JStr (identity_id i)).
Proof.
  intros [text Et]. unfold load_or_create_identity. rewrite Et. split; [done|].
  intros i. apply loaded_id.
Qed.

(** *** Crashes *)

Lemma host_crashed_app l1 l2 h h' :
  host_crashed (l1 ++ l2) h h' -> host_crashed l1 h h' \/ host_crashed l2 (run_host l1 h) h'.
Proof.
  revert h. induction l1 as [|o l1 IH]; intros h Hc; [by right|].
  inversion Hc as [|p b n|? ? ? ? Hl]; subst; [by left; constructor..|].
  apply IH in Hl as [Hl|Hl]; [by left; constructor|by right].
Qed.

Lemma host_crashed_between l1 l2 h : host_crashed (l1 ++ l2) h (run_host l1 h).
Proof. revert h. induction l1 as [|o l1 IH]; intros h; [constructor|]. cbn. constructor. apply IH. Qed.

Lemma crashed_write p b h h' :
  host_crashed (map OnDisk (write_file p b)) h h' ->
  passwords h' = passwords h /\
  (files h' = files h \/ exists n, files h' = <[p := take n b]> (files h)).
Proof.
  intros Hc. inversion Hc as [| |? ? ? ? Hc1]; subst; [by split; [|left]|].
  assert (forall c, <[p := default [] (<[p := []]> (files h) !! p) ++ c]> (<[p := []]> (files h))
                    = <[p := c]> (files h)) as Hi
    by (intros c; rewrite lookup_insert_eq; apply insert_insert_eq).
  inversion Hc1 as [|? ? n|? ? ? ? Hc2]; subst; cbn.
  - split; [done|]. right. by exists 0%nat.
  - split; [done|]. right. exists n. apply Hi.
  - inversion Hc2; subst. cbn. split; [done|]. right. exists (length b). rewrite Hi. by rewrite take_ge.
Qed.

Lemma crashed_save w u pem k h h' file :
  file <> plaintext_fallback_path k ->
  host_crashed (fst (save_private_key w u pem k)) h h' -> files h' !! file = files h !! file.
Proof.
  intros Hne. unfold save_private_key. destruct (_ && _); cbn [fst].
  - intros Hc. inversion Hc as [| |? ? ? ? Hc1]; subst; [done|]. inversion Hc1; subst. done.
  - intros [_ [Hf|[n Hf]]]%crashed_write; rewrite Hf; [done|]. by rewrite lookup_insert_ne.
Qed.

(** No part of the text of an object is an object's text. *)
Definition whole_only (text : bytes) : Prop :=
  forall n, (n < length text)%nat -> json_loads (take n text) = None.

Lemma read_meta_lookup file h h' : files h' !! file = files h !! file -> read_meta file h' = read_meta file h.
Proof. unfold read_meta. by intros ->. Qed.

(** A crash while the file is written leaves the old file, the new one or an unreadable one. *)
Lemma crashed_meta file meta h h' :
  jwf (JObj meta) = true -> whole_only (json_dumps_indent (JObj meta)) ->
  host_crashed (write_meta file meta) h h' ->
  read_meta file h' = read_meta file h \/ read_meta file h' = Ok (JObj meta) \/ read_meta file h' = Err NotJson.
Proof.
  intros Hj Hw [_ [Hf|[n Hf]]]%crashed_write; [left; apply read_meta_lookup; by rewrite Hf|right].
  unfold read_meta. rewrite Hf, lookup_insert_eq.
  destruct (decide (n < length (json_dumps_indent (JObj meta)))%nat) as [Hn|Hn]; [right; by rewrite Hw|].
  left. rewrite take_ge by lia. by rewrite json_loads_indent.
Qed.

(** Wherever a rotation is interrupted, the next start gives the old device, the new device or
    an error, and never a third device. *)
Theorem rotation_crash_no_third_device file k h a now sk nm h' w now' :
  file <> plaintext_fallback_path k -> holds k file h a ->
  let current := as_identity (backend_name k) a in
  let new := _keypair_from_private_key sk in
  let meta := public_meta new (given_name nm (name current)) now
                ++ [("rotated_from"%string, JStr (identity_id current))] in
  whole_only (json_dumps_indent (JObj meta)) ->
  host_crashed (fst (rotate_identity w now sk current nm file k)) h h' ->
  match _load_existing true now' file k h' with
  | Ok i => identity_id i = device_id (known_pair a) \/ identity_id i = device_id new
  | Err _ => True
  end.
Proof.
  intros Hne Hh current new meta Hw Hc. destruct Hh as [_ Hj (m & Hm & _ & Hi & _)].
  assert (jwf (JObj meta) = true) as Hwf
    by (apply meta_wf; [by apply given_name_wf, shown_name_wf|right; by eexists]).
  assert (read_meta file h' = Ok (JObj m) \/ read_meta file h' = Ok (JObj meta) \/ read_meta file h' = Err NotJson) as Hr.
  { unfold rotate_identity in Hc. destruct (create_transition_certificate _ _ _); cbn [fst] in Hc.
    - rewrite (surjective_pairing (save_private_key _ _ _ _)) in Hc. cbn [fst] in Hc.
      apply host_crashed_app in Hc as [Hc|Hc].
      + left. rewrite <- Hm. apply read_meta_lookup. by eapply crashed_save.
      + rewrite <- Hm, <- (read_meta_lookup file h _ (save_files_frame w KEYRING_USERNAME (private_key_pem sk) k h file Hne)).
        by apply crashed_meta.
    - inversion Hc; subst. by left. }
  destruct (_load_existing true now' file k h') as [i|e] eqn:El; [|done].
  apply loaded_id in El as (_ & _ & m' & Hm' & Hi'). rewrite Hm' in Hr.
  destruct Hr as [[= ->]|[[= ->]|[=]]]; [left|right]; [congruence|].
  injection Hi' as Hi'. by rewrite <- Hi'.
Qed.

(** A rotation interrupted between the key and the file strands the device: the new key has
    replaced the old one, which is stored nowhere, the file names the old device, and
    every later start raises. *)
Theorem interrupted_rotation_strands file k h a now sk nm :
  file <> plaintext_fallback_path k -> holds k file h a ->
  device_id (known_pair a) <> device_id (_keypair_from_private_key sk) ->
  exists h', host_crashed (fst (rotate_identity true now sk (as_identity (backend_name k) a) nm file k)) h h' /\
    load_private_key true KEYRING_USERNAME k h' = Some (private_key_pem sk) /\
    forall now', _load_existing true now' file k h' = Err OutOfSync.
Proof.
  intros Hne Hh Hid. destruct Hh as [_ _ (m & Hm & _ & Hi & _)].
  unfold rotate_identity, create_transition_certificate. rewrite decide_False by done.
  rewrite (surjective_pairing (save_private_key _ _ _ _)). cbn [fst].
  set (saved := fst (save_private_key true KEYRING_USERNAME (private_key_pem sk) k)).
  assert (load_private_key true KEYRING_USERNAME k (run_host saved h) = Some (private_key_pem sk)) as Hk
    by (apply stored_key_loads; right; by left).
  exists (run_host saved h). split; [|split; [done|]].
  - apply host_crashed_between.
  - intros now'. unfold _load_existing. rewrite (read_meta_lookup file h) by by apply save_files_frame.
    rewrite Hm. cbn [rbind]. rewrite Hk, load_pem_pem. cbn [rbind as_object]. unfold names_device. rewrite Hi.
    by rewrite bool_decide_eq_false_2.
Qed.

(** A rotation whose key falls back to the plain file strands the device: the keyring still
    answers with the old key, and every later start raises. *)
Theorem fallback_rotation_strands file k h a now sk nm :
  file <> plaintext_fallback_path k -> holds k file h a ->
  uses_keyring k = true -> passwords h !! (SERVICE_NAME, KEYRING_USERNAME) = Some (private_key_pem (k_key a)) ->
  device_id (known_pair a) <> device_id (_keypair_from_private_key sk) ->
  let current := as_identity (backend_name k) a in
  let h' := run_host (fst (rotate_identity false now sk current nm file k)) h in
  is_ok (snd (rotate_identity false now sk current nm file k)) = true /\
  forall now', _load_existing true now' file k h' = Err OutOfSync.
Proof.
  intros Hne Hh Hu Hp Hid. cbv zeta. destruct Hh as [_ Hj _].
  unfold rotate_identity, create_transition_certificate. rewrite decide_False by done.
  rewrite (surjective_pairing (save_private_key _ _ _ _)). cbn [fst snd is_ok]. split; [done|]. intros now'.
  set (meta := public_meta _ _ now ++ _).
  assert (jwf (JObj meta) = true) as Hwf
    by (apply meta_wf; [by apply given_name_wf, shown_name_wf|right; by eexists]).
  unfold _load_existing. rewrite run_host_app, read_meta_written by done. cbn [rbind].
  unfold write_meta. rewrite run_write_host, load_key_frame by done.
  rewrite run_save, andb_false_r. unfold load_private_key. rewrite Hu. cbn [andb passwords]. rewrite Hp, load_pem_pem.
  cbn [rbind as_object]. unfold names_device.
  assert (jget "device_id" meta = Some (JStr (device_id (_keypair_from_private_key sk)))) as -> by done.
  rewrite bool_decide_eq_false_2; [done|]. intros E. by apply Hid.
Qed.

(** A rotation reaches the peers.  The certificate a rotation returns is accepted by every
    trust store that trusts the old device and does not know the new one, which then trusts
    the new device under its key; and the event announces the new device. *)
Theorem rotation_reaches_peers `{!Ed25519Laws} w now sk current nm file k i cert ev d old now' osk :
  keypair current = _keypair_from_private_key osk ->
  snd (rotate_identity w now sk current nm file k) = Ok (i, cert, ev) -> is_nan now = false ->
  Store.connected d = true ->
  Store.devices d !! identity_id current = Some old -> Store.status old = Store.TRUSTED ->
  Store.devices d !! identity_id i = None ->
  ev = mk_event KEY_ROTATION (identity_id i) /\
  snd (Store.record_rotation now' cert d) = Ok () /\
  Store.direct_decision (Store.devices (fst (Store.record_rotation now' cert d))) (identity_id i)
    (b64_text (public_key_bytes (keypair i))) = Store.D_TRUSTED.
Proof.
  intros Hk Hr Hnan Hc Ho Hs Hn. unfold rotate_identity, create_transition_certificate in Hr.
  destruct (decide _) as [|Hid]; [done|].
  rewrite (surjective_pairing (save_private_key _ _ _ _)) in Hr. cbn [snd] in Hr.
  injection Hr as <- <- <-. split; [done|].
  unfold identity_id in *. rewrite Hk in *.
  apply (Store.record_rotation_trusts now' (mk_cert _ _ _ _ _ _) d old); try done.
  apply Store.verify_signed.
Qed.

End Identity.
End IdentityTheory.

(** ** The migration of an old trust file *)
Module MigrationTheory.
Import Trust.Store Migration.

Section Rows.
Context `{Countable K} {A : Type}.

Lemma insert_all_other (l : list (K * A)) (m : gmap K A) k :
  k ∉ map fst l -> foldl (fun m r => <[fst r := snd r]> m) m l !! k = m !! k.
Proof.
  revert m. induction l as [|[k0 x] l IH]; intros m Hk; [done|]. cbn in *.
  rewrite IH by set_solver. apply lookup_insert_ne. set_solver.
Qed.

Lemma insert_all_in (l : list (K * A)) (m : gmap K A) k x :
  NoDup (map fst l) -> (k, x) ∈ l -> foldl (fun m r => <[fst r := snd r]> m) m l !! k = Some x.
Proof.
  revert m. induction l as [|[k0 y] l IH]; cbn; intros m Hn Hin; [by apply not_elem_of_nil in Hin|].
  apply NoDup_cons in Hn as [Hk Hn]. apply elem_of_cons in Hin as [[= -> ->]|Hin].
  - rewrite insert_all_other by done. apply lookup_insert_eq.
  - by apply IH.
Qed.

End Rows.

Section Migration.
Context `{OldTrustFile}.

(** The migration loses no row.  When it succeeds, every device of the old file is in the
    encrypted vault as the old file had it, the other devices of the vault are untouched and
    the plain file is gone.  Wherever it stops, by a failed flush or a crash between its
    steps, the old file is still there or the row is in the encrypted vault. *)
Theorem migration_keeps_rows flushes path v file t devs :
  vault_files v !! path = Some file -> open_old file = Some t -> old_devices t = Some devs ->
  NoDup (map fst devs) ->
  let steps := fst (migrate_plaintext_trust_db flushes path v) in
  let v' := run_steps steps v in
  (flushes = true -> snd (migrate_plaintext_trust_db flushes path v) = Ok (length devs) /\
     vault_files v' !! path = None /\
     (forall id dev, (id, dev) ∈ devs -> devices (encrypted v') !! id = Some dev) /\
     forall id, id ∉ map fst devs -> devices (encrypted v') !! id = devices (working v) !! id) /\
  forall n id dev, (id, dev) ∈ devs ->
    vault_files (run_steps (take n steps) v) !! path = Some file \/
    devices (encrypted (run_steps (take n steps) v)) !! id = Some dev.
Proof.
  intros Hf Ho Hd Hn. unfold migrate_plaintext_trust_db. rewrite Hf, Ho, Hd.
  destruct flushes; cbn [fst snd]; split.
  - intros _. cbn. split; [done|]. split; [apply lookup_delete_eq|]. split; intros.
    + by apply insert_all_in.
    + by apply insert_all_other.
  - intros n id dev Hin. destruct n as [|[|[|n]]]; cbn; [by left..|right; by apply insert_all_in|].
    right. rewrite take_nil. cbn. by apply insert_all_in.
  - done.
  - intros n id dev Hin. left. destruct n as [|n]; [done|]. cbn. by rewrite take_nil.
Qed.

(** The migration can undo a revocation.  A device the vault has revoked is trusted again
    under the key of the old file when a [trust.db] that lists it as trusted is in place at a
    start of the program; revocations elsewhere are final. *)
Theorem migration_undoes_revocation path v file t devs id dev old :
  vault_files v !! path = Some file -> open_old file = Some t -> old_devices t = Some devs ->
  NoDup (map fst devs) -> (id, dev) ∈ devs -> status dev = TRUSTED ->
  devices (working v) !! id = Some old -> status old = REVOKED ->
  let v' := run_steps (fst (migrate_plaintext_trust_db true path v)) v in
  (forall pk, direct_decision (devices (working v)) id pk <> D_TRUSTED) /\
  direct_decision (devices (working v')) id (public_key dev) = D_TRUSTED.
Proof.
  intros Hf Ho Hd Hn Hin Hs Hold Hr. unfold migrate_plaintext_trust_db. rewrite Hf, Ho, Hd. cbn.
  unfold direct_decision. rewrite Hold, Hr, (insert_all_in devs (devices (working v)) id dev Hn Hin), Hs.
  split; [intros pk; by destruct (bool_decide _)|]. by rewrite bool_decide_true.
Qed.

End Migration.
End MigrationTheory.

(** ** A device and its history *)
Module IdentitySample.
Import Identity Rotation KeyStorage IdentityFile KeyTheory IdentityTheory Migration MigrationTheory.

#[local] Existing Instances Crypto.Sample.ed25519 Crypto.Sample.ed25519_laws Crypto.Sample.sha.
#[local] Existing Instances BitText.text BitText.text_laws.

#[local] Instance sample_indent : JsonIndent := { json_dumps_indent := @json_dumps BitText.text }.
#[local] Instance sample_indent_laws : JsonIndentLaws.
Proof. split. apply (@json_loads_dumps _ BitText.text_laws). Qed.

(** A key is written as the text of a number. *)
#[local] Instance sample_pem : Pem := {
  private_key_pem (sk : @ed_private Crypto.Sample.ed25519) := bytes_str (json_dumps (JInt sk));
  load_pem_private_key s := match json_loads (str_bytes s) with Some (JInt z) => Some z | _ => None end
}.
#[local] Instance sample_pem_laws : PemLaws.
Proof.
  split. intros sk. cbn [load_pem_private_key private_key_pem sample_pem].
  by rewrite String.list_byte_of_string_of_list_byte, (@json_loads_dumps _ BitText.text_laws).
Qed.

Definition store : KeyStore := new_key_store "/home/key.pem" (Some "keyring.backends.SecretService"%string).
Definition noon : spec_float := binary_normalize 53 1024 43200 0 false.
Definition first_key : @ed_private Crypto.Sample.ed25519 := 5.
Definition second_key : @ed_private Crypto.Sample.ed25519 := 6.
Definition nothing : host := mk_host ∅ ∅.

Definition a_history : list call := [Rotate noon second_key (Some "Ann"%string); Rename "someone" "Bob"].


End IdentitySample.
