(* ===== verification/Shell.v ===== *)
(** * The command line, greetings and where messages go

    Models the parts of [app/ui/app.py] that decide to whom the program talks: the greetings
    [hello] and [hello_ack] and the registration of senders of chat messages, the dispatch of
    messages and of commands, [/connect], [/msg], [/send], [/name] and the text that is typed.

    The connections are an argument ([network]): the device each address has authenticated as,
    whether it is connected, and what dialling gives.  What a command or a message hands to
    another component is recorded as an effect.  A [sender_name] that is not a text is not
    followed. *)

From Corelib Require Import SpecFloat.
From S2P Require Import Prelude Dicts Text Json Crypto Canonical Messages Trust Files Discovery GroupApp.
From S2P Require Import Disk VaultKeys Link IdentityFile TrustApp.
Local Open Scope peerc_scope.
Local Open Scope Z_scope.

Module Shell.
Import PeerRegistry LinkFlow.

(** ** The state *)

Record network := mk_network {
  get_peer_device_id : string -> option string;
  is_connected : string -> bool;
  connect_to : string -> Z -> option string         (** [None]: it raises *)
}.

(** What is handed to other components, in order. *)
Inductive effect : Type :=
| Sent (addr_key : string) (message : dict)
| SelfEndpoint (addr_key : string)                  (** [_send_self_endpoint_update] *)
| RendezvousHosts (addr_key : string)               (** [_register_with_rendezvous_hosts] *)
| Probed (address : string)
| ChatSent (addr_key text : string)
| Offered (addr_key path : string)
| Announced (name : string)                         (** [broadcast_now] under this name *)
| UnlockAsked
| Touched
| MessageTo (component : string) (addr_key : string)
| CommandTo (component : string) (arg : string).

Record shell := mk_shell {
  my_id : string;
  display_name : string;
  registry : list (string * Peer);
  active_peer_id : option string;
  _last_received_msg : string;
  unlocked : bool;                                  (** [_session_is_unlocked] *)
  relocking : bool;
  device_host : KeyStorage.host;
  effects : list effect
}.

Inductive shell_error : Type :=
| PortValueError                                    (** [int] of digits that are not decimal *)
| RenameRaised (e : IdentityFile.identity_error)
| NotFollowed.

Abbreviation shop := (stm shell shell_error).

Definition set_registry (r : list (string * Peer)) (s : shell) : shell :=
  mk_shell (my_id s) (display_name s) r (active_peer_id s) (_last_received_msg s) (unlocked s) (relocking s)
    (device_host s) (effects s).
Definition set_active (a : option string) (s : shell) : shell :=
  mk_shell (my_id s) (display_name s) (registry s) a (_last_received_msg s) (unlocked s) (relocking s)
    (device_host s) (effects s).
Definition set_last (t : string) (s : shell) : shell :=
  mk_shell (my_id s) (display_name s) (registry s) (active_peer_id s) t (unlocked s) (relocking s)
    (device_host s) (effects s).
Definition set_name (n : string) (s : shell) : shell :=
  mk_shell (my_id s) n (registry s) (active_peer_id s) (_last_received_msg s) (unlocked s) (relocking s)
    (device_host s) (effects s).
Definition set_host (h : KeyStorage.host) (s : shell) : shell :=
  mk_shell (my_id s) (display_name s) (registry s) (active_peer_id s) (_last_received_msg s) (unlocked s)
    (relocking s) h (effects s).
Definition add_effects (l : list effect) (s : shell) : shell :=
  mk_shell (my_id s) (display_name s) (registry s) (active_peer_id s) (_last_received_msg s) (unlocked s)
    (relocking s) (device_host s) (effects s ++ l).

Definition perform (e : effect) : shop unit := modify (add_effects [e]).

(** ** Peers *)

(** [if self.active_peer_id is None]. *)
Definition default_active (id : string) (s : shell) : shell :=
  match active_peer_id s with None => set_active (Some id) s | Some _ => s end.

(** The callback of the registry. *)
Definition _on_peer_new (p : Peer) (s : shell) : shell := default_active (peer_id p) s.

Definition run_notice (s : shell) (n : notice) : shell :=
  match n with PeerNew p => _on_peer_new p s | PeerLost _ => s end.

Definition upsert_peer (now : spec_float) (id nm address : string) (port : json) (s : shell) : shell :=
  let '(r, ns) := upsert now id nm address port [] "" (registry s) in
  foldl run_notice (set_registry r s) ns.

(** A packet of the discovery. *)
Definition on_announcement `{Sha256, JsonText} (now : spec_float) (d : Announce.Discovery) (source_ip : string)
    (data : bytes) (s : shell) : shell :=
  let '(r, es) := Announce._handle_packet now d source_ip data (registry s) in
  foldl (fun s e => match e with Announce.Notified n => run_notice s n | _ => s end) (set_registry r s) es.

(** [s.rsplit(":", 1)]: what is before the last colon and what is after it. *)
Fixpoint rsplit_bytes (b : bytes) : option (bytes * bytes) :=
  match b with
  | [] => None
  | c :: b' =>
      match rsplit_bytes b' with
      | Some (x, y) => Some (c :: x, y)
      | None => if bool_decide (c = ":"%byte) then Some ([], b') else None
      end
  end.

(** [addr_key.rsplit(":", 1)[0]]. *)
Definition host_of (addr_key : string) : string :=
  match rsplit_bytes (str_bytes addr_key) with Some (x, _) => bytes_str x | None => addr_key end.

Definition _verify_self_reported_id (net : network) (addr_key claimed_peer_id : string) : bool :=
  bool_decide (get_peer_device_id net addr_key = Some claimed_peer_id).

(** The identifier of a message when it is one to register: a text that is not empty, not the
    own one, and the one the connection authenticated. *)
Definition registered_id (net : network) (addr_key : string) (claimed : option json) (s : shell) : option string :=
  match claimed with
  | Some (JStr id) =>
      if negb (text_is_empty id) && negb (bool_decide (id = my_id s)) && _verify_self_reported_id net addr_key id
      then Some id else None
  | _ => None
  end.

Definition text_or (j : option json) (d : string) : shop string :=
  match j with
  | None => mret d
  | Some (JStr t) => mret t
  | Some _ => raise NotFollowed
  end.

(** ** Messages *)

(** The common part of [hello] and [hello_ack]: whether the sender was registered. *)
Definition register_greeting (now : spec_float) (net : network) (addr_key : string) (m : dict) : shop bool :=
  id ← gets (registered_id net addr_key (jget "peer_id" m));
  match id with
  | None => mret false
  | Some id =>
      sender_name ← text_or (jget "sender_name" m) (host_of addr_key);
      let tcp_port := default (JInt UI_TCP_PORT) (jget "tcp_port" m) in
      modify (upsert_peer now id sender_name (host_of addr_key) tcp_port) ;;
      modify (default_active id) ;;
      mret true
  end.

(** [clock]: the reading that stamps the answer. *)
Definition on_hello (now : spec_float) (clock : spec_float) (net : network) (addr_key : string) (m : dict) : shop unit :=
  ok ← register_greeting now net addr_key m;
  if (ok : bool) then
    s ← gets id;
    perform (Sent addr_key (Factories.make_hello_ack clock (my_id s) (display_name s) UI_TCP_PORT)) ;;
    perform (SelfEndpoint addr_key) ;;
    perform (RendezvousHosts addr_key)
  else mret ().

Definition on_hello_ack (now : spec_float) (net : network) (addr_key : string) (m : dict) : shop unit :=
  ok ← register_greeting now net addr_key m;
  if (ok : bool) then perform (SelfEndpoint addr_key) ;; perform (RendezvousHosts addr_key)
  else mret ().

(** The component each other message goes to. *)
Definition message_component (msg_type : string) : option string :=
  if bool_decide (msg_type ∈ ["endpoint_update"; "error"; "rendezvous_register"; "rendezvous_lookup";
       "rendezvous_lookup_response"; "relay_request"; "relay_response"; "relay_candidate_query";
       "relay_candidate_response"; "group_join_request"; "group_join_response"; "group_leave_request";
       "group_leave_response"; "group_membership_revoke"; "group_export_request";
       "group_export_capability"]%string)
  then Some msg_type else None.

Definition _on_network_message_handshake (now clock : spec_float) (net : network) (addr_key : string) (m : dict)
    : shop unit :=
  match jget "type" m with
  | Some (JStr t) =>
      if bool_decide (t = "hello"%string) then on_hello now clock net addr_key m
      else if bool_decide (t = "hello_ack"%string) then on_hello_ack now net addr_key m
      else match message_component t with
           | Some c => perform (MessageTo c addr_key)
           | None => mret ()
           end
  | _ => mret ()
  end.

(** The sender of a chat message is registered at the default port. *)
Definition _on_chat_received (now : spec_float) (net : network) (addr_key : string) (m : dict) : shop unit :=
  sender_name ← text_or (jget "sender_name" m) "peer";
  text ← text_or (jget "text" m) "";
  modify (set_last text) ;;
  id ← gets (registered_id net addr_key (jget "sender_id" m));
  match id with
  | None => mret ()
  | Some id =>
      modify (upsert_peer now id sender_name (host_of addr_key) (JInt UI_TCP_PORT)) ;;
      modify (default_active id)
  end.

(** ** Where a text goes *)

Definition _active_addr_key (s : shell) : option string :=
  id ← active_peer_id s; p ← get id (registry s); Some (GroupApp.addr_of p).

Section Commands.
Context `{UnicodeDigits, LowerCase, JsonText, JsonIndent}.

Definition _ensure_connected (net : network) (addr_key : string) : bool :=
  if is_connected net addr_key then true
  else match rsplit_bytes (str_bytes addr_key) with
       | None => false                              (** the [ValueError] of the unpacking *)
       | Some (x, y) =>
           match py_int (str_chars (bytes_str y)) with
           | None => false
           | Some port => bool_decide (is_Some (connect_to net (bytes_str x) port))
           end
       end.

(** The address of the active peer, once it is connected. *)
Definition reach_active (net : network) (s : shell) : option string :=
  addr_key ← _active_addr_key s;
  if _ensure_connected net addr_key then Some addr_key else None.

(** *** [/connect] *)

(** [arg.find("]")] and what is before and after it. *)
Definition at_bracket (t : text) : option (text * text) :=
  let inside := takewhile (fun g => negb (is_ch "]"%byte g)) t in
  match drop (length inside) t with [] => None | _ :: rest => Some (inside, rest) end.

(** The host and the port; [None]: [int] raises. *)
Definition parse_connect (arg : text) : option (text * Z) :=
  match arg with
  | g :: arg' =>
      if is_ch "["%byte g then
        match at_bracket arg' with
        | None => Some (arg, UI_TCP_PORT)
        | Some (inside, rest) =>
            match rest with
            | c :: digits =>
                if is_ch ":"%byte c && text_isdigit digits then p ← py_int digits; Some (inside, p)
                else Some (inside, UI_TCP_PORT)
            | [] => Some (inside, UI_TCP_PORT)
            end
        end
      else if (count_colons arg =? 1)%nat then
        let ip_part := takewhile (fun g => negb (is_ch ":"%byte g)) arg in
        let port_str := drop (S (length ip_part)) arg in
        if text_isdigit port_str then p ← py_int port_str; Some (ip_part, p)
        else Some (arg, UI_TCP_PORT)
      else Some (arg, UI_TCP_PORT)
  | [] => Some (arg, UI_TCP_PORT)
  end.

(** The peer of the connection becomes the active one, under a made-up name when the address is
    not in the registry. *)
Definition select_address (now : spec_float) (ip_ : string) (port : Z) (s : shell) : shell :=
  match List.find (fun p => bool_decide (ip p = ip_)) (list_peers (registry s)) with
  | Some p => set_active (Some (peer_id p)) s
  | None =>
      let manual_id := "peer-" +:+ ip_ in
      set_active (Some manual_id)
        (upsert_peer now manual_id ("Peer (" +:+ ip_ +:+ ")") ip_ (JInt port) s)
  end.

Definition cmd_connect (now clock : spec_float) (net : network) (arg : string) : shop unit :=
  if text_is_empty arg then mret () else
  match parse_connect (str_chars arg) with
  | None => raise PortValueError
  | Some (host, port) =>
      let ip_ := chars_str host in
      perform (Probed ip_) ;;
      match connect_to net ip_ port with
      | None => mret ()
      | Some addr_key =>
          s ← gets id;
          perform (Sent addr_key (Factories.make_hello clock (my_id s) (display_name s) UI_TCP_PORT)) ;;
          modify (select_address now ip_ port)
      end
  end.

(** *** [/msg], [/send], [/name] *)

(** The first peer whose name contains the text or whose identifier starts with it. *)
Definition find_peer (arg : string) (r : list (string * Peer)) : option Peer :=
  List.find (fun p => has_substring (str_bytes (str_lower arg)) (str_bytes (str_lower (name p)))
                      || startswith (peer_id p) arg) (list_peers r).

Definition cmd_msg (arg : string) : shop unit :=
  if text_is_empty arg then mret () else
  modify (fun s => match find_peer arg (registry s) with
                   | Some p => set_active (Some (peer_id p)) s
                   | None => s
                   end).

(** [isfile]: the path names a file. *)
Definition cmd_send (net : network) (isfile : bool) (arg : string) : shop unit :=
  if text_is_empty arg || negb isfile then mret () else
  s ← gets id;
  match reach_active net s with
  | None => mret ()
  | Some addr_key => perform (Offered addr_key arg)
  end.

(** The name changes before the file is written. *)
Definition cmd_name (identity_file arg : string) : shop unit :=
  if text_is_empty arg then mret () else
  if negb (TrustApp.Review.validate_display_name arg) then mret () else
  modify (set_name arg) ;;
  s ← gets id;
  let '(ops, r) := IdentityFile.save_identity (my_id s) arg identity_file (device_host s) in
  modify (set_host (KeyStorage.run_host ops (device_host s))) ;;
  match r with
  | Ok _ => perform (Announced arg)
  | Err e => raise (RenameRaised e)
  end.

(** *** The line that is typed *)

(** The component each other command goes to. *)
Definition command_component (cmd : string) : string :=
  if bool_decide (cmd ∈ ["/help"; "/h"]%string) then "help"
  else if bool_decide (cmd ∈ ["/clear"; "/cls"]%string) then "clear"
  else if bool_decide (cmd ∈ ["/info"; "/me"]%string) then "info"
  else if bool_decide (cmd ∈ ["/devices"; "/pairs"]%string) then "devices"
  else if bool_decide (cmd ∈ ["/groups"; "/group"]%string) then "group"
  else if bool_decide (cmd ∈ ["/quit"; "/exit"; "/q"]%string) then "quit"
  else if bool_decide (cmd ∈ ["/link"; "/peers"; "/copy"; "/lock"; "/autolock"; "/criticalkey"; "/files";
                              "/open"; "/export"; "/secure"; "/delete"; "/trust"; "/revoke"; "/events"]%string)
  then cmd
  else "unknown".

Definition _handle_command (now clock : spec_float) (net : network) (isfile : bool) (identity_file text : string)
    : shop unit :=
  match split_once (str_chars text) with
  | None => mret ()
  | Some (word, rest) =>
      let cmd := str_lower word in
      let arg := default ""%string (stripped <$> rest) in
      if bool_decide (cmd ∈ ["/connect"; "/add"]%string) then cmd_connect now clock net arg
      else if bool_decide (cmd = "/msg"%string) then cmd_msg arg
      else if bool_decide (cmd = "/send"%string) then cmd_send net isfile arg
      else if bool_decide (cmd = "/name"%string) then cmd_name identity_file arg
      else perform (CommandTo (command_component cmd) arg)
  end.

Definition on_input_submitted (now clock : spec_float) (net : network) (isfile : bool) (identity_file value : string)
    : shop unit :=
  let text := stripped value in
  if text_is_empty text then mret () else
  s ← gets id;
  if negb (unlocked s) then
    if relocking s then mret () else perform UnlockAsked
  else
    perform Touched ;;
    if startswith text "/" then _handle_command now clock net isfile identity_file text
    else
      match reach_active net s with
      | None => mret ()
      | Some addr_key => perform (ChatSent addr_key text)
      end.

End Commands.
End Shell.
