(* ===== verification/ShellTheory.v ===== *)
(** * What greetings and typed lines guarantee

    Theorems about [Shell]: only authenticated senders are registered, a locked program sends
    nothing that is typed, a text goes to the address of the active peer, addresses are parsed as
    they are written, and a new name is there at the next start. *)

From Corelib Require Import SpecFloat.
From S2P Require Import Prelude Dicts Text Json Crypto Canonical Messages Trust Files Discovery GroupApp.
From S2P Require Import Disk VaultKeys Link DiscoveryTheory IdentityFile IdentityFileTheory TrustApp Shell.
Import PeerRegistry LinkFlow Shell.
Local Open Scope peerc_scope.
Local Open Scope Z_scope.

(** ** Registration *)

Lemma default_active_registry id s : registry (default_active id s) = registry s.
Proof. unfold default_active. by destruct (active_peer_id s). Qed.

Lemma run_notices_registry ns s : registry (foldl run_notice s ns) = registry s.
Proof.
  revert s. induction ns as [|n ns IH]; intros s; [done|]. cbn. rewrite IH.
  destruct n; [apply default_active_registry|done].
Qed.

(** Registering a peer changes its entry only, and puts it at the address given. *)
Lemma upsert_peer_get now id nm address port s id' :
  get id' (registry (upsert_peer now id nm address port s)) = get id' (registry s) /\ id' <> id \/
  id' = id /\ exists p, get id' (registry (upsert_peer now id nm address port s)) = Some p /\ ip p = address /\
    tcp_port p = port.
Proof.
  unfold upsert_peer. destruct (upsert now id nm address port [] "" (registry s)) as [r ns] eqn:E.
  rewrite run_notices_registry. cbn [registry set_registry]. unfold upsert in E.
  destruct (decide (id' = id)) as [->|Hne].
  - right. split; [done|]. destruct (OrderedDict.get id (registry s)); injection E as <- _;
      unfold get; rewrite OrderedDict.get_set, decide_True by done; by eexists.
  - left. split; [|done]. destruct (OrderedDict.get id (registry s)); injection E as <- _;
      unfold get; by rewrite OrderedDict.get_set, decide_False.
Qed.

Lemma registered_id_spec net addr j s id :
  registered_id net addr j s = Some id -> get_peer_device_id net addr = Some id /\ id <> my_id s /\ id <> ""%string.
Proof.
  unfold registered_id, _verify_self_reported_id. destruct j as [j|]; [|done]. destruct j; try done.
  destruct (_ && _ && _) eqn:E; [|done]. intros [= <-]. rewrite !andb_true_iff, !negb_true_iff in E.
  destruct E as [[E1 E2] E3]. apply bool_decide_eq_true in E3. apply bool_decide_eq_false in E2.
  unfold text_is_empty in E1. apply bool_decide_eq_false in E1. done.
Qed.

(** What a message may do to the registry, the active peer and the identity. *)
Record registers (net : network) (addr : string) (s s' : shell) : Prop := {
  same_me : my_id s' = my_id s;
  entries : forall id, get id (registry s') = get id (registry s) \/
    get_peer_device_id net addr = Some id /\ id <> my_id s /\
    exists p, get id (registry s') = Some p /\ ip p = host_of addr;
  actives : active_peer_id s' = active_peer_id s \/
    active_peer_id s = None /\ active_peer_id s' = get_peer_device_id net addr
}.

Lemma registers_same net addr s s' :
  my_id s' = my_id s -> registry s' = registry s -> active_peer_id s' = active_peer_id s ->
  registers net addr s s'.
Proof. intros E1 E2 E3. split; [done|intros; left; by rewrite E2|by left]. Qed.

Lemma registers_register now net addr id nm port s :
  get_peer_device_id net addr = Some id -> id <> my_id s ->
  registers net addr s (default_active id (upsert_peer now id nm (host_of addr) port s)).
Proof.
  intros Hid Hne.
  assert (my_id (upsert_peer now id nm (host_of addr) port s) = my_id s /\
          (active_peer_id (upsert_peer now id nm (host_of addr) port s) = active_peer_id s \/
           active_peer_id s = None /\
           active_peer_id (upsert_peer now id nm (host_of addr) port s) = Some id)) as [Hm Ha].
  { unfold upsert_peer, upsert. destruct (OrderedDict.get id (registry s)); cbn; [by split; [|left]|].
    unfold _on_peer_new, default_active. cbn. destruct (active_peer_id s) eqn:Ea; cbn; rewrite ?Ea; auto. }
  split.
  - unfold default_active. by destruct (active_peer_id _).
  - intros id'. rewrite default_active_registry.
    destruct (upsert_peer_get now id nm (host_of addr) port s id') as [[E _]|(-> & p & E & Hi & _)]; [by left|].
    right. split_and!; [done|done|by exists p].
  - unfold default_active. destruct (active_peer_id (upsert_peer _ _ _ _ _ _)) as [a|] eqn:Ea; cbn.
    + rewrite Ea, Hid. destruct Ha as [Ha|[Hn Ha]]; [by left|right; by rewrite <- Ha].
    + right. destruct Ha as [Ha|[Hn Ha]]; [|done]. by rewrite Hid.
Qed.

#[local] Instance registers_preorder net addr : PreOrder (registers net addr).
Proof.
  split; [intros s; by apply registers_same|]. intros s1 s2 s3 [W1 W2 W3] [V1 V2 V3]. split.
  - congruence.
  - intros id. destruct (V2 id) as [->|(Ha & Hn & Hp)]; [apply W2|]. right. by rewrite W1 in Hn.
  - destruct V3 as [->|[Vn Vs]]; [done|]. destruct W3 as [Hw|[Hw1 Hw2]].
    + right. split; congruence.
    + right. split; [done|congruence].
Qed.

Lemma perform_registers net addr e : within (registers net addr) (perform e).
Proof. intros s. by apply registers_same. Qed.

Lemma text_or_state j d s : fst (text_or j d s) = s.
Proof. by destruct j as [[]|]. Qed.

Lemma greeting_registers now net addr m : within (registers net addr) (register_greeting now net addr m).
Proof.
  intros s. unfold register_greeting. cbv [mbind stm_bind gets].
  destruct (registered_id _ _ _ _) as [id|] eqn:E; [|by apply registers_same].
  apply registered_id_spec in E as (Hid & Hne & _).
  pose proof (text_or_state (jget "sender_name" m) (host_of addr) s) as Es.
  destruct (text_or _ _ s) as [s1 [nm|er]]; cbn in Es; subst s1; [|by apply registers_same].
  cbn. by apply registers_register.
Qed.

Lemma message_registers now clock net addr m :
  within (registers net addr) (_on_network_message_handshake now clock net addr m).
Proof.
  unfold _on_network_message_handshake. destruct (jget "type" m) as [j|]; [|apply within_ret, _].
  destruct j; try apply within_ret, _.
  repeat case_bool_decide.
  - unfold on_hello. apply (within_bind _); [apply greeting_registers|]. intros []; [|apply within_ret, _].
    apply (within_bind _); [apply within_gets, _|]. intros s'.
    repeat (apply (within_bind _); [apply perform_registers|intros _]). apply perform_registers.
  - unfold on_hello_ack. apply (within_bind _); [apply greeting_registers|]. intros []; [|apply within_ret, _].
    apply (within_bind _); [apply perform_registers|intros _]. apply perform_registers.
  - destruct (message_component s); [apply perform_registers|apply within_ret, _].
Qed.

Lemma chat_registers now net addr m : within (registers net addr) (_on_chat_received now net addr m).
Proof.
  intros s. unfold _on_chat_received. cbv [mbind stm_bind gets modify].
  pose proof (text_or_state (jget "sender_name" m) "peer" s) as Es.
  destruct (text_or _ _ s) as [s1 [nm|er]]; cbn in Es; subst s1; [|by apply registers_same].
  pose proof (text_or_state (jget "text" m) "" s) as Et.
  destruct (text_or (jget "text" m) _ s) as [s1 [t|er]]; cbn in Et; subst s1; [|by apply registers_same].
  assert (registers net addr s (set_last t s)) as Hl by by apply registers_same.
  destruct (registered_id _ _ _ _) as [id|] eqn:E; [|done].
  apply registered_id_spec in E as (Hid & Hne & _).
  etransitivity; [exact Hl|]. by apply registers_register.
Qed.

(** *** Runs of messages *)

Inductive arrival : Type :=
| Greeting (net : network) (addr_key : string) (m : dict)
| Chat (net : network) (addr_key : string) (m : dict).

Definition arrival_net (e : arrival) : network := match e with Greeting n _ _ | Chat n _ _ => n end.
Definition arrival_addr (e : arrival) : string := match e with Greeting _ a _ | Chat _ a _ => a end.

(** [now] reads the clock at each arrival. *)
Definition arrive (now : spec_float) (s : shell) (e : arrival) : shell :=
  match e with
  | Greeting net a m => fst (_on_network_message_handshake now now net a m s)
  | Chat net a m => fst (_on_chat_received now net a m s)
  end.

Lemma arrive_registers now s e : registers (arrival_net e) (arrival_addr e) s (arrive now s e).
Proof. destruct e; [apply message_registers|apply chat_registers]. Qed.


(** ** Typed lines *)

Section Typed.
Context `{UnicodeDigits, LowerCase, !JsonText, !JsonIndent}.

(** A locked program does nothing with what is typed.  While the vault is locked a line, a
    command or a text, sends nothing and changes nothing; at most the unlock dialog is asked for. *)
Theorem locked_input_inert now clock net isfile file value s :
  unlocked s = false ->
  on_input_submitted now clock net isfile file value s = (s, Ok ()) \/
  on_input_submitted now clock net isfile file value s = (add_effects [UnlockAsked] s, Ok ()).
Proof.
  intros Hu. unfold on_input_submitted. destruct (text_is_empty _); [by left|].
  cbv [mbind stm_bind gets]. cbn. rewrite Hu. cbn. destruct (relocking s); [by left|by right].
Qed.

(** A line that is a text to send. *)
Definition is_chat (value : string) : bool :=
  negb (text_is_empty (stripped value)) && negb (startswith (stripped value) "/").

(** A text goes to the address of the active peer.  It is sent once, to the address the
    registry has for the active peer, when that address is connected or can be dialled, and
    otherwise not at all; nothing else changes. *)
Theorem text_goes_to_active now clock net isfile file value s :
  unlocked s = true -> is_chat value = true ->
  on_input_submitted now clock net isfile file value s =
  (add_effects (Touched ::
     match id ← active_peer_id s; get id (registry s) with
     | Some p => if _ensure_connected net (GroupApp.addr_of p) then [ChatSent (GroupApp.addr_of p) (stripped value)] else []
     | None => []
     end) s, Ok ()).
Proof.
  intros Hu Hc. apply andb_true_iff in Hc as [He Hs]. apply negb_true_iff in He, Hs.
  unfold on_input_submitted. rewrite He. cbv [mbind stm_bind gets perform modify]. cbn [id]. rewrite Hu, Hs. cbn [negb].
  unfold reach_active, _active_addr_key. destruct (active_peer_id s) as [id|]; [|done]. cbn.
  destruct (get id (registry s)) as [p|]; [|done]. cbn.
  destruct (_ensure_connected net (GroupApp.addr_of p)); [|done]. cbn.
  f_equal. unfold add_effects. cbn. f_equal. by rewrite <- app_assoc.
Qed.

(** *** Addresses *)

Lemma takewhile_stop (P : bytes -> bool) a c t :
  forallb P a = true -> P c = false -> takewhile P (a ++ c :: t) = a.
Proof.
  induction a as [|x a IH]; cbn; intros Ha Hc; [by rewrite Hc|].
  apply andb_true_iff in Ha as [-> Ha]. by rewrite IH.
Qed.

Lemma count_colons_app a b : count_colons (a ++ b) = (count_colons a + count_colons b)%nat.
Proof. unfold count_colons. by rewrite List.filter_app, length_app. Qed.

Lemma count_colons_none t :
  forallb (fun g => negb (is_ch ":"%byte g)) t = true -> count_colons t = 0%nat.
Proof.
  induction t as [|g t IH]; [done|]. cbn. rewrite andb_true_iff, negb_true_iff. intros [Hg Ht].
  unfold count_colons in *. cbn. rewrite Hg. by apply IH.
Qed.

Context `{!UnicodeDigitsLaws}.

Definition port_text (port : Z) : text := str_chars (pretty port).

Lemma port_text_parses port :
  0 <= port < 65536 -> text_isdigit (port_text port) = true /\ py_int (port_text port) = Some port.
Proof.
  intros Hp. split.
  - apply (text_isdigit_pretty 5); [lia|]. cbn. lia.
  - apply (py_int_pretty 5); [unfold MAX_STR_DIGITS; lia|]. cbn. lia.
Qed.

Lemma port_text_no_colon port :
  0 <= port < 65536 -> forallb (fun g => negb (is_ch ":"%byte g)) (port_text port) = true.
Proof.
  intros Hp. destruct (pretty_decimal 5 port) as (ds & E & _ & Hd & _); [lia|cbn; lia|].
  unfold port_text, str_chars. rewrite E, chars_digits by done. apply forallb_forall.
  intros g (d & <- & Hin)%in_map_iff. rewrite Forall_forall in Hd. apply list_elem_of_In, Hd in Hin.
  destruct (digit_spec d Hin) as (Ha & _). apply negb_true_iff, bool_decide_eq_false. intros Ec.
  by rewrite Ec in Ha.
Qed.

Lemma one_colon host port :
  0 <= port < 65536 -> forallb (fun g => negb (is_ch ":"%byte g)) host = true ->
  count_colons (host ++ [":"%byte] :: port_text port) = 1%nat.
Proof.
  intros Hp Hc. change (host ++ [":"%byte] :: port_text port) with (host ++ [[":"%byte]] ++ port_text port).
  rewrite !count_colons_app, (count_colons_none host), (count_colons_none (port_text port)) by
    (done || by apply port_text_no_colon). done.
Qed.

(** A text without an opening bracket. *)
Lemma parse_plain arg :
  is_ch "["%byte (default [] (head arg)) = false ->
  parse_connect arg =
    if (count_colons arg =? 1)%nat then
      let ip_part := takewhile (fun g => negb (is_ch ":"%byte g)) arg in
      let port_str := drop (S (length ip_part)) arg in
      if text_isdigit port_str then p ← py_int port_str; Some (ip_part, p)
      else Some (arg, UI_TCP_PORT)
    else Some (arg, UI_TCP_PORT).
Proof. destruct arg as [|g arg]; [done|]. cbn [head default from_option id parse_connect]. by intros ->. Qed.

Lemma parse_host_port host port :
  0 <= port < 65536 -> forallb (fun g => negb (is_ch ":"%byte g)) host = true ->
  is_ch "["%byte (default [] (head host)) = false ->
  parse_connect (host ++ [":"%byte] :: port_text port) = Some (host, port).
Proof.
  intros Hp Hc Hb. destruct (port_text_parses port Hp) as [Hd Hi].
  rewrite parse_plain by (by destruct host). rewrite one_colon by done. cbv zeta. cbn [Nat.eqb].
  rewrite takewhile_stop by done. rewrite drop_app_ge by lia.
  replace (S (length host) - length host)%nat with 1%nat by lia. cbn [drop]. by rewrite drop_0, Hd, Hi.
Qed.

Lemma parse_bracketed host port :
  0 <= port < 65536 -> forallb (fun g => negb (is_ch "]"%byte g)) host = true ->
  parse_connect (["["%byte] :: host ++ ["]"%byte] :: [":"%byte] :: port_text port) = Some (host, port) /\
  parse_connect (["["%byte] :: host ++ [["]"%byte]]) = Some (host, UI_TCP_PORT).
Proof.
  intros Hp Hc. destruct (port_text_parses port Hp) as [Hd Hi].
  cbn [parse_connect]. change (is_ch "["%byte ["["%byte]) with true. cbv iota. unfold at_bracket.
  rewrite !takewhile_stop by done. rewrite !drop_app_length. split; [|done].
  change (is_ch ":"%byte [":"%byte]) with true. cbn [andb]. by rewrite Hd, Hi.
Qed.

(** An address is read as it is written.  A host without colons and a port, an address between
    brackets and a port, and an address of several colons without brackets, give back their
    host and port; without a port it is the program's own. *)
Theorem connect_address_read host port :
  0 <= port < 65536 ->
  (forallb (fun g => negb (is_ch ":"%byte g)) host = true -> is_ch "["%byte (default [] (head host)) = false ->
   parse_connect (host ++ [":"%byte] :: port_text port) = Some (host, port) /\
   parse_connect host = Some (host, UI_TCP_PORT)) /\
  (forallb (fun g => negb (is_ch "]"%byte g)) host = true ->
   parse_connect (["["%byte] :: host ++ ["]"%byte] :: [":"%byte] :: port_text port) = Some (host, port) /\
   parse_connect (["["%byte] :: host ++ [["]"%byte]]) = Some (host, UI_TCP_PORT)) /\
  ((2 <= count_colons host)%nat -> is_ch "["%byte (default [] (head host)) = false ->
   parse_connect host = Some (host, UI_TCP_PORT)).
Proof.
  intros Hp. split_and!.
  - intros Hc Hb. split; [by apply parse_host_port|]. rewrite parse_plain by done. by rewrite count_colons_none.
  - by apply parse_bracketed.
  - intros Hc Hb. rewrite parse_plain by done. destruct (Nat.eqb_spec (count_colons host) 1); [lia|done].
Qed.

(** *** A new name *)

(** A new name is kept.  A name of at most 32 characters without control characters is shown and
    announced, and the next start finds it with the same key; any other text changes nothing. *)
Theorem new_name_kept `{PemLaws, !Sha256, !JsonIndentLaws} file k s a n now :
  file <> KeyStorage.plaintext_fallback_path k ->
  IdentityTheory.holds k file (device_host s) a ->
  my_id s = Identity.device_id (IdentityTheory.known_pair a) -> n <> ""%string ->
  let s' := fst (cmd_name file n s) in
  if TrustApp.Review.validate_display_name n then
    snd (cmd_name file n s) = Ok () /\ display_name s' = n /\ effects s' = effects s ++ [Announced n] /\
    IdentityFile._load_existing true now file k (device_host s') =
      Ok (IdentityTheory.as_identity (KeyStorage.backend_name k)
            (IdentityTheory.mk_known (IdentityTheory.k_key a) (JStr n) (IdentityTheory.k_created a)))
  else cmd_name file n s = (s, Ok ()).
Proof.
  intros Hne Hh Hid Hn. cbv zeta. unfold cmd_name.
  assert (text_is_empty n = false) as -> by by apply bool_decide_eq_false_2.
  destruct (TrustApp.Review.validate_display_name n); cbn [negb]; [|done].
  pose proof (IdentityTheory.call_holds file k _ a (IdentityTheory.Rename (my_id s) n) Hne Hh) as Hc.
  cbn [IdentityTheory.call_run IdentityTheory.known_step] in Hc. rewrite bool_decide_eq_true_2 in Hc by done.
  pose proof (IdentityTheory.rename_ok file k (device_host s) a n Hh) as Hr. rewrite <- Hid in Hr.
  cbv [mbind stm_bind gets modify perform]. cbn [id my_id set_name device_host].
  destruct (IdentityFile.save_identity (my_id s) n file (device_host s)) as [ops r]. cbn [fst snd] in Hc, Hr. subst r.
  cbn. split_and!; [done..|]. by apply IdentityTheory.holds_loads.
Qed.

End Typed.

(** ** Texts that go elsewhere *)

(** Notices leave a chosen peer active. *)
Lemma notices_keep es s id :
  active_peer_id s = Some id ->
  let s' := foldl (fun s e => match e with Announce.Notified n => run_notice s n | _ => s end) s es in
  unlocked s' = unlocked s /\ active_peer_id s' = Some id /\ registry s' = registry s.
Proof.
  revert s. induction es as [|e es IH]; intros s Ha; [done|]. cbn.
  assert (match e with Announce.Notified n => run_notice s n | _ => s end = s) as ->; [|by apply IH].
  destruct e as [[]| |]; try done. cbn. unfold _on_peer_new, default_active. by rewrite Ha.
Qed.

Section Redirect.
Context `{UnicodeDigits, LowerCase, !JsonText, !JsonTextLaws, !JsonIndent, !Sha256, !Sha256Laws}.

(** An announcement redirects what is typed.  A packet with the identifier and the public key of
    the active peer, both public, sent from any address, makes that address the peer's: the
    next text typed for the peer goes there, whatever device the connection to it has
    authenticated as. *)
Theorem announcement_redirects_chat now d d' address reply net s clock isfile file value other :
  device_ok d' -> Announce.d_peer_id d <> Announce.d_peer_id d' ->
  active_peer_id s = Some (Announce.d_peer_id d') -> unlocked s = true -> is_chat value = true ->
  let addr_key := (address +:+ ":" +:+ pretty (Announce.d_tcp_port d'))%string in
  is_connected net addr_key = true -> get_peer_device_id net addr_key = Some other ->
  let s' := on_announcement now d address (json_dumps (Announce._build_payload reply d')) s in
  effects (fst (on_input_submitted now clock net isfile file value s')) =
    effects s' ++ [Touched; ChatSent addr_key (stripped value)].
Proof.
  intros Hd Hne Ha Hu Hc addr_key Hcon _ s'.
  destruct (announced_entry now d d' address reply (registry s) Hd Hne) as (p & Hp & Hip & Hport & _).
  assert (unlocked s' = true /\ active_peer_id s' = Some (Announce.d_peer_id d') /\
          registry s' = fst (Announce._handle_packet now d address (json_dumps (Announce._build_payload reply d')) (registry s)))
    as (Hu' & Ha' & Hr').
  { unfold s', on_announcement. destruct (Announce._handle_packet _ _ _ _ _) as [r es]. cbn [fst].
    destruct (notices_keep es (set_registry r s) _ Ha) as (Hx & Hy & Hz). by rewrite Hx, Hy, Hz. }
  rewrite text_goes_to_active by done. cbn [fst effects add_effects]. rewrite Ha'. cbn. rewrite Hr', Hp.
  assert (GroupApp.addr_of p = addr_key) as -> by (unfold GroupApp.addr_of; by rewrite Hip, Hport).
  unfold _ensure_connected. by rewrite Hcon.
Qed.

End Redirect.

(** ** A peer and an address *)
Module ShellSample.

#[local] Existing Instances BitText.text BitText.text_laws SampleText.lower.

(** A digest that is cheap to evaluate: the first bytes. *)
#[local] Instance short_sha : Sha256 := { sha256 m := take 32 (m ++ repeat Byte.x00 32) }.
#[local] Instance short_sha_laws : Sha256Laws.
Proof. split. intros m. cbn [sha256 short_sha]. rewrite length_take, length_app, repeat_length. lia. Qed.

#[local] Instance sample_indent : JsonIndent := { json_dumps_indent := @json_dumps BitText.text }.
#[local] Instance sample_digits : UnicodeDigits :=
  {| char_isdigit := fun g => bool_decide (is_Some (ascii_digit g)); char_decimal := ascii_digit |}.

Definition zero : spec_float := S754_zero false.
Definition nothing : KeyStorage.host := KeyStorage.mk_host ∅ ∅.

(** Two connections: one of the peer, and one of another device. *)
Definition ann_key : bytes := repeat "a"%byte 32.
Definition ann_id : string := Identity.compute_device_id ann_key.
Definition net : network :=
  mk_network (fun a => if bool_decide (a = "10.0.0.9:5656"%string) then Some "mallory"%string else Some ann_id)
    (fun _ => true) (fun _ _ => None).

Definition start : shell := mk_shell "me" "Me" [] (Some ann_id) "" true false nothing [].

Definition hello : dict :=
  [("type", JStr "hello"); ("peer_id", JStr ann_id); ("sender_name", JStr "Ann"); ("tcp_port", JInt 5656)]%string.

Definition greeted : shell := foldl (arrive zero) start [Greeting net "10.0.0.2:40000" hello].
Definition ann_peer : Peer := mk_peer ann_id "Ann" "10.0.0.2" (JInt 5656) [] "" zero.


Definition ann_device : Announce.Discovery := Announce.mk_discovery ann_id "Ann" 5656 ann_key "".
Definition my_device : Announce.Discovery := Announce.mk_discovery "me" "Me" 5656 [] "".

Lemma announcement_redirects_chat_witness :
  let s' := on_announcement zero my_device "10.0.0.9" (json_dumps (Announce._build_payload true ann_device)) greeted in
  get_peer_device_id net "10.0.0.9:5656" = Some "mallory"%string /\
  effects (fst (on_input_submitted zero zero net false "identity.json" "secret for Ann" s')) =
    effects s' ++ [Touched; ChatSent "10.0.0.9:5656" "secret for Ann"].
Proof.
  split; [reflexivity|].
  apply (announcement_redirects_chat zero my_device ann_device "10.0.0.9" true net greeted zero false
           "identity.json" "secret for Ann" "mallory");
    [split; [reflexivity|reflexivity|cbn; lia]|..]; vm_compute; (reflexivity || discriminate).
Defined.

End ShellSample.
