(* ===== verification/Receiver.v ===== *)
(** * Receivers and senders of single files

    Models the class [FileReceiver] of [core/transfer/receiver.py], [core/transfer/sender.py] and
    [core/transfer/manager.py]: the transfer helpers next to the live session of [Transfer].  A
    receiver writes a part file, verifies it and moves it into place or encrypts it into the
    secure storage.

    The files are those of [Disk]: writes through the open handle go to the part file, and
    directories are not modelled.  The destination of an offer is resolved in the directory
    of [Files.FS], as in [Partial]. *)

From Corelib Require Import SpecFloat.
From S2P Require Import Prelude Dicts Text Json Crypto Canonical Security Messages Trust Group GroupStore.
From S2P Require Import GroupPolicy Files Disk VaultKeys VaultSession Partial VaultFiles.
Local Open Scope peerc_scope.
Local Open Scope Z_scope.

Module Receiver.

Inductive receiver_status : Type := OFFERED | RECEIVING | VERIFYING | DONE | FAILED.

#[global] Instance receiver_status_eq : EqDecision receiver_status.
Proof. solve_decision. Defined.

Inductive receiver_error : Type :=
| ChunkValidationError
| FileNotFoundError.

Record FileReceiver := mk_receiver {
  transfer_id : string;
  filename : string;
  size : Z;
  expected_checksum : string;
  sender_name : string;
  dest_path : string;
  chunk_size : Z;
  storage_mode : string;
  secure_storage_dir : option string;
  dek : option bytes;
  secure_id : option json;
  bytes_received : Z;
  expected_chunk_index : Z;
  status : receiver_status;
  _file_handle : bool                               (** open on the part file *)
}.

Definition new_receiver (transfer_id filename : string) (size : Z) (checksum sender_name dest_path : string)
    (chunk_size : Z) (storage_mode : string) (dir : option string) (dek : option bytes) : FileReceiver :=
  mk_receiver transfer_id filename size checksum sender_name dest_path chunk_size storage_mode dir dek
    None 0 0 OFFERED false.

Definition part_path (r : FileReceiver) : string := get_part_path (dest_path r).

Definition set_progress (n i : Z) (st : receiver_status) (h : bool) (r : FileReceiver) : FileReceiver :=
  mk_receiver (transfer_id r) (filename r) (size r) (expected_checksum r) (sender_name r) (dest_path r)
    (chunk_size r) (storage_mode r) (secure_storage_dir r) (dek r) (secure_id r) n i st h.
Definition set_status (st : receiver_status) (h : bool) (r : FileReceiver) : FileReceiver :=
  set_progress (bytes_received r) (expected_chunk_index r) st h r.
Definition set_secure_id (j : json) (r : FileReceiver) : FileReceiver :=
  mk_receiver (transfer_id r) (filename r) (size r) (expected_checksum r) (sender_name r) (dest_path r)
    (chunk_size r) (storage_mode r) (secure_storage_dir r) (dek r) (Some j) (bytes_received r)
    (expected_chunk_index r) (status r) (_file_handle r).

(** The receiver and the disk. *)
Abbreviation rop := (stm (FileReceiver * disk) receiver_error).

Definition on_receiver (f : FileReceiver -> FileReceiver) : rop unit := modify (fun s => (f (fst s), snd s)).
Definition on_disk (f : disk -> disk) : rop unit := modify (fun s => (fst s, f (snd s))).

(** The size of the part file, 0 when there is none. *)
Definition partial_bytes (p : string) (d : disk) : Z := match d !! p with Some b => zlen b | None => 0 end.

(** What is left to the sender: the offset to stream from. *)
Definition prepare (resume : bool) : rop Z := fun '(r, d) =>
  let existing := partial_bytes (part_path r) d in
  if resume && (0 <? existing) && (existing <? size r) then
    ((set_progress existing (existing / chunk_size r) RECEIVING true r, d), Ok existing)
  else
    ((set_progress 0 0 RECEIVING true r, <[part_path r := []]> (delete (part_path r) d)), Ok 0).

Definition write_chunk (sequence offset : Z) (data : bytes) : rop unit :=
  r ← gets fst;
  raise_if (negb (_file_handle r) || negb (bool_decide (status r = RECEIVING))) ChunkValidationError ;;
  raise_if (negb (sequence =? expected_chunk_index r) || negb (offset =? bytes_received r)) ChunkValidationError ;;
  raise_if (size r <? bytes_received r + zlen data) ChunkValidationError ;;
  on_disk (apply_op (Append (part_path r) data)) ;;
  on_receiver (set_progress (bytes_received r + zlen data) (expected_chunk_index r + 1) (status r) (_file_handle r)).

Definition abort (cleanup : bool) : rop unit :=
  on_receiver (set_status FAILED false) ;;
  r ← gets fst;
  if cleanup then on_disk (delete (part_path r)) else mret ().

Section Finish.
Context `{AesGcm, Hkdf, JsonText, JsonIndent, Sha256, LowerCase}.

(** Random bytes: those of the encryption, and those that overwrite the plain file. *)
Definition _finalize_secure (draw : SecureFile.file_draws) (windows : bool) (noise : bytes) : rop bool := fun '(r, d) =>
  match dek r, secure_storage_dir r with
  | Some key, Some dir =>
      match SecureFile.encrypt_file draw windows (part_path r) dir key (Some (filename r))
              (Some (expected_checksum r)) d with
      | (d, Ok m) =>
          ((set_status DONE (_file_handle r) (set_secure_id (SecureFile.secure_id m) r),
            run_ops (secure_delete (part_path r) noise) d), Ok true)
      | (d, Err _) => (abort true ;; mret false) (r, d)
      end
  | _, _ => (abort true ;; mret false) (r, d)
  end.

Definition finish (draw : SecureFile.file_draws) (windows : bool) (noise : bytes) : rop bool :=
  on_receiver (set_status VERIFYING false) ;;
  r ← gets fst;
  if negb (bytes_received r =? size r) then abort true ;; mret false
  else
    d ← gets snd;
    match d !! part_path r with
    | None => raise FileNotFoundError               (** of [sha256_file] *)
    | Some content =>
        if negb (bool_decide (str_lower (sha256_hex content) = str_lower (expected_checksum r)))
        then abort true ;; mret false
        else if bool_decide (storage_mode r = "secure"%string) then _finalize_secure draw windows noise
        else
          on_disk (apply_op (Rename (part_path r) (dest_path r))) ;;
          on_receiver (set_status DONE false) ;;
          mret true
    end.

End Finish.
End Receiver.

(** ** Senders *)
Module Sender.

Inductive sender_status : Type := S_OFFERED | S_SENDING | S_AWAITING_ACK | S_DONE | S_FAILED.

Record FileSender := mk_sender {
  s_transfer_id : string;
  s_filepath : string;
  s_filename : string;
  s_size : Z;
  s_checksum : string;
  s_chunk_size : Z;
  bytes_sent : Z;
  s_status : sender_status;
  _ack_event : bool;
  _ack_success : bool;
  _ack_reason : string
}.

Definition set_sending (n : Z) (st : sender_status) (s : FileSender) : FileSender :=
  mk_sender (s_transfer_id s) (s_filepath s) (s_filename s) (s_size s) (s_checksum s) (s_chunk_size s) n st
    (_ack_event s) (_ack_success s) (_ack_reason s).
Definition set_ack (event ok : bool) (why : string) (s : FileSender) : FileSender :=
  mk_sender (s_transfer_id s) (s_filepath s) (s_filename s) (s_size s) (s_checksum s) (s_chunk_size s)
    (bytes_sent s) (s_status s) event ok why.

(** [None]: the file is not there. *)
Definition new_sender `{Sha256} (transfer_id filepath : string) (filename : option string) (chunk_size : Z) (d : disk)
    : option FileSender :=
  content ← d !! filepath;
  Some (mk_sender transfer_id filepath (SecureFile.name_or filename (basename filepath)) (zlen content)
          (sha256_hex content) chunk_size 0 S_OFFERED false false EmptyString).

(** The chunks, and the sender after the last was taken; [None]: [ValueError], or no file. *)
Definition get_chunks (start_offset : Z) (s : FileSender) (d : disk) : option (list (Z * Z * bytes) * FileSender) :=
  content ← d !! s_filepath s;
  chunks ← read_chunks content start_offset (s_chunk_size s);
  Some (chunks, set_sending (start_offset + zlen (concat (map snd chunks))) S_SENDING s).

Definition mark_ack (success : bool) (why : string) (s : FileSender) : FileSender := set_ack true success why s.

(** What [wait_for_ack] does once the event is set, or after the timeout. *)
Definition wait_for_ack (s : FileSender) : FileSender * bool :=
  if _ack_event s then
    (set_sending (bytes_sent s) (if _ack_success s then S_DONE else S_FAILED) s, _ack_success s)
  else
    (set_ack false (_ack_success s) "ack timed out" (set_sending (bytes_sent s) S_FAILED s), false).

End Sender.

(** ** The manager *)
Module TransferManager.
Import Receiver Sender.

Definition MAX_CONCURRENT_TRANSFERS : Z := 5.
Definition MAX_TOTAL_INCOMING_SIZE : Z := 10 * 1024 * 1024 * 1024.

Record manager := mk_manager {
  max_concurrent : Z;
  max_total_incoming : Z;
  _senders : list (string * FileSender);
  _receivers : list (string * FileReceiver)
}.

Inductive offer_error : Type :=
| InvalidSize                                       (** [ValueError] *)
| InsufficientDiskSpaceError
| UnsafeName.                                       (** [TransferSecurityError] *)

(** The receivers that count: receiving or offered. *)
Definition pending (r : FileReceiver) : bool :=
  match status r with RECEIVING | OFFERED => true | _ => false end.
Definition pending_receivers (m : manager) : list FileReceiver :=
  List.filter pending (map snd (_receivers m)).

Definition active_incoming_count (m : manager) : Z := zlen (pending_receivers m).
Definition total_incoming_bytes_pending (m : manager) : Z :=
  foldr (fun r acc => size r + acc) 0 (pending_receivers m).

Definition create_sender `{Sha256} (filepath tid : string) (d : disk) (m : manager) : option (manager * FileSender) :=
  s ← new_sender tid filepath None DEFAULT_CHUNK_SIZE d;
  Some (mk_manager (max_concurrent m) (max_total_incoming m) (OrderedDict.set tid s (_senders m)) (_receivers m), s).

(** [free]: the free space of the disk; [d]: the downloads directory. *)
Definition validate_offer (windows : bool) (free : option Z) (d : FS.fs) (fname : string) (sz : Z) (m : manager)
    : result offer_error string :=
  if (sz <=? 0) || (MAX_INCOMING_FILE_SIZE <? sz) then Err InvalidSize
  else if max_concurrent m <=? active_incoming_count m then Err InsufficientDiskSpaceError
  else if max_total_incoming m <? total_incoming_bytes_pending m + sz then Err InsufficientDiskSpaceError
  else if negb (check_disk_space free sz) then Err InsufficientDiskSpaceError
  else match resolve_safe_dest_path windows fname false d with
       | Ok dest => Ok dest
       | Err _ => Err UnsafeName
       end.

Definition create_receiver (tid fname : string) (sz : Z) (checksum sender dest mode : string) (dir : option string)
    (key : option bytes) (m : manager) : manager * FileReceiver :=
  let r := new_receiver tid fname sz checksum sender dest (64 * 1024) mode dir key in
  (mk_manager (max_concurrent m) (max_total_incoming m) (_senders m) (OrderedDict.set tid r (_receivers m)), r).

Definition remove_transfer (tid : string) (m : manager) : manager :=
  mk_manager (max_concurrent m) (max_total_incoming m) (OrderedDict.pop tid (_senders m))
    (OrderedDict.pop tid (_receivers m)).

End TransferManager.
