(* ===== verification/ReceiverTheory.v ===== *)
(** * What a receiver of a file guarantees

    Theorems about [Receiver]: the bytes of the part file are counted, a file is only reported as
    received when its size and hash were verified, the chunks of a sender arrive as the file they
    were cut from, and the manager's limits hold. *)

From Corelib Require Import SpecFloat.
From S2P Require Import Prelude Dicts Text Json Crypto Canonical Security Messages Trust Group GroupStore.
From S2P Require Import GroupPolicy Files Disk VaultKeys VaultSession Partial VaultFiles VaultFilesTheory VaultScenarios Receiver.
Import Receiver Sender TransferManager.
Local Open Scope peerc_scope.
Local Open Scope Z_scope.

Lemma part_apart r : part_path r <> dest_path r.
Proof. apply part_ne. Qed.

(** The part file holds the bytes that were counted, while the receiver writes to it and after. *)
Record counted (s : FileReceiver * disk) : Prop := {
  handle_open : _file_handle (fst s) = true ->
    status (fst s) = RECEIVING /\
    exists b, snd s !! part_path (fst s) = Some b /\ zlen b = bytes_received (fst s);
  part_size : bytes_received (fst s) = 0 \/
    forall b, snd s !! part_path (fst s) = Some b -> zlen b = bytes_received (fst s);
  within_size : 0 <= size (fst s) -> 0 <= bytes_received (fst s) <= size (fst s)
}.

Lemma part_progress n i st h r : part_path (set_progress n i st h r) = part_path r.
Proof. done. Qed.
Lemma part_status st h r : part_path (set_status st h r) = part_path r.
Proof. done. Qed.

(** What no operation changes. *)
Definition same_file (r r' : FileReceiver) : Prop :=
  size r' = size r /\ expected_checksum r' = expected_checksum r /\ dest_path r' = dest_path r /\
  chunk_size r' = chunk_size r /\ storage_mode r' = storage_mode r /\
  secure_storage_dir r' = secure_storage_dir r /\ dek r' = dek r.

#[local] Instance same_file_preorder : PreOrder same_file.
Proof.
  split; [by intros r|]. intros r1 r2 r3 (A1 & A2 & A3 & A4 & A5 & A6 & A7) (B1 & B2 & B3 & B4 & B5 & B6 & B7).
  unfold same_file. by rewrite B1, B2, B3, B4, B5, B6, B7.
Qed.

Lemma counted_new tid fn sz sum sn dest cs mode dir key d :
  counted (new_receiver tid fn sz sum sn dest cs mode dir key, d).
Proof. split; cbn; [done|by left|lia]. Qed.

Lemma prepare_counted resume s : counted s -> counted (fst (prepare resume s)).
Proof.
  destruct s as [r d]. intros _. unfold prepare. destruct (_ && _ && _) eqn:E; cbn [fst].
  - rewrite !andb_true_iff, !Z.ltb_lt in E. unfold partial_bytes in *.
    destruct (d !! part_path r) as [b|] eqn:Eb; [|lia].
    split; cbn [fst snd]; rewrite ?part_progress, ?Eb; [| |cbn; lia].
    + intros _. split; [done|]. by exists b.
    + right. by intros b' [= ->].
  - split; cbn [fst snd]; rewrite ?part_progress; [|by left|cbn; lia].
    intros _. split; [done|]. exists []. split; [apply lookup_insert_eq|done].
Qed.

Lemma abort_run cleanup r d :
  abort cleanup (r, d) = ((set_status FAILED false r, if cleanup then delete (part_path r) d else d), Ok ()).
Proof. by destruct cleanup. Qed.

Lemma abort_counted cleanup s : counted s -> counted (fst (abort cleanup s)).
Proof.
  destruct s as [r d]. intros [_ Hp Hw]. rewrite abort_run. cbn [fst].
  split; [done| |exact Hw]. destruct cleanup; [|exact Hp].
  right. intros b. cbn [fst snd]. by rewrite part_status, lookup_delete_eq.
Qed.

Lemma write_counted q o b s : counted s -> counted (fst (write_chunk q o b s)).
Proof.
  destruct s as [r d]. intros Hc. unfold write_chunk. cbv [mbind stm_bind gets raise_if]. cbn [fst snd].
  destruct (negb (_file_handle r) || _) eqn:E1; [done|].
  destruct (negb (q =? _) || _) eqn:E2; [done|].
  destruct (size r <? bytes_received r + zlen b) eqn:E3; [done|].
  apply orb_false_iff in E1 as [Hh Hs]. apply negb_false_iff in Hh, Hs. apply bool_decide_eq_true in Hs.
  apply Z.ltb_ge in E3. destruct Hc as [Hf _ Hw]. cbn [fst snd] in *. destruct (Hf Hh) as (_ & b0 & Hb & Hl).
  assert (zlen (b0 ++ b) = bytes_received r + zlen b) as Hlen by (unfold zlen in *; rewrite length_app; lia).
  cbv [on_disk on_receiver modify]. split; cbn [fst snd apply_op]; rewrite ?part_progress, ?lookup_insert_eq, ?Hb; cbn.
  - intros _. split; [done|]. by eexists.
  - right. by intros b' [= <-].
  - intros Hz. specialize (Hw Hz). unfold zlen in *. lia.
Qed.

Section Finish.
Context `{AesGcm, Hkdf, JsonText, JsonIndent, Sha256, LowerCase}.

Lemma aborted r d :
  (abort true ;; mret false : rop bool) (r, d) = ((set_status FAILED false r, delete (part_path r) d), Ok false).
Proof. done. Qed.

(** The secure storage is another place than the part file. *)
Lemma finalize_run draw win noise r d :
  exists r' d', fst (_finalize_secure draw win noise (r, d)) = (r', d') /\
    same_file r r' /\ bytes_received r' = bytes_received r /\ (_file_handle r' = true -> _file_handle r = true) /\
    d' !! part_path r = None /\
    (snd (_finalize_secure draw win noise (r, d)) = Ok true ->
     status r' = DONE /\ exists key dir m d0,
       dek r = Some key /\ secure_storage_dir r = Some dir /\
       SecureFile.encrypt_file draw win (part_path r) dir key (Some (filename r)) (Some (expected_checksum r)) d
         = (d0, Ok m) /\ d' = delete (part_path r) d0 /\ secure_id r' = Some (SecureFile.secure_id m)).
Proof.
  unfold _finalize_secure.
  assert (forall d0, exists r' d', fst ((abort true ;; mret false : rop bool) (r, d0)) = (r', d') /\
    same_file r r' /\ bytes_received r' = bytes_received r /\ (_file_handle r' = true -> _file_handle r = true) /\
    d' !! part_path r = None) as Hab.
  { intros d0. do 2 eexists. rewrite aborted. split_and!; try done. apply lookup_delete_eq. }
  destruct (dek r) as [key|] eqn:Ek; [|destruct (Hab d) as (r' & d' & E & ?); exists r', d'; split_and!; try tauto; done].
  destruct (secure_storage_dir r) as [dir|] eqn:Es;
    [|destruct (Hab d) as (r' & d' & E & ?); exists r', d'; split_and!; try tauto; done].
  destruct (SecureFile.encrypt_file _ _ _ _ _ _ _ d) as [d0 [m|e]] eqn:Ee;
    [|destruct (Hab d0) as (r' & d' & E & ?); exists r', d'; split_and!; try tauto; done].
  do 2 eexists. split; [reflexivity|]. rewrite run_secure_delete. split_and!; try done.
  - apply lookup_delete_eq.
  - intros _. split; [done|]. by exists key, dir, m, d0.
Qed.

(** What [finish] does when it reports success, and when it does not. *)
Record finished (draw : SecureFile.file_draws) (win : bool) (r : FileReceiver) (d : disk) (r' : FileReceiver) (d' : disk)
    (res : result receiver_error bool) : Prop := {
  kept_file : same_file r r';
  kept_count : bytes_received r' = bytes_received r;
  handle_closed : _file_handle r' = false;
  part_gone : d' !! part_path r = None;
  on_success : res = Ok true ->
    status r' = DONE /\ bytes_received r = size r /\
    exists content, d !! part_path r = Some content /\
      str_lower (sha256_hex content) = str_lower (expected_checksum r) /\
      if bool_decide (storage_mode r = "secure"%string) then
        exists key dir m d0, dek r = Some key /\ secure_storage_dir r = Some dir /\
          SecureFile.encrypt_file draw win (part_path r) dir key (Some (filename r)) (Some (expected_checksum r)) d
            = (d0, Ok m) /\ d' = delete (part_path r) d0 /\ secure_id r' = Some (SecureFile.secure_id m)
      else d' = <[dest_path r := content]> (delete (part_path r) d)
}.

Lemma finish_run draw win noise r d :
  let '((r', d'), res) := finish draw win noise (r, d) in finished draw win r d r' d' res.
Proof.
  unfold finish. cbv [mbind stm_bind gets on_receiver modify]. cbn [fst snd].
  set (r1 := set_status VERIFYING false r). change (bytes_received r1) with (bytes_received r).
  change (size r1) with (size r). change (part_path r1) with (part_path r).
  change (expected_checksum r1) with (expected_checksum r). change (storage_mode r1) with (storage_mode r).
  assert (finished draw win r d (set_status FAILED false r1) (delete (part_path r) d) (Ok false)) as Hf
    by (split; try done; apply lookup_delete_eq).
  destruct (negb (bytes_received r =? size r)) eqn:En; [exact Hf|].
  apply negb_false_iff, Z.eqb_eq in En.
  cbn [snd]. destruct (d !! part_path r) as [content|] eqn:Ec; [|by split].
  destruct (negb (bool_decide _)) eqn:Eh; [exact Hf|].
  apply negb_false_iff, bool_decide_eq_true in Eh.
  destruct (bool_decide (storage_mode r = "secure"%string)) eqn:Em.
  - destruct (finalize_run draw win noise r1 d) as (r' & d' & E & Hs & Hb & Hh & Hp & Hok).
    destruct (_finalize_secure draw win noise (r1, d)) as [[r2 d2] res]. cbn in E. injection E as -> ->.
    split; try done.
    + destruct (_file_handle r'); [by specialize (Hh eq_refl)|done].
    + intros Er. destruct (Hok Er) as [Hd Hx]. split_and!; [done|done|]. exists content. rewrite Em. done.
  - cbv [on_disk modify]. cbn [apply_op fst snd]. rewrite Ec. split; cbn; try done.
    + rewrite lookup_insert_ne by (apply not_eq_sym, part_apart). apply lookup_delete_eq.
    + intros _. split_and!; try done. exists content. rewrite Em. done.
Qed.

Lemma finish_counted draw win noise s : counted s -> counted (fst (finish draw win noise s)).
Proof.
  destruct s as [r d]. intros Hc. pose proof (finish_run draw win noise r d) as Hf.
  destruct (finish draw win noise (r, d)) as [[r' d'] res]. destruct Hf as [Hs Hb Hh Hp _].
  destruct Hs as (Hz & _ & Hd & _). split; cbn [fst snd].
  - by rewrite Hh.
  - right. intros b. unfold part_path. rewrite Hd. fold (part_path r). by rewrite Hp.
  - rewrite Hz, Hb. apply (within_size _ Hc).
Qed.

(** *** Sequences of calls *)

Inductive rcall : Type :=
| Prepare (resume : bool)
| WriteChunk (sequence offset : Z) (data : bytes)
| Finish (draw : SecureFile.file_draws) (win : bool) (noise : bytes)
| AbortCall (cleanup : bool).

Definition rcall_run (s : FileReceiver * disk) (c : rcall) : FileReceiver * disk :=
  match c with
  | Prepare resume => fst (prepare resume s)
  | WriteChunk q o b => fst (write_chunk q o b s)
  | Finish draw win noise => fst (finish draw win noise s)
  | AbortCall cleanup => fst (abort cleanup s)
  end.

Lemma rcall_counted s c : counted s -> counted (rcall_run s c).
Proof.
  destruct c; [apply prepare_counted|apply write_counted|apply finish_counted|apply abort_counted].
Qed.

Lemma rcall_same s c : same_file (fst s) (fst (rcall_run s c)).
Proof.
  destruct s as [r d], c as [res|q o b|draw win noise|cl]; cbn [rcall_run].
  - unfold prepare. by destruct (_ && _ && _).
  - unfold write_chunk. cbv [mbind stm_bind gets raise_if]. cbn [fst snd]. destruct (negb (_file_handle r) || _); [done|].
    destruct (negb (q =? _) || _); [done|]. by destruct (size r <? _).
  - pose proof (finish_run draw win noise r d) as Hf. destruct (finish draw win noise (r, d)) as [[r' d'] rs].
    apply (kept_file _ _ _ _ _ _ _ Hf).
  - by rewrite abort_run.
Qed.

Lemma rcalls_counted l s : counted s -> counted (foldl rcall_run s l).
Proof. revert s. induction l as [|c l IH]; intros s Hs; [done|]. by apply IH, rcall_counted. Qed.

Lemma rcalls_same l s : same_file (fst s) (fst (foldl rcall_run s l)).
Proof.
  revert s. induction l as [|c l IH]; intros s; [reflexivity|]. cbn [foldl].
  etransitivity; [apply (rcall_same s c)|apply IH].
Qed.

(** A file counts as received only when it was verified.  Whatever calls were made before, with
    chunks in any order and of any content, a [finish] that reports success had a part file
    of exactly the declared size whose hash is the declared one, and it left these bytes at
    the destination, or encrypted in the secure storage, and no part file.  A [finish] that
    reports a failure removes the part file and touches no other file. *)
Theorem finished_was_verified tid fn sz sum sn dest cs mode dir key d0 l draw win noise r' d' res :
  0 < sz ->
  let s := foldl rcall_run (new_receiver tid fn sz sum sn dest cs mode dir key, d0) l in
  finish draw win noise s = ((r', d'), res) ->
  d' !! get_part_path dest = None /\
  (res = Ok true ->
   status r' = DONE /\
   exists content, snd s !! get_part_path dest = Some content /\ zlen content = sz /\
     str_lower (sha256_hex content) = str_lower sum /\
     if bool_decide (mode = "secure"%string) then
       exists k sdir m d1, key = Some k /\ dir = Some sdir /\
         SecureFile.encrypt_file draw win (get_part_path dest) sdir k (Some (filename (fst s))) (Some sum) (snd s)
           = (d1, Ok m) /\ d' = delete (get_part_path dest) d1
     else d' = <[dest := content]> (delete (get_part_path dest) (snd s))).
Proof.
  intros Hsz s Hf.
  assert (counted s) as [_ Hp _] by apply rcalls_counted, counted_new.
  pose proof (rcalls_same l (new_receiver tid fn sz sum sn dest cs mode dir key, d0)) as Hs. fold s in Hs.
  destruct s as [r d]. cbn [fst snd] in *. destruct Hs as (Ez & Ec & Ed & _ & Em & Edir & Ek). cbn in *.
  pose proof (finish_run draw win noise r d) as Hr. rewrite Hf in Hr. destruct Hr as [_ _ _ Hgone Hok].
  unfold part_path in *. rewrite Ed in *. split; [done|]. intros Er.
  destruct (Hok Er) as (Hst & Hn & content & Hc & Hh & Hx). split; [done|]. exists content. rewrite Ec in Hh.
  split_and!; [done| |done|].
  - destruct Hp as [H0z|Hp]; [lia|]. rewrite (Hp content Hc). congruence.
  - rewrite Em in Hx. case_bool_decide; [|exact Hx]. destruct Hx as (k & sd & m & d1 & K1 & K2 & K3 & K4 & _).
    exists k, sd, m, d1. rewrite Ek in K1. rewrite Edir in K2. rewrite Ec in K3. done.
Qed.

(** *** From a sender *)

Fixpoint write_all (l : list (Z * Z * bytes)) : rop unit :=
  match l with
  | [] => mret ()
  | (q, o, b) :: l' => write_chunk q o b ;; write_all l'
  end.

(** A receiver that is ready for the next chunk. *)
Definition ready (q o : Z) (b : bytes) (r : FileReceiver) (d : disk) : Prop :=
  _file_handle r = true /\ status r = RECEIVING /\ expected_chunk_index r = q /\ bytes_received r = o /\
  d !! part_path r = Some b.

Lemma write_ready q o b data r d :
  ready q o b r d -> o + zlen data <= size r ->
  exists r' d', write_chunk q o data (r, d) = ((r', d'), Ok ()) /\
    ready (q + 1) (o + zlen data) (b ++ data) r' d' /\ same_file r r'.
Proof.
  intros (Hh & Hs & Hq & Ho & Hb) Hz. unfold write_chunk. cbv [mbind stm_bind gets raise_if on_disk on_receiver modify].
  cbn [fst snd]. rewrite Hh, Hs, Hq, Ho, !Z.eqb_refl, bool_decide_eq_true_2 by done. cbn [negb orb].
  destruct (Z.ltb_spec (size r) (o + zlen data)); [lia|]. do 2 eexists. split; [done|].
  split; [|done]. unfold ready. rewrite part_progress. cbn [apply_op fst snd]. rewrite Hb, lookup_insert_eq. done.
Qed.

Lemma write_chunks fuel cs q o rest b r d :
  (0 < cs)%nat -> (length rest < fuel)%nat -> ready q o b r d -> o + zlen rest <= size r ->
  exists r' d' q', write_all (chunks_from fuel cs q o rest) (r, d) = ((r', d'), Ok ()) /\
    ready q' (o + zlen rest) (b ++ rest) r' d' /\ same_file r r'.
Proof.
  intros Hcs. revert q o rest b r d. induction fuel as [|fuel IH]; intros q o rest b r d Hf Hr Hz; [lia|].
  cbn [chunks_from]. destruct (take cs rest) as [|c t] eqn:E.
  { assert (rest = []) as -> by (destruct rest; [done|]; destruct cs; [lia|done]).
    exists r, d, q. rewrite app_nil_r, Z.add_0_r. done. }
  cbn [write_all]. rewrite <- E in *.
  assert (zlen rest = zlen (take cs rest) + zlen (drop cs rest)) as El
    by (unfold zlen; rewrite <- Nat2Z.inj_add, <- length_app, take_drop; done).
  destruct (write_ready q o b (take cs rest) r d Hr) as (r1 & d1 & E1 & Hr1 & Hs1); [unfold zlen in *; lia|].
  destruct (IH (q + 1) (o + zlen (take cs rest)) (drop cs rest) (b ++ take cs rest) r1 d1) as (r2 & d2 & q2 & E2 & Hr2 & Hs2).
  - rewrite length_drop. destruct rest; [by destruct cs|]. simpl in *. lia.
  - done.
  - destruct Hs1 as (-> & _). lia.
  - exists r2, d2, q2. split_and!.
    + cbv [mbind stm_bind]. by rewrite E1.
    + rewrite <- app_assoc, take_drop in Hr2. by rewrite El, Z.add_assoc.
    + by etransitivity.
Qed.

(** What a receiver finds when it prepares: nothing, or the first bytes of the file. *)
Definition prefix_on_disk (p : string) (data : bytes) (d : disk) : Prop :=
  d !! p = None \/ exists n, d !! p = Some (take n data).

Lemma prepare_ready resume r d data :
  size r = zlen data -> prefix_on_disk (part_path r) data d ->
  exists r' d' o, prepare resume (r, d) = ((r', d'), Ok o) /\ 0 <= o <= zlen data /\
    ready (o / chunk_size r) o (take (Z.to_nat o) data) r' d' /\ same_file r r'.
Proof.
  intros Hz Hp. unfold prepare. destruct (_ && _ && _) eqn:E.
  - rewrite !andb_true_iff, !Z.ltb_lt in E. unfold partial_bytes in *.
    destruct Hp as [Hn|[n Hn]]; rewrite Hn in *; [lia|].
    do 3 eexists. split; [done|]. split; [lia|]. split; [|done]. unfold ready. rewrite part_progress.
    split_and!; try done. rewrite Hn. f_equal. unfold zlen. rewrite Nat2Z.id, length_take.
    destruct (Nat.min_spec n (length data)) as [[_ ->]|[Hle ->]]; [done|]. by rewrite !take_ge by lia.
  - do 3 eexists. split; [done|]. split; [unfold zlen; lia|]. split; [|done]. unfold ready. rewrite part_progress.
    split_and!; try done. by rewrite lookup_insert_eq.
Qed.

(** A receiver that has all bytes of the file it was told of. *)
Lemma finish_ready draw win noise q data r d :
  ready q (zlen data) data r d -> size r = zlen data -> expected_checksum r = sha256_hex data ->
  storage_mode r = "normal"%string ->
  finish draw win noise (r, d) =
    ((set_status DONE false (set_status VERIFYING false r),
      <[dest_path r := data]> (delete (part_path r) d)), Ok true).
Proof.
  intros (_ & _ & _ & Hb & Hpart) Hz Hc Hm. unfold finish.
  cbv [mbind stm_bind gets on_receiver on_disk modify]. cbn [fst snd].
  set (r1 := set_status VERIFYING false r).
  change (part_path r1) with (part_path r). change (bytes_received r1) with (bytes_received r).
  change (size r1) with (size r). change (expected_checksum r1) with (expected_checksum r).
  change (storage_mode r1) with (storage_mode r). change (dest_path r1) with (dest_path r).
  rewrite Hb, Hz, Z.eqb_refl. cbn [negb snd]. rewrite Hpart, Hc, Hm, bool_decide_eq_true_2 by done.
  rewrite bool_decide_eq_false_2 by done. cbn [negb apply_op fst snd]. by rewrite Hpart.
Qed.

Lemma get_chunks_run o s ds data :
  ds !! s_filepath s = Some data -> 0 <= o <= zlen data -> 0 < s_chunk_size s ->
  let rest := drop (Z.to_nat o) data in
  get_chunks o s ds =
    Some (chunks_from (S (length rest)) (Z.to_nat (s_chunk_size s)) (o / s_chunk_size s) o rest,
          set_sending (zlen data) S_SENDING s).
Proof.
  intros Hd Ho Hcs. cbv zeta. unfold get_chunks, read_chunks. rewrite Hd. cbn [mbind option_bind].
  destruct (Z.ltb_spec (zlen data) o); [lia|]. cbn [mbind option_bind].
  rewrite chunks_from_spec by lia. do 3 f_equal. unfold zlen in *. rewrite length_drop. lia.
Qed.

(** A file sent by the helpers arrives as it is.  The receiver of an offer built from the
    sender's size and hash, which starts afresh or resumes a part file that is a beginning of
    the file, accepts every chunk of the stream from the offset it asked for; [finish] reports
    success and the destination holds exactly the bytes of the file. *)
Theorem helpers_deliver tid tid' path fname cs ds s sn dest fn d resume draw win noise data :
  ds !! path = Some data -> 0 < cs -> data <> [] ->
  new_sender tid path fname cs ds = Some s ->
  let r := new_receiver tid' fn (s_size s) (s_checksum s) sn dest cs "normal" None None in
  prefix_on_disk (get_part_path dest) data d ->
  exists r1 d1 o chunks s' r2 d2 r3 d3,
    prepare resume (r, d) = ((r1, d1), Ok o) /\
    get_chunks o s ds = Some (chunks, s') /\
    write_all chunks (r1, d1) = ((r2, d2), Ok ()) /\
    finish draw win noise (r2, d2) = ((r3, d3), Ok true) /\
    d3 !! dest = Some data /\ d3 !! get_part_path dest = None /\ status r3 = DONE /\ bytes_sent s' = zlen data.
Proof.
  intros Hd Hcs Hne Hs r Hp. unfold new_sender in Hs. rewrite Hd in Hs. cbn in Hs. injection Hs as <-.
  destruct (prepare_ready resume r d data eq_refl Hp) as (r1 & d1 & o & E1 & Ho & Hr1 & Hs1).
  set (rest := drop (Z.to_nat o) data).
  assert (o + zlen rest = zlen data) as El by (unfold rest, zlen in *; rewrite length_drop; lia).
  destruct (write_chunks (S (length rest)) (Z.to_nat cs) (o / cs) o rest (take (Z.to_nat o) data) r1 d1)
    as (r2 & d2 & q & E2 & Hr2 & Hs2); [lia|lia|exact Hr1|destruct Hs1 as (-> & _); rewrite El; done|].
  assert (same_file r r2) as (Z1 & Z2 & Z3 & _ & Z5 & _) by by etransitivity.
  unfold rest in Hr2. rewrite take_drop in Hr2. fold rest in Hr2. rewrite El in Hr2.
  exists r1, d1, o, (chunks_from (S (length rest)) (Z.to_nat cs) (o / cs) o rest).
  eexists. exists r2, d2. do 2 eexists.
  split_and!; [exact E1|by apply get_chunks_run|exact E2|by eapply finish_ready|..]; cbn.
  - rewrite Z3. apply lookup_insert_eq.
  - unfold part_path. rewrite Z3. rewrite lookup_insert_ne by (apply not_eq_sym, part_ne). apply lookup_delete_eq.
  - done.
  - done.
Qed.

End Finish.

(** ** The manager *)

Lemma set_new {A} k (v : A) l : OrderedDict.get k l = None -> OrderedDict.set k v l = l ++ [(k, v)].
Proof.
  induction l as [|[k' v'] l IH]; [done|]. cbn. destruct (decide (k' = k)); [done|]. intros E. by rewrite IH.
Qed.

Definition within_limits (m : manager) : Prop :=
  active_incoming_count m <= max_concurrent m /\ total_incoming_bytes_pending m <= max_total_incoming m.

Lemma create_receiver_pending tid fn sz sum sn dest mode dir key m :
  OrderedDict.get tid (_receivers m) = None ->
  let m' := fst (create_receiver tid fn sz sum sn dest mode dir key m) in
  active_incoming_count m' = active_incoming_count m + 1 /\
  total_incoming_bytes_pending m' = total_incoming_bytes_pending m + sz.
Proof.
  intros Hn. cbn. unfold active_incoming_count, total_incoming_bytes_pending, pending_receivers. cbn.
  rewrite set_new, map_app, List.filter_app by done. cbn. rewrite foldr_app. cbn. split.
  - unfold zlen. rewrite length_app. cbn. lia.
  - rewrite Z.add_0_r. induction (List.filter pending _) as [|r l IH]; cbn; lia.
Qed.

(** Accepted offers stay within the limits.  An offer that is validated has a size between 1 and
    2 GiB, and a receiver created for it keeps the number of pending receivers and the bytes
    they wait for within the limits of the manager. *)
Theorem offers_within_limits win free d fname sz m dest tid sum sn mode dir key :
  validate_offer win free d fname sz m = Ok dest -> OrderedDict.get tid (_receivers m) = None ->
  0 < sz <= MAX_INCOMING_FILE_SIZE /\ check_disk_space free sz = true /\
  within_limits (fst (create_receiver tid fname sz sum sn dest mode dir key m)).
Proof.
  intros Hv Hn. unfold validate_offer in Hv.
  destruct ((sz <=? 0) || _) eqn:E1; [done|]. destruct (max_concurrent m <=? _) eqn:E2; [done|].
  destruct (max_total_incoming m <? _) eqn:E3; [done|]. destruct (check_disk_space free sz) eqn:E4; [|done].
  apply orb_false_iff in E1 as [E0 E1]. apply Z.leb_gt in E0, E2. apply Z.ltb_ge in E1, E3.
  split; [lia|]. split; [done|].
  destruct (create_receiver_pending tid fname sz sum sn dest mode dir key m Hn) as [Ec Et].
  unfold within_limits. rewrite Ec, Et. cbn. lia.
Qed.

(** Two offers can get one destination.  A destination is free until its part file is created:
    an offer of the same name that is validated before the first receiver has prepared gets the
    same destination, and both receivers then write to one part file. *)
Theorem same_destination_twice win free d fname sz m dest tid sum sn mode dir key sz' :
  validate_offer win free d fname sz m = Ok dest ->
  let '(m', r) := create_receiver tid fname sz sum sn dest mode dir key m in
  forall dest', validate_offer win free d fname sz' m' = Ok dest' ->
    dest' = dest /\ get_part_path dest' = part_path r.
Proof.
  intros Hv. cbn. unfold validate_offer in *. intros dest' Hv'.
  destruct (resolve_safe_dest_path win fname false d) as [x|]; [|by repeat case_match].
  assert (dest = x) as -> by (repeat case_match; congruence).
  assert (dest' = x) as -> by (repeat case_match; congruence). done.
Qed.

(** ** A file *)
Module ReceiverSample.
Import VaultScenarios.VaultSample.

#[local] Existing Instances Crypto.Sample.hkdf Crypto.Sample.sha SampleText.lower.

Definition hello_file : disk := {["/home/hello.txt"%string := lit "hello"]}.

Lemma helpers_deliver_witness :
  exists s, new_sender "t1" "/home/hello.txt" None 2 hello_file = Some s /\
  exists r1 d1 o chunks s' r2 d2 r3 d3,
    prepare true (new_receiver "t1" "hello.txt" (s_size s) (s_checksum s) "Ann" "/dl/hello.txt" 2 "normal" None None, ∅)
      = ((r1, d1), Ok o) /\
    get_chunks o s hello_file = Some (chunks, s') /\
    write_all chunks (r1, d1) = ((r2, d2), Ok ()) /\
    finish a_file_draw false [] (r2, d2) = ((r3, d3), Ok true) /\
    d3 !! "/dl/hello.txt"%string = Some (lit "hello") /\ d3 !! get_part_path "/dl/hello.txt" = None /\
    status r3 = DONE /\ bytes_sent s' = zlen (lit "hello").
Proof.
  eexists. split; [reflexivity|].
  apply (helpers_deliver "t1" "t1" "/home/hello.txt" None 2 hello_file _ "Ann" "/dl/hello.txt" "hello.txt" ∅ true
           a_file_draw false [] (lit "hello"));
    [reflexivity|lia|discriminate|reflexivity|left; reflexivity].
Defined.

Lemma finished_was_verified_witness :
  let s := (new_receiver "t1" "hello.txt" 5 "00" "Ann" "/dl/hello.txt" 2 "normal" None None, ∅) in
  exists r' d' res, finish a_file_draw false [] s = ((r', d'), res) /\ d' !! get_part_path "/dl/hello.txt" = None.
Proof.
  do 3 eexists. split; [reflexivity|].
  eapply (finished_was_verified "t1" "hello.txt" 5 "00" "Ann" "/dl/hello.txt" 2 "normal" None None ∅ []
            a_file_draw false []); [lia|reflexivity].
Defined.

End ReceiverSample.
