(* ===== verification/Listeners.v ===== *)
(** * Listeners of security events

    Models the listeners of [core/security/events.py]: registration, removal and delivery.  A
    listener is a number; what it does to the list when it is called is an argument, and its
    exceptions are caught. *)

From S2P Require Import Prelude.

Module Listeners.

Definition add_listener (l : nat) (ls : list nat) : list nat := if bool_decide (l ∈ ls) then ls else ls ++ [l].

(** [list.remove]: the first occurrence. *)
Fixpoint remove_first (l : nat) (ls : list nat) : list nat :=
  match ls with
  | [] => []
  | x :: ls' => if decide (x = l) then ls' else x :: remove_first l ls'
  end.
Definition remove_listener (l : nat) (ls : list nat) : list nat :=
  if bool_decide (l ∈ ls) then remove_first l ls else ls.

(** A listener may change the list while it runs; its exceptions are caught.  The calls made, and
    the list afterwards. *)
Definition emit (calls : nat -> list nat -> list nat) (ls : list nat) : list nat * list nat :=
  (ls, foldl (fun ls' l => calls l ls') ls ls).

End Listeners.

Module ListenerTheory.
Import Listeners.

Lemma remove_first_notin l ls : NoDup ls -> l ∉ remove_first l ls.
Proof.
  induction 1 as [|x ls Hx Hn IH]; cbn; [set_solver|]. destruct (decide (x = l)) as [->|]; set_solver.
Qed.
Lemma remove_first_sub l ls x : x ∈ remove_first l ls -> x ∈ ls.
Proof. induction ls as [|y ls IH]; cbn; [done|]. destruct (decide (y = l)); set_solver. Qed.
Lemma remove_first_distinct l ls : NoDup ls -> NoDup (remove_first l ls).
Proof.
  induction 1 as [|x ls Hx Hn IH]; cbn; [constructor|]. destruct (decide (x = l)); [done|].
  apply NoDup_cons. split; [|done]. by intros ?%remove_first_sub.
Qed.

(** A sequence of registrations, [true] to add. *)
Definition listeners_after (ops : list (bool * nat)) : list nat :=
  foldl (fun ls (o : bool * nat) => if fst o then add_listener (snd o) ls else remove_listener (snd o) ls) [] ops.

(** The last thing done about a listener was to add it. *)
Definition registered (ops : list (bool * nat)) (l : nat) : bool :=
  foldl (fun acc (o : bool * nat) => if bool_decide (snd o = l) then fst o else acc) false ops.

Lemma listeners_distinct ops : NoDup (listeners_after ops).
Proof.
  induction ops as [|[b l] ops IH] using rev_ind; [constructor|]. unfold listeners_after in *.
  rewrite foldl_app. cbn. destruct b; cbn.
  - unfold add_listener. case_bool_decide; [done|]. apply NoDup_app. split_and!; [done|set_solver|].
    apply NoDup_singleton.
  - unfold remove_listener. case_bool_decide; [by apply remove_first_distinct|done].
Qed.

Lemma remove_first_other l ls x : x <> l -> x ∈ ls -> x ∈ remove_first l ls.
Proof. intros Hne. induction ls as [|y ls IH]; cbn; [done|]. destruct (decide (y = l)); set_solver. Qed.

(** An event reaches the registered listeners, each once.  After any registrations and removals an
    event is delivered to exactly the listeners whose last call was a registration, to none
    twice, whatever the listeners do to the list while they run. *)
Theorem event_reaches_each_once ops calls l :
  NoDup (fst (emit calls (listeners_after ops))) /\
  (l ∈ fst (emit calls (listeners_after ops)) <-> registered ops l = true).
Proof.
  cbn [emit fst]. split; [apply listeners_distinct|].
  induction ops as [|[b k] ops IH] using rev_ind; [cbn; split; [by intros ?%not_elem_of_nil|done]|].
  pose proof (listeners_distinct ops) as Hd. unfold registered, listeners_after in *. rewrite !foldl_app. cbn.
  set (ls := foldl _ [] ops) in *. case_bool_decide as E; destruct b; cbn.
  - subst. unfold add_listener. case_bool_decide; set_solver.
  - subst. split; [|done]. unfold remove_listener. case_bool_decide; [|done].
    intros Hin. by apply (remove_first_notin l ls) in Hin.
  - rewrite <- IH. unfold add_listener. case_bool_decide; set_solver.
  - rewrite <- IH. unfold remove_listener. case_bool_decide; [|done].
    split; [apply remove_first_sub|by apply remove_first_other].
Qed.

End ListenerTheory.
