(* ===== verification/LinkTheory.v ===== *)
(** * What holds of links

    A link decodes, with its PIN, to what it was made of; what a link decodes to is what the
    key inside it signed.  A link with the right PIN can still raise an exception that the
    flow adding a peer does not catch. *)

From Corelib Require Import SpecFloat.
From S2P Require Import Prelude Text Json Crypto Canonical Messages Trust Files VaultKeys.
From S2P Require Import Connectivity Dicts Discovery Link VaultScenarios.
Import Identity Locator VaultCrypto Link LinkFlow.
Local Open Scope peerc_scope.
Local Open Scope Z_scope.

(** ** Base 64 with the URL alphabet *)

(** An encoding: data characters and at most two padding characters, a multiple of four. *)
Lemma b64encode_shape bs :
  exists core k, b64encode bs = core ++ repeat "="%byte k /\ (k < 3)%nat /\
    Forall (fun c => exists d, 0 <= d < 64 /\ c = b64_char d) core /\
    (zlen core + Z.of_nat k) mod 4 = 0.
Proof.
  remember (length bs) as n eqn:Hn. assert (length bs <= n)%nat as Hle by lia. clear Hn.
  revert bs Hle. induction n as [|n IH]; intros bs Hle; [destruct bs; simpl in *; [|lia]|].
  { by exists [], 0%nat; split_and!; [|lia|constructor|]. }
  destruct bs as [|a [|b [|c bs]]]; cbn [b64encode]; cbv zeta;
    try pose proof (byte_bound a); try pose proof (byte_bound b); try pose proof (byte_bound c).
  - by exists [], 0%nat; split_and!; [|lia|constructor|].
  - eexists [_; _], 2%nat. split_and!; [done|lia| |done].
    repeat constructor; eexists; (split; [|done]); lia_div.
  - eexists [_; _; _], 1%nat. split_and!; [done|lia| |done].
    repeat constructor; eexists; (split; [|done]); lia_div.
  - destruct (IH bs) as (core & k & -> & Hk & Hc & Hm); [simpl in Hle; lia|].
    eexists (_ :: _ :: _ :: _ :: core), k. split_and!; [done|done| |].
    + repeat constructor; try done; eexists; (split; [|done]); lia_div.
    + unfold zlen in *. cbn [length]. rewrite !Nat2Z.inj_succ. lia_div.
Qed.

Lemma url_char d :
  0 <= d < 64 ->
  of_url (to_url (b64_char d)) = b64_char d /\ to_url (b64_char d) <> "="%byte /\
  byte.unsigned (to_url (b64_char d)) < 128.
Proof.
  intros Hd. assert (exists n, d = Z.of_nat n /\ (n < 64)%nat) as (n & -> & Hn).
  { exists (Z.to_nat d). lia. }
  do 64 (destruct n as [|n]; [by vm_compute|]). lia.
Qed.

Lemma rstrip_app_none {A} (p : A -> bool) l l' :
  Forall (fun x => p x = false) l -> Forall (fun x => p x = true) l' -> rstrip p (l ++ l') = l.
Proof.
  intros Hl Hl'. unfold rstrip. rewrite rev_app_distr.
  assert (forall l1 l2, Forall (fun x => p x = true) l1 -> dropwhile p (l1 ++ l2) = dropwhile p l2) as Hd.
  { intros l1 l2 Hl1. induction Hl1 as [|x l1 Hx _ IH]; [done|]. simpl. by rewrite Hx. }
  rewrite Hd by (by apply Forall_rev). apply Forall_rev in Hl.
  destruct (rev l) as [|x l1] eqn:E.
  - apply (f_equal (@rev A)) in E. rewrite rev_involutive in E. by rewrite E.
  - inversion Hl; subst. simpl. rewrite H1. rewrite <- E. apply rev_involutive.
Qed.

Lemma b64url_roundtrip raw : _b64url_decode (_b64url_encode raw) = Some raw.
Proof.
  destruct (b64encode_shape raw) as (core & k & E & Hk & Hc & Hm).
  assert (_b64url_encode raw = map to_url core) as ->.
  { unfold _b64url_encode. rewrite E, map_app. apply rstrip_app_none.
    - apply Forall_fmap. eapply Forall_impl; [exact Hc|]. intros c (d & Hd & ->).
      apply bool_decide_eq_false. by apply url_char.
    - apply Forall_fmap, Forall_forall. intros c Hin%list_elem_of_In%repeat_spec. by subst c. }
  unfold _b64url_decode.
  assert (Z.to_nat (- zlen (map to_url core) mod 4) = k) as ->.
  { unfold zlen in *. rewrite length_map. lia_div. }
  assert (is_ascii (map to_url core) = true) as ->.
  { unfold is_ascii. rewrite forallb_forall. intros c (x & <- & Hx)%in_map_iff.
    rewrite Forall_forall in Hc. apply list_elem_of_In, Hc in Hx as (d & Hd & ->).
    apply Z.ltb_lt. by apply url_char. }
  rewrite map_app, map_map.
  assert (map (fun c => of_url (to_url c)) core = core) as ->.
  { rewrite <- (map_id core) at 2. apply map_ext_in. intros c Hin%list_elem_of_In.
    rewrite Forall_forall in Hc. destruct (Hc c Hin) as (d & Hd & ->). by apply url_char. }
  assert (map of_url (repeat "="%byte k) = repeat "="%byte k) as -> by (by rewrite map_repeat).
  rewrite <- E. apply a2b_b64encode.
Qed.

(** ** Endpoints *)

Lemma slice_app pre b post : slice (pre ++ b ++ post) (length pre) (length b) = b.
Proof. unfold slice. by rewrite drop_app_length, take_app_length. Qed.

Lemma slice_at pre b post n m : n = length pre -> m = length b -> slice (pre ++ b ++ post) n m = b.
Proof. intros -> ->. apply slice_app. Qed.

Lemma at_index_app pre c post n : n = length pre -> at_index (pre ++ c :: post) n = Ok c.
Proof. intros ->. unfold at_index. by rewrite list_lookup_middle. Qed.

Lemma be_bytes_1 c : be_bytes 1 (byte.unsigned c) = [c].
Proof. destruct c; by vm_compute. Qed.

Lemma pack_u8_ok z b : pack_u8 z = Ok b -> exists c, b = [c] /\ byte.unsigned c = z.
Proof.
  unfold pack_u8. destruct ((0 <=? z) && (z <? 2 ^ 8)) eqn:Ez; [|done]. intros [= <-].
  apply andb_true_iff in Ez as [?%Z.leb_le ?%Z.ltb_lt].
  exists (byte.of_Z z). assert (byte.unsigned (byte.of_Z z) = z) as Hz.
  { rewrite byte.unsigned_of_Z. apply Z.mod_small. lia. }
  split; [|done]. by rewrite <- Hz at 1; rewrite be_bytes_1.
Qed.

Section Endpoints.
Context `{InetLaws}.

(** An endpoint that a link can carry. *)
Record packable (ep : Endpoint) : Prop := {
  pack_kind : kind ep ∈ VALID_KINDS;
  pack_port : 0 <= port ep < 2 ^ 16;
  pack_v4 : kind ep = KIND_DIRECT_V4 -> is_Some (inet_pton4 (host ep));
  pack_v6 : kind ep = KIND_DIRECT_V6 -> is_Some (inet_pton6 (host ep));
  pack_name : kind ep = KIND_RENDEZVOUS -> zlen (str_bytes (host ep)) <= 255 /\ utf8_valid [] (str_bytes (host ep)) = true
}.

(** The host as it is read back: an address in the form the C library writes. *)
Definition canonical_host (k h : string) : string :=
  if decide (k = KIND_DIRECT_V4) then inet_ntop4 (default [] (inet_pton4 h))
  else if decide (k = KIND_DIRECT_V6) then inet_ntop6 (default [] (inet_pton6 h))
  else h.

Lemma kind_cases k : k ∈ VALID_KINDS -> k = KIND_DIRECT_V4 \/ k = KIND_DIRECT_V6 \/ k = KIND_RENDEZVOUS.
Proof. unfold VALID_KINDS. rewrite !elem_of_cons, elem_of_nil. naive_solver. Qed.

(** The operations, kind by kind. *)
Lemma host_bytes_v4 h : host_bytes KIND_DIRECT_V4 h = match inet_pton4 h with Some b => Ok b | None => Err LinkError end.
Proof. done. Qed.
Lemma host_bytes_v6 h : host_bytes KIND_DIRECT_V6 h = match inet_pton6 h with Some b => Ok b | None => Err LinkError end.
Proof. done. Qed.
Lemma host_bytes_name h :
  host_bytes KIND_RENDEZVOUS h =
  (raise? (_MAX_RENDEZVOUS_HOST_LEN <? zlen (str_bytes h)) with LinkError ;;
   let? n := pack_u8 (zlen (str_bytes h)) in Ok (n ++ str_bytes h)).
Proof. done. Qed.
Lemma unpack_host_v4 buf o :
  unpack_host KIND_DIRECT_V4 buf o =
  if decide (length (slice buf o 4) = 4%nat) then Ok (inet_ntop4 (slice buf o 4), o + 4)%nat else Err BadLength.
Proof. done. Qed.
Lemma unpack_host_v6 buf o :
  unpack_host KIND_DIRECT_V6 buf o =
  if decide (length (slice buf o 16) = 16%nat) then Ok (inet_ntop6 (slice buf o 16), o + 16)%nat else Err BadLength.
Proof. done. Qed.
Lemma unpack_host_name buf o :
  unpack_host KIND_RENDEZVOUS buf o =
  (let? c := at_index buf o in
   let host_len := Z.to_nat (byte.unsigned c) in
   let b := slice buf (S o) host_len in
   if utf8_valid [] b then Ok (bytes_str b, S o + host_len)%nat else Err Caught).
Proof. done. Qed.

Lemma packable_packs ep : packable ep -> exists b, _pack_one_endpoint ep = Ok b.
Proof.
  intros [Hk Hp H4 H6 Hn]. unfold _pack_one_endpoint.
  assert (pack_u16 (port ep) = Ok (be_bytes 2 (port ep))) as ->.
  { unfold pack_u16. destruct ((0 <=? port ep) && (port ep <? 2 ^ 16)) eqn:Ep; [done|].
    apply andb_false_iff in Ep as [?%Z.leb_gt|?%Z.ltb_ge]; lia. }
  destruct (kind_cases _ Hk) as [E|[E|E]]; rewrite E.
  - destruct (H4 E) as [b Eb]. rewrite host_bytes_v4, Eb. by eexists.
  - destruct (H6 E) as [b Eb]. rewrite host_bytes_v6, Eb. by eexists.
  - destruct (Hn E) as [Hl _]. rewrite host_bytes_name. pose proof (zlen_nonneg (str_bytes (host ep))).
    destruct (Z.ltb_spec _MAX_RENDEZVOUS_HOST_LEN (zlen (str_bytes (host ep)))) as [Hlt|_];
      [unfold _MAX_RENDEZVOUS_HOST_LEN in Hlt; lia|].
    unfold pack_u8. destruct ((0 <=? zlen (str_bytes (host ep))) && (zlen (str_bytes (host ep)) <? 2 ^ 8)) eqn:Ez;
      [by eexists|]. apply andb_false_iff in Ez as [?%Z.leb_gt|?%Z.ltb_ge]; lia.
Qed.

Lemma packed_length ep b : packable ep -> _pack_one_endpoint ep = Ok b -> zlen b <= 259.
Proof.
  intros [Hk Hp H4 H6 Hn]. unfold _pack_one_endpoint. destruct (tag_of (kind ep)); [|done].
  destruct (host_bytes (kind ep) (host ep)) as [h|] eqn:Eh; [|done]. cbn [rbind].
  unfold pack_u16. destruct (_ && _); [|done]. intros [= <-].
  unfold zlen. cbn [length]. rewrite length_app, length_be_bytes.
  enough (length h <= 256)%nat by lia. revert Eh. destruct (kind_cases _ Hk) as [E|[E|E]]; rewrite E.
  - destruct (H4 E) as [x Ex]. rewrite host_bytes_v4, Ex. intros [= <-]. rewrite (pton4_length _ _ Ex). lia.
  - destruct (H6 E) as [x Ex]. rewrite host_bytes_v6, Ex. intros [= <-]. rewrite (pton6_length _ _ Ex). lia.
  - destruct (Hn E) as [Hl _]. rewrite host_bytes_name. destruct (_ <? _); [done|].
    destruct (pack_u8 _) as [n|] eqn:En; [|done]. apply pack_u8_ok in En as (c & -> & _).
    intros [= <-]. cbn [app length]. unfold zlen in Hl. lia.
Qed.

(** A packed host is unpacked from where it is. *)
Lemma unpack_host_at ep h pre post :
  packable ep -> host_bytes (kind ep) (host ep) = Ok h ->
  unpack_host (kind ep) (pre ++ h ++ post) (length pre)
    = Ok (canonical_host (kind ep) (host ep), (length pre + length h)%nat).
Proof.
  intros [Hk _ H4 H6 Hn]. destruct (kind_cases _ Hk) as [E|[E|E]]; rewrite E.
  - destruct (H4 E) as [b Eb]. rewrite host_bytes_v4, unpack_host_v4, Eb. intros [= <-].
    pose proof (pton4_length _ _ Eb) as Hl. rewrite slice_at, decide_True by done.
    change (canonical_host _ _) with (inet_ntop4 (default [] (inet_pton4 (host ep)))). by rewrite Eb, Hl.
  - destruct (H6 E) as [b Eb]. rewrite host_bytes_v6, unpack_host_v6, Eb. intros [= <-].
    pose proof (pton6_length _ _ Eb) as Hl. rewrite slice_at, decide_True by done.
    change (canonical_host _ _) with (inet_ntop6 (default [] (inet_pton6 (host ep)))). by rewrite Eb, Hl.
  - destruct (Hn E) as [_ Hu]. rewrite host_bytes_name, unpack_host_name. destruct (_ <? _); [done|].
    destruct (pack_u8 _) as [n|] eqn:En; [|done]. cbn [app]. intros [= <-].
    apply pack_u8_ok in En as (c & -> & Hc). cbn [app]. rewrite at_index_app by done. cbn [rbind]. cbv zeta.
    rewrite Hc. assert (Z.to_nat (zlen (str_bytes (host ep))) = length (str_bytes (host ep))) as ->
      by (unfold zlen; lia).
    change (pre ++ c :: str_bytes (host ep) ++ post) with (pre ++ [c] ++ str_bytes (host ep) ++ post).
    rewrite (app_assoc pre [c]), slice_at by (rewrite ?length_app; simpl; lia).
    rewrite Hu, String.string_of_list_byte_of_string. change (canonical_host _ _) with (host ep).
    cbn [length]. f_equal. f_equal. lia.
Qed.

Lemma unpack_one_at ep b pre post :
  packable ep -> _pack_one_endpoint ep = Ok b ->
  unpack_one (pre ++ b ++ post) (length pre)
    = Ok (kind ep, canonical_host (kind ep) (host ep), port ep, (length pre + length b)%nat).
Proof.
  intros Hp. pose proof Hp as [Hk Hport _ _ _]. unfold _pack_one_endpoint, unpack_one.
  destruct (tag_of (kind ep)) as [tag|] eqn:Et; [|done].
  assert (_TAG_KINDS tag = Some (kind ep)) as Htag.
  { revert Et. destruct (kind_cases _ Hk) as [-> |[-> | ->]]; by intros [= <-]. }
  destruct (host_bytes (kind ep) (host ep)) as [h|] eqn:Eh; [|done]. cbn [rbind].
  destruct (pack_u16 (port ep)) as [p|] eqn:Epp; [|done]. cbn [rbind]. intros [= <-].
  cbn [app]. rewrite at_index_app by done. cbn [rbind]. rewrite Htag.
  change (pre ++ tag :: (h ++ p) ++ post) with (pre ++ [tag] ++ (h ++ p) ++ post).
  rewrite <- (app_assoc h p post), (app_assoc pre [tag]).
  assert (S (length pre) = length (pre ++ [tag])) as -> by (rewrite length_app; simpl; lia).
  rewrite (unpack_host_at ep) by done. cbn [rbind].
  unfold pack_u16 in Epp. destruct ((0 <=? port ep) && (port ep <? 2 ^ 16)); [|done]. injection Epp as <-.
  rewrite (app_assoc (pre ++ [tag]) h).
  assert (length (pre ++ [tag]) + length h = length ((pre ++ [tag]) ++ h))%nat as ->
    by (by rewrite (length_app (pre ++ [tag]) h)).
  rewrite slice_at by (rewrite ?length_be_bytes; done). rewrite length_be_bytes, decide_True by done.
  rewrite be_int_be_bytes by (change (2 ^ (8 * Z.of_nat 2)) with (2 ^ 16); lia).
  f_equal. f_equal. cbn [length]. rewrite !length_app, length_be_bytes. cbn [length]. lia.
Qed.

Lemma unpack_endpoints_at eps bs pre post :
  Forall packable eps -> _pack_endpoints eps = Ok bs ->
  _unpack_endpoints (pre ++ bs ++ post) (length pre) (length eps)
    = Ok (map (fun ep => (kind ep, canonical_host (kind ep) (host ep), port ep)) eps, (length pre + length bs)%nat).
Proof.
  intros Heps. revert bs pre. induction Heps as [|ep eps Hep _ IH]; intros bs pre; cbn [_pack_endpoints].
  { intros [= <-]. simpl. by rewrite Nat.add_0_r. }
  destruct (_pack_one_endpoint ep) as [b|] eqn:Eb; [|done]. cbn [rbind].
  destruct (_pack_endpoints eps) as [r|] eqn:Er; [|done]. cbn [rbind]. intros [= <-]. cbn [length _unpack_endpoints].
  rewrite <- app_assoc, (unpack_one_at ep) by done. cbn [rbind].
  rewrite (app_assoc pre b), <- length_app, (IH r) by done. cbn [rbind fst snd map].
  f_equal. f_equal. rewrite !length_app. lia.
Qed.

End Endpoints.

(** ** Creating and decoding *)

Section Codec.
Context `{InetLaws, Ed25519Laws, Sha256, AesGcmLaws, Scrypt}.

Lemma signed_payload_inv pk eps now payload :
  signed_payload pk eps now = Ok payload ->
  exists c bs, payload = pk ++ [c] ++ bs ++ be_bytes 4 now /\ _pack_endpoints eps = Ok bs /\
    byte.unsigned c = zlen eps /\ 0 <= now < 2 ^ 32.
Proof.
  unfold signed_payload. destruct (_pack_endpoints eps) as [bs|]; [|done]. cbn [rbind].
  destruct (pack_u8 (zlen eps)) as [n|] eqn:En; [|done]. cbn [rbind].
  unfold pack_u32. destruct ((0 <=? now) && (now <? 2 ^ 32)) eqn:Et; [|done]. intros [= <-].
  apply pack_u8_ok in En as (c & -> & Hc). apply andb_true_iff in Et as [?%Z.leb_le ?%Z.ltb_lt].
  by exists c, bs.
Qed.

(** The endpoints of a decoded link. *)
Definition received (device_id : string) (t : spec_float) (eps : list Endpoint) : result link_error (list Endpoint) :=
  make_endpoints device_id t (map (fun ep => (kind ep, canonical_host (kind ep) (host ep), port ep)) eps).

Lemma decode_plaintext_signed kp eps now payload :
  Forall packable eps -> signed_payload (public_key_bytes kp) eps now = Ok payload ->
  let device_id := compute_device_id (public_key_bytes kp) in
  decode_plaintext (payload ++ sign kp (_LINK_SIGN_DOMAIN ++ payload)) =
    let? es := received device_id (float_of now) eps in
    Ok (mk_payload device_id (public_key_bytes kp) es (float_of now)).
Proof.
  intros Hp Hs. cbv zeta. pose proof Hs as (c & bs & Epay & Hbs & Hc & Ht)%signed_payload_inv.
  set (pk := public_key_bytes kp) in *. assert (length pk = 32%nat) as Hpk by apply ed_public_length.
  set (sig := sign kp _). assert (length sig = 64%nat) as Hsig by apply ed_sign_length.
  assert (payload ++ sig = (pk ++ [c]) ++ bs ++ be_bytes 4 now ++ sig) as Epl
    by (rewrite Epay; by rewrite <- !app_assoc).
  assert (length payload = 33 + length bs + 4)%nat as Hlen.
  { rewrite Epay, !length_app, length_be_bytes, Hpk. cbn [length]. lia. }
  unfold decode_plaintext, _PUBLIC_KEY_LEN, _CREATED_AT_LEN, _SIGNATURE_LEN.
  destruct (Nat.ltb_spec (length (payload ++ sig)) (32 + 1 + 4 + 64)) as [Hlt|_].
  { rewrite length_app in Hlt. lia. }
  assert (take 32 (payload ++ sig) = pk) as Etake.
  { rewrite Epl, <- app_assoc. by rewrite take_app_le, <- Hpk, firstn_all by lia. }
  assert (nth 32 (payload ++ sig) Byte.x00 = c) as ->.
  { rewrite Epl, <- app_assoc, <- Hpk. apply nth_middle. }
  assert (Z.to_nat (byte.unsigned c) = length eps) as -> by (rewrite Hc; unfold zlen; lia).
  assert (32 + 1 = length (pk ++ [c]))%nat as E33 by (rewrite length_app, Hpk; done).
  rewrite Epl at 1. rewrite E33, (unpack_endpoints_at eps bs) by done.
  destruct (Nat.ltb_spec (length (payload ++ sig)) (length (pk ++ [c]) + length bs + 4 + 64)) as [Hlt|_].
  { rewrite length_app in Hlt. rewrite <- E33 in Hlt. lia. }
  assert (slice (payload ++ sig) (length (pk ++ [c]) + length bs) 4 = be_bytes 4 now) as ->.
  { rewrite Epl, (app_assoc (pk ++ [c])). apply slice_at; [by rewrite (length_app (pk ++ [c]) bs)|done]. }
  rewrite be_int_be_bytes by (by change (8 * Z.of_nat 4) with 32).
  assert (length (pk ++ [c]) + length bs + 4 = length payload)%nat as -> by (rewrite <- E33; lia).
  assert (signature_ok (payload ++ sig) (length payload) = true) as ->.
  { unfold signature_ok, _PUBLIC_KEY_LEN, _SIGNATURE_LEN. rewrite Etake. unfold public_key_from_bytes.
    rewrite decide_True by done. rewrite take_app_length.
    rewrite <- (app_nil_r (payload ++ sig)), <- app_assoc, slice_at by done. apply ed_verify_sign. }
  cbn [negb]. by rewrite Etake.
Qed.

(** A link that was created decodes with its PIN. *)
Lemma decode_created now salt nonce kp eps pin link :
  length salt = SALT_LEN -> length nonce = NONCE_LEN -> Forall packable eps ->
  create_link now salt nonce kp eps pin = Ok link ->
  let device_id := compute_device_id (public_key_bytes kp) in
  decode_link link pin =
    let? es := received device_id (float_of now) eps in
    Ok (mk_payload device_id (public_key_bytes kp) es (float_of now)).
Proof.
  intros Hsalt Hnonce Hp. unfold create_link, decode_link.
  destruct (_validate_pin pin) as [[]|]; [|done]. cbn [rbind]. destruct (bool_decide (eps = [])); [done|].
  destruct (signed_payload _ eps now) as [payload|] eqn:Es; [|done]. cbn [rbind].
  destruct (gcm_encrypt _ nonce _) as [ct|] eqn:Eg; [|done]. intros <-%Ok_inj.
  rewrite bool_decide_true by (by eexists). cbn [negb].
  rewrite drop_app_length, b64url_roundtrip.
  destruct (Nat.ltb_spec (length (salt ++ nonce ++ ct)) (SALT_LEN + NONCE_LEN)) as [Hlt|_].
  { rewrite !length_app in Hlt. lia. }
  assert (take SALT_LEN (salt ++ nonce ++ ct) = salt) as -> by (by rewrite <- Hsalt, take_app_length).
  assert (slice (salt ++ nonce ++ ct) SALT_LEN NONCE_LEN = nonce) as -> by (by rewrite slice_at).
  assert (drop (SALT_LEN + NONCE_LEN) (salt ++ nonce ++ ct) = ct) as ->.
  { rewrite app_assoc. rewrite <- Hsalt, <- Hnonce, <- length_app. apply drop_app_length. }
  rewrite (gcm_decrypt_encrypt _ _ _ _ Eg). by apply decode_plaintext_signed.
Qed.

(** A link can be made of valid endpoints. *)
Lemma create_link_ok now salt nonce kp eps pin :
  _validate_pin pin = Ok () -> 0 <= now < 2 ^ 32 -> eps <> [] -> zlen eps <= 255 -> Forall packable eps ->
  exists link, create_link now salt nonce kp eps pin = Ok link.
Proof.
  intros Hpin Hnow Hne Hlen Hp. unfold create_link. rewrite Hpin. cbn [rbind].
  rewrite bool_decide_false by done.
  assert (exists bs, _pack_endpoints eps = Ok bs /\ zlen bs <= 259 * zlen eps) as (bs & Ebs & Hbs).
  { clear Hne Hlen. induction Hp as [|ep eps Hep _ IH]; [by exists []|].
    destruct IH as (r & Er & Hr). destruct (packable_packs ep Hep) as [b Eb].
    exists (b ++ r). cbn [_pack_endpoints]. rewrite Eb. cbn [rbind]. rewrite Er. split; [done|].
    pose proof (packed_length ep b Hep Eb). unfold zlen in *. cbn [length].
    rewrite length_app. lia. }
  unfold signed_payload. rewrite Ebs. cbn [rbind].
  assert (pack_u8 (zlen eps) = Ok (be_bytes 1 (zlen eps))) as ->.
  { unfold pack_u8. pose proof (zlen_nonneg eps).
    destruct ((0 <=? zlen eps) && (zlen eps <? 2 ^ 8)) eqn:Ez; [done|].
    apply andb_false_iff in Ez as [?%Z.leb_gt|?%Z.ltb_ge]; lia. }
  cbn [rbind]. unfold pack_u32. destruct ((0 <=? now) && (now <? 2 ^ 32)) eqn:Et.
  2:{ apply andb_false_iff in Et as [?%Z.leb_gt|?%Z.ltb_ge]; lia. }
  cbn [rbind]. destruct (gcm_encrypt_fits (derive_kek (str_bytes pin) salt) nonce
    ((public_key_bytes kp ++ be_bytes 1 (zlen eps) ++ bs ++ be_bytes 4 now) ++
     sign kp (_LINK_SIGN_DOMAIN ++ public_key_bytes kp ++ be_bytes 1 (zlen eps) ++ bs ++ be_bytes 4 now))) as [ct ->].
  { unfold zlen in *. rewrite !length_app, !length_be_bytes. unfold public_key_bytes, sign.
    rewrite ed_public_length, ed_sign_length. lia. }
  by eexists.
Qed.

(** What the constructor of [Endpoint] and the program's texts guarantee. *)
Record shareable (ep : Endpoint) : Prop := {
  share_ok : place_ok (kind ep) (host ep) (port ep) = true;
  share_pack : packable ep
}.

Lemma canonical_nonempty ep : packable ep -> host ep <> EmptyString -> canonical_host (kind ep) (host ep) <> EmptyString.
Proof.
  intros [Hk _ H4' H6' _] Hne. destruct (kind_cases _ Hk) as [E|[E|E]]; rewrite E.
  - destruct (H4' E) as [b Eb]. change (canonical_host _ _) with (inet_ntop4 (default [] (inet_pton4 (host ep)))).
    rewrite Eb. intros E'. pose proof (pton4_ntop4 b (pton4_length _ _ Eb)) as Hp. cbn in E'.
    rewrite E', pton4_empty in Hp. done.
  - destruct (H6' E) as [b Eb]. change (canonical_host _ _) with (inet_ntop6 (default [] (inet_pton6 (host ep)))).
    rewrite Eb. intros E'. pose proof (pton6_ntop6 b (pton6_length _ _ Eb)) as Hp. cbn in E'.
    rewrite E', pton6_empty in Hp. done.
  - done.
Qed.

(** The endpoint as the receiver stores it. *)
Definition as_received (device_id : string) (t : spec_float) (ep : Endpoint) : Endpoint :=
  mk_endpoint device_id (kind ep) (canonical_host (kind ep) (host ep)) (port ep) t.

Lemma received_shareable device_id t eps :
  Forall shareable eps -> received device_id t eps = Ok (map (as_received device_id t) eps).
Proof.
  unfold received. induction 1 as [|ep eps [Hok Hp] _ IH]; [done|]. cbn [map make_endpoints].
  assert (make_endpoint device_id (kind ep) (canonical_host (kind ep) (host ep)) (port ep) t
          = Some (as_received device_id t ep)) as ->.
  { unfold make_endpoint. unfold place_ok in *. apply andb_true_iff in Hok as [[Hk Hh]%andb_true_iff Hport].
    rewrite Hk, Hport. apply negb_true_iff, bool_decide_eq_false in Hh.
    unfold text_is_empty. by rewrite bool_decide_false by (by apply canonical_nonempty). }
  by rewrite IH.
Qed.

(** A link carries its endpoints.  For every valid PIN, clock and list of one to 255 valid
    endpoints, [create_link] returns a link, and [decode_link] with the same PIN gives back the
    device identifier, the public key, every endpoint in order (an address in the C library's
    form) and the time, whatever the salt and the nonce. *)
Theorem link_roundtrip now salt nonce kp eps pin :
  length salt = SALT_LEN -> length nonce = NONCE_LEN -> _validate_pin pin = Ok () -> 0 <= now < 2 ^ 32 ->
  eps <> [] -> zlen eps <= 255 -> Forall shareable eps ->
  let device_id := compute_device_id (public_key_bytes kp) in
  exists link, create_link now salt nonce kp eps pin = Ok link /\
    decode_link link pin = Ok (mk_payload device_id (public_key_bytes kp)
                                 (map (as_received device_id (float_of now)) eps) (float_of now)).
Proof.
  intros Hs Hn Hpin Hnow Hne Hlen Hsh.
  assert (Forall packable eps) as Hp by (eapply Forall_impl; [exact Hsh|]; by intros ep []).
  destruct (create_link_ok now salt nonce kp eps pin) as [link Hl]; [done..|].
  exists link. split; [done|].
  rewrite (decode_created now salt nonce kp eps pin link), received_shareable by done. done.
Qed.

(** The flow that adds a peer can crash on a link.  Whoever knows the PIN can sign a link
    with a port of zero: decoding it raises the error of [Endpoint], which is not one of the
    documented errors, and the flow does not catch it. *)
Theorem link_port_zero_crashes now t salt nonce kp ep pin link reached a :
  length salt = SALT_LEN -> length nonce = NONCE_LEN -> packable ep -> port ep = 0 ->
  create_link now salt nonce kp [ep] pin = Ok link ->
  is_link_error LocatorError = false /\
  _add_link_flow t reached link pin a = (a, AddCrashed LocatorError).
Proof.
  intros Hs Hn Hp Hport Hc. split; [done|]. unfold _add_link_flow.
  assert (Forall packable [ep]) as Hps by (constructor; [done|constructor]).
  rewrite (decode_created now salt nonce kp [ep] pin link Hs Hn Hps Hc).
  unfold received. cbn [map make_endpoints]. unfold make_endpoint, place_ok. rewrite Hport.
  by rewrite andb_false_r.
Qed.

(** ** What a decoded link says is what was signed *)

Lemma slice_length buf o n : length (slice buf o n) = n -> (o + n <= length buf)%nat \/ n = 0%nat.
Proof. unfold slice. rewrite length_take, length_drop. lia. Qed.

Lemma slice_split buf o n m : slice buf o (n + m) = slice buf o n ++ slice buf (o + n) m.
Proof. unfold slice. by rewrite <- drop_drop, take_take_drop. Qed.

Lemma at_index_slice buf o c : at_index buf o = Ok c -> slice buf o 1 = [c] /\ (o < length buf)%nat.
Proof.
  unfold at_index, slice. destruct (buf !! o) as [c'|] eqn:E; [|done]. intros [= ->].
  split; [|by eapply lookup_lt_Some]. by rewrite (drop_S _ _ _ E).
Qed.

(** The bytes a host was read from are the ones it packs to. *)
Lemma host_repacked k buf o h o' :
  k ∈ VALID_KINDS -> unpack_host k buf o = Ok (h, o') -> (o' <= length buf)%nat ->
  (o <= o')%nat /\ host_bytes k h = Ok (slice buf o (o' - o)).
Proof.
  intros Hk. destruct (kind_cases _ Hk) as [-> |[-> | ->]].
  - rewrite unpack_host_v4. case_decide as Hl; [|done]. intros [= <- <-] _. split; [lia|].
    rewrite host_bytes_v4, pton4_ntop4 by done. do 2 f_equal. lia.
  - rewrite unpack_host_v6. case_decide as Hl; [|done]. intros [= <- <-] _. split; [lia|].
    rewrite host_bytes_v6, pton6_ntop6 by done. do 2 f_equal. lia.
  - rewrite unpack_host_name. destruct (at_index buf o) as [c|] eqn:Ec; [|done]. cbn [rbind]. cbv zeta.
    set (n := Z.to_nat (byte.unsigned c)). destruct (utf8_valid [] _); [|done]. intros [= <- <-] Ho.
    apply at_index_slice in Ec as [Ec _]. split; [lia|]. rewrite host_bytes_name.
    rewrite String.list_byte_of_string_of_list_byte.
    pose proof (byte_bound c) as Hb.
    assert (length (slice buf (S o) n) = n) as Hl by (unfold slice; rewrite length_take, length_drop; lia).
    assert (zlen (slice buf (S o) n) = byte.unsigned c) as -> by (unfold zlen; rewrite Hl; lia).
    unfold _MAX_RENDEZVOUS_HOST_LEN. destruct (Z.ltb_spec 255 (byte.unsigned c)); [lia|].
    unfold pack_u8. destruct ((0 <=? byte.unsigned c) && (byte.unsigned c <? 2 ^ 8)) eqn:Ez.
    2:{ apply andb_false_iff in Ez as [?%Z.leb_gt|?%Z.ltb_ge]; lia. }
    cbn [rbind]. rewrite be_bytes_1. f_equal. rewrite <- Ec.
    replace (S (o + n) - o)%nat with (1 + n)%nat by lia. rewrite slice_split.
    by replace (o + 1)%nat with (S o) by lia.
Qed.

Lemma one_repacked buf o k h p o' d t :
  unpack_one buf o = Ok (k, h, p, o') ->
  (o <= o' <= length buf)%nat /\ _pack_one_endpoint (mk_endpoint d k h p t) = Ok (slice buf o (o' - o)).
Proof.
  unfold unpack_one, _pack_one_endpoint. destruct (at_index buf o) as [tag|] eqn:Et; [|done]. cbn [rbind].
  destruct (_TAG_KINDS tag) as [k'|] eqn:Ek; [|done].
  destruct (unpack_host k' buf (S o)) as [[h' o1]|] eqn:Eh; [|done]. cbn [rbind]. cbv beta iota zeta.
  case_decide as Hl; [|done]. intros [= -> -> <- <-].
  assert (k ∈ VALID_KINDS /\ tag_of k = Some tag) as [Hk Htag].
  { revert Ek. unfold _TAG_KINDS, _KIND_TAGS. cbn [List.find snd fst].
    repeat case_bool_decide; subst; cbn; intros [= <-]; (split; [|done]); unfold VALID_KINDS; set_solver. }
  apply slice_length in Hl as Hb. destruct Hb as [Hb|?]; [|done].
  destruct (host_repacked k buf (S o) h o1 Hk Eh ltac:(lia)) as [Ho Hh].
  split; [lia|]. cbn [kind host port]. rewrite Htag, Hh. cbn [rbind].
  apply at_index_slice in Et as [Et _].
  unfold pack_u16. pose proof (be_int_bound (slice buf o1 2)) as Hbound. rewrite Hl in Hbound.
  change (2 ^ (8 * Z.of_nat 2)) with (2 ^ 16) in Hbound.
  destruct ((0 <=? be_int (slice buf o1 2)) && (be_int (slice buf o1 2) <? 2 ^ 16)) eqn:Ez.
  2:{ apply andb_false_iff in Ez as [?%Z.leb_gt|?%Z.ltb_ge]; lia. }
  cbn [rbind]. pose proof (be_bytes_be_int (slice buf o1 2)) as Eb. rewrite Hl in Eb. rewrite Eb. f_equal.
  replace (o1 + 2 - o)%nat with (1 + ((o1 - S o) + 2))%nat by lia. rewrite !slice_split, Et.
  cbn [app]. replace (o + 1)%nat with (S o) by lia. by replace (S o + (o1 - S o))%nat with o1 by lia.
Qed.

Lemma endpoints_repacked count buf o raw o' device_id t es :
  _unpack_endpoints buf o count = Ok (raw, o') -> (o <= length buf)%nat ->
  make_endpoints device_id t raw = Ok es ->
  (o <= o' <= length buf)%nat /\ _pack_endpoints es = Ok (slice buf o (o' - o)) /\ length es = count /\
  Forall (fun e => device_id = Locator.device_id e /\ updated_at e = t) es.
Proof.
  revert o raw es. induction count as [|count IH]; intros o raw es; cbn [_unpack_endpoints].
  { intros [= <- <-] Ho [= <-]. rewrite Nat.sub_diag. split_and!; [lia|lia|done|done|constructor]. }
  destruct (unpack_one buf o) as [[[[k h] p] o1]|] eqn:E1; [|done]. cbn [rbind]. cbv beta iota.
  destruct (_unpack_endpoints buf o1 count) as [[rest o2]|] eqn:E2; [|done]. cbn [rbind fst snd].
  intros [= <- <-] Ho. cbn [make_endpoints].
  destruct (make_endpoint device_id k h p t) as [e|] eqn:Ee; [|done].
  destruct (make_endpoints device_id t rest) as [es'|] eqn:Es; [|done]. cbn [rbind]. intros [= <-].
  assert (e = mk_endpoint device_id k h p t) as ->.
  { unfold make_endpoint in Ee. destruct (place_ok k h p); [|done]. by injection Ee. }
  destruct (one_repacked buf o k h p o1 device_id t E1) as [[Ho1 Hl1] Hp1].
  destruct (IH o1 rest es' E2 Hl1 Es) as ([Ho2 Hl2] & Hp2 & Hlen & Hdev).
  split; [lia|]. cbn [_pack_endpoints]. rewrite Hp1. cbn [rbind]. rewrite Hp2. cbn [rbind].
  split; [|split; [cbn; lia|by constructor]]. f_equal.
  replace (o2 - o)%nat with ((o1 - o) + (o2 - o1))%nat by lia. rewrite slice_split.
  by replace (o + (o1 - o))%nat with o1 by lia.
Qed.

(** The signed part of a payload, put together again. *)
Lemma payload_repacked pt o es :
  let c := nth 32 pt Byte.x00 in
  (33 <= o)%nat -> (o + 4 <= length pt)%nat -> _pack_endpoints es = Ok (slice pt 33 (o - 33)) ->
  length es = Z.to_nat (byte.unsigned c) ->
  signed_payload (take 32 pt) es (be_int (slice pt o 4)) = Ok (take (o + 4) pt).
Proof.
  intros c Ho1 Ho Hpack Hlen.
  assert (length (slice pt o 4) = 4%nat) as Hl4 by (unfold slice; rewrite length_take, length_drop; lia).
  unfold signed_payload. rewrite Hpack. cbn [rbind]. unfold zlen. rewrite Hlen.
  pose proof (byte_bound c) as Hc. rewrite Z2Nat.id by lia.
  unfold pack_u8. destruct ((0 <=? byte.unsigned c) && (byte.unsigned c <? 2 ^ 8)) eqn:Ez.
  2:{ apply andb_false_iff in Ez as [?%Z.leb_gt|?%Z.ltb_ge]; lia. }
  cbn [rbind]. unfold pack_u32. pose proof (be_int_bound (slice pt o 4)) as Hb. rewrite Hl4 in Hb.
  destruct ((0 <=? be_int (slice pt o 4)) && (be_int (slice pt o 4) <? 2 ^ 32)) eqn:Et.
  2:{ apply andb_false_iff in Et as [?%Z.leb_gt|?%Z.ltb_ge]; [lia|].
      change (2 ^ (8 * Z.of_nat 4)) with (2 ^ 32) in Hb. lia. }
  f_equal. pose proof (be_bytes_be_int (slice pt o 4)) as Eb. rewrite Hl4 in Eb. rewrite Eb, be_bytes_1.
  assert (slice pt 32 1 = [c]) as <-.
  { unfold slice, c. destruct (drop 32 pt) as [|x l] eqn:Ed.
    - apply (f_equal length) in Ed. rewrite length_drop in Ed. cbn in Ed. lia.
    - rewrite <- (take_drop 32 pt), Ed.
      rewrite app_nth2; rewrite length_take_le by lia; [by rewrite Nat.sub_diag|lia]. }
  change (take 32 pt) with (slice pt 0 32). change (take (o + 4) pt) with (slice pt 0 (o + 4)).
  replace (o + 4)%nat with (32 + (1 + ((o - 33) + 4)))%nat by lia. rewrite !slice_split.
  repeat f_equal; lia.
Qed.

(** C32: what a link says was signed by the key it names.  When [decode_link] succeeds, the link
    held a signature that verifies under the payload's public key, over exactly the public key,
    the endpoints and the time that the payload reports; the device identifier is the hash of
    that key, and every endpoint belongs to it.  The PIN protects the link from being read; it
    does not let anyone change what it says. *)
Theorem link_authentic link pin p :
  decode_link link pin = Ok p ->
  exists created_at payload signature,
    signed_payload (p_public_key p) (p_endpoints p) created_at = Ok payload /\
    ed_verify (p_public_key p) signature (_LINK_SIGN_DOMAIN ++ payload) = true /\
    p_device_id p = compute_device_id (p_public_key p) /\ p_created_at p = float_of created_at /\
    Forall (fun e => p_device_id p = Locator.device_id e /\ updated_at e = p_created_at p) (p_endpoints p).
Proof.
  unfold decode_link. destruct (_validate_pin pin); [|done]. cbn [rbind]. destruct (negb _); [done|].
  destruct (_b64url_decode _) as [raw|]; [|done]. destruct (_ <? _)%nat; [done|].
  destruct (gcm_decrypt _ _ _) as [pt|]; [|done]. unfold decode_plaintext.
  unfold _PUBLIC_KEY_LEN, _CREATED_AT_LEN, _SIGNATURE_LEN.
  destruct (Nat.ltb_spec (length pt) (32 + 1 + 4 + 64)) as [|Hmin]; [done|].
  set (c := nth 32 pt Byte.x00).
  destruct (_unpack_endpoints pt (32 + 1) (Z.to_nat (byte.unsigned c))) as [[eps o]|[]] eqn:Eu; [|done..].
  destruct (Nat.ltb_spec (length pt) (o + 4 + 64)) as [|Ho]; [done|].
  destruct (signature_ok pt (o + 4)) eqn:Es; [|done]. cbn [negb].
  destruct (make_endpoints _ _ eps) as [es|] eqn:Em; [|done]. cbn [rbind]. intros [= <-]. cbn.
  destruct (endpoints_repacked _ pt (32 + 1) eps o _ _ es Eu ltac:(lia) Em) as ([Ho1 _] & Hpack & Hlen & Hdev).
  unfold signature_ok, _PUBLIC_KEY_LEN, _SIGNATURE_LEN, public_key_from_bytes in Es.
  destruct (decide (length (take 32 pt) = 32%nat)) as [|]; [|done].
  exists (be_int (slice pt o 4)), (take (o + 4) pt), (slice pt (o + 4) 64). split_and!; [|done..].
  by apply payload_repacked; [lia|lia|..].
Qed.

End Codec.

(** ** Evaluations *)
Module LinkSample.

(** Addresses written in hexadecimal. *)
Definition pton (n : nat) (h : string) : option bytes :=
  b ← fromhex (str_bytes h); if decide (length b = n) then Some b else None.

#[export] Instance inet : Inet := {
  inet_pton4 := pton 4;
  inet_pton6 := pton 16;
  inet_ntop4 b := bytes_str (hex_text b);
  inet_ntop6 b := bytes_str (hex_text b)
}.

Lemma pton_hex n b : length b = n -> pton n (bytes_str (hex_text b)) = Some b.
Proof.
  intros Hl. unfold pton. rewrite String.list_byte_of_string_of_list_byte, fromhex_hex_text. cbn.
  by rewrite decide_True.
Qed.

Lemma pton_length n h b : pton n h = Some b -> length b = n.
Proof. unfold pton. destruct (fromhex _) as [x|]; [|done]. cbn. case_decide; [|done]. by intros [= <-]. Qed.

#[export] Instance inet_laws : InetLaws.
Proof. split; [apply pton_length..|apply pton_hex|apply pton_hex|done|done]. Qed.

#[export] Existing Instances Crypto.Sample.ed25519 Crypto.Sample.ed25519_laws Crypto.Sample.sha
  VaultSample.gcm VaultSample.gcm_laws VaultSample.kdf.

Definition kp : DeviceKeypair := mk_keypair 7 "device".
Definition salt : bytes := repeat "s"%byte 16.
Definition nonce : bytes := repeat "n"%byte 12.
Definition home : Endpoint := mk_endpoint "device" KIND_DIRECT_V4 "0a000001" 5656 (float_of 1000).
Definition meeting : Endpoint := mk_endpoint "device" KIND_RENDEZVOUS "peers.example" 443 (float_of 1000).
Definition nowhere : Endpoint := mk_endpoint "device" KIND_RENDEZVOUS "peers.example" 0 (float_of 1000).

Lemma packable_name h p : zlen (str_bytes h) <= 255 -> utf8_valid [] (str_bytes h) = true -> 0 <= p < 2 ^ 16 ->
  packable (mk_endpoint "device" KIND_RENDEZVOUS h p (float_of 1000)).
Proof. intros Hl Hu Hp. split; cbn; [unfold VALID_KINDS; set_solver|done|discriminate|discriminate|done]. Qed.

Lemma home_shareable : shareable home.
Proof.
  split; [done|]. split; cbn; [unfold VALID_KINDS; set_solver|done| |discriminate|discriminate].
  intros _. by eexists.
Qed.

Lemma meeting_shareable : shareable meeting.
Proof. split; [done|]. by apply packable_name. Qed.

Lemma link_roundtrip_witness :
  exists link, create_link 1000 salt nonce kp [home; meeting] "123456" = Ok link /\
    decode_link link "123456" =
      Ok (mk_payload (compute_device_id (public_key_bytes kp)) (public_key_bytes kp)
            (map (as_received (compute_device_id (public_key_bytes kp)) (float_of 1000)) [home; meeting])
            (float_of 1000)).
Proof.
  apply (link_roundtrip 1000 salt nonce kp [home; meeting] "123456"); [done..|].
  constructor; [apply home_shareable|]. constructor; [apply meeting_shareable|constructor].
Defined.

(** A link for [home]. *)
Definition the_link : bytes :=
  match create_link 1000 salt nonce kp [home] "123456" with Ok l => l | Err _ => [] end.

Lemma link_authentic_witness :
  exists p created_at payload signature,
    decode_link the_link "123456" = Ok p /\
    signed_payload (p_public_key p) (p_endpoints p) created_at = Ok payload /\
    ed_verify (p_public_key p) signature (_LINK_SIGN_DOMAIN ++ payload) = true.
Proof.
  destruct (decode_link the_link "123456") as [p|e] eqn:E.
  2:{ apply (f_equal (fun r => is_ok r)) in E. vm_compute in E. discriminate. }
  exists p. destruct (link_authentic the_link "123456" p E) as (t & payload & signature & H1 & H2 & _).
  exists t, payload, signature. split; [reflexivity|]. split; [exact H1|exact H2].
Defined.

Lemma link_port_zero_crashes_witness :
  exists link,
    create_link 1000 salt nonce kp [nowhere] "123456" = Ok link /\
    _add_link_flow (float_of 1000) (fun _ => true) link "123456" (mk_app None [] None)
      = (mk_app None [] None, AddCrashed LocatorError).
Proof.
  assert (packable nowhere) as Hp by (by apply packable_name).
  destruct (create_link 1000 salt nonce kp [nowhere] "123456") as [link|e] eqn:E.
  2:{ apply (f_equal (fun r => is_ok r)) in E. vm_compute in E. discriminate. }
  exists link. split; [reflexivity|].
  exact (proj2 (link_port_zero_crashes 1000 (float_of 1000) salt nonce kp nowhere "123456" link
    (fun _ => true) (mk_app None [] None) eq_refl eq_refl Hp eq_refl E)).
Defined.

End LinkSample.
