(* ===== verification/Transfer.v ===== *)
(** * File transfer sessions

    Models [core/transfer/session.py]: the class [FileTransferSession] with every
    handler, its two tables of transfers, the task [_send_chunks] and the files of the
    downloads directory.

    A transfer is a shared object: the tables, a suspended coroutine and a task hold
    references to it, so objects live in a store under a reference.  A coroutine is cut
    where it awaits: what it keeps is a pending record ([pending_offer],
    [pending_done], [task]), and an [event] resumes it, so that other handlers can run in
    between.  The clock, the manager's view of the peer, free disk space, the content of
    a file being sent and the outcome of each fallible call are in the environment
    [env] of an event.  A transfer identifier is a string, as the factories make it; the
    model stops ([NotText]) at a message whose [transfer_id] is a value of another type,
    which the schema lets through.  A send that only a notification follows is not cut. *)

From Corelib Require Import SpecFloat.
From S2P Require Import Prelude Text Json Crypto Wire Messages Lifecycle Files Partial.
Import Factories Errors FS.
Local Open Scope peerc_scope.
Local Open Scope Z_scope.

Abbreviation OState := Outgoing.OutgoingTransferState.
Abbreviation IState := Incoming.IncomingTransferState.

(** ** Python dictionaries: insertion order, a key once *)
Abbreviation pydict A := (list (string * A)).

Fixpoint dget {A} (k : string) (d : pydict A) : option A :=
  match d with
  | [] => None
  | (k', v) :: d' => if decide (k = k') then Some v else dget k d'
  end.

Fixpoint dset {A} (k : string) (v : A) (d : pydict A) : pydict A :=
  match d with
  | [] => [(k, v)]
  | (k', v') :: d' => if decide (k = k') then (k', v) :: d' else (k', v') :: dset k v d'
  end.

Definition dpop {A} (k : string) (d : pydict A) : pydict A :=
  List.filter (fun kv => negb (bool_decide (fst kv = k))) d.

(** ** Data *)

Definition CHUNK_SIZE : Z := DEFAULT_CHUNK_SIZE.
Definition _ERROR_REPORT_CAP : nat := 256.

Record OutgoingTransfer := mk_out {
  o_id : string;
  o_addr : string;
  o_filepath : string;
  o_filename : string;
  o_size : Z;
  o_checksum : string;
  o_peer : string;
  o_resume : Z;
  o_state : OState;
  o_ack_set : bool;
  o_ack_success : bool
}.

Record IncomingTransfer := mk_in {
  i_id : string;
  i_addr : string;
  i_filename : string;
  i_size : Z;
  i_checksum : string;
  i_sender : json;
  i_dest : string;
  i_part : string;
  i_peer : string;
  i_received : Z;
  i_index : Z;
  i_resume : Z;
  i_committed : Z;
  i_first : bool;
  i_state : IState;
  i_handle : option handle
}.

Definition o_with_state (s : OState) (t : OutgoingTransfer) : OutgoingTransfer :=
  {| o_id := o_id t; o_addr := o_addr t; o_filepath := o_filepath t; o_filename := o_filename t;
     o_size := o_size t; o_checksum := o_checksum t; o_peer := o_peer t; o_resume := o_resume t;
     o_state := s; o_ack_set := o_ack_set t; o_ack_success := o_ack_success t |}.

Definition o_with_resume (z : Z) (t : OutgoingTransfer) : OutgoingTransfer :=
  {| o_id := o_id t; o_addr := o_addr t; o_filepath := o_filepath t; o_filename := o_filename t;
     o_size := o_size t; o_checksum := o_checksum t; o_peer := o_peer t; o_resume := z;
     o_state := o_state t; o_ack_set := o_ack_set t; o_ack_success := o_ack_success t |}.

Definition o_with_ack (success : bool) (t : OutgoingTransfer) : OutgoingTransfer :=
  {| o_id := o_id t; o_addr := o_addr t; o_filepath := o_filepath t; o_filename := o_filename t;
     o_size := o_size t; o_checksum := o_checksum t; o_peer := o_peer t; o_resume := o_resume t;
     o_state := o_state t; o_ack_set := true; o_ack_success := success |}.

Definition i_with_state (s : IState) (t : IncomingTransfer) : IncomingTransfer :=
  {| i_id := i_id t; i_addr := i_addr t; i_filename := i_filename t; i_size := i_size t;
     i_checksum := i_checksum t; i_sender := i_sender t; i_dest := i_dest t; i_part := i_part t;
     i_peer := i_peer t; i_received := i_received t; i_index := i_index t; i_resume := i_resume t;
     i_committed := i_committed t; i_first := i_first t; i_state := s; i_handle := i_handle t |}.

Definition i_with_handle (h : option handle) (t : IncomingTransfer) : IncomingTransfer :=
  {| i_id := i_id t; i_addr := i_addr t; i_filename := i_filename t; i_size := i_size t;
     i_checksum := i_checksum t; i_sender := i_sender t; i_dest := i_dest t; i_part := i_part t;
     i_peer := i_peer t; i_received := i_received t; i_index := i_index t; i_resume := i_resume t;
     i_committed := i_committed t; i_first := i_first t; i_state := i_state t; i_handle := h |}.

Definition i_with_first (t : IncomingTransfer) : IncomingTransfer :=
  {| i_id := i_id t; i_addr := i_addr t; i_filename := i_filename t; i_size := i_size t;
     i_checksum := i_checksum t; i_sender := i_sender t; i_dest := i_dest t; i_part := i_part t;
     i_peer := i_peer t; i_received := i_received t; i_index := i_index t; i_resume := i_resume t;
     i_committed := i_committed t; i_first := true; i_state := i_state t;
     i_handle := i_handle t |}.

(** The counters: bytes received, next chunk index, offset resumed at, committed. *)
Definition i_with_counts (received index resume committed : Z) (t : IncomingTransfer)
    : IncomingTransfer :=
  {| i_id := i_id t; i_addr := i_addr t; i_filename := i_filename t; i_size := i_size t;
     i_checksum := i_checksum t; i_sender := i_sender t; i_dest := i_dest t; i_part := i_part t;
     i_peer := i_peer t; i_received := received; i_index := index; i_resume := resume;
     i_committed := committed; i_first := i_first t; i_state := i_state t;
     i_handle := i_handle t |}.

(** What the session does to the outside: frames handed to the manager, a task
    started, and notifications ([_notify_progress], [_notify_complete], the offer
    event). *)
Inductive output : Type :=
| Sent (addr : string) (m : dict)
| SentBinary (addr : string) (payload : bytes)
| SentError (addr : string) (code : ErrorCode) (transfer_id : string)
| Spawned (ref : nat)
| Progress (transfer_id : string) (bytes_done total : Z) (is_upload : bool)
| FileOffered (transfer_id addr filename : string) (size : Z) (checksum : string)
    (sender : json)
| Completed (outgoing : bool) (ref : nat) (transfer_id : string) (success : bool)
    (filepath : option string) (error : option string).

(** What [_handle_offer] keeps while the user decides. *)
Record pending_offer := mk_offer {
  po_id : string;
  po_addr : string;
  po_filename : string;
  po_size : Z;
  po_checksum : string;
  po_sender : json;
  po_peer : option string;
  po_partial : option PartialInfo;
  po_resume : Z;
  po_dest : string;
  po_part : string
}.

(** What [_handle_done] keeps while its acknowledgement is sent. *)
Record pending_done := mk_done { pd_ref : nat; pd_success : bool }.

(** Where the task [_send_chunks] of a transfer is suspended. *)
Inductive task : Type :=
| TReady
| TSending (index offset sent : Z) (len : Z)   (** [send_binary] of this chunk *)
| TDone                                        (** [send] of [file_done] *)
| TAck.                                        (** the acknowledgement or the timeout *)

Record session := mk_session {
  outgoing : pydict nat;
  incoming : pydict nat;
  out_objs : gmap nat OutgoingTransfer;
  in_objs : gmap nat IncomingTransfer;
  next_ref : nat;
  offer_offsets : pydict Z;
  reported : list (string * ErrorCode * string);
  files : fs;
  offers_waiting : gmap nat pending_offer;
  dones_waiting : gmap nat pending_done;
  sends_waiting : gset nat;               (** transfers whose offer is being sent *)
  tasks : gmap nat task;
  log : list output
}.

(** Exceptions that leave a handler. *)
Inductive exn : Type :=
| OSError
| OverflowError
| ValueError
| AttributeError
| InvalidTransferTransition
| DataError (e : FileData.data_error)
| KeyError (field : string)
| NotText.

Abbreviation tx := (stm session exn).

Record env := mk_env {
  now : spec_float;
  windows : bool;
  my_id : string;
  my_name : string;
  peer_of : string -> option string;    (** [manager.get_peer_device_id] *)
  free_space : option Z;
  meta_ok : string -> bool;             (** writing the sidecar of this part file *)
  flush_ok : string -> bool;            (** flush and fsync of this part file *)
  close_lost : string -> nat;           (** bytes that a failing [close] loses *)
  write_ok : bool;
  seek_ok : bool;
  open_ok : bool;                       (** [open(part, "wb")] *)
  reopen_ok : bool;                     (** [open(part, "r+b")] *)
  source : string -> option bytes       (** the content of a local file being sent *)
}.

(** ** Updates of the state *)

Definition on_outgoing (f : pydict nat -> pydict nat) (s : session) : session :=
  {| outgoing := f (outgoing s); incoming := incoming s; out_objs := out_objs s;
     in_objs := in_objs s; next_ref := next_ref s; offer_offsets := offer_offsets s;
     reported := reported s; files := files s; offers_waiting := offers_waiting s;
     dones_waiting := dones_waiting s; sends_waiting := sends_waiting s; tasks := tasks s;
     log := log s |}.

Definition on_incoming (f : pydict nat -> pydict nat) (s : session) : session :=
  {| outgoing := outgoing s; incoming := f (incoming s); out_objs := out_objs s;
     in_objs := in_objs s; next_ref := next_ref s; offer_offsets := offer_offsets s;
     reported := reported s; files := files s; offers_waiting := offers_waiting s;
     dones_waiting := dones_waiting s; sends_waiting := sends_waiting s; tasks := tasks s;
     log := log s |}.

Definition on_out_objs (f : gmap nat OutgoingTransfer -> gmap nat OutgoingTransfer) (s : session) : session :=
  {| outgoing := outgoing s; incoming := incoming s; out_objs := f (out_objs s);
     in_objs := in_objs s; next_ref := next_ref s; offer_offsets := offer_offsets s;
     reported := reported s; files := files s; offers_waiting := offers_waiting s;
     dones_waiting := dones_waiting s; sends_waiting := sends_waiting s; tasks := tasks s;
     log := log s |}.

Definition on_in_objs (f : gmap nat IncomingTransfer -> gmap nat IncomingTransfer) (s : session) : session :=
  {| outgoing := outgoing s; incoming := incoming s; out_objs := out_objs s;
     in_objs := f (in_objs s); next_ref := next_ref s; offer_offsets := offer_offsets s;
     reported := reported s; files := files s; offers_waiting := offers_waiting s;
     dones_waiting := dones_waiting s; sends_waiting := sends_waiting s; tasks := tasks s;
     log := log s |}.

Definition on_next_ref (f : nat -> nat) (s : session) : session :=
  {| outgoing := outgoing s; incoming := incoming s; out_objs := out_objs s;
     in_objs := in_objs s; next_ref := f (next_ref s); offer_offsets := offer_offsets s;
     reported := reported s; files := files s; offers_waiting := offers_waiting s;
     dones_waiting := dones_waiting s; sends_waiting := sends_waiting s; tasks := tasks s;
     log := log s |}.

Definition on_offer_offsets (f : pydict Z -> pydict Z) (s : session) : session :=
  {| outgoing := outgoing s; incoming := incoming s; out_objs := out_objs s;
     in_objs := in_objs s; next_ref := next_ref s; offer_offsets := f (offer_offsets s);
     reported := reported s; files := files s; offers_waiting := offers_waiting s;
     dones_waiting := dones_waiting s; sends_waiting := sends_waiting s; tasks := tasks s;
     log := log s |}.

Definition on_reported (f : list (string * ErrorCode * string) -> list (string * ErrorCode * string)) (s : session) : session :=
  {| outgoing := outgoing s; incoming := incoming s; out_objs := out_objs s;
     in_objs := in_objs s; next_ref := next_ref s; offer_offsets := offer_offsets s;
     reported := f (reported s); files := files s; offers_waiting := offers_waiting s;
     dones_waiting := dones_waiting s; sends_waiting := sends_waiting s; tasks := tasks s;
     log := log s |}.

Definition on_files (f : fs -> fs) (s : session) : session :=
  {| outgoing := outgoing s; incoming := incoming s; out_objs := out_objs s;
     in_objs := in_objs s; next_ref := next_ref s; offer_offsets := offer_offsets s;
     reported := reported s; files := f (files s); offers_waiting := offers_waiting s;
     dones_waiting := dones_waiting s; sends_waiting := sends_waiting s; tasks := tasks s;
     log := log s |}.

Definition on_offers_waiting (f : gmap nat pending_offer -> gmap nat pending_offer) (s : session) : session :=
  {| outgoing := outgoing s; incoming := incoming s; out_objs := out_objs s;
     in_objs := in_objs s; next_ref := next_ref s; offer_offsets := offer_offsets s;
     reported := reported s; files := files s; offers_waiting := f (offers_waiting s);
     dones_waiting := dones_waiting s; sends_waiting := sends_waiting s; tasks := tasks s;
     log := log s |}.

Definition on_dones_waiting (f : gmap nat pending_done -> gmap nat pending_done) (s : session) : session :=
  {| outgoing := outgoing s; incoming := incoming s; out_objs := out_objs s;
     in_objs := in_objs s; next_ref := next_ref s; offer_offsets := offer_offsets s;
     reported := reported s; files := files s; offers_waiting := offers_waiting s;
     dones_waiting := f (dones_waiting s); sends_waiting := sends_waiting s; tasks := tasks s;
     log := log s |}.

Definition on_sends_waiting (f : gset nat -> gset nat) (s : session) : session :=
  {| outgoing := outgoing s; incoming := incoming s; out_objs := out_objs s;
     in_objs := in_objs s; next_ref := next_ref s; offer_offsets := offer_offsets s;
     reported := reported s; files := files s; offers_waiting := offers_waiting s;
     dones_waiting := dones_waiting s; sends_waiting := f (sends_waiting s); tasks := tasks s;
     log := log s |}.

Definition on_tasks (f : gmap nat task -> gmap nat task) (s : session) : session :=
  {| outgoing := outgoing s; incoming := incoming s; out_objs := out_objs s;
     in_objs := in_objs s; next_ref := next_ref s; offer_offsets := offer_offsets s;
     reported := reported s; files := files s; offers_waiting := offers_waiting s;
     dones_waiting := dones_waiting s; sends_waiting := sends_waiting s; tasks := f (tasks s);
     log := log s |}.

Definition on_log (f : list output -> list output) (s : session) : session :=
  {| outgoing := outgoing s; incoming := incoming s; out_objs := out_objs s;
     in_objs := in_objs s; next_ref := next_ref s; offer_offsets := offer_offsets s;
     reported := reported s; files := files s; offers_waiting := offers_waiting s;
     dones_waiting := dones_waiting s; sends_waiting := sends_waiting s; tasks := tasks s;
     log := f (log s) |}.

Definition emit (o : output) : tx unit := modify (on_log (fun l => l ++ [o])).

Definition out_obj (r : nat) : tx (option OutgoingTransfer) := gets (fun s => out_objs s !! r).
Definition in_obj (r : nat) : tx (option IncomingTransfer) := gets (fun s => in_objs s !! r).

Definition update_out (r : nat) (f : OutgoingTransfer -> OutgoingTransfer) : tx unit :=
  modify (on_out_objs (alter f r)).
Definition update_in (r : nat) (f : IncomingTransfer -> IncomingTransfer) : tx unit :=
  modify (on_in_objs (alter f r)).

Definition on_disk (f : fs -> fs) : tx unit := modify (on_files f).

(** [d.get(k)] of a table of transfers: the reference and the object. *)
Definition find_out (tid : string) : tx (option (nat * OutgoingTransfer)) :=
  gets (fun s => r ← dget tid (outgoing s); t ← out_objs s !! r; Some (r, t)).
Definition find_in_table (tid : string) : tx (option (nat * IncomingTransfer)) :=
  gets (fun s => r ← dget tid (incoming s); t ← in_objs s !! r; Some (r, t)).

(** The objects of the live incoming transfers, in the order of the table. *)
Definition live_incoming (s : session) : list IncomingTransfer :=
  omap (fun kr => in_objs s !! snd kr) (incoming s).

Definition pop_incoming (t : IncomingTransfer) : tx unit :=
  modify (on_incoming (dpop (i_id t))) ;; modify (on_offer_offsets (dpop (i_id t))).

(** ** Reporting *)

Definition _notify_complete_out (r : nat) (t : OutgoingTransfer) (success : bool)
    (filepath error : option string) : tx unit :=
  emit (Completed true r (o_id t) success filepath error).

Definition _notify_complete_in (r : nat) (t : IncomingTransfer) (success : bool)
    (filepath error : option string) : tx unit :=
  emit (Completed false r (i_id t) success filepath error).

Definition report_key_eq (a b : string * ErrorCode * string) : bool := bool_decide (a = b).

Definition _report_once (addr : string) (code : ErrorCode) (transfer_id : string) : tx unit :=
  if bool_decide (transfer_id = ""%string) || (128 <? code_points (str_bytes transfer_id))
  then mret ()
  else
    known ← gets (fun s => existsb (report_key_eq (addr, code, transfer_id)) (reported s));
    if known : bool then mret ()
    else
      modify (on_reported (fun l =>
        let l' := l ++ [(addr, code, transfer_id)] in
        drop (length l' - _ERROR_REPORT_CAP) l')) ;;
      emit (SentError addr code transfer_id).

(** [bool(v)] of a decoded JSON value. *)
Definition truthy (v : json) : bool :=
  match v with
  | JNull => false
  | JBool b => b
  | JInt z => negb (z =? 0)
  | JFloat (S754_zero _) => false
  | JFloat _ => true
  | JStr s => negb (bool_decide (s = ""%string))
  | JList l => negb (bool_decide (length l = 0%nat))
  | JObj l => negb (bool_decide (length l = 0%nat))
  end.

(** [a or b or c or None] on identifiers, where an empty string counts as missing. *)
Fixpoint first_id (ids : list (option string)) : option string :=
  match ids with
  | [] => None
  | Some x :: rest => if bool_decide (x = ""%string) then first_id rest else Some x
  | None :: rest => first_id rest
  end.

Definition aligned (n : Z) : Z := n - n mod CHUNK_SIZE.

(** ** Operations on one transfer *)

Definition _is_valid_resume_offset (offset : json) (file_size : Z) : bool :=
  match offset with
  | JInt z => (0 <=? z) && (z <=? file_size) && (z mod CHUNK_SIZE =? 0)
  | _ => false
  end.

(** [transition_to] on the machine of an object: whether it was allowed. *)
Definition move_out (r : nat) (target : OState) : tx bool :=
  t ← out_obj r;
  match t ≫= fun t => transition_to (o_state t) target with
  | Some st => update_out r (o_with_state st) ;; mret true
  | None => mret false
  end.

Definition move_in (r : nat) (target : IState) : tx bool :=
  t ← in_obj r;
  match t ≫= fun t => transition_to (i_state t) target with
  | Some st => update_in r (i_with_state st) ;; mret true
  | None => mret false
  end.

Definition _fail_outgoing (r : nat) (t : OutgoingTransfer) (error : string) : tx bool :=
  moved ← move_out r Outgoing.FAILED;
  if negb moved then mret false
  else
    modify (on_outgoing (dpop (o_id t))) ;;
    update_out r (o_with_ack false) ;;
    _notify_complete_out r t false None (Some error) ;;
    mret true.

Section Session.
Context `{JsonText} `{Sha256} `{FileData.UnicodeTables} (E : env).

(** [close], which may lose the end of the buffer. *)
Definition close_handle (r : nat) : tx unit :=
  t ← in_obj r;
  match t ≫= i_handle with
  | Some h =>
      match t with
      | Some t => on_disk (close (close_lost E (i_part t)) h) ;; update_in r (i_with_handle None)
      | None => mret ()
      end
  | None => mret ()
  end.

(** The sidecar of a transfer, with exceptions ignored. *)
Definition record_meta (t : IncomingTransfer) (peer : string) (committed : Z) : tx unit :=
  on_disk (try_write_meta (meta_ok E (i_part t)) (now E) (i_part t) peer (i_filename t) (i_size t)
             (i_checksum t) (i_dest t) committed).

(** The end of [_fail_incoming] and of [handle_connection_lost]: the handle is closed
    and the sidecar records what was received. *)
Definition keep_partial (r : nat) (t : IncomingTransfer) (evt_peer : option string) : tx unit :=
  close_handle r ;;
  there ← gets (fun s => exists_ (i_part t) (files s));
  match first_id [Some (i_peer t); evt_peer; peer_of E (i_addr t)] with
  | Some peer =>
      if negb (bool_decide (i_part t = ""%string)) && there
      then record_meta t peer (aligned (i_received t))
      else mret ()
  | None => mret ()
  end.

Definition _fail_incoming (r : nat) (t : IncomingTransfer) (error : string) : tx bool :=
  moved ← move_in r Incoming.FAILED;
  if negb moved then mret false
  else
    pop_incoming t ;;
    keep_partial r t None ;;
    _notify_complete_in r t false None (Some error) ;;
    mret true.

Fixpoint for_each {A} (f : A -> tx unit) (l : list A) : tx unit :=
  match l with
  | [] => mret ()
  | x :: rest => f x ;; for_each f rest
  end.

Definition lose_incoming (evt_peer : option string) (rt : nat * IncomingTransfer) : tx unit :=
  let '(r, t) := rt in
  pop_incoming t ;;
  keep_partial r t evt_peer ;;
  _ ← move_in r Incoming.FAILED;
  _notify_complete_in r t false None (Some "connection_lost"%string).

Definition incoming_from (addr : string) (s : session) : list (nat * IncomingTransfer) :=
  omap (fun kr => t ← in_objs s !! snd kr;
                  if bool_decide (i_addr t = addr) then Some (snd kr, t) else None) (incoming s).

Definition outgoing_to (addr : string) (s : session) : list (nat * OutgoingTransfer) :=
  omap (fun kr => t ← out_objs s !! snd kr;
                  if bool_decide (o_addr t = addr) then Some (snd kr, t) else None) (outgoing s).

Definition handle_connection_lost (addr : string) (evt_peer : option string) : tx unit :=
  ins ← gets (incoming_from addr);
  for_each (lose_incoming evt_peer) ins ;;
  outs ← gets (outgoing_to addr);
  for_each (fun '(r, t) => _ ← _fail_outgoing r t "connection_lost"; mret ()) outs.

(** [_on_peer_disconnected]: an event without an address is ignored. *)
Definition _on_peer_disconnected (addr : option string) (peer : option string) : tx unit :=
  match first_id [addr] with
  | Some a => handle_connection_lost a peer
  | None => mret ()
  end.

Definition _checkpoint_incoming (r : nat) : tx unit :=
  t ← in_obj r;
  match t with
  | Some t =>
      match i_handle t, first_id [Some (i_peer t); peer_of E (i_addr t)] with
      | Some _, Some peer =>
          if bool_decide (i_part t = ""%string) || negb (flush_ok E (i_part t)) then mret ()
          else
            let committed := aligned (i_received t) in
            update_in r (i_with_counts (i_received t) (i_index t) (i_resume t) committed) ;;
            record_meta t peer committed
      | _, _ => mret ()
      end
  | None => mret ()
  end.

Definition _abort_incoming (r : nat) (t : IncomingTransfer) (reason : string) : tx unit :=
  pop_incoming t ;;
  close_handle r ;;
  (if bool_decide (i_part t = ""%string) then mret () else on_disk (discard (i_part t))) ;;
  on_disk (fun d => if exists_ (i_dest t) d then remove (i_dest t) d else d) ;;
  _ ← move_in r Incoming.FAILED;
  emit (Sent (i_addr t) (make_file_complete_ack (i_id t) false reason)) ;;
  _notify_complete_in r t false None (Some reason).

(** ** The sender *)

(** [offer_file] up to the send of the offer; [transfer_id] is the new UUID. *)
Definition offer_file (addr filepath filename transfer_id : string) : tx unit :=
  match source E filepath with
  | None => raise OSError
  | Some data =>
      r ← gets next_ref;
      let t := mk_out transfer_id addr filepath filename (zlen data) (sha256_hex data)
                 (default ""%string (peer_of E addr)) 0 Outgoing.OFFERED false false in
      modify (on_next_ref S) ;;
      modify (on_out_objs <[r := t]>) ;;
      emit (Sent addr (make_file_offer (now E) transfer_id (my_id E) (my_name E) filename
                         (zlen data) (sha256_hex data))) ;;
      modify (on_sends_waiting (union {[r]}))
  end.

(** The rest of [offer_file], when the send returns [ok]. *)
Definition offer_sent (r : nat) (ok : bool) : tx unit :=
  waiting ← gets (fun s => bool_decide (r ∈ sends_waiting s));
  modify (on_sends_waiting (fun w => w ∖ {[r]})) ;;
  if negb (waiting && ok) then mret ()
  else
    moved ← move_out r Outgoing.WAITING_FOR_ACCEPT;
    raise_if (negb moved) InvalidTransferTransition ;;
    t ← out_obj r;
    match t with
    | Some t => modify (on_outgoing (dset (o_id t) r))
    | None => mret ()
    end.

Definition _handle_accept (addr transfer_id : string) (resume_offset : json) : tx unit :=
  found ← find_out transfer_id;
  match found with
  | None => _report_once addr TRANSFER_NOT_FOUND transfer_id
  | Some (r, t) =>
      update_out r (o_with_resume
        match resume_offset with
        | JInt z => if _is_valid_resume_offset resume_offset (o_size t) then z else 0
        | _ => 0
        end) ;;
      moved ← move_out r Outgoing.SENDING;
      if negb moved then mret ()
      else modify (on_tasks <[r := TReady]>) ;; emit (Spawned r)
  end.

Definition _handle_reject (transfer_id : string) : tx unit :=
  found ← find_out transfer_id;
  match found with
  | None => mret ()
  | Some (r, t) =>
      moved ← move_out r Outgoing.REJECTED;
      if negb moved then mret ()
      else
        _notify_complete_out r t false None (Some "rejected"%string) ;;
        modify (on_outgoing (dpop (o_id t)))
  end.

Definition _handle_complete_ack (transfer_id : string) (success : json) : tx unit :=
  found ← find_out transfer_id;
  match found with
  | None => mret ()
  | Some (r, t) =>
      match o_state t with
      | Outgoing.WAITING_FOR_COMPLETE_ACK => update_out r (o_with_ack (truthy success))
      | Outgoing.SENDING =>
          if truthy success then mret ()
          else _ ← _fail_outgoing r t "peer_aborted"; mret ()
      | _ => mret ()
      end
  end.

(** *** The task [_send_chunks]

    Each definition runs it to its next [await] and returns where it is then suspended,
    [None] when it has returned. *)

Definition is_sending (r : nat) : tx bool :=
  t ← out_obj r;
  mret (match t with
        | Some t => bool_decide (o_state t = Outgoing.SENDING)
        | None => false
        end).

(** After the loop. *)
Definition send_done (r : nat) (t : OutgoingTransfer) : tx (option task) :=
  sending ← is_sending r;
  if negb sending then mret None
  else emit (Sent (o_addr t) (make_file_done (o_id t) (o_checksum t))) ;; mret (Some TDone).

(** One round of the loop: the next chunk of the open file, if there is one. *)
Definition next_chunk (r : nat) (t : OutgoingTransfer) (index offset sent : Z)
    : tx (option task) :=
  match source E (o_filepath t) with
  | None => raise OSError
  | Some data =>
      match take (Z.to_nat CHUNK_SIZE) (drop (Z.to_nat offset) data) with
      | [] => send_done r t
      | chunk =>
          sending ← is_sending r;
          if negb sending then mret None
          else
            match FileData.encode_file_data (o_id t) index offset chunk with
            | Err e => raise (DataError e)
            | Ok payload =>
                emit (SentBinary (o_addr t) payload) ;;
                mret (Some (TSending index offset sent (zlen chunk)))
            end
      end
  end.

(** The start: the size of the file is compared with the offset. *)
Definition send_start (r : nat) (t : OutgoingTransfer) : tx (option task) :=
  match source E (o_filepath t) with
  | None => raise OSError
  | Some data =>
      if zlen data <? o_resume t then raise ValueError
      else next_chunk r t (o_resume t / CHUNK_SIZE) (o_resume t) (o_resume t)
  end.

(** [send_binary] of a chunk has returned [ok]. *)
Definition chunk_sent (r : nat) (t : OutgoingTransfer) (index offset sent len : Z) (ok : bool)
    : tx (option task) :=
  if negb ok then _ ← _fail_outgoing r t "send_failed"; mret None
  else
    emit (Progress (o_id t) (sent + len) (o_size t) true) ;;
    next_chunk r t (index + 1) (offset + len) (sent + len).

(** The send of [file_done] has returned. *)
Definition done_sent (r : nat) : tx (option task) :=
  moved ← move_out r Outgoing.WAITING_FOR_COMPLETE_ACK;
  mret (if moved : bool then Some TAck else None).

(** The acknowledgement has arrived, or [COMPLETE_ACK_TIMEOUT] has passed. *)
Definition ack_arrived (r : nat) (t : OutgoingTransfer) (timed_out : bool) : tx (option task) :=
  let success := negb timed_out && o_ack_success t in
  if negb (bool_decide (o_state t = Outgoing.WAITING_FOR_COMPLETE_ACK)) then mret None
  else
    moved ← move_out r (if success then Outgoing.COMPLETED else Outgoing.FAILED);
    raise_if (negb moved) InvalidTransferTransition ;;
    _notify_complete_out r t success (if success then Some (o_filepath t) else None)
      (if success then None else Some "ack_failed_or_timeout"%string) ;;
    mret None.

(** What wakes the task: its start, the outcome of a send, the end of the wait. *)
Inductive wake : Type := Started | SendReturned (ok : bool) | AckWaitOver (timed_out : bool).

Definition segment (r : nat) (t : OutgoingTransfer) (k : task) (w : wake) : tx (option task) :=
  match k, w with
  | TReady, Started => send_start r t
  | TSending index offset sent len, SendReturned ok => chunk_sent r t index offset sent len ok
  | TDone, SendReturned _ => done_sent r
  | TAck, AckWaitOver timed_out =>
      if timed_out || o_ack_set t then ack_arrived r t timed_out else mret (Some TAck)
  | k, _ => mret (Some k)
  end.

Definition end_task (r : nat) (t : OutgoingTransfer) (s : session) : session :=
  on_tasks (delete r) (on_outgoing (dpop (o_id t)) s).

(** [except OSError] and [finally] around a segment. *)
Definition _send_chunks (r : nat) (w : wake) : tx unit := fun s =>
  match tasks s !! r, out_objs s !! r with
  | Some k, Some t =>
      match segment r t k w s with
      | (s1, Ok (Some k')) => (on_tasks <[r := k']> s1, Ok ())
      | (s1, Ok None) => (end_task r t s1, Ok ())
      | (s1, Err OSError) => (end_task r t (fst (_fail_outgoing r t "os_error" s1)), Ok ())
      | (s1, Err e) => (end_task r t s1, Err e)
      end
  | _, _ => (s, Ok ())
  end.

(** The task is cancelled: the [finally] runs once its body has started. *)
Definition cancel_task (r : nat) : tx unit := fun s =>
  match tasks s !! r, out_objs s !! r with
  | Some TReady, _ => (on_tasks (delete r) s, Ok ())
  | Some _, Some t => (end_task r t s, Ok ())
  | _, _ => (s, Ok ())
  end.

(** ** The receiver *)

Definition reject (addr transfer_id : string) : tx unit :=
  emit (Sent addr (make_file_reject (now E) transfer_id)).

(** Whether a live incoming transfer satisfies a condition. *)
Definition busy (f : IncomingTransfer -> bool) : tx bool :=
  gets (fun s => existsb f (live_incoming s)).

(** What a matching partial gives: the offset to resume at and its name, after the
    checks; a partial that fails them is discarded. *)
Definition resume_partial (i : PartialInfo) : tx (option (PartialInfo * Z)) :=
  offset ← gets (fun s => resume_offset_for i CHUNK_SIZE (files s));
  if 0 <? offset then
    resolved ← gets (fun s => resolve_safe_dest_path (windows E) (dest_name i) true (files s));
    match resolved with
    | Ok c => if bool_decide (c = dest_name i) then mret (Some (i, offset))
              else on_disk (discard (part_path i)) ;; mret None
    | Err _ => on_disk (discard (part_path i)) ;; mret None
    end
  else on_disk (discard (part_path i)) ;; mret None.

Inductive plan : Type := Refuse | Proceed (resumed : option (PartialInfo * Z)).

Definition plan_resume (peer : option string) (filename : string) (size : Z) (checksum : string)
    : tx plan :=
  match first_id [peer] with
  | None => mret (Proceed None)
  | Some p =>
      found ← gets (fun s => find_resumable p filename size checksum (files s));
      match found with
      | Err _ => raise OverflowError
      | Ok None => mret (Proceed None)
      | Ok (Some i) =>
          held ← busy (fun a => bool_decide (i_part a = part_path i));
          if held : bool then mret Refuse
          else resumed ← resume_partial i; mret (Proceed resumed)
      end
  end.

(** The destination and the part file of an offer. *)
Definition plan_paths (filename : string) (resumed : option (PartialInfo * Z))
    : tx (option (string * string)) :=
  match resumed with
  | Some (i, _) => mret (Some (dest_name i, part_path i))
  | None =>
      resolved ← gets (fun s => resolve_safe_dest_path (windows E) filename false (files s));
      mret (match resolved with Ok c => Some (c, get_part_path c) | Err _ => None end)
  end.

Definition sweep : tx unit := fun s =>
  match sweep_expired (now E) (files s) with
  | (d, Ok _) => (on_files (fun _ => d) s, Ok ())
  | (d, Err _) => (on_files (fun _ => d) s, Err OverflowError)
  end.

(** [_handle_offer] up to the question to the user. *)
Definition _handle_offer (addr transfer_id filename : string) (size : Z) (checksum : string)
    (sender_name : json) : tx unit :=
  sweep ;;
  if MAX_INCOMING_FILE_SIZE <? size then reject addr transfer_id
  else
    same ← busy (fun a => bool_decide (i_addr a = addr) && bool_decide (i_filename a = filename));
    if same : bool then reject addr transfer_id
    else
      let peer := peer_of E addr in
      p ← plan_resume peer filename size checksum;
      match p with
      | Refuse => reject addr transfer_id
      | Proceed resumed =>
          paths ← plan_paths filename resumed;
          match paths with
          | None => reject addr transfer_id
          | Some (dest, part) =>
              held ← busy (fun a => bool_decide (i_part a = part) || bool_decide (i_dest a = dest));
              if held : bool then reject addr transfer_id
              else
                let resume_offset := default 0 (snd <$> resumed) in
                if negb (check_disk_space (free_space E) (size - resume_offset))
                then reject addr transfer_id
                else
                  modify (on_offer_offsets (dset transfer_id resume_offset)) ;;
                  emit (FileOffered transfer_id addr filename size checksum sender_name) ;;
                  n ← gets next_ref;
                  modify (on_next_ref S) ;;
                  modify (on_offers_waiting
                    <[n := mk_offer transfer_id addr filename size checksum sender_name peer
                             (fst <$> resumed) resume_offset dest part]>)
          end
      end.

(** [open(part, "wb")], whose [OSError] leaves the handler. *)
Definition create_part (part : string) : tx handle :=
  opened ← gets (fun s => if open_ok E then open_wb part (files s) else None);
  match opened with
  | Some (h, d) => on_disk (fun _ => d) ;; mret h
  | None => raise OSError
  end.

(** The file handle of an accepted offer, and the offset it starts at. *)
Definition open_part (part : string) (resume_offset : Z) : tx (handle * Z) :=
  if 0 <? resume_offset then
    reopened ← gets (fun s => if reopen_ok E then open_rw part (files s) else None);
    match reopened with
    | Some h =>
        if seek_ok E then
          on_disk (truncate (Z.to_nat resume_offset) h) ;;
          mret (seek (Z.to_nat resume_offset) h, resume_offset)
        else on_disk (discard part) ;; h ← create_part part; mret (h, 0)
    | None => on_disk (discard part) ;; h ← create_part part; mret (h, 0)
    end
  else on_disk (discard part) ;; h ← create_part part; mret (h, resume_offset).

(** The transfer of an accepted offer. *)
Definition accept_offer (o : pending_offer) : tx unit :=
  opened ← open_part (po_part o) (po_resume o);
  let '(h, offset) := opened in
  let t := mk_in (po_id o) (po_addr o) (po_filename o) (po_size o) (po_checksum o) (po_sender o)
             (po_dest o) (po_part o) (default ""%string (po_peer o)) offset (offset / CHUNK_SIZE)
             offset offset (offset =? 0) Incoming.OFFERED (Some h) in
  match first_id [po_peer o] with
  | Some peer => record_meta t peer offset
  | None => mret ()
  end ;;
  r ← gets next_ref;
  modify (on_next_ref S) ;;
  modify (on_in_objs <[r := t]>) ;;
  moved ← move_in r Incoming.ACCEPTED;
  raise_if (negb moved) InvalidTransferTransition ;;
  modify (on_incoming (dset (po_id o) r)) ;;
  match make_file_accept (now E) (po_id o) offset with
  | Some m => emit (Sent (po_addr o) m)
  | None => raise ValueError
  end.

(** The rest of [_handle_offer], once the user has decided. *)
Definition offer_decided (n : nat) (accept : bool) : tx unit :=
  waiting ← gets (fun s => offers_waiting s !! n);
  match waiting with
  | None => mret ()
  | Some o =>
      modify (on_offers_waiting (delete n)) ;;
      modify (on_offer_offsets (dpop (po_id o))) ;;
      if accept then accept_offer o
      else
        match po_partial o with
        | Some i => on_disk (discard (part_path i))
        | None => mret ()
        end ;;
        reject (po_addr o) (po_id o)
  end.

(** *** Chunks *)

(** The restart of a resumed transfer whose sender starts from the beginning: whether
    the file could be emptied. *)
Definition restart (r : nat) (t : IncomingTransfer) : tx bool :=
  match i_handle t with
  | None => raise AttributeError
  | Some h =>
      if negb (seek_ok E) then mret false
      else
        on_disk (truncate 0 h) ;;
        update_in r (fun t => i_with_handle (Some (seek 0 h)) (i_with_counts 0 0 0 0 t)) ;;
        match first_id [peer_of E (i_addr t)] with
        | Some peer => record_meta t peer 0
        | None => mret ()
        end ;;
        mret true
  end.

(** Restart detection: [None] when the chunk may be examined further, otherwise the
    reason to abort. *)
Definition check_restart (r : nat) (t : IncomingTransfer) (sequence offset : Z)
    : tx (option string) :=
  update_in r i_with_first ;;
  if (0 <? i_resume t) && negb (i_first t) then
    if (sequence =? i_index t) && (offset =? i_received t) then mret None
    else if (sequence =? 0) && (offset =? 0) then
      ok ← restart r t;
      mret (if ok : bool then None else Some "os_error"%string)
    else mret (Some "out-of-order chunk"%string)
  else mret None.

(** The chunk of a transfer that is receiving. *)
Definition take_chunk (r : nat) (sequence offset : Z) (data : bytes) : tx unit :=
  t ← in_obj r;
  match t with
  | None => mret ()
  | Some t =>
      if negb (sequence =? i_index t) || negb (offset =? i_received t)
      then _abort_incoming r t "out-of-order chunk"
      else if i_size t <? i_received t + zlen data
      then _abort_incoming r t "declared size exceeded"
      else
        match i_handle t with
        | None => raise AttributeError
        | Some h =>
            if negb (write_ok E) then _abort_incoming r t "disk_full"
            else
              d ← gets files;
              let '(h', d') := write data h d in
              on_disk (fun _ => d') ;;
              let received := i_received t + zlen data in
              update_in r (fun t => i_with_handle (Some h')
                (i_with_counts received (i_index t + 1) (i_resume t) (i_committed t) t)) ;;
              (if COMMIT_INTERVAL <=? received - i_committed t then _checkpoint_incoming r
               else mret ()) ;;
              emit (Progress (i_id t) received (i_size t) false)
        end
  end.

Definition _handle_chunk (addr transfer_id : string) (sequence offset : Z) (data : bytes)
    : tx unit :=
  found ← find_in_table transfer_id;
  match found with
  | None => _report_once addr TRANSFER_NOT_FOUND transfer_id
  | Some (r, t) =>
      moved ← move_in r Incoming.RECEIVING;
      if negb moved then _report_once addr INVALID_STATE transfer_id
      else
        failed ← check_restart r t sequence offset;
        match failed with
        | Some reason => _abort_incoming r t reason
        | None => take_chunk r sequence offset data
        end
  end.

(** *** The end of a transfer *)

(** The transitions at the start of [_handle_done]. *)
Definition start_verifying (r : nat) (t : IncomingTransfer) : tx bool :=
  _ ← (if bool_decide (i_state t = Incoming.ACCEPTED) then move_in r Incoming.RECEIVING
       else mret true);
  move_in r Incoming.VERIFYING.

(** [_handle_done] up to the send of the acknowledgement. *)
Definition _handle_done (addr transfer_id : string) : tx unit :=
  found ← find_in_table transfer_id;
  match found with
  | None => _report_once addr TRANSFER_NOT_FOUND transfer_id
  | Some (r, t) =>
      moved ← start_verifying r t;
      if negb moved then _report_once addr INVALID_STATE transfer_id
      else
        pop_incoming t ;;
        close_handle r ;;
        actual ← gets (fun s => sha256_file (i_part t) (files s));
        match actual with
        | None => raise OSError
        | Some sum =>
            let success := bool_decide (sum = i_checksum t) && (i_received t =? i_size t) in
            emit (Sent addr (make_file_complete_ack (i_id t) success
                               (if success then "" else "checksum mismatch"))) ;;
            n ← gets next_ref;
            modify (on_next_ref S) ;;
            modify (on_dones_waiting <[n := mk_done r success]>)
        end
  end.

(** The rest of [_handle_done], once the acknowledgement has been sent. *)
Definition done_acknowledged (n : nat) : tx unit :=
  waiting ← gets (fun s => p ← dones_waiting s !! n; t ← in_objs s !! pd_ref p; Some (p, t));
  match waiting with
  | None => mret ()
  | Some (p, t) =>
      modify (on_dones_waiting (delete n)) ;;
      let r := pd_ref p in
      if negb (pd_success p) then
        moved ← move_in r Incoming.FAILED;
        raise_if (negb moved) InvalidTransferTransition ;;
        on_disk (discard (i_part t)) ;;
        _notify_complete_in r t false None (Some "checksum_mismatch"%string)
      else
        renamed ← gets (fun s => finalize_part_file (i_part t) (i_dest t) (files s));
        match renamed with
        | None => raise OSError
        | Some d =>
            on_disk (fun _ => d) ;;
            on_disk (discard (i_part t)) ;;
            moved ← move_in r Incoming.COMPLETED;
            raise_if (negb moved) InvalidTransferTransition ;;
            _notify_complete_in r t true (Some (i_dest t)) None
        end
  end.

(** *** Errors of the peer *)

(** [str.lower] of an ASCII string. *)
Definition lower_byte (c : byte) : byte :=
  if (65 <=? byte.unsigned c) && (byte.unsigned c <=? 90)
  then byte.of_Z (byte.unsigned c + 32) else c.
Definition lower (s : string) : string := bytes_str (map lower_byte (str_bytes s)).

Definition _handle_error (addr : string) (message : dict) : tx unit :=
  match parse_error_message message with
  | None => mret ()
  | Some info =>
      match jget "transfer_id" (context info) with
      | Some (JStr transfer_id) =>
          out ← find_out transfer_id;
          inc ← find_in_table transfer_id;
          let out := match out with
                     | Some (r, t) => if bool_decide (o_addr t = addr) then Some (r, t) else None
                     | None => None
                     end in
          let inc := match inc with
                     | Some (r, t) => if bool_decide (i_addr t = addr) then Some (r, t) else None
                     | None => None
                     end in
          if negb (terminal (CONTRACTS (code info))) then mret ()
          else
            let error := lower (code_value (code info)) in
            match out, inc with
            | Some (r, t), _ => _ ← _fail_outgoing r t error; mret ()
            | None, Some (r, t) => _ ← _fail_incoming r t error; mret ()
            | None, None => mret ()
            end
      | _ => mret ()
      end
  end.

(** ** Dispatch *)

(** A received message: a JSON object, or a decoded binary [file_data] frame. *)
Inductive message : Type := Json (m : dict) | Data (d : FileData.file_data).

Definition text_field (k : string) (m : dict) : tx string :=
  match jget k m with
  | Some (JStr s) => mret s
  | Some _ => raise NotText
  | None => raise (KeyError k)
  end.

Definition size_field (m : dict) : tx Z :=
  match jget "size" m with
  | Some (JInt z) => mret z
  | Some _ => raise NotText
  | None => raise (KeyError "size")
  end.

Definition sender_name_of (m : dict) : json :=
  match jget "sender_name" m with
  | Some v => if truthy v then v else JStr "peer"
  | None => JStr "peer"
  end.

Definition has_type (t : string) (m : dict) : bool :=
  match jget "type" m with Some (JStr s) => bool_decide (s = t) | _ => false end.

(** [_on_network_message]: the handler of the type, for the types of this session. *)
Definition _on_network_message (addr : string) (msg : message) : tx unit :=
  match msg with
  | Data d => _handle_chunk addr (FileData.transfer_id d) (FileData.sequence d)
                (FileData.offset d) (FileData.data d)
  | Json m =>
      if has_type "file_offer" m then
        tid ← text_field "transfer_id" m;
        filename ← text_field "filename" m;
        size ← size_field m;
        checksum ← text_field "checksum" m;
        _handle_offer addr tid filename size checksum (sender_name_of m)
      else if has_type "file_accept" m then
        tid ← text_field "transfer_id" m;
        _handle_accept addr tid (default (JInt 0) (jget "resume_offset" m))
      else if has_type "file_reject" m then
        tid ← text_field "transfer_id" m; _handle_reject tid
      else if has_type "file_done" m then
        tid ← text_field "transfer_id" m; _handle_done addr tid
      else if has_type "file_complete_ack" m then
        tid ← text_field "transfer_id" m;
        _handle_complete_ack tid (default JNull (jget "success" m))
      else if has_type "error" m then _handle_error addr m
      else mret ()
  end.

(** ** Events

    What the event loop runs next: a user's request, a received message, a lost
    connection, or the continuation of a suspended coroutine. *)
Inductive event : Type :=
| OfferFile (addr filepath filename transfer_id : string)
| OfferSent (ref : nat) (ok : bool)
| Received (addr : string) (msg : message)
| Disconnected (addr : option string) (peer : option string)
| UserDecided (n : nat) (accept : bool)
| DoneAckSent (n : nat)
| TaskWakes (ref : nat) (w : wake)
| TaskCancelled (ref : nat).

Definition handle_event (ev : event) : tx unit :=
  match ev with
  | OfferFile addr filepath filename tid => offer_file addr filepath filename tid
  | OfferSent r ok => offer_sent r ok
  | Received addr msg => _on_network_message addr msg
  | Disconnected addr peer => _on_peer_disconnected addr peer
  | UserDecided n accept => offer_decided n accept
  | DoneAckSent n => done_acknowledged n
  | TaskWakes r w => _send_chunks r w
  | TaskCancelled r => cancel_task r
  end.

(** The constructor, over what the downloads directory already holds. *)
Definition start_session (d : fs) : session * result exn unit :=
  sweep {| outgoing := []; incoming := []; out_objs := ∅; in_objs := ∅; next_ref := 0%nat;
           offer_offsets := []; reported := []; files := d; offers_waiting := ∅;
           dones_waiting := ∅; sends_waiting := ∅; tasks := ∅; log := [] |}.

End Session.

(** An exception that leaves a handler is logged by its caller; the session goes on. *)
Definition step `{JsonText} `{Sha256} `{FileData.UnicodeTables} (s : session) (ee : env * event)
    : session := fst (handle_event (fst ee) (snd ee) s).

Definition run `{JsonText} `{Sha256} `{FileData.UnicodeTables} (s : session)
    (trace : list (env * event)) : session := foldl step s trace.

(** [resume_offset_for] of the session: what the user is shown for an offer. *)
Definition session_resume_offset (transfer_id : string) (s : session) : Z :=
  match (r ← dget transfer_id (incoming s); in_objs s !! r) with
  | Some t => i_resume t
  | None => default 0 (dget transfer_id (offer_offsets s))
  end.
