(* ===== verification/TransferTheory.v ===== *)
(** * The file transfer session: invariants

    Theorems about [Transfer]: the well-formedness of a session, kept by every event in
    every environment; that an incoming transfer is reported at most once; that a
    reported success was preceded by a matching hash; and the interleavings in which the
    session does not do what its comments say. *)

From Corelib Require Import SpecFloat.
From S2P Require Import Prelude Text Json Crypto Wire Messages Lifecycle Files Partial Transfer.
Import Factories Errors FS.
Local Open Scope peerc_scope.
Local Open Scope Z_scope.

(** ** Python dictionaries *)

Lemma dget_elem {A} k (v : A) d : dget k d = Some v -> (k, v) ∈ d.
Proof.
  induction d as [|[k' v'] d IH]; [done|]. simpl. case_decide as Hk; [|right; auto].
  intros [= ->]. subst. left.
Qed.

Lemma elem_dpop {A} k k' (v : A) d : (k', v) ∈ dpop k d <-> (k', v) ∈ d /\ k' <> k.
Proof.
  unfold dpop. rewrite !list_elem_of_In, filter_In, negb_true_iff, bool_decide_eq_false. done.
Qed.

Lemma elem_dset {A} k k' (v v' : A) d :
  (k', v') ∈ dset k v d -> (k', v') = (k, v) \/ (k', v') ∈ d.
Proof.
  induction d as [|[k1 v1] d IH]; simpl.
  { rewrite list_elem_of_singleton. auto. }
  case_decide as Hk; rewrite !elem_of_cons; [subst|]; naive_solver.
Qed.

Lemma dpop_keys {A} k (d : pydict A) : NoDup d.*1 -> NoDup (dpop k d).*1.
Proof.
  induction d as [|[k' v] d IH]; [done|]. simpl. intros [Hk Hd]%NoDup_cons.
  case_bool_decide; simpl; [auto|]. apply NoDup_cons. split; [|auto].
  intros ([? v'] & ? & Hv)%list_elem_of_fmap. simpl in *; subst.
  apply Hk. apply elem_dpop in Hv as [Hv _]. by apply (list_elem_of_fmap_2 fst) in Hv.
Qed.

Lemma dset_keys {A} k (v : A) (d : pydict A) : NoDup d.*1 -> NoDup (dset k v d).*1.
Proof.
  induction d as [|[k' v'] d IH]; simpl; [intros; apply NoDup_singleton|].
  intros [Hk Hd]%NoDup_cons. case_decide as Hkk; simpl; apply NoDup_cons; split; auto.
  intros ([k1 v1] & ? & [Heq|Hv]%elem_dset)%list_elem_of_fmap; simplify_eq/=.
  apply Hk. by apply (list_elem_of_fmap_2 fst) in Hv.
Qed.

(** ** What most operations leave alone *)

(** The notifications about incoming transfers. *)
Definition incoming_note (o : output) : bool :=
  match o with Completed false _ _ _ _ _ => true | _ => false end.

Definition in_notes (l : list output) : list output := List.filter incoming_note l.

Lemma in_notes_app l l' : in_notes (l ++ l') = in_notes l ++ in_notes l'.
Proof. apply List.filter_app. Qed.

(** The receiving side of the session is as before. *)
Record calm (s s' : session) : Prop := {
  calm_incoming : incoming s' = incoming s;
  calm_objs : in_objs s' = in_objs s;
  calm_dones : dones_waiting s' = dones_waiting s;
  calm_offers : offers_waiting s' = offers_waiting s;
  calm_next : (next_ref s <= next_ref s')%nat;
  calm_notes : in_notes (log s') = in_notes (log s)
}.

#[global] Instance calm_preorder : PreOrder calm.
Proof.
  split; [by intros s|]. intros s1 s2 s3 [] []. split; try congruence. lia.
Qed.

Ltac calm_update := intros ?; split; simpl; rewrite ?in_notes_app, ?app_nil_r; done || lia.

Lemma calm_emit o : incoming_note o = false -> within calm (emit o).
Proof.
  intros Ho. apply within_modify. intros s. split; simpl; try done.
  rewrite in_notes_app. unfold in_notes at 2. simpl. rewrite Ho. apply app_nil_r.
Qed.

Lemma calm_on_disk f : within calm (on_disk f).
Proof. apply within_modify. calm_update. Qed.

Lemma calm_update_out r f : within calm (update_out r f).
Proof. apply within_modify. calm_update. Qed.

Lemma calm_move_out r st : within calm (move_out r st).
Proof. unfold move_out, out_obj. within_steps. apply calm_update_out. Qed.

Lemma calm_report_once a c t : within calm (_report_once a c t).
Proof. unfold _report_once. within_steps; [calm_update|by apply calm_emit]. Qed.

Lemma calm_fail_outgoing r t e : within calm (_fail_outgoing r t e).
Proof.
  unfold _fail_outgoing, _notify_complete_out.
  within_steps; try calm_update; auto using calm_move_out, calm_update_out, calm_emit.
Qed.

Create HintDb calm discriminated.
#[export] Hint Resolve calm_emit calm_on_disk calm_update_out calm_move_out calm_report_once
  calm_fail_outgoing : calm.
#[export] Hint Extern 1 (incoming_note _ = false) => reflexivity : calm.

Ltac calm_steps := within_steps; try calm_update; auto with calm.

Section Calm.
Context `{JsonText} `{Sha256} `{FileData.UnicodeTables} (E : env).

Lemma calm_record_meta t p c : within calm (record_meta E t p c).
Proof. apply calm_on_disk. Qed.

Lemma calm_offer_file a p f i : within calm (offer_file E a p f i).
Proof. unfold offer_file. calm_steps. Qed.

Lemma calm_offer_sent r ok : within calm (offer_sent r ok).
Proof. unfold offer_sent, out_obj. calm_steps. Qed.

Lemma calm_handle_accept a i o : within calm (_handle_accept a i o).
Proof. unfold _handle_accept, find_out. calm_steps. Qed.

Lemma calm_handle_reject i : within calm (_handle_reject i).
Proof. unfold _handle_reject, find_out, _notify_complete_out. calm_steps. Qed.

Lemma calm_handle_complete_ack i o : within calm (_handle_complete_ack i o).
Proof. unfold _handle_complete_ack, find_out. calm_steps. Qed.

Lemma calm_is_sending r : within calm (is_sending r).
Proof. unfold is_sending, out_obj. calm_steps. Qed.

Lemma calm_next_chunk r t i o n : within calm (next_chunk E r t i o n).
Proof. unfold next_chunk, send_done. calm_steps; apply calm_is_sending. Qed.

Lemma calm_segment r t k w : within calm (segment E r t k w).
Proof.
  unfold segment, send_start, chunk_sent, done_sent, ack_arrived, _notify_complete_out.
  calm_steps; apply calm_next_chunk.
Qed.

Lemma calm_end_task r t s : calm s (end_task r t s).
Proof. split; simpl; done || lia. Qed.

Lemma calm_send_chunks r w : within calm (_send_chunks E r w).
Proof.
  intros s. unfold _send_chunks. destruct (tasks s !! r) as [k|]; [|reflexivity].
  destruct (out_objs s !! r) as [t|]; [|reflexivity].
  pose proof (calm_segment r t k w s) as Hs.
  destruct (segment E r t k w s) as [s1 [[k'|]|e]]; simpl in *.
  - etransitivity; [exact Hs|]. split; simpl; done || lia.
  - etransitivity; [exact Hs|]. apply calm_end_task.
  - destruct e; simpl; (etransitivity; [exact Hs|]); try apply calm_end_task.
    etransitivity; [apply (calm_fail_outgoing r t "os_error" s1)|apply calm_end_task].
Qed.

Lemma calm_cancel_task r : within calm (cancel_task r).
Proof.
  intros s. unfold cancel_task.
  destruct (tasks s !! r) as [[]|]; simpl; try reflexivity; try (split; simpl; done || lia);
    destruct (out_objs s !! r); simpl; try reflexivity; apply calm_end_task.
Qed.

Lemma calm_reject a i : within calm (reject E a i).
Proof. by apply calm_emit. Qed.

Lemma calm_sweep : within calm (sweep E).
Proof.
  intros s. unfold sweep. destruct (sweep_expired _ _) as [d [l|e]]; split; simpl; done || lia.
Qed.

Lemma calm_plan_resume p f z c : within calm (plan_resume E p f z c).
Proof. unfold plan_resume, busy, resume_partial. calm_steps. Qed.

Lemma calm_open_part p o : within calm (open_part E p o).
Proof. unfold open_part, create_part. calm_steps. Qed.

End Calm.

#[export] Hint Resolve calm_record_meta calm_offer_file calm_offer_sent calm_handle_accept
  calm_handle_reject calm_handle_complete_ack calm_send_chunks calm_cancel_task calm_reject
  calm_sweep calm_plan_resume calm_open_part : calm.

(** ** The invariant *)

(** A transfer of the table: between acceptance and verification, within its declared
    size, its file open where the next chunk goes. *)
Record live (t : IncomingTransfer) : Prop := {
  live_state : i_state t = Incoming.ACCEPTED \/ i_state t = Incoming.RECEIVING;
  live_size : i_size t <= MAX_INCOMING_FILE_SIZE;
  live_received : 0 <= i_received t <= Z.max 0 (i_size t);
  live_committed : 0 <= i_committed t <= i_received t;
  live_resume : 0 <= i_resume t <= i_received t;
  live_handle : exists h, i_handle t = Some h /\ Z.of_nat (h_pos h) = i_received t
}.

Definition note_of (r : nat) (o : output) : bool :=
  match o with Completed false r' _ _ _ _ => bool_decide (r' = r) | _ => false end.

(** How often the outcome of an incoming transfer was reported. *)
Definition notes (r : nat) (s : session) : nat := length (List.filter (note_of r) (in_notes (log s))).

Definition note_budget (r : nat) (s : session) : nat :=
  match in_objs s !! r with
  | Some t => if is_terminal (i_state t) then 1 else 0
  | None => 0
  end.

Record wf (s : session) : Prop := {
  wf_live k r : (k, r) ∈ incoming s ->
    exists t, in_objs s !! r = Some t /\ i_id t = k /\ live t;
  wf_keys : NoDup (incoming s).*1;
  wf_dones n p : dones_waiting s !! n = Some p ->
    (n < next_ref s)%nat /\
    exists t, in_objs s !! pd_ref p = Some t /\ i_state t = Incoming.VERIFYING;
  wf_dones_inj n n' p p' : dones_waiting s !! n = Some p -> dones_waiting s !! n' = Some p' ->
    pd_ref p = pd_ref p' -> n = n';
  wf_fresh r : is_Some (in_objs s !! r) -> (r < next_ref s)%nat;
  wf_offers n o : offers_waiting s !! n = Some o ->
    0 <= po_resume o <= Z.max 0 (po_size o) /\ po_size o <= MAX_INCOMING_FILE_SIZE;
  wf_notes r : (notes r s <= note_budget r s)%nat
}.

Lemma wf_calm s s' : calm s s' -> wf s -> wf s'.
Proof.
  intros [] []. split; unfold notes, note_budget in *;
    repeat match goal with H : _ = _ |- _ => rewrite H end; auto.
  - intros n p Hn. destruct (wf_dones0 n p Hn) as [? ?]. split; [lia|done].
  - intros r Hr. specialize (wf_fresh0 r Hr). lia.
Qed.

Lemma notes_snoc r s s' o :
  in_notes (log s') = in_notes (log s) ++ [o] ->
  notes r s' = (notes r s + (if note_of r o then 1 else 0))%nat.
Proof.
  intros Hl. unfold notes. rewrite Hl, List.filter_app, length_app. simpl.
  by destruct (note_of r o).
Qed.

(** An object of the table is found through the table. *)
Lemma find_in_table_wf s k r t :
  wf s -> (r0 ← dget k (incoming s); t0 ← in_objs s !! r0; Some (r0, t0)) = Some (r, t) ->
  (k, r) ∈ incoming s /\ in_objs s !! r = Some t /\ i_id t = k /\ live t.
Proof.
  intros Hw Hf. destruct (dget k (incoming s)) as [r0|] eqn:Hk; [|done]. simpl in Hf.
  apply dget_elem in Hk. destruct (wf_live s Hw k r0 Hk) as (t0 & Ht & Hid & Hl).
  rewrite Ht in Hf. simpl in Hf. by simplify_eq.
Qed.

Lemma other_entries s k k' r r' :
  wf s -> (k, r) ∈ incoming s -> (k', r') ∈ incoming s -> k' <> k -> r' <> r.
Proof.
  intros Hw Hk Hk' Hne ->. destruct (wf_live s Hw _ _ Hk) as (t & Ht & <- & _).
  destruct (wf_live s Hw _ _ Hk') as (t' & Ht' & <- & _). simplify_eq.
Qed.

(** ** Transfers that are resolved as failed *)

(** The transfer [r], whose object was [u], leaves the table, becomes FAILED and is
    reported. *)
Record failed (r : nat) (u : IncomingTransfer) (s s' : session) : Prop := {
  failed_incoming : incoming s' = dpop (i_id u) (incoming s);
  failed_objs : exists h,
    in_objs s' = <[r := i_with_handle h (i_with_state Incoming.FAILED u)]> (in_objs s);
  failed_dones : dones_waiting s' = dones_waiting s;
  failed_offers : offers_waiting s' = offers_waiting s;
  failed_next : next_ref s' = next_ref s;
  failed_notes : exists err, in_notes (log s')
    = in_notes (log s) ++ [Completed false r (i_id u) false None (Some err)]
}.

Lemma live_not_terminal t : live t -> is_terminal (i_state t) = false.
Proof. by intros [[-> | ->]]. Qed.

Lemma live_not_verifying t : live t -> i_state t <> Incoming.VERIFYING.
Proof. by intros [[-> | ->]]. Qed.

(** The entries that stay, and the ones about other transfers, are as before. *)
Lemma wf_failed r u s s' :
  wf s -> (i_id u, r) ∈ incoming s -> in_objs s !! r = Some u -> failed r u s s' -> wf s'.
Proof.
  intros Hw Hin Hu [Hi [h Ho] Hd Hf Hn [err Hl]].
  destruct (wf_live s Hw _ _ Hin) as (u' & Hu' & _ & Hlive). simplify_eq.
  split; rewrite ?Hi, ?Ho, ?Hd, ?Hf, ?Hn; try apply Hw.
  - intros k r' [Hk Hne]%elem_dpop. pose proof (other_entries s _ _ _ _ Hw Hin Hk Hne).
    rewrite lookup_insert_ne by done. by apply (wf_live s Hw).
  - apply dpop_keys, Hw.
  - intros n p Hp. destruct (wf_dones s Hw n p Hp) as (Hlt & t & Ht & Hv).
    split; [done|]. exists t. split; [|done]. rewrite lookup_insert_ne; [done|].
    intros Heq. rewrite <- Heq, Hu in Ht. simplify_eq. by apply live_not_verifying in Hlive.
  - intros r' Hr. apply (wf_fresh s Hw). destruct (decide (r = r')) as [<-|Hne]; [by rewrite Hu|].
    by rewrite lookup_insert_ne in Hr.
  - intros r'. rewrite (notes_snoc _ _ _ _ Hl). pose proof (wf_notes s Hw r') as Hr.
    unfold note_budget in *. rewrite Ho. simpl. destruct (decide (r = r')) as [<-|Hne].
    + rewrite Hu, live_not_terminal in Hr by done. rewrite lookup_insert_eq.
      rewrite bool_decide_true by done. simpl. lia.
    + rewrite lookup_insert_ne, bool_decide_false by done. lia.
Qed.

(** An object of the table is replaced by a live one. *)
Record touched (r : nat) (u' : IncomingTransfer) (s s' : session) : Prop := {
  touched_incoming : incoming s' = incoming s;
  touched_objs : in_objs s' = <[r := u']> (in_objs s);
  touched_dones : dones_waiting s' = dones_waiting s;
  touched_offers : offers_waiting s' = offers_waiting s;
  touched_next : next_ref s' = next_ref s;
  touched_notes : in_notes (log s') = in_notes (log s)
}.

Lemma wf_touched r u' s s' :
  wf s -> (i_id u', r) ∈ incoming s -> live u' -> touched r u' s s' -> wf s'.
Proof.
  intros Hw Hin Hl' [Hi Ho Hd Hf Hn Hl].
  destruct (wf_live s Hw _ _ Hin) as (u & Hu & Hid & Hlive).
  split; rewrite ?Hi, ?Ho, ?Hd, ?Hf, ?Hn; try apply Hw.
  - intros k r' Hk. destruct (wf_live s Hw _ _ Hk) as (t & Ht & <- & Htl).
    destruct (decide (r = r')) as [<-|Hne]; [|rewrite lookup_insert_ne; eauto].
    exists u'. rewrite lookup_insert_eq. simplify_eq. split_and!; congruence.
  - intros n p Hp. destruct (wf_dones s Hw n p Hp) as (Hlt & t & Ht & Hv).
    split; [done|]. exists t. split; [|done]. rewrite lookup_insert_ne; [done|].
    intros Heq. rewrite <- Heq, Hu in Ht. simplify_eq. by apply live_not_verifying in Hlive.
  - intros r' Hr. apply (wf_fresh s Hw). destruct (decide (r = r')) as [<-|Hne]; [by rewrite Hu|].
    by rewrite lookup_insert_ne in Hr.
  - intros r'. unfold notes. rewrite Hl. pose proof (wf_notes s Hw r') as Hr.
    unfold notes, note_budget in *. rewrite Ho. destruct (decide (r = r')) as [<-|Hne].
    + rewrite Hu, live_not_terminal in Hr by done. rewrite lookup_insert_eq, live_not_terminal; done.
    + by rewrite lookup_insert_ne.
Qed.

Lemma touched_calm r u' s s1 s2 : touched r u' s s1 -> calm s1 s2 -> next_ref s2 = next_ref s1 ->
  touched r u' s s2.
Proof. intros [] [] Hn. split; congruence. Qed.

(** ** Steps of the operations *)

Lemma alter_insert_eq {A} (f : A -> A) r (u : A) (m : gmap nat A) :
  m !! r = Some u -> alter f r m = <[r := f u]> m.
Proof.
  intros Hu. apply map_eq. intros i. destruct (decide (i = r)) as [->|Hne].
  - by rewrite lookup_alter_eq, lookup_insert_eq, Hu.
  - by rewrite lookup_alter_ne, lookup_insert_ne by done.
Qed.

Section Steps.
Context (X : session -> Prop).

Lemma wp_calm {A} (m : tx A) (Q : A -> session -> Prop) s :
  within calm m -> (forall s', calm s s' -> X s') -> (forall a s', calm s s' -> Q a s') ->
  wp m Q X s.
Proof.
  intros Hm HX HQ. specialize (Hm s). unfold wp. destruct (m s) as [s' [a|e]]; auto.
Qed.

Lemma wp_update_in r f u (Q : unit -> session -> Prop) s :
  in_objs s !! r = Some u -> Q () (on_in_objs <[r := f u]> s) -> wp (update_in r f) Q X s.
Proof.
  intros Hu HQ. unfold update_in. apply wp_modify. unfold on_in_objs in *.
  by rewrite (alter_insert_eq f r u) by done.
Qed.

Lemma wp_move_in r st u (Q : bool -> session -> Prop) s :
  in_objs s !! r = Some u ->
  (st ∈ allowed (i_state u) -> Q true (on_in_objs <[r := i_with_state st u]> s)) ->
  (st ∉ allowed (i_state u) -> Q false s) ->
  wp (move_in r st) Q X s.
Proof.
  intros Hu Ht Hf. unfold move_in, in_obj. wp_steps. rewrite Hu. simpl.
  unfold transition_to. case_decide as Hd; [|wp_steps; auto].
  wp_steps. apply (wp_update_in r _ u); [done|]. wp_steps. auto.
Qed.

Lemma wp_move_in_live r u (Q : bool -> session -> Prop) s :
  in_objs s !! r = Some u -> i_state u = Incoming.ACCEPTED \/ i_state u = Incoming.RECEIVING ->
  Q true (on_in_objs <[r := i_with_state Incoming.FAILED u]> s) ->
  wp (move_in r Incoming.FAILED) Q X s.
Proof.
  intros Hu Hl HQ. apply (wp_move_in r _ u); [done|auto|].
  intros Hn. exfalso. apply Hn. destruct Hl as [-> | ->]; simpl; set_solver.
Qed.

End Steps.

Section Failing.
Context `{JsonText} `{Sha256} `{FileData.UnicodeTables} (E : env).
Let never : session -> Prop := fun _ => False.

Lemma handle_none_id u : i_handle u = None -> i_with_handle None u = u.
Proof. destruct u; simpl. by intros ->. Qed.

Definition close_file (lost : nat) (h : option handle) (d : fs) : fs :=
  match h with Some h => close lost h d | None => d end.

Lemma wp_close_handle r u s :
  in_objs s !! r = Some u ->
  wp (close_handle E r) (fun _ s' => touched r (i_with_handle None u) s s' /\
    files s' = close_file (close_lost E (i_part u)) (i_handle u) (files s) /\
    log s' = log s) never s.
Proof.
  intros Hu. unfold close_handle, in_obj. wp_steps. rewrite Hu. simpl.
  destruct (i_handle u) as [h|] eqn:Hh.
  - unfold on_disk. wp_steps. apply (wp_update_in _ r _ u); [done|].
    by split; [split|].
  - wp_steps. rewrite (handle_none_id u Hh). split; [|done]. split; try done. by rewrite insert_id.
Qed.

Lemma wp_record_meta t p c s (Q : unit -> session -> Prop) :
  (forall d, Q () (on_files (fun _ => d) s)) -> wp (record_meta E t p c) Q never s.
Proof. intros HQ. apply HQ. Qed.

Lemma wp_keep_partial r t u p s :
  in_objs s !! r = Some u ->
  wp (keep_partial E r t p) (fun _ s' => touched r (i_with_handle None u) s s') never s.
Proof.
  intros Hu. unfold keep_partial. wp_steps. eapply wp_mono; [by apply wp_close_handle|].
  intros [] s1 [Ht _]. cbv beta. wp_steps.
  destruct (first_id _) as [peer|]; [|by wp_steps].
  destruct (_ && _); [|by wp_steps]. apply wp_record_meta. intros d.
  destruct Ht. by split.
Qed.

(** Which object a failing operation is about: one of the table, and what the caller
    holds agrees with it. *)
Definition entry_of (r : nat) (t u : IncomingTransfer) (s : session) : Prop :=
  in_objs s !! r = Some u /\ i_id u = i_id t /\ live u.

Ltac fail_notes :=
  eexists; rewrite ?in_notes_app; simpl; rewrite ?app_nil_r;
  match goal with H : in_notes _ = _ |- _ => rewrite H end; reflexivity.

Lemma wp_fail_incoming r t u err s :
  entry_of r t u s -> wp (_fail_incoming E r t err) (fun _ s' => failed r u s s') never s.
Proof.
  intros (Hu & Hid & Hl). unfold _fail_incoming. wp_steps.
  apply (wp_move_in_live _ r u); [done|apply Hl|]. simpl. unfold pop_incoming. wp_steps.
  eapply wp_mono; [apply wp_keep_partial; simpl; apply lookup_insert_eq|].
  intros [] s1 []. cbv beta. unfold _notify_complete_in, emit. wp_steps. simpl in *.
  split; simpl; try congruence.
  - exists None. by rewrite touched_objs0, insert_insert_eq.
  - rewrite <- Hid. fail_notes.
Qed.

Lemma wp_lose_incoming r t u p s :
  entry_of r t u s -> wp (lose_incoming E p (r, t)) (fun _ s' => failed r u s s') never s.
Proof.
  intros (Hu & Hid & Hl). unfold lose_incoming, pop_incoming. wp_steps. simpl. eapply wp_mono; [apply wp_keep_partial; exact Hu|].
  intros [] s1 []. cbv beta. wp_steps. simpl in *.
  apply (wp_move_in_live _ r (i_with_handle None u)).
  { rewrite touched_objs0. apply lookup_insert_eq. }
  { apply Hl. }
  unfold _notify_complete_in, emit. wp_steps. simpl. split; simpl; try congruence.
  - exists None. by rewrite touched_objs0, insert_insert_eq.
  - rewrite <- Hid. fail_notes.
Qed.

Lemma wp_abort_incoming r t u err s :
  entry_of r t u s -> wp (_abort_incoming E r t err) (fun _ s' => failed r u s s') never s.
Proof.
  intros (Hu & Hid & Hl). unfold _abort_incoming, pop_incoming. wp_steps. simpl. eapply wp_mono; [apply wp_close_handle; exact Hu|].
  intros [] s1 [[] _]. cbv beta. wp_steps.
  assert (forall (Q : unit -> session -> Prop),
    (forall d, Q () (on_files d s1)) ->
    wp (if bool_decide (i_part t = ""%string) then mret () else on_disk (discard (i_part t)))
      Q never s1) as Hdiscard.
  { intros Q HQ. destruct (bool_decide _); [|apply wp_modify, HQ].
    apply wp_ret. specialize (HQ id). by destruct s1. }
  apply Hdiscard. intros d. unfold on_disk. wp_steps. simpl in *.
  apply (wp_move_in_live _ r (i_with_handle None u)).
  { simpl. rewrite touched_objs0. apply lookup_insert_eq. }
  { apply Hl. }
  unfold _notify_complete_in, emit. wp_steps. simpl. split; simpl; try congruence.
  - exists None. by rewrite touched_objs0, insert_insert_eq.
  - rewrite <- Hid. fail_notes.
Qed.

End Failing.

(** ** Every handler keeps the invariant *)

Definition tabled (k : string) (r : nat) (s : session) : Prop := wf s /\ (k, r) ∈ incoming s.

Lemma tabled_calm k r s s' : calm s s' -> tabled k r s -> tabled k r s'.
Proof. intros Hc [Hw Hk]. split; [by eapply wf_calm|]. by rewrite (calm_incoming _ _ Hc). Qed.

Lemma tabled_entry k r s : tabled k r s -> exists u, in_objs s !! r = Some u /\ i_id u = k /\ live u.
Proof. intros [Hw Hk]. by apply (wf_live s Hw). Qed.

Lemma tabled_touched k r u s s' :
  tabled k r s -> i_id u = k -> live u -> touched r u s s' -> tabled k r s'.
Proof.
  intros [Hw Hk] <- Hl Ht. split; [by eapply wf_touched|]. by rewrite (touched_incoming _ _ _ _ Ht).
Qed.

(** An operation that keeps the receiving side keeps the invariant. *)
Lemma calm_wf {A} (m : tx A) s : within calm m -> wf s -> wf (fst (m s)).
Proof. intros Hm. apply wf_calm, Hm. Qed.

Lemma wp_calm_tabled {A} (m : tx A) k r s :
  within calm m -> tabled k r s -> wp m (fun _ => tabled k r) wf s.
Proof.
  intros Hm Ht. apply wp_calm; [done| |]; intros; eapply tabled_calm in Ht; eauto. apply Ht.
Qed.

(** An operation that fails a transfer of the table. *)
Lemma wf_fails {A} (m : tx A) k r s :
  tabled k r s ->
  (forall u, in_objs s !! r = Some u -> i_id u = k -> live u ->
     wp m (fun _ s' => failed r u s s') (fun _ => False) s) ->
  wp m (fun _ => wf) wf s.
Proof.
  intros Ht Hm. destruct (tabled_entry _ _ _ Ht) as (u & Hu & Hid & Hl).
  specialize (Hm u Hu Hid Hl). unfold wp in *. destruct (m s) as [s' [a|e]]; [|done].
  destruct Ht as [Hw Hk]. rewrite <- Hid in Hk. by eapply wf_failed.
Qed.

Section Handlers.
Context `{JsonText} `{Sha256} `{FileData.UnicodeTables} (E : env).

Lemma wf_abort k r t e s :
  tabled k r s -> i_id t = k -> wp (_abort_incoming E r t e) (fun _ => wf) wf s.
Proof.
  intros Ht Hid. apply (wf_fails _ k r); [done|]. intros u Hu Hku Hl.
  apply wp_abort_incoming. split_and!; congruence || done.
Qed.

(** *** Lost connections *)

Lemma wf_lose_all p l s :
  wf s -> NoDup (map (fun rt => i_id (snd rt)) l) ->
  Forall (fun rt => (i_id (snd rt), fst rt) ∈ incoming s /\ in_objs s !! fst rt = Some (snd rt)) l ->
  wf (fst (for_each (lose_incoming E p) l s)).
Proof.
  revert s. induction l as [|[r t] l IH]; intros s Hw Hnd Hl; [done|].
  apply Forall_cons in Hl as [[Hk Hu] Hl]. simpl in Hnd. apply NoDup_cons in Hnd as [Hni Hnd].
  simpl in Hk, Hu. destruct (wf_live s Hw _ _ Hk) as (u & Hu' & _ & Hlive). simplify_eq.
  cbn [for_each]. apply wp_state, wp_bind.
  eapply wp_mono; [|intros [] s' Hf; apply wp_state, IH].
  - assert (entry_of r t t s) as He by done. apply (wp_lose_incoming E r t t p) in He.
    unfold wp in *. destruct (lose_incoming E p (r, t) s) as [s' [a|e]]; [exact He|done].
  - by eapply wf_failed.
  - done.
  - apply Forall_forall. intros [r' t'] Hin. rewrite Forall_forall in Hl.
    destruct (Hl _ Hin) as [Hk' Hu'']. simpl in *. destruct Hf as [Hi [h Ho] _ _ _ _].
    assert (i_id t' <> i_id t) as Hne.
    { intros Heq. apply Hni. rewrite <- Heq. by apply (list_elem_of_fmap_2 (fun rt => i_id (snd rt)) _ (r', t')). }
    pose proof (other_entries s _ _ _ _ Hw Hk Hk' Hne).
    rewrite Hi, Ho, elem_dpop, lookup_insert_ne by done. done.
Qed.

Lemma incoming_from_entries a s rt :
  wf s -> rt ∈ incoming_from a s ->
  (i_id (snd rt), fst rt) ∈ incoming s /\ in_objs s !! fst rt = Some (snd rt).
Proof.
  intros Hw ([k r] & Hk & Hrt)%list_elem_of_omap. simpl in Hrt.
  destruct (wf_live s Hw _ _ Hk) as (t & Ht & <- & _). rewrite Ht in Hrt. simpl in Hrt.
  destruct (bool_decide _); simplify_eq/=. done.
Qed.

Lemma incoming_from_ids a s : wf s -> NoDup (map (fun rt => i_id (snd rt)) (incoming_from a s)).
Proof.
  intros Hw. pose proof (wf_keys s Hw) as Hk. pose proof (wf_live s Hw) as Hl.
  unfold incoming_from. induction (incoming s) as [|[k r] l IH]; [constructor|].
  simpl in *. apply NoDup_cons in Hk as [Hni Hk].
  destruct (Hl k r) as (t & Ht & Hid & _); [left|]. rewrite Ht. simpl.
  assert (forall k0 r0, (k0, r0) ∈ l -> exists t0, in_objs s !! r0 = Some t0 /\ i_id t0 = k0 /\ live t0)
    as Hl' by (intros; apply Hl; by right).
  destruct (bool_decide _); simpl; [|by apply IH]. apply NoDup_cons. split; [|by apply IH].
  intros ([r' t'] & Heq & ([k1 r1] & Hin & Hr1)%list_elem_of_omap)%list_elem_of_fmap.
  simpl in *. destruct (Hl' _ _ Hin) as (t1 & Ht1 & Hid1 & _). rewrite Ht1 in Hr1. simpl in Hr1.
  destruct (bool_decide _); simplify_eq/=. apply Hni. rewrite Heq.
  by apply (list_elem_of_fmap_2 fst) in Hin.
Qed.

Lemma calm_for_each {A} (f : A -> tx unit) l :
  (forall x, within calm (f x)) -> within calm (for_each f l).
Proof. intros Hf. induction l as [|x l IH]; simpl; calm_steps. Qed.

Lemma wf_connection_lost a p s : wf s -> wf (fst (handle_connection_lost E a p s)).
Proof.
  intros Hw. unfold handle_connection_lost. apply wp_state. wp_steps.
  eapply wp_mono; [apply wp_state, wf_lose_all; [done|by apply incoming_from_ids|]|].
  { apply Forall_forall. intros rt. by apply incoming_from_entries. }
  intros [] s' Hw'. wp_steps. apply wp_state. apply calm_wf; [|done].
  apply calm_for_each. intros [r t]. calm_steps.
Qed.

(** *** Errors *)

Lemma wf_handle_error a m s : wf s -> wf (fst (_handle_error E a m s)).
Proof.
  intros Hw. apply wp_state. unfold _handle_error.
  destruct (parse_error_message m) as [info|]; [|by wp_steps].
  destruct (jget _ _) as [[]|]; try by wp_steps. unfold find_out, find_in_table. wp_steps.
  destruct (negb _); [by wp_steps|].
  match goal with |- wp (match ?o with _ => _ end) _ _ _ => destruct o as [[r t]|] end.
  { wp_steps. apply wp_calm; [auto with calm| |]; intros; try wp_steps; by eapply wf_calm. }
  destruct (r ← dget _ (incoming s); _) as [[r t]|] eqn:Hf; [|by wp_steps].
  apply find_in_table_wf in Hf as (Hk & Hu & Hid & Hl); [|done].
  destruct (bool_decide _); wp_steps; [|done].
  eapply wp_mono; [|intros b s' Hw'; wp_steps; exact Hw'].
  apply (wf_fails _ s0 r); [by split|]. intros u Hu' _ Hl'. simplify_eq. by apply wp_fail_incoming.
Qed.

End Handlers.

Section Chunks.
Context `{JsonText} `{Sha256} `{FileData.UnicodeTables} (E : env).

(** An update that keeps a transfer of the table live. *)
Lemma wp_touch k r f s :
  tabled k r s ->
  (forall u, in_objs s !! r = Some u -> i_id u = k -> live u -> i_id (f u) = k /\ live (f u)) ->
  wp (update_in r f) (fun _ => tabled k r) wf s.
Proof.
  intros Ht Hf. destruct (tabled_entry _ _ _ Ht) as (u & Hu & Hid & Hl).
  destruct (Hf u Hu Hid Hl) as [Hid' Hl'].
  apply (wp_update_in _ r f u); [done|]. by eapply tabled_touched; [done..|split].
Qed.

Lemma live_receiving u : live u -> live (i_with_state Incoming.RECEIVING u).
Proof. intros []. split; simpl; auto. Qed.

Lemma live_first u : live u -> live (i_with_first u).
Proof. intros []. by split. Qed.

Lemma live_restarted u h :
  live u -> live (i_with_handle (Some (seek 0 h)) (i_with_counts 0 0 0 0 u)).
Proof. intros []. split; simpl; try lia; [done|]. by exists (seek 0 h). Qed.

Lemma aligned_bounds n : 0 <= n -> 0 <= aligned n <= n.
Proof.
  intros Hn. unfold aligned. assert (0 < CHUNK_SIZE) by (unfold CHUNK_SIZE, DEFAULT_CHUNK_SIZE; lia).
  pose proof (Z.mod_pos_bound n CHUNK_SIZE). pose proof (Z.mod_le n CHUNK_SIZE). lia.
Qed.

Lemma wp_restart k r t s :
  tabled k r s -> wp (restart E r t) (fun _ => tabled k r) wf s.
Proof.
  intros Ht. unfold restart. destruct (i_handle t) as [h|]; [|wp_steps; apply Ht].
  destruct (negb _); [by wp_steps|]. wp_steps.
  eapply wp_mono; [apply wp_calm_tabled; [apply calm_on_disk|exact Ht]|].
  intros [] s1 Ht1. wp_steps.
  eapply wp_mono; [apply wp_touch; [exact Ht1|]|].
  { intros u _ Hid Hl. split; [done|]. by apply live_restarted. }
  intros [] s2 Ht2. wp_steps. destruct (first_id _) as [p|]; wp_steps; [|done].
  eapply wp_mono; [apply wp_calm_tabled; [apply calm_record_meta|exact Ht2]|].
  intros [] s3 Ht3. by wp_steps.
Qed.

Lemma wp_check_restart k r t q o s :
  tabled k r s -> wp (check_restart E r t q o) (fun _ => tabled k r) wf s.
Proof.
  intros Ht. unfold check_restart. wp_steps.
  eapply wp_mono; [apply wp_touch; [exact Ht|]|].
  { intros u _ Hid Hl. split; [done|]. by apply live_first. }
  intros [] s1 Ht1. destruct (_ && _); [|by wp_steps].
  destruct (_ && _); [by wp_steps|]. destruct (_ && _); [|by wp_steps]. wp_steps.
  eapply wp_mono; [by apply (wp_restart k)|]. intros b s2 Ht2. by wp_steps.
Qed.

Lemma wp_checkpoint k r s :
  tabled k r s -> wp (_checkpoint_incoming E r) (fun _ => tabled k r) wf s.
Proof.
  intros Ht. unfold _checkpoint_incoming, in_obj. wp_steps.
  destruct (in_objs s !! r) as [u|] eqn:Hu; [|by wp_steps].
  destruct (i_handle u); [|by wp_steps]. destruct (first_id _) as [p|]; [|by wp_steps].
  destruct (_ || _); [by wp_steps|]. wp_steps.
  eapply wp_mono; [apply wp_touch; [exact Ht|]|].
  { intros u' Hu' Hid Hl. simplify_eq. split; [done|].
    destruct Hl. split; simpl; try done. apply aligned_bounds. lia. }
  intros [] s1 Ht1. apply wp_calm_tabled; [apply calm_record_meta|done].
Qed.

Lemma wp_take_chunk k r q o data s :
  tabled k r s -> wp (take_chunk E r q o data) (fun _ => wf) wf s.
Proof.
  intros Ht. destruct (tabled_entry _ _ _ Ht) as (u & Hu & Hid & Hl).
  unfold take_chunk, in_obj. wp_steps. rewrite Hu.
  destruct (_ || _); [by eapply wf_abort|].
  destruct (i_size u <? _) eqn:Hsz; [by eapply wf_abort|].
  destruct (i_handle u) as [h|] eqn:Hh; [|wp_steps; apply Ht].
  destruct (negb _); [by eapply wf_abort|]. unfold on_disk. wp_steps. simpl. wp_steps.
  set (s1 := on_files _ s). assert (tabled k r s1) as Ht1 by (eapply tabled_calm; [|done]; by split).
  eapply wp_mono; [apply (wp_touch k r); [exact Ht1|]|].
  { intros u' Hu' _ _. change (in_objs s !! r = Some u') in Hu'. simplify_eq. split; [done|].
    destruct Hl as [? ? ? ? ? (h' & Hh' & Hpos)]. simplify_eq. apply Z.ltb_ge in Hsz.
    pose proof (zlen_nonneg data). split; simpl; try (done || lia).
    eexists. split; [done|]. simpl. unfold zlen in *. lia. }
  intros [] s2 Ht2. wp_steps.
  eapply (wp_mono _ _ (fun _ => tabled k r)); [|intros [] s3 Ht3; apply wp_calm; [by apply calm_emit|..]].
  - destruct (_ <=? _); [by apply wp_checkpoint|by wp_steps].
  - intros s4 Hc. eapply wf_calm; [done|apply Ht3].
  - intros [] s4 Hc. eapply wf_calm; [done|apply Ht3].
Qed.

Lemma wf_handle_chunk a i q o data s : wf s -> wf (fst (_handle_chunk E a i q o data s)).
Proof.
  intros Hw. apply wp_state. unfold _handle_chunk, find_in_table. wp_steps.
  destruct (r ← dget _ (incoming s); _) as [[r t]|] eqn:Hf.
  2: { apply wp_calm; [apply calm_report_once| |]; intros; by eapply wf_calm. }
  apply find_in_table_wf in Hf as (Hk & Hu & Hid & Hl); [|done].
  assert (tabled i r s) as Ht by done. wp_steps.
  apply (wp_move_in _ r _ t); [done| |].
  2: { intros _. simpl. apply wp_calm; [apply calm_report_once| |]; intros; by eapply wf_calm. }
  intros _. simpl. wp_steps.
  assert (tabled i r (on_in_objs <[r:=i_with_state Incoming.RECEIVING t]> s)) as Ht1.
  { eapply tabled_touched; [done| |by apply live_receiving|by split]. done. }
  eapply wp_mono; [by apply (wp_check_restart i)|]. intros [reason|] s2 Ht2.
  - by eapply wf_abort.
  - by eapply wp_take_chunk.
Qed.

End Chunks.

(** *** Verification *)

(** The transfer [r] leaves the table and its object becomes [u]. *)
Record left_table (r : nat) (u : IncomingTransfer) (s s' : session) : Prop := {
  left_incoming : incoming s' = dpop (i_id u) (incoming s);
  left_objs : in_objs s' = <[r := u]> (in_objs s);
  left_dones : dones_waiting s' = dones_waiting s;
  left_offers : offers_waiting s' = offers_waiting s;
  left_next : next_ref s' = next_ref s;
  left_notes : in_notes (log s') = in_notes (log s)
}.

Lemma wf_left_table k r u s s' :
  tabled k r s -> i_id u = k -> i_state u = Incoming.VERIFYING -> left_table r u s s' ->
  wf s' /\ forall n p, dones_waiting s' !! n = Some p -> pd_ref p <> r.
Proof.
  intros [Hw Hk] <- Hv [Hi Ho Hd Hf Hn Hl].
  destruct (wf_live s Hw _ _ Hk) as (t & Ht & Hid & Hlive).
  assert (forall n p, dones_waiting s !! n = Some p -> pd_ref p <> r) as Hne.
  { intros n p Hp Heq. destruct (wf_dones s Hw n p Hp) as (_ & t' & Ht' & Hv').
    rewrite Heq in Ht'. simplify_eq. by apply live_not_verifying in Hlive. }
  split; [|by rewrite Hd]. split; rewrite ?Hi, ?Ho, ?Hd, ?Hf, ?Hn; try apply Hw.
  - intros k' r' [Hk' Hnk]%elem_dpop. pose proof (other_entries s _ _ _ _ Hw Hk Hk' Hnk).
    rewrite lookup_insert_ne by done. by apply (wf_live s Hw).
  - apply dpop_keys, Hw.
  - intros n p Hp. destruct (wf_dones s Hw n p Hp) as (Hlt & Hex). split; [done|].
    specialize (Hne n p Hp). by rewrite lookup_insert_ne.
  - intros r' Hr. apply (wf_fresh s Hw). destruct (decide (r = r')) as [<-|]; [by rewrite Ht|].
    by rewrite lookup_insert_ne in Hr.
  - intros r'. pose proof (wf_notes s Hw r') as Hr. unfold notes, note_budget in *.
    rewrite Hl, Ho. destruct (decide (r = r')) as [<-|]; [|by rewrite lookup_insert_ne].
    rewrite Ht, live_not_terminal in Hr by done. rewrite lookup_insert_eq, Hv. simpl. lia.
Qed.

Lemma wf_pending r b u s :
  wf s -> in_objs s !! r = Some u -> i_state u = Incoming.VERIFYING ->
  (forall n p, dones_waiting s !! n = Some p -> pd_ref p <> r) ->
  wf (on_dones_waiting <[next_ref s := mk_done r b]> (on_next_ref S s)).
Proof.
  intros Hw Hu Hv Hne. split; simpl; try apply Hw.
  - intros n p [[<- <-]|[Hn Hp]]%lookup_insert_Some; [split; [lia|eauto]|].
    destruct (wf_dones s Hw n p Hp). split; [lia|done].
  - intros n n' p p' [[<- <-]|[Hn Hp]]%lookup_insert_Some [[<- <-]|[Hn' Hp']]%lookup_insert_Some Heq;
      simpl in *; try done.
    + exfalso. by eapply Hne.
    + exfalso. by eapply Hne.
    + by eapply (wf_dones_inj s Hw).
  - intros r' Hr. specialize (wf_fresh s Hw r' Hr). lia.
Qed.

(** A verified transfer reaches its last state and is reported. *)
Lemma wf_resolved n p u st o s s' :
  wf s -> dones_waiting s !! n = Some p -> in_objs s !! pd_ref p = Some u ->
  is_terminal st = true -> incoming_note o = true ->
  note_of (pd_ref p) o = true ->
  incoming s' = incoming s -> in_objs s' = <[pd_ref p := i_with_state st u]> (in_objs s) ->
  dones_waiting s' = delete n (dones_waiting s) -> offers_waiting s' = offers_waiting s ->
  next_ref s' = next_ref s -> in_notes (log s') = in_notes (log s) ++ [o] -> wf s'.
Proof.
  intros Hw Hp Hu Hst Hio Hno Hi Ho Hd Hf Hn Hl.
  destruct (wf_dones s Hw n p Hp) as (Hlt & u' & Hu' & Hv). simplify_eq.
  split; rewrite ?Hi, ?Ho, ?Hd, ?Hf, ?Hn; try apply Hw.
  - intros k r Hk. destruct (wf_live s Hw k r Hk) as (t & Ht & Hid & Hlive).
    exists t. split; [|done]. rewrite lookup_insert_ne; [done|]. intros <-. simplify_eq.
    by apply live_not_verifying in Hlive.
  - intros n' p' [Hn' Hp']%lookup_delete_Some.
    destruct (wf_dones s Hw n' p' Hp') as (Hlt' & t & Ht & Hv').
    split; [done|]. exists t. split; [|done]. rewrite lookup_insert_ne; [done|].
    intros Heq. apply Hn'. by eapply (wf_dones_inj s Hw).
  - intros n1 n2 p1 p2 [_ H1]%lookup_delete_Some [_ H2]%lookup_delete_Some.
    by apply (wf_dones_inj s Hw).
  - intros r' Hr. apply (wf_fresh s Hw). destruct (decide (pd_ref p = r')) as [<-|]; [by rewrite Hu|].
    by rewrite lookup_insert_ne in Hr.
  - intros r'. rewrite (notes_snoc _ _ _ _ Hl). pose proof (wf_notes s Hw r') as Hr.
    unfold note_budget in *. rewrite Ho. destruct (decide (pd_ref p = r')) as [<-|Hne].
    + rewrite lookup_insert_eq, Hno. rewrite Hu, Hv in Hr. simpl in *. rewrite Hst. lia.
    + rewrite lookup_insert_ne by done. destruct o; simpl in *; try done.
      destruct outgoing; [done|]. apply bool_decide_eq_true in Hno. subst.
      rewrite bool_decide_false by done. lia.
Qed.

Section Verification.
Context `{JsonText} `{Sha256} `{FileData.UnicodeTables} (E : env).

Lemma on_in_objs_twice r u v s : on_in_objs <[r := v]> (on_in_objs <[r := u]> s) = on_in_objs <[r := v]> s.
Proof. unfold on_in_objs. simpl. by rewrite insert_insert_eq. Qed.

Lemma wp_start_verifying r t s (Q : bool -> session -> Prop) X :
  in_objs s !! r = Some t -> live t ->
  Q true (on_in_objs <[r := i_with_state Incoming.VERIFYING t]> s) ->
  wp (start_verifying r t) Q X s.
Proof.
  intros Hu Hl HQ. unfold start_verifying. apply wp_bind.
  destruct (live_state t Hl) as [Hs|Hs].
  - rewrite bool_decide_true by done. apply (wp_move_in _ r _ t); [done| |].
    2: { intros Hn. exfalso. apply Hn. rewrite Hs. set_solver. }
    intros _. apply (wp_move_in _ r _ (i_with_state Incoming.RECEIVING t)).
    { apply lookup_insert_eq. }
    { intros _. by rewrite on_in_objs_twice. }
    intros Hn. exfalso. apply Hn. set_solver.
  - rewrite bool_decide_false by (by rewrite Hs). wp_steps.
    apply (wp_move_in _ r _ t); [done|done|]. intros Hn. exfalso. apply Hn. rewrite Hs. set_solver.
Qed.

(** The comparison that [_handle_done] makes. *)
Definition passes (t : IncomingTransfer) (sum : string) : bool :=
  bool_decide (sum = i_checksum t) && (i_received t =? i_size t).

(** [_handle_done] on a transfer of the table: it leaves the table, is being verified, and
    an acknowledgement of the comparison is pending unless the file cannot be read. *)
Record verified (a : string) (r : nat) (t : IncomingTransfer) (s s' : session) : Prop := {
  verified_left : exists s1,
    left_table r (i_with_handle None (i_with_state Incoming.VERIFYING t)) s s1 /\
    files s1 = close_file (close_lost E (i_part t)) (i_handle t) (files s) /\
    log s1 = log s /\ files s' = files s1 /\
    match sha256_file (i_part t) (files s1) with
    | None => s' = s1
    | Some sum => s' = on_dones_waiting <[next_ref s1 := mk_done r (passes t sum)]>
        (on_next_ref S (on_log (fun l => l ++ [Sent a (make_file_complete_ack (i_id t)
           (passes t sum) (if passes t sum then "" else "checksum mismatch"))]) s1))
    end
}.

Lemma handle_done_verifies a i r t s :
  wf s -> (r0 ← dget i (incoming s); t0 ← in_objs s !! r0; Some (r0, t0)) = Some (r, t) ->
  verified a r t s (fst (_handle_done E a i s)).
Proof.
  intros Hw Hf. pose proof Hf as Hfind.
  apply find_in_table_wf in Hf as (Hk & Hu & Hid & Hl); [|done].
  apply (wp_state (verified a r t s)). unfold _handle_done, find_in_table. wp_steps. rewrite Hfind.
  wp_steps. apply wp_start_verifying; [done..|]. simpl. unfold pop_incoming. wp_steps.
  set (s0 := on_offer_offsets _ _).
  assert (in_objs s0 !! r = Some (i_with_state Incoming.VERIFYING t)) as Hs0 by apply lookup_insert_eq.
  pose proof (wp_close_handle E r _ s0 Hs0) as Hc. unfold wp in Hc. unfold wp at 1.
  destruct (close_handle E r s0) as [s1 [[]|e]]; [|done]. wp_steps. destruct Hc as (Hc & Hfile & Hlog).
  assert (left_table r (i_with_handle None (i_with_state Incoming.VERIFYING t)) s s1) as Hleft.
  { destruct Hc. split; simpl in *; try done. by rewrite touched_objs0, insert_insert_eq. }
  destruct (sha256_file (i_part t) (files s1)) as [sum|] eqn:Hsum; unfold emit; wp_steps;
    split; exists s1; (split_and!; [done..|]; by rewrite Hsum).
Qed.

Lemma wf_handle_done a i s : wf s -> wf (fst (_handle_done E a i s)).
Proof.
  intros Hw. destruct (r0 ← dget i (incoming s); t0 ← in_objs s !! r0; Some (r0, t0)) as [[r t]|] eqn:Hf.
  2: { apply wp_state. unfold _handle_done, find_in_table. wp_steps. rewrite Hf.
       apply wp_calm; [apply calm_report_once| |]; intros; by eapply wf_calm. }
  destruct (handle_done_verifies a i r t s Hw Hf) as [(s1 & Hleft & _ & _ & _ & Hcase)].
  apply find_in_table_wf in Hf as (Hk & Hu & Hid & Hl); [|done].
  destruct (wf_left_table i r (i_with_handle None (i_with_state Incoming.VERIFYING t)) s s1
    (conj Hw Hk) Hid eq_refl Hleft) as [Hw1 Hne].
  destruct (sha256_file _ _) as [sum|]; rewrite Hcase; [|done].
  set (s2 := on_log _ s1). assert (calm s1 s2) as Hc.
  { subst s2. split; simpl; try done. by rewrite in_notes_app, app_nil_r. }
  apply (wf_pending r _ (i_with_handle None (i_with_state Incoming.VERIFYING t)) s2).
  - by eapply wf_calm.
  - rewrite (calm_objs _ _ Hc), (left_objs _ _ _ _ Hleft). apply lookup_insert_eq.
  - done.
  - by rewrite (calm_dones _ _ Hc).
Qed.

Lemma wf_dropped n s : wf s -> wf (on_dones_waiting (delete n) s).
Proof.
  intros Hw. split; simpl; try apply Hw.
  - intros n' p [_ Hp]%lookup_delete_Some. by apply (wf_dones s Hw).
  - intros n1 n2 p1 p2 [_ H1']%lookup_delete_Some [_ H2']%lookup_delete_Some.
    by apply (wf_dones_inj s Hw).
Qed.

(** The end of [_handle_done]: a failure or a success is reported, or the rename fails and
    nothing is. *)
Definition acknowledged (n : nat) (p : pending_done) (t : IncomingTransfer) (s s' : session)
    : Prop :=
  let r := pd_ref p in
  incoming s' = incoming s /\ offers_waiting s' = offers_waiting s /\ next_ref s' = next_ref s /\
  dones_waiting s' = delete n (dones_waiting s) /\
  if pd_success p then
    match finalize_part_file (i_part t) (i_dest t) (files s) with
    | Some d => in_objs s' = <[r := i_with_state Incoming.COMPLETED t]> (in_objs s) /\
        files s' = discard (i_part t) d /\
        log s' = log s ++ [Completed false r (i_id t) true (Some (i_dest t)) None]
    | None => s' = on_dones_waiting (delete n) s
    end
  else in_objs s' = <[r := i_with_state Incoming.FAILED t]> (in_objs s) /\
    log s' = log s ++ [Completed false r (i_id t) false None (Some "checksum_mismatch"%string)].

Lemma done_acknowledged_spec n p t s :
  wf s -> dones_waiting s !! n = Some p -> in_objs s !! pd_ref p = Some t ->
  acknowledged n p t s (fst (done_acknowledged n s)).
Proof.
  intros Hw Hp Ht. destruct (wf_dones s Hw n p Hp) as (_ & t' & Ht' & Hv).
  rewrite Ht in Ht'. simplify_eq. apply (wp_state (acknowledged n p t' s)).
  unfold done_acknowledged. wp_steps. rewrite Hp. simpl. rewrite Ht. simpl.
  unfold on_disk, _notify_complete_in, emit. wp_steps. destruct (pd_success p) eqn:Hs; simpl; wp_steps.
  - simpl. destruct (finalize_part_file _ _ _) as [d|] eqn:Hfin; wp_steps.
    2: { unfold acknowledged. by rewrite Hs, Hfin. }
    apply (wp_move_in _ _ _ t'); [done| |].
    + intros _. wp_steps; [done|]. intros _. wp_steps. unfold acknowledged. by rewrite Hs, Hfin.
    + intros Hn. exfalso. apply Hn. rewrite Hv. set_solver.
  - apply (wp_move_in _ _ _ t'); [done| |].
    + intros _. wp_steps; [done|]. intros _. wp_steps. unfold acknowledged. by rewrite Hs.
    + intros Hn. exfalso. apply Hn. rewrite Hv. set_solver.
Qed.

Lemma wf_done_acknowledged n s : wf s -> wf (fst (done_acknowledged n s)).
Proof.
  intros Hw. destruct (dones_waiting s !! n) as [p|] eqn:Hp.
  2: { apply wp_state. unfold done_acknowledged. wp_steps. rewrite Hp. simpl. by wp_steps. }
  destruct (wf_dones s Hw n p Hp) as (_ & t & Ht & _).
  destruct (done_acknowledged_spec n p t s Hw Hp Ht) as (Hi & Hf & Hn & Hd & Hcase).
  destruct (pd_success p).
  - destruct (finalize_part_file _ _ _) as [d|]; [|rewrite Hcase; by apply wf_dropped].
    destruct Hcase as (Ho & _ & Hl).
    eapply (wf_resolved n p t Incoming.COMPLETED (Completed false (pd_ref p) _ _ _ _) s); try done.
    + by apply bool_decide_eq_true.
    + rewrite Hl, in_notes_app. done.
  - destruct Hcase as (Ho & Hl).
    eapply (wf_resolved n p t Incoming.FAILED (Completed false (pd_ref p) _ _ _ _) s); try done.
    + by apply bool_decide_eq_true.
    + rewrite Hl, in_notes_app. done.
Qed.

End Verification.

(** *** Offers *)

Section Offers.
Context `{JsonText} `{Sha256} `{FileData.UnicodeTables} (E : env).

Lemma resume_offset_le i d : resume_offset_for i CHUNK_SIZE d <= Z.max 0 (size i).
Proof.
  unfold resume_offset_for. destruct (getsize _ d) as [actual|]; [|lia]. cbv zeta.
  pose proof (Z.mod_pos_bound (Z.min (Z.min (committed i) actual) (size i)) CHUNK_SIZE).
  assert (0 < CHUNK_SIZE) by (unfold CHUNK_SIZE, DEFAULT_CHUNK_SIZE; lia). lia.
Qed.

Definition plan_within (sz : Z) (p : plan) : Prop :=
  match p with
  | Proceed (Some (_, offset)) => 0 < offset <= Z.max 0 sz
  | _ => True
  end.

Lemma plan_resume_within peer f sz c s (Q : plan -> session -> Prop) (X : session -> Prop) :
  (forall s', calm s s' -> X s') ->
  (forall p s', calm s s' -> plan_within sz p -> Q p s') ->
  wp (plan_resume E peer f sz c) Q X s.
Proof.
  intros HX HQ. unfold plan_resume, busy, resume_partial, on_disk.
  destruct (first_id [peer]) as [p|]; [|wp_steps; by apply HQ].
  wp_steps. destruct (find_resumable _ _ _ _ _) as [[i|]|e] eqn:Hf; wp_steps;
    [|by apply HQ|by apply HX].
  destruct (existsb _ _); wp_steps; [by apply HQ|].
  assert (size i = sz) as Hsz.
  { apply find_in_same_offer in Hf; [|done]. unfold same_offer in Hf. bool_to_prop. done. }
  pose proof (resume_offset_le i (files s)) as Hle. rewrite Hsz in Hle.
  destruct (0 <? _) eqn:Hpos; [apply Z.ltb_lt in Hpos|]; wp_steps.
  - destruct (resolve_safe_dest_path _ _ _ _) as [c'|]; [destruct (bool_decide _)|]; wp_steps;
      apply HQ; try done; split; simpl; done || lia.
  - apply HQ; [split; simpl; done || lia|done].
Qed.

Lemma wf_offered n o s :
  wf s -> 0 <= po_resume o <= Z.max 0 (po_size o) -> po_size o <= MAX_INCOMING_FILE_SIZE ->
  wf (on_offers_waiting <[n := o]> s).
Proof.
  intros Hw Hr Hsz. split; simpl; try apply Hw.
  intros n' o' [[<- <-]|[_ Ho]]%lookup_insert_Some; [done|]. by apply (wf_offers s Hw n').
Qed.

Lemma wf_handle_offer a i f sz c nm s : wf s -> wf (fst (_handle_offer E a i f sz c nm s)).
Proof.
  intros Hw. apply wp_state. unfold _handle_offer. wp_steps.
  assert (forall s', calm s s' -> wf s') as Hcalm by (intros; by eapply wf_calm).
  apply wp_calm; [auto with calm|done|]. intros [] s1 C1.
  assert (forall s2, calm s1 s2 -> wp (reject E a i) (fun _ => wf) wf s2) as Hreject.
  { intros s2 C2. apply wp_calm; [auto with calm| |]; intros; apply Hcalm; by repeat (etransitivity; [eassumption|]). }
  destruct (MAX_INCOMING_FILE_SIZE <? sz) eqn:Hmax; [by apply Hreject|]. apply Z.ltb_ge in Hmax.
  unfold busy. wp_steps. destruct (existsb _ _); [by apply Hreject|]. wp_steps.
  apply plan_resume_within.
  { intros s2 C2. apply Hcalm. by etransitivity. }
  intros p s2 C2 Hp. destruct p as [|resumed]; [by apply Hreject|]. wp_steps.
  apply wp_calm.
  { unfold plan_paths. calm_steps. }
  { intros s3 C3. apply Hcalm. by repeat (etransitivity; [eassumption|]). }
  intros [[dest part]|] s3 C3; [|apply Hreject; by etransitivity]. wp_steps.
  destruct (existsb _ _); [apply Hreject; by etransitivity|].
  destruct (negb _); [apply Hreject; by etransitivity|]. unfold emit. wp_steps.
  apply wf_offered; [|simpl|done].
  - apply Hcalm. transitivity s1; [done|]. transitivity s2; [done|]. transitivity s3; [done|].
    split; simpl; try done || lia. by rewrite in_notes_app, app_nil_r.
  - destruct resumed as [[j off]|]; simpl in *; lia.
Qed.

Lemma wp_create_part part s s1 :
  calm s s1 ->
  wp (create_part E part) (fun h s' => calm s s' /\ h_pos h = 0%nat) (calm s) s1.
Proof.
  intros C1. unfold create_part, on_disk. wp_steps.
  assert (forall h d, (if open_ok E then open_wb part (files s1) else None) = Some (h, d) ->
    h_pos h = 0%nat) as Hpos.
  { intros h d. destruct (open_ok E); [|done]. unfold open_wb.
    repeat case_match; intros Heq; simplify_eq; done. }
  destruct (if open_ok E then _ else _) as [[h d]|]; wp_steps; [|done].
  split; [by transitivity s1; [|split]|]. by apply (Hpos h d).
Qed.

(** The handle of the part file is where the first chunk goes. *)
Lemma wp_open_part part o s :
  0 <= o ->
  wp (open_part E part o) (fun hz s' => calm s s' /\ 0 <= snd hz <= o /\
    Z.of_nat (h_pos (fst hz)) = snd hz) (calm s) s.
Proof.
  intros Ho. assert (calm s (on_files (discard part) s)) as C1 by by split.
  unfold open_part, on_disk. destruct (0 <? o) eqn:Hlt; wp_steps.
  - destruct (if reopen_ok E then _ else _) as [h|]; wp_steps; [destruct (seek_ok E); wp_steps|].
    + split; [by split|]. simpl. lia.
    + eapply wp_mono; [by apply wp_create_part|]. intros h' s' [Hc Hp]. wp_steps. simpl. split; [done|]. lia.
    + eapply wp_mono; [by apply wp_create_part|]. intros h' s' [Hc Hp]. wp_steps. simpl. split; [done|]. lia.
  - apply Z.ltb_ge in Hlt. eapply wp_mono; [by apply wp_create_part|].
    intros h' s' [Hc Hp]. wp_steps. simpl. split; [done|]. lia.
Qed.

(** A new transfer enters the table. *)
Lemma wf_entered s t u k :
  wf s -> live u -> i_id u = k ->
  wf (on_incoming (dset k (next_ref s))
       (on_in_objs <[next_ref s := u]> (on_in_objs <[next_ref s := t]> (on_next_ref S s)))).
Proof.
  intros Hw Hl Hid. rewrite on_in_objs_twice.
  assert (in_objs s !! next_ref s = None) as Hnone.
  { destruct (in_objs s !! next_ref s) eqn:He; [|done].
    assert (next_ref s < next_ref s)%nat by (apply (wf_fresh s Hw); by rewrite He). lia. }
  assert (forall r t', in_objs s !! r = Some t' -> <[next_ref s := u]> (in_objs s) !! r = Some t') as Hold.
  { intros r t' Hr. rewrite lookup_insert_ne; [done|]. intros <-. simplify_eq. }
  split; simpl; try apply Hw.
  - intros k' r [[= -> ->]|Hk]%elem_dset; [exists u; by rewrite lookup_insert_eq|].
    destruct (wf_live s Hw k' r Hk) as (t' & Ht' & ?). eauto.
  - apply dset_keys, Hw.
  - intros n p Hp. destruct (wf_dones s Hw n p Hp) as (? & t' & Ht' & ?). split; [lia|eauto].
  - intros r Hr. destruct (decide (next_ref s = r)) as [<-|]; [lia|].
    rewrite lookup_insert_ne in Hr by done. specialize (wf_fresh s Hw r Hr). lia.
  - intros r. pose proof (wf_notes s Hw r) as Hr. unfold notes, note_budget in *. simpl in *.
    destruct (decide (next_ref s = r)) as [<-|]; [|by rewrite lookup_insert_ne].
    rewrite Hnone in Hr. lia.
Qed.

Lemma wf_accept_offer o s :
  wf s -> 0 <= po_resume o <= Z.max 0 (po_size o) -> po_size o <= MAX_INCOMING_FILE_SIZE ->
  wp (accept_offer E o) (fun _ => wf) wf s.
Proof.
  intros Hw Hr Hsz. unfold accept_offer. wp_steps.
  pose proof (wp_open_part (po_part o) (po_resume o) s ltac:(lia)) as Ho.
  unfold wp in Ho. unfold wp at 1. destruct (open_part E _ _ s) as [s1 [[h off]|e]]; [|by eapply wf_calm].
  destruct Ho as (C1 & Hoff & Hpos). simpl in Hoff, Hpos. apply wp_bind.
  set (t := mk_in _ _ _ _ _ _ _ _ _ _ _ _ _ _ _ _).
  eapply (wp_mono _ _ (fun _ => calm s)).
  { destruct (first_id _) as [p|]; [|by wp_steps].
    apply wp_calm; [apply calm_record_meta| |]; intros.
    - eapply wf_calm; [|exact Hw]. by etransitivity.
    - by etransitivity. }
  intros [] s2 C2. pose proof (wf_calm _ _ C2 Hw) as Hw2. wp_steps.
  apply (wp_move_in _ _ _ t); [apply lookup_insert_eq| |].
  2: { intros Hn. exfalso. apply Hn. set_solver. }
  intros _. simpl. wp_steps; [done|]. intros _. wp_steps.
  assert (wf (on_incoming (dset (po_id o) (next_ref s2)) (on_in_objs <[next_ref s2 := i_with_state Incoming.ACCEPTED t]>
     (on_in_objs <[next_ref s2 := t]> (on_next_ref S s2))))) as Hw3.
  { apply wf_entered; [done| |done]. split; simpl; auto; try lia. eauto. }
  destruct (make_file_accept _ _ _); [|wp_steps; done].
  apply wp_calm; [by apply calm_emit| |]; intros; by eapply wf_calm.
Qed.

Lemma wf_undecided n f s : wf s -> wf (on_offer_offsets f (on_offers_waiting (delete n) s)).
Proof.
  intros Hw. split; simpl; try apply Hw.
  intros n' o' [_ Ho']%lookup_delete_Some. by apply (wf_offers s Hw n').
Qed.

Lemma wf_offer_decided n b s : wf s -> wf (fst (offer_decided E n b s)).
Proof.
  intros Hw. apply wp_state. unfold offer_decided. wp_steps.
  destruct (offers_waiting s !! n) as [o|] eqn:Ho; wp_steps; [|done].
  destruct (wf_offers s Hw n o Ho) as [Hr Hsz].
  set (s1 := on_offer_offsets _ _). assert (wf s1) as Hw1 by by apply wf_undecided.
  destruct b; [by apply wf_accept_offer|]. apply wp_state, calm_wf; [|done].
  calm_steps.
Qed.

End Offers.

(** *** Every event *)

Section Runs.
Context `{JsonText} `{Sha256} `{FileData.UnicodeTables}.

Lemma wf_on_network_message E a m s : wf s -> wf (fst (_on_network_message E a m s)).
Proof.
  intros Hw. destruct m as [m|d]; [|by apply wf_handle_chunk].
  assert (forall k (f : string -> tx unit), (forall v, wp (f v) (fun _ => wf) wf s) ->
    wp (text_field k m ≫= f) (fun _ => wf) wf s) as Htext.
  { intros k f Hf. wp_steps. unfold text_field. destruct (jget k m) as [[]|]; wp_steps; auto. }
  apply wp_state. unfold _on_network_message.
  destruct (has_type _ m).
  { apply Htext; intros tid. apply Htext; intros f. wp_step.
    unfold size_field. destruct (jget "size" m) as [[]|]; wp_step; try done.
    apply Htext. intros c. by apply wp_state, wf_handle_offer. }
  destruct (has_type _ m); [apply Htext; intros; by apply wp_state, calm_wf; [auto with calm|]|].
  destruct (has_type _ m); [apply Htext; intros; by apply wp_state, calm_wf; [auto with calm|]|].
  destruct (has_type _ m); [apply Htext; intros; by apply wp_state, wf_handle_done|].
  destruct (has_type _ m); [apply Htext; intros; by apply wp_state, calm_wf; [auto with calm|]|].
  destruct (has_type _ m); [by apply wp_state, wf_handle_error|by wp_steps].
Qed.

Lemma wf_step s ee : wf s -> wf (step s ee).
Proof.
  intros Hw. destruct ee as [E ev]. unfold step. simpl. destruct ev; simpl.
  - by apply calm_wf; [auto with calm|].
  - by apply calm_wf; [auto with calm|].
  - by apply wf_on_network_message.
  - unfold _on_peer_disconnected. destruct (first_id _); [by apply wf_connection_lost|done].
  - by apply wf_offer_decided.
  - by apply wf_done_acknowledged.
  - by apply calm_wf; [auto with calm|].
  - by apply calm_wf; [auto with calm|].
Qed.

Lemma wf_start E d : wf (fst (start_session E d)).
Proof.
  unfold start_session. apply calm_wf; [auto with calm|].
  split; simpl; try done; intros; try (by apply not_elem_of_nil in H2); try apply NoDup_nil_2.
  by destruct H2.
Qed.

Lemma run_snoc s tr ee : run s (tr ++ [ee]) = step (run s tr) ee.
Proof. unfold run. apply foldl_snoc. Qed.

Lemma wf_run E d tr : wf (run (fst (start_session E d)) tr).
Proof.
  induction tr as [|ee tr IH] using rev_ind; [apply wf_start|]. rewrite run_snoc. by apply wf_step.
Qed.

(** C9: in every session that any sequence of events can reach, in any environment
    (disk failures, arbitrary frames, interleaved handlers), each transfer of the table
    is accepted or receiving, has never received more than its declared size, which is
    at most the limit of 2 GiB, has not committed more than it received, and its file is
    open exactly where the next chunk belongs. *)
Theorem incoming_within_bounds E d tr :
  let s := run (fst (start_session E d)) tr in
  NoDup (incoming s).*1 /\
  Forall (fun kr => exists t h,
    in_objs s !! snd kr = Some t /\ i_id t = fst kr /\
    i_state t ∈ [Incoming.ACCEPTED; Incoming.RECEIVING] /\
    0 <= i_committed t <= i_received t /\ i_received t <= Z.max 0 (i_size t) /\
    i_size t <= MAX_INCOMING_FILE_SIZE /\
    i_handle t = Some h /\ Z.of_nat (h_pos h) = i_received t) (incoming s).
Proof.
  intros s. pose proof (wf_run E d tr) as Hw. split; [apply Hw|].
  apply Forall_forall. intros [k r] Hk.
  destruct (wf_live _ Hw k r Hk) as (t & Ht & Hid & [Hs ? ? ? ? (h & Hh & Hp)]).
  exists t, h. split_and!; try done; try lia. destruct Hs as [-> | ->]; set_solver.
Qed.

(** C10: the outcome of an incoming transfer is reported at most once, and never while
    the transfer is in progress, whatever the interleaving of chunks, duplicate
    [file_done] frames, peer errors, disconnects and acknowledgements. *)
Theorem incoming_reported_once E d tr r :
  let s := run (fst (start_session E d)) tr in
  let reports := length (List.filter (note_of r) (log s)) in
  (reports <= 1)%nat /\
  (reports = 1%nat -> exists t, in_objs s !! r = Some t /\ is_terminal (i_state t) = true).
Proof.
  intros s reports. pose proof (wf_notes _ (wf_run E d tr) r) as Hr.
  assert (notes r s = reports) as Hn.
  { unfold notes, reports, in_notes. induction (log s) as [|o l IH]; [done|]. simpl.
    destruct o as [| | | | | |[] r0]; simpl; auto. destruct (bool_decide _); simpl; auto. }
  fold s in Hr. rewrite Hn in Hr. unfold note_budget in Hr.
  destruct (in_objs s !! r) as [t|]; [|lia]. destruct (is_terminal _) eqn:Ht; [|lia]. eauto.
Qed.

End Runs.

(** ** A reported success was verified *)

(** What an offer says of a transfer and where it is stored: it never changes. *)
Definition terms (t : IncomingTransfer) : string * string * string * Z * string * string * string :=
  (i_id t, i_addr t, i_filename t, i_size t, i_checksum t, i_dest t, i_part t).

Definition success_note (o : output) : bool :=
  match o with Completed false _ _ true _ _ => true | _ => false end.

Definition successes (s : session) : list output := List.filter success_note (log s).

(** No acknowledgement is pending or settled, no success is reported, and the terms of
    every transfer stay. *)
Record steady (s s' : session) : Prop := {
  steady_dones : dones_waiting s' = dones_waiting s;
  steady_successes : successes s' = successes s;
  steady_terms r t : in_objs s !! r = Some t ->
    exists t', in_objs s' !! r = Some t' /\ terms t' = terms t
}.

#[global] Instance steady_preorder : PreOrder steady.
Proof.
  split; [by intros s; split; eauto|]. intros s1 s2 s3 [D1 S1 T1] [D2 S2 T2].
  split; [congruence|congruence|]. intros r t Ht.
  destruct (T1 r t Ht) as (t' & Ht' & Heq). destruct (T2 r t' Ht') as (t'' & ? & ?).
  exists t''. split; [done|congruence].
Qed.

Lemma successes_in_notes s : successes s = List.filter success_note (in_notes (log s)).
Proof.
  unfold successes, in_notes. induction (log s) as [|o l IH]; [done|]. simpl.
  destruct o as [| | | | | |[] ? ? [] ? ?]; simpl; by rewrite ?IH.
Qed.

Lemma calm_steady s s' : calm s s' -> steady s s'.
Proof.
  intros []. split; [done| |].
  - by rewrite !successes_in_notes, calm_notes0.
  - rewrite calm_objs0. eauto.
Qed.

Lemma steady_calm {A} (m : tx A) : within calm m -> within steady m.
Proof. intros Hm s. apply calm_steady, Hm. Qed.

Lemma steady_emit o : success_note o = false -> within steady (emit o).
Proof.
  intros Ho. apply within_modify. intros s. split; simpl; [done| |eauto].
  unfold successes. simpl. rewrite List.filter_app. simpl. rewrite Ho. apply app_nil_r.
Qed.

Lemma steady_update_in r f : (forall t, terms (f t) = terms t) -> within steady (update_in r f).
Proof.
  intros Hf. apply within_modify. intros s. split; simpl; [done..|]. intros r' t Ht.
  destruct (decide (r' = r)) as [->|]; [|by exists t; rewrite lookup_alter_ne].
  exists (f t). by rewrite lookup_alter_eq, Ht.
Qed.

Lemma steady_move_in r st : within steady (move_in r st).
Proof. unfold move_in, in_obj. within_steps. by apply steady_update_in. Qed.

Lemma steady_pop t : within steady (pop_incoming t).
Proof. unfold pop_incoming. within_steps; intros s; split; simpl; eauto. Qed.

Create HintDb steady discriminated.
#[export] Hint Resolve steady_emit steady_update_in steady_move_in steady_pop : steady.
#[export] Hint Extern 1 (success_note _ = false) => reflexivity : steady.
#[export] Hint Extern 1 (terms _ = terms _) => reflexivity : steady.
#[export] Hint Extern 5 (within steady _) => apply steady_calm; solve [auto with calm] : steady.

Ltac steady_update :=
  match goal with
  | |- forall s, steady s (on_in_objs (alter ?f ?r) s) =>
      exact (steady_update_in r f (fun _ => eq_refl))
  | |- forall s, steady s (on_log (fun l => l ++ [?o]) s) => exact (steady_emit o eq_refl)
  | |- forall s, steady s _ => intros ?; split; simpl; eauto
  end.

Ltac steady_steps := within_steps; try steady_update; auto with steady.

Section Steady.
Context `{JsonText} `{Sha256} `{FileData.UnicodeTables} (E : env).

Lemma steady_close r : within steady (close_handle E r).
Proof. unfold close_handle, in_obj. steady_steps. Qed.

Lemma steady_keep_partial r t p : within steady (keep_partial E r t p).
Proof. unfold keep_partial. steady_steps; apply steady_close. Qed.

Lemma steady_fail_incoming r t e : within steady (_fail_incoming E r t e).
Proof. unfold _fail_incoming, _notify_complete_in. steady_steps; apply steady_keep_partial. Qed.

Lemma steady_abort r t e : within steady (_abort_incoming E r t e).
Proof. unfold _abort_incoming, _notify_complete_in. steady_steps; apply steady_close. Qed.

Lemma steady_lost a p : within steady (handle_connection_lost E a p).
Proof.
  unfold handle_connection_lost. within_steps.
  - match goal with |- within _ (for_each _ ?l) => induction l as [|[r t] l IH] end; simpl; steady_steps.
  - apply steady_calm, calm_for_each. intros [r t]. calm_steps.
Qed.

Lemma steady_checkpoint r : within steady (_checkpoint_incoming E r).
Proof. unfold _checkpoint_incoming, in_obj. steady_steps. Qed.

Lemma steady_handle_chunk a i q o data : within steady (_handle_chunk E a i q o data).
Proof.
  unfold _handle_chunk, find_in_table, check_restart, restart, take_chunk, in_obj.
  steady_steps; first [apply steady_abort|apply steady_checkpoint].
Qed.

Lemma steady_handle_error a m : within steady (_handle_error E a m).
Proof.
  unfold _handle_error, find_out, find_in_table. steady_steps; apply steady_fail_incoming.
Qed.

End Steady.

Section Verified.
Context `{JsonText} `{Sha256} `{FileData.UnicodeTables}.

Lemma wp_steady {A} (m : tx A) s0 s (Q : A -> session -> Prop) :
  within steady m -> steady s0 s -> (forall a s', steady s0 s' -> Q a s') ->
  wp m Q (steady s0) s.
Proof.
  intros Hm Hs HQ. specialize (Hm s). unfold wp. destruct (m s) as [s' [a|e]]; simpl in Hm.
  - apply HQ. by transitivity s.
  - by transitivity s.
Qed.

Lemma steady_accept_offer E o s : wf s -> steady s (fst (accept_offer E o s)).
Proof.
  intros Hw. apply (wp_state (steady s)). unfold accept_offer. wp_step.
  apply wp_calm; [apply calm_open_part|apply calm_steady|].
  intros [h off] s1 C1. wp_step. eapply (wp_mono _ _ (fun _ => calm s)).
  { destruct (first_id _); wp_steps; [|done]. apply wp_calm; [apply calm_record_meta| |]; intros.
    - apply calm_steady. by etransitivity.
    - by etransitivity. }
  intros [] s2 C2. pose proof (wf_calm _ _ C2 Hw) as Hw2. wp_steps.
  set (t := mk_in _ _ _ _ _ _ _ _ _ _ _ _ _ _ _ _).
  assert (steady s (on_in_objs <[next_ref s2 := t]> (on_next_ref S s2))) as S3.
  { transitivity s2; [by apply calm_steady|]. split; simpl; [done..|]. intros r t' Ht'.
    exists t'. rewrite lookup_insert_ne; [done|]. intros <-.
    assert (next_ref s2 < next_ref s2)%nat by (apply (wf_fresh s2 Hw2); by rewrite Ht'). lia. }
  apply (wp_steady _ s); [apply steady_move_in|done|]. intros b s4 S4. wp_steps; [done|].
  intros _. wp_steps. apply (wp_steady _ s); [steady_steps| |done].
  transitivity s4; [done|]. by split; eauto.
Qed.

Lemma steady_offer_decided E n b s : wf s -> steady s (fst (offer_decided E n b s)).
Proof.
  intros Hw. destruct (offers_waiting s !! n) as [o|] eqn:Ho.
  2: { apply (wp_state (steady s)). unfold offer_decided. wp_steps. rewrite Ho. by wp_steps. }
  apply (wp_state (steady s)). unfold offer_decided. wp_step. wp_step. rewrite Ho. wp_steps.
  set (s1 := on_offer_offsets _ _). assert (steady s s1) as S1 by (by split; eauto).
  assert (wf s1) as Hw1 by by apply wf_undecided.
  destruct b.
  - pose proof (steady_accept_offer E o s1 Hw1) as S2. apply wp_state. by transitivity s1.
  - apply (wp_steady _ s); [steady_steps|done|done].
Qed.

Lemma steady_handle_offer E a i f sz c nm : within steady (_handle_offer E a i f sz c nm).
Proof.
  unfold _handle_offer, busy, plan_paths. steady_steps.
Qed.

(** What an event does to acknowledgements and successes. *)
Definition is_done_frame (ev : event) : Prop :=
  exists a m, ev = Received a (Json m) /\ has_type "file_done" m = true.

Lemma message_cases E a m s :
  wf s ->
  let s' := fst (_on_network_message E a m s) in
  steady s s' \/
  (is_done_frame (Received a m) /\ exists k r t, (k, r) ∈ incoming s /\ in_objs s !! r = Some t /\
     verified E a r t s s').
Proof.
  intros Hw s'. subst s'.
  assert (forall (m : tx unit), within steady m -> steady s (fst (m s))) as Hs by auto.
  destruct m as [m|d]; [|left; apply Hs, steady_handle_chunk].
  assert (forall k (f : string -> tx unit), (forall v, within steady (f v)) ->
    within steady (text_field k m ≫= f)) as Htext.
  { intros k f Hf. unfold text_field. steady_steps. }
  unfold _on_network_message. destruct (has_type "file_offer" m).
  { left. apply Hs. apply Htext; intros. apply Htext; intros. unfold size_field.
    apply within_bind; [exact _|steady_steps|]. intros. apply Htext; intros.
    apply steady_handle_offer. }
  destruct (has_type "file_accept" m); [left; apply Hs, Htext; auto with steady|].
  destruct (has_type "file_reject" m); [left; apply Hs, Htext; auto with steady|].
  destruct (has_type "file_done" m) eqn:Hd.
  2: { destruct (has_type "file_complete_ack" m); [left; apply Hs, Htext; auto with steady|].
       destruct (has_type "error" m); left; apply Hs; [apply steady_handle_error|].
       apply within_ret; exact _. }
  unfold text_field. destruct (jget "transfer_id" m) as [[| | | |tid| |]|]; try (left; reflexivity).
  match goal with |- context [fst ?x] => change x with (_handle_done E a tid s) end.
  destruct (r0 ← dget tid (incoming s); t0 ← in_objs s !! r0; Some (r0, t0)) as [[r t]|] eqn:Hf.
  - right. split; [by exists a, m|]. pose proof (find_in_table_wf _ _ _ _ Hw Hf) as (Hk & Ht & _).
    exists tid, r, t. split_and!; [done..|]. by apply handle_done_verifies.
  - left. apply (wp_state (steady s)). unfold _handle_done, find_in_table. wp_steps. rewrite Hf.
    apply (wp_steady _ s); [auto with steady|done|done].
Qed.

Lemma step_cases s ee :
  wf s ->
  steady s (step s ee) \/
  (is_done_frame (snd ee) /\ exists k r t, (k, r) ∈ incoming s /\ in_objs s !! r = Some t /\
     exists a, verified (fst ee) a r t s (step s ee)) \/
  (exists n p t, dones_waiting s !! n = Some p /\ in_objs s !! pd_ref p = Some t /\
     acknowledged n p t s (step s ee)).
Proof.
  intros Hw. destruct ee as [E ev]. unfold step. simpl.
  assert (forall (m : tx unit), within steady m -> steady s (fst (m s))) as Hs by auto.
  destruct ev as [a p f i|r b|a m|a p|n b|n|r w|r]; simpl.
  - left. apply Hs. auto with steady.
  - left. apply Hs. auto with steady.
  - destruct (message_cases E a m s Hw) as [?|(Hd & k & r & t & Hk & Ht & Hv)]; [by left|].
    right; left. split; [done|]. exists k, r, t. eauto.
  - left. apply Hs. unfold _on_peer_disconnected. destruct (first_id _); [|apply within_ret; exact _].
    apply steady_lost.
  - left. by apply steady_offer_decided.
  - destruct (dones_waiting s !! n) as [p|] eqn:Hp.
    + destruct (wf_dones s Hw n p Hp) as (_ & t & Ht & _). right. right. exists n, p, t.
      split; [done|]. split; [done|]. by apply done_acknowledged_spec.
    + left. apply (wp_state (steady s)). unfold done_acknowledged. wp_steps. rewrite Hp. simpl.
      by wp_steps.
  - left. apply Hs. auto with steady.
  - left. apply Hs. auto with steady.
Qed.

(** At some point of the run a [file_done] frame arrived for the transfer [r] with the
    given terms, all bytes were there and the part file had the offered hash. *)
Definition hashed (s0 : session) (tr : list (env * event)) (r : nat) (t : IncomingTransfer)
    : Prop :=
  exists tr1 ee tr2, tr = tr1 ++ ee :: tr2 /\ is_done_frame (snd ee) /\
    in_objs (run s0 tr1) !! r = Some t /\ i_received t = i_size t /\
    sha256_file (i_part t) (files (run s0 (tr1 ++ [ee]))) = Some (i_checksum t).

Lemma hashed_snoc s0 tr ee r t : hashed s0 tr r t -> hashed s0 (tr ++ [ee]) r t.
Proof.
  intros (tr1 & ee1 & tr2 & -> & Hrest). exists tr1, ee1, (tr2 ++ [ee]).
  split; [by rewrite <- app_assoc|done].
Qed.

Record history (s0 : session) (tr : list (env * event)) : Prop := {
  history_pending n p : dones_waiting (run s0 tr) !! n = Some p -> pd_success p = true ->
    exists t t', hashed s0 tr (pd_ref p) t /\ in_objs (run s0 tr) !! pd_ref p = Some t' /\
      terms t' = terms t;
  history_success r tid fp err : Completed false r tid true fp err ∈ log (run s0 tr) ->
    exists t, hashed s0 tr r t /\ i_id t = tid /\ fp = Some (i_dest t)
}.

Lemma elem_successes r tid fp err s :
  Completed false r tid true fp err ∈ log s <-> Completed false r tid true fp err ∈ successes s.
Proof. unfold successes. rewrite !list_elem_of_In, filter_In. simpl. tauto. Qed.

Lemma history_steady s0 tr ee :
  history s0 tr -> steady (run s0 tr) (run s0 (tr ++ [ee])) -> history s0 (tr ++ [ee]).
Proof.
  intros [Hp Hs] [Hd Hn Ht]. split.
  - intros n p Hnp Hsucc. rewrite Hd in Hnp. destruct (Hp n p Hnp Hsucc) as (t & t' & Hh & Ht' & Heq).
    destruct (Ht _ _ Ht') as (t'' & Ht'' & Heq'). exists t, t''.
    split; [by apply hashed_snoc|]. split; [done|congruence].
  - intros r tid fp err. rewrite elem_successes, Hn, <- elem_successes. intros Hin.
    destruct (Hs r tid fp err Hin) as (t & Hh & ?). exists t. split; [by apply hashed_snoc|done].
Qed.

Lemma history_verified s0 tr ee a k r t :
  wf (run s0 tr) -> history s0 tr -> is_done_frame (snd ee) -> (k, r) ∈ incoming (run s0 tr) ->
  in_objs (run s0 tr) !! r = Some t -> verified (fst ee) a r t (run s0 tr) (run s0 (tr ++ [ee])) ->
  history s0 (tr ++ [ee]).
Proof.
  intros Hw [Hp Hs] Hdone Hk Ht [(s1 & Hleft & _ & _ & Hfiles & Hcase)].
  destruct (wf_live _ Hw k r Hk) as (t0 & Ht0 & _ & Hlive). simplify_eq.
  set (s := run s0 tr) in *. set (s' := run s0 (tr ++ [ee])) in *.
  assert (in_notes (log s') = in_notes (log s) /\ in_objs s' = in_objs s1) as [Hnotes Hobjs].
  { destruct (sha256_file _ _); rewrite Hcase; simpl; [rewrite in_notes_app, app_nil_r|];
      by destruct Hleft. }
  split.
  - intros n p Hnp Hsucc. fold s' in Hnp.
    assert (dones_waiting s !! n = Some p \/ exists sum,
      sha256_file (i_part t) (files s1) = Some sum /\ p = mk_done r (passes t sum))
      as [Hold|(sum & Hsum & ->)].
    { destruct (sha256_file _ _) as [sum|]; rewrite Hcase in Hnp; simpl in Hnp;
        [apply lookup_insert_Some in Hnp as [[_ <-]|[_ Hnp]]; [by right; exists sum|]|];
        left; by rewrite (left_dones _ _ _ _ Hleft) in Hnp. }
    + destruct (Hp n p Hold Hsucc) as (ta & tb & Hh & Ht' & Heq). exists ta, tb.
      split; [by apply hashed_snoc|]. split; [|done]. fold s' s. rewrite Hobjs, (left_objs _ _ _ _ Hleft).
      rewrite lookup_insert_ne; [done|]. intros ->.
      destruct (wf_dones _ Hw n p Hold) as (_ & t1 & Ht1 & Hv). fold s in Ht1. simplify_eq.
      by apply live_not_verifying in Hlive.
    + simpl in Hsucc. unfold passes in Hsucc. bool_to_prop. subst sum. exists t, (i_with_handle None (i_with_state Incoming.VERIFYING t)).
      split; [|split; [|done]].
      * exists tr, ee, []. fold s s'. rewrite Hfiles. done.
      * fold s'. rewrite Hobjs, (left_objs _ _ _ _ Hleft). apply lookup_insert_eq.
  - intros r' tid fp err. fold s'. rewrite elem_successes, successes_in_notes, Hnotes, <- successes_in_notes,
      <- elem_successes. intros Hin. destruct (Hs r' tid fp err Hin) as (ta & Hh & ?).
    exists ta. split; [by apply hashed_snoc|done].
Qed.

Lemma history_acknowledged s0 tr ee n p t :
  wf (run s0 tr) -> history s0 tr -> dones_waiting (run s0 tr) !! n = Some p ->
  in_objs (run s0 tr) !! pd_ref p = Some t ->
  acknowledged n p t (run s0 tr) (run s0 (tr ++ [ee])) -> history s0 (tr ++ [ee]).
Proof.
  intros Hw [Hp Hs] Hn Ht (_ & _ & _ & Hd & Hcase).
  set (s := run s0 tr) in *. set (s' := run s0 (tr ++ [ee])) in *.
  assert (forall r t1, in_objs s !! r = Some t1 ->
    exists t1', in_objs s' !! r = Some t1' /\ terms t1' = terms t1) as Hterms.
  { intros r t1 Hr. assert (forall st, in_objs s' = <[pd_ref p := i_with_state st t]> (in_objs s) ->
      exists t1', in_objs s' !! r = Some t1' /\ terms t1' = terms t1) as Hins.
    { intros st ->. destruct (decide (pd_ref p = r)) as [<-|]; [|rewrite lookup_insert_ne; eauto].
      rewrite lookup_insert_eq. simplify_eq. eauto. }
    destruct (pd_success p); [destruct (finalize_part_file _ _ _)|].
    - destruct Hcase as [Ho _]. eauto.
    - rewrite Hcase. eauto.
    - destruct Hcase as [Ho _]. eauto. }
  split; fold s'.
  - intros n' p' Hn' Hsucc. rewrite Hd in Hn'. apply lookup_delete_Some in Hn' as [_ Hn'].
    destruct (Hp n' p' Hn' Hsucc) as (t1 & t2 & Hh & Ht2 & Heq).
    destruct (Hterms _ _ Ht2) as (t3 & Ht3 & Heq'). exists t1, t3.
    split; [by apply hashed_snoc|]. split; [done|congruence].
  - intros r tid fp err Hin.
    assert (Completed false r tid true fp err ∈ log s \/ pd_success p = true /\
      Completed false r tid true fp err = Completed false (pd_ref p) (i_id t) true (Some (i_dest t)) None)
      as [Hold|[Hsucc Heq]].
    { destruct (pd_success p); [destruct (finalize_part_file _ _ _)|].
      - destruct Hcase as (_ & _ & Hl). rewrite Hl in Hin.
        apply elem_of_app in Hin as [?|Hin%list_elem_of_singleton]; auto.
      - left. by rewrite Hcase in Hin.
      - destruct Hcase as (_ & Hl). rewrite Hl in Hin.
        apply elem_of_app in Hin as [?|Hin%list_elem_of_singleton]; [by left|done]. }
    + destruct (Hs r tid fp err Hold) as (t1 & Hh & ?). exists t1. split; [by apply hashed_snoc|done].
    + destruct (Hp n p Hn Hsucc) as (t1 & t2 & Hh & Ht2 & Hterm). fold s in Ht2. simplify_eq.
      exists t1. split; [by apply hashed_snoc|].
      unfold terms in Hterm. simplify_eq. split; congruence.
Qed.

(** C8: when a received file is reported as complete, a [file_done] frame had arrived for
    it at a moment when every declared byte had been received and the part file on disk
    had exactly the SHA-256 of the offer, and the path reported is the destination the
    offer was given. *)
Theorem success_was_verified E d tr r tid fp err :
  let s0 := fst (start_session E d) in
  Completed false r tid true fp err ∈ log (run s0 tr) ->
  exists t, hashed s0 tr r t /\ i_id t = tid /\ fp = Some (i_dest t).
Proof.
  intros s0 Hin. assert (history s0 tr) as Hh.
  { clear Hin. induction tr as [|ee tr IH] using rev_ind.
    - subst s0. split; simpl.
      + unfold start_session, sweep. destruct (sweep_expired _ _) as [d' [l|e]]; simpl; done.
      + unfold start_session, sweep. destruct (sweep_expired _ _) as [d' [l|e]]; simpl;
          intros * Hin; by apply not_elem_of_nil in Hin.
    - pose proof (wf_run E d tr) as Hw. fold s0 in Hw.
      destruct (step_cases (run s0 tr) ee Hw) as [Hst|[(Hdf & k & r' & t & Hk & Ht & a & Hv)|(n & p & t & Hn & Ht & Ha)]];
        rewrite <- run_snoc in *.
      + by apply history_steady.
      + by eapply history_verified.
      + by eapply history_acknowledged. }
  by apply (history_success _ _ Hh) in Hin.
Qed.

End Verified.
