(* ===== verification/TransferFlow.v ===== *)
(** * The flow of a file

    The stream of a file from a sending to a receiving session ([Transfer]): what the
    sending task hands to the network is the file, cut into chunks, and a receiver that
    is given those frames ends with exactly that file under its destination name. *)

From Corelib Require Import SpecFloat.
From S2P Require Import Prelude Text Json Crypto Wire Messages Lifecycle Files Partial Transfer.
From S2P Require Import TransferTheory.
Import Factories Errors FS.
Local Open Scope peerc_scope.
Local Open Scope Z_scope.

(** ** The part file on disk *)

(** The name [part] leads to the file that is open as [h], which holds [b]; the
    destination can be written. *)
Record part_file (dest : string) (h : handle) (b : bytes) (d : fs) : Prop := {
  pf_entry : entries d !! get_part_path dest = Some (EFile (h_inode h));
  pf_content : content d (h_inode h) = b;
  pf_fresh : (h_inode h < next_inode d)%nat;
  pf_dest : entries d !! dest <> Some EDir
}.

Lemma meta_ne part : meta_path_for part <> part.
Proof. by apply str_app_ne. Qed.

Lemma meta_ne_dest dest : meta_path_for (get_part_path dest) <> dest.
Proof.
  unfold meta_path_for, get_part_path. rewrite str_app_assoc. by apply str_app_ne.
Qed.

Lemma part_file_meta `{JsonText} dest h b d ok tm peer f sz c dn cm :
  part_file dest h b d ->
  part_file dest h b (try_write_meta ok tm (get_part_path dest) peer f sz c dn cm d).
Proof.
  intros [He Hc Hf Hd]. unfold try_write_meta, write_meta. cbv zeta.
  destruct (_validate _ _) as [[info|]|]; try by split.
  destruct (entries d !! meta_path_for _) as [[]|] eqn:Hm; try by split.
  all: destruct ok; [|by split]; split; simpl;
    rewrite ?lookup_insert_ne by (apply meta_ne || apply meta_ne_dest); try done; try lia;
    unfold content in *; simpl; rewrite lookup_insert_ne by lia; done.
Qed.

Lemma write_at_end (b data : bytes) : write_at (length b) data b = b ++ data.
Proof.
  unfold write_at, pad_to. rewrite Nat.sub_diag, app_nil_r, firstn_all.
  rewrite drop_ge by lia. by rewrite app_nil_r.
Qed.

Lemma part_file_write dest h b data d :
  h_pos h = length b -> part_file dest h b d ->
  part_file dest (fst (write data h d)) (b ++ data) (snd (write data h d)).
Proof.
  intros Hp [He Hc Hf Hd]. split; simpl; try done.
  unfold content at 1. simpl. rewrite lookup_insert_eq. simpl. rewrite Hc, Hp. apply write_at_end.
Qed.

Lemma chunk_size_pos : 0 < CHUNK_SIZE.
Proof. done. Qed.

#[local] Opaque CHUNK_SIZE.

(** ** Receiving *)
Section Receiving.
Context `{JsonText} `{Sha256} `{FileData.UnicodeTables} (E : env).
Context (data : bytes) (k : string) (r n : nat) (dest : string).
Context (Hwrite : write_ok E = true) (Hclose : close_lost E (get_part_path dest) = 0%nat).

(** The transfer [r] has received the first [off] bytes of [data]. *)
Record receiving (idx off : Z) (s : session) (t : IncomingTransfer) : Prop := {
  rc_next : next_ref s = n;
  rc_find : dget k (incoming s) = Some r;
  rc_obj : in_objs s !! r = Some t;
  rc_id : i_id t = k;
  rc_state : i_state t = Incoming.ACCEPTED \/ i_state t = Incoming.RECEIVING;
  rc_counts : i_received t = off /\ i_index t = idx;
  rc_offer : i_size t = zlen data /\ i_checksum t = sha256_hex data;
  rc_paths : i_dest t = dest /\ i_part t = get_part_path dest;
  rc_off : 0 <= off <= zlen data;
  rc_file : exists h, i_handle t = Some h /\ Z.of_nat (h_pos h) = off /\
    part_file dest h (take (Z.to_nat off) data) (files s)
}.

(** The bytes of a chunk follow what is there. *)
Lemma take_chunk_bytes (off m : nat) :
  take off data ++ take m (drop off data) = take (off + length (take m (drop off data))) data.
Proof.
  rewrite <- take_take_drop. f_equal. generalize (drop off data). intros l. rewrite length_take.
  destruct (decide (m <= length l)%nat); [f_equal; lia|]. by rewrite !take_ge by lia.
Qed.

Let reached (idx off : Z) (s : session) : Prop := exists t, receiving idx off s t.

(** Replacing the object, with the same counters. *)
Lemma receiving_update idx off s t f :
  receiving idx off s t -> terms (f t) = terms t ->
  i_state (f t) = Incoming.ACCEPTED \/ i_state (f t) = Incoming.RECEIVING ->
  i_received (f t) = i_received t -> i_index (f t) = i_index t -> i_handle (f t) = i_handle t ->
  receiving idx off (on_in_objs <[r := f t]> s) (f t).
Proof.
  intros [] Ht Hs Hr Hi Hh. unfold terms in Ht. simplify_eq. split; simpl; try naive_solver congruence.
  - apply lookup_insert_eq.
  - destruct rc_file0 as (h & ? & ? & ?). exists h. split; [congruence|done].
Qed.

Lemma reached_meta idx off s t peer c :
  receiving idx off s t -> wp (record_meta E t peer c) (fun _ => reached idx off) (reached idx off) s.
Proof.
  intros Hr. apply wp_modify. exists t. destruct Hr. split; try done.
  destruct rc_file0 as (h & ? & ? & ?). exists h. split; [done|]. split; [done|]. simpl.
  destruct rc_paths0 as [_ ->]. by apply part_file_meta.
Qed.

Lemma reached_checkpoint idx off s t :
  receiving idx off s t ->
  wp (_checkpoint_incoming E r) (fun _ => reached idx off) (reached idx off) s.
Proof.
  intros Hr. pose proof (rc_obj _ _ _ _ Hr) as Ho. unfold _checkpoint_incoming, in_obj. wp_steps.
  rewrite Ho. assert (reached idx off s) as Hs by by exists t.
  destruct (i_handle t); [|by wp_steps]. destruct (first_id _) as [p|]; [|by wp_steps].
  destruct (_ || _); [by wp_steps|]. wp_steps. eapply wp_update_in; [done|].
  match goal with |- wp (record_meta E t p ?c) _ _ _ =>
    apply (reached_meta idx off _ (i_with_counts (i_received t) (i_index t) (i_resume t) c t) p c) end.
  apply receiving_update; try done. apply Hr.
Qed.

(** The write of the next chunk. *)
Lemma reached_take_chunk idx off s t c :
  receiving idx off s t -> c = take (Z.to_nat CHUNK_SIZE) (drop (Z.to_nat off) data) ->
  wp (take_chunk E r idx off c) (fun _ => reached (idx + 1) (off + zlen c))
    (reached (idx + 1) (off + zlen c)) s.
Proof.
  intros Hr Hc. pose proof Hr as [Hn Hf Ho Hid Hs [Hrec Hidx] [Hsz Hsum] [Hd Hp] Hoff (h & Hh & Hpos & Hpf)].
  assert (off + zlen c <= zlen data) as Hle.
  { subst c. unfold zlen in *. rewrite length_take, length_drop. lia. }
  unfold take_chunk, in_obj. wp_steps. rewrite Ho, Hrec, Hidx, !Z.eqb_refl. simpl.
  rewrite Hsz, (proj2 (Z.ltb_ge _ _) Hle), Hh, Hwrite. simpl. wp_steps. unfold on_disk. simpl. wp_steps.
  set (h' := mk_handle _ _). set (d' := set_content _ _ _). set (s1 := on_files _ s).
  eapply (wp_update_in _ r _ t); [done|]. wp_steps. set (u := i_with_handle _ _). set (s2 := on_in_objs _ s1).
  assert (receiving (idx + 1) (off + zlen c) s2 u) as Hr2.
  { pose proof (zlen_nonneg c). split; simpl; try done.
    - apply lookup_insert_eq.
    - split; lia.
    - lia.
    - exists h'. split; [done|]. split; [simpl; unfold zlen in *; lia|].
      pose proof (part_file_write dest h (take (Z.to_nat off) data) c (files s)) as Hw.
      replace (take (Z.to_nat (off + zlen c)) data) with (take (Z.to_nat off) data ++ c).
      + apply Hw; [|done]. rewrite length_take. unfold zlen in *. lia.
      + subst c. rewrite take_chunk_bytes. f_equal. unfold zlen. lia. }
  eapply (wp_mono _ _ (fun _ => reached (idx + 1) (off + zlen c))).
  - destruct (_ <=? _); [by eapply reached_checkpoint|]. wp_steps. by exists u.
  - intros [] s3 [t3 Hr3]. unfold emit. wp_steps. exists t3. by destruct Hr3.
Qed.

Lemma receive_chunk a idx off s t c :
  receiving idx off s t -> c = take (Z.to_nat CHUNK_SIZE) (drop (Z.to_nat off) data) ->
  reached (idx + 1) (off + zlen c)
    (step s (E, Received a (Data (FileData.mk_file_data k idx off c)))).
Proof.
  intros Hr Hc. unfold step. simpl.
  apply (wp_state (reached (idx + 1) (off + zlen c))).
  pose proof Hr as [Hn Hf Ho Hid Hs [Hrec Hidx] [Hsz Hsum] [Hd Hp] Hoff Hfile].
  unfold _handle_chunk, find_in_table. wp_steps. rewrite Hf. simpl. rewrite Ho. simpl. wp_steps.
  apply (wp_move_in _ r _ t); [done| |].
  2: { intros Hno. exfalso. apply Hno. destruct Hs as [-> | ->]; set_solver. }
  intros _. simpl. unfold check_restart. wp_steps.
  set (t1 := i_with_state Incoming.RECEIVING t).
  assert (receiving idx off (on_in_objs <[r := t1]> s) t1) as Hr1.
  { apply (receiving_update idx off s t (i_with_state Incoming.RECEIVING)); auto. }
  eapply (wp_update_in _ r _ t1); [apply lookup_insert_eq|].
  assert (receiving idx off (on_in_objs <[r := i_with_first t1]> (on_in_objs <[r := t1]> s)) (i_with_first t1)) as Hr2.
  { apply (receiving_update idx off _ t1 i_with_first); auto. }
  rewrite Hrec, Hidx, !Z.eqb_refl. simpl.
  destruct ((0 <? i_resume t) && negb (i_first t)); wp_steps; by eapply reached_take_chunk.
Qed.

(** The frames of the chunks from the offset on. *)
Definition chunk_frames (a : string) (l : list (Z * Z * bytes)) : list (env * event) :=
  map (fun '(i, o, c) => (E, Received a (Data (FileData.mk_file_data k i o c)))) l.

Lemma receive_chunks a fuel idx off s :
  reached idx off s -> (length (drop (Z.to_nat off) data) < fuel)%nat ->
  exists idx', reached idx' (zlen data)
    (run s (chunk_frames a (chunks_from fuel (Z.to_nat CHUNK_SIZE) idx off (drop (Z.to_nat off) data)))).
Proof.
  revert idx off s. induction fuel as [|fuel IH]; intros idx off s Hr Hfuel; [lia|].
  destruct Hr as [t Hr]. pose proof (rc_off _ _ _ _ Hr) as Hoff. cbn [chunks_from].
  destruct (take (Z.to_nat CHUNK_SIZE) (drop (Z.to_nat off) data)) as [|x c] eqn:Hc.
  - exists idx. simpl. exists t. replace (zlen data) with off; [done|].
    apply (f_equal length) in Hc. rewrite length_take, length_drop in Hc. simpl in Hc.
    pose proof chunk_size_pos.
    unfold zlen in *. lia.
  - cbn [chunk_frames map]. unfold run. cbn [foldl].
    pose proof (receive_chunk a idx off s t (x :: c) Hr (eq_sym Hc)) as Hr'.
    apply IH in Hr' as [idx' Hr'].
    + exists idx'. unfold run in Hr'.
      replace (drop (Z.to_nat (off + zlen (x :: c))) data)
        with (drop (Z.to_nat CHUNK_SIZE) (drop (Z.to_nat off) data)) in Hr'; [exact Hr'|].
      rewrite drop_drop. pose proof (f_equal length Hc) as Hlen.
      rewrite length_take, length_drop in Hlen. unfold zlen in *.
      destruct (decide (Z.to_nat CHUNK_SIZE <= length data - Z.to_nat off)%nat); [f_equal; lia|].
      rewrite !drop_ge by lia. done.
    + pose proof (f_equal length Hc) as Hlen. rewrite length_take, length_drop in Hlen.
      rewrite length_drop in *. unfold zlen in *. simpl in *. lia.
Qed.

Lemma finalize_part h b d :
  part_file dest h b d ->
  exists d', finalize_part_file (get_part_path dest) dest d = Some d' /\
    read dest (discard (get_part_path dest) d') = Some b.
Proof.
  intros [He Hc Hf Hd]. unfold finalize_part_file, isfile.
  rewrite bool_decide_true by (rewrite He; by eexists). unfold replace. rewrite He.
  set (d' := set_entries _ d). exists d'. split; [by destruct (entries d !! dest) as [[]|]|].
  assert (forall x e, x <> dest -> entries e !! dest = Some (EFile (h_inode h)) ->
    entries (remove x e) !! dest = Some (EFile (h_inode h)) /\
    content (remove x e) (h_inode h) = content e (h_inode h)) as Hrem.
  { intros x e Hx Hdest. unfold remove. destruct (entries e !! x) as [[]|]; simpl;
      rewrite ?lookup_delete_ne by done; done. }
  assert (entries d' !! dest = Some (EFile (h_inode h))) as H1' by apply lookup_insert_eq.
  destruct (Hrem _ _ (part_ne dest) H1') as [H2' C2].
  destruct (Hrem _ _ (meta_ne_dest dest) H2') as [H3' C3].
  unfold read, discard. rewrite H3'. simpl. f_equal. rewrite C3, C2. exact Hc.
Qed.

(** The [file_done] frame for a complete part file, and the end of its handler. *)
Lemma receive_done a E' idx s c :
  wf s -> reached idx (zlen data) s ->
  let s1 := step s (E, Received a (Json (make_file_done k c))) in
  let s2 := step s1 (E', DoneAckSent n) in
  read dest (files s2) = Some data /\
  log s2 = log s ++ [Sent a (make_file_complete_ack k true "");
                     Completed false r k true (Some dest) None].
Proof.
  intros Hw [t Hr]. cbv zeta. pose proof Hr as [Hn Hf Ho Hid Hs [Hrec Hidx] [Hsz Hsum] [Hd Hp] Hoff (h & Hh & Hpos & Hpf)].
  change (step s (E, Received a (Json (make_file_done k c)))) with (fst (_handle_done E a k s)).
  destruct (handle_done_verifies E a k r t s Hw) as [(s0 & Hleft & Hclosed & Hlog & Hfiles & Hcase)].
  { rewrite Hf. simpl. by rewrite Ho. }
  rewrite Hh, Hp, Hclose in Hclosed. unfold close_file, close in Hclosed. simpl in Hclosed.
  unfold zlen in Hpf. rewrite Nat2Z.id, firstn_all in Hpf.
  assert (sha256_file (i_part t) (files s0) = Some (sha256_hex data)) as Hsha.
  { rewrite Hclosed, Hp. unfold sha256_file, read. rewrite (pf_entry _ _ _ _ Hpf). simpl.
    by rewrite (pf_content _ _ _ _ Hpf). }
  rewrite Hsha in Hcase.
  assert (passes t (sha256_hex data) = true) as Hpass.
  { unfold passes. rewrite Hsum, Hrec, Hsz, Z.eqb_refl. by rewrite bool_decide_true. }
  rewrite Hpass in Hcase. pose proof (left_next _ _ _ _ Hleft) as Hnext. rewrite Hn in Hnext.
  rewrite Hnext in Hcase. set (s1 := fst (_handle_done E a k s)) in *.
  assert (wf s1) as Hw1 by by apply wf_handle_done.
  destruct (finalize_part h data (files s1)) as (d' & Hfin & Hread).
  { by rewrite Hfiles, Hclosed. }
  destruct (done_acknowledged_spec n (mk_done r true)
    (i_with_handle None (i_with_state Incoming.VERIFYING t)) s1 Hw1) as (_ & _ & _ & _ & Hack).
  - rewrite Hcase. apply lookup_insert_eq.
  - rewrite Hcase. simpl. rewrite (left_objs _ _ _ _ Hleft). apply lookup_insert_eq.
  - simpl in Hack. rewrite Hp, Hd, Hid, Hfin in Hack. destruct Hack as (_ & Hfs & Hl).
    change (step s1 (E', DoneAckSent n)) with (fst (done_acknowledged n s1)).
    split; [by rewrite Hfs|]. rewrite Hl, Hcase. simpl. by rewrite Hlog, Hid, <- app_assoc.
Qed.

End Receiving.

(** ** Sending *)

(** The frames that outputs put on the wire, decoded. *)
Definition wire_message (o : output) : option message :=
  match o with
  | Sent _ m => Some (Json m)
  | SentBinary _ p =>
      match FileData.decode_file_data p with Ok d => Some (Data d) | Err _ => None end
  | _ => None
  end.

Definition wire (l : list output) : list message := omap wire_message l.

Lemma wire_app l l' : wire (l ++ l') = wire l ++ wire l'.
Proof. unfold wire. apply omap_app. Qed.

(** An identifier as [str(uuid.uuid4())] makes it. *)
Definition canonical_id (k : string) : Prop :=
  exists u, length u = 16%nat /\ k = bytes_str (FileData.uuid_text u).

Lemma encode_canonical `{FileData.UnicodeTablesLaws} k q o c :
  canonical_id k -> 0 <= q < 2 ^ 32 -> 0 <= o < 2 ^ 64 ->
  exists p, FileData.encode_file_data k q o c = Ok p /\
    FileData.decode_file_data p = Ok (FileData.mk_file_data k q o c).
Proof.
  intros (u & Hu & ->) Hq Ho.
  assert (FileData.uuid_of_text (str_bytes (bytes_str (FileData.uuid_text u))) = Some (be_int u)) as Hid.
  { rewrite String.list_byte_of_string_of_list_byte. by apply FileData.uuid_of_text_uuid_text. }
  eexists. split.
  - apply FileData.encode_file_data_ok. exists (be_int u). split_and!; try done; lia.
  - rewrite FileData.decode_file_data_app by apply length_be_bytes.
    rewrite (be_int_be_bytes 4), (be_int_be_bytes 8) by lia.
    replace (be_bytes 16 (be_int u)) with u; [done|]. rewrite <- Hu. by rewrite be_bytes_be_int.
Qed.

Section Sending.
Context `{JsonText} `{Sha256} `{FileData.UnicodeTablesLaws} (E : env).
Context (data : bytes) (r : nat) (t : OutgoingTransfer).
Context (Hsource : source E (o_filepath t) = Some data) (Hstate : o_state t = Outgoing.SENDING).
Context (Hid : canonical_id (o_id t)) (Hsize : zlen data <= MAX_INCOMING_FILE_SIZE).

Let done_frame : message := Json (make_file_done (o_id t) (o_checksum t)).
Let chunk_message (ioc : Z * Z * bytes) : message :=
  let '(i, o, c) := ioc in Data (FileData.mk_file_data (o_id t) i o c).

Lemma is_sending_true s : out_objs s !! r = Some t -> is_sending r s = (s, Ok true).
Proof.
  intros Ht. unfold is_sending, out_obj, mbind, stm_bind, gets, mret, stm_ret. simpl. rewrite Ht.
  by rewrite bool_decide_true.
Qed.

(** A round of the loop: a chunk, or the end. *)
Lemma next_chunk_run s i o n :
  out_objs s !! r = Some t -> 0 <= i <= o -> o <= zlen data ->
  let c := take (Z.to_nat CHUNK_SIZE) (drop (Z.to_nat o) data) in
  exists out, next_chunk E r t i o n s
    = (on_log (fun l => l ++ [out]) s, Ok (Some (if bool_decide (c = []) then TDone
         else TSending i o n (zlen c)))) /\
    wire_message out = Some (if bool_decide (c = []) then done_frame else chunk_message (i, o, c)).
Proof.
  intros Ht Hi Ho c. unfold next_chunk. rewrite Hsource. fold c.
  destruct c as [|x c'] eqn:Hc.
  - unfold send_done. rewrite (bind_run _ _ _ _ _ (is_sending_true s Ht)). simpl.
    eexists. split; [reflexivity|done].
  - rewrite (bind_run _ _ _ _ _ (is_sending_true s Ht)). simpl.
    destruct (encode_canonical (o_id t) i o (x :: c') Hid) as (p & Hp & Hdec).
    + unfold MAX_INCOMING_FILE_SIZE in Hsize. lia.
    + unfold MAX_INCOMING_FILE_SIZE in Hsize. lia.
    + rewrite Hp. eexists. split; [reflexivity|]. simpl. by rewrite Hdec.
Qed.

(** The loop, from any point at which the task is about to read the next chunk. *)
Lemma send_loop fuel s s0 k w i o n :
  tasks s !! r = Some k -> out_objs s !! r = Some t ->
  segment E r t k w s = next_chunk E r t i o n s0 ->
  out_objs s0 !! r = Some t -> wire (log s0) = wire (log s) -> outgoing s0 = outgoing s ->
  0 <= i <= o -> o <= zlen data -> (length (drop (Z.to_nat o) data) < fuel)%nat ->
  let l := chunks_from fuel (Z.to_nat CHUNK_SIZE) i o (drop (Z.to_nat o) data) in
  let s' := run s ((E, TaskWakes r w) :: replicate (length l) (E, TaskWakes r (SendReturned true))) in
  wire (log s') = wire (log s) ++ map chunk_message l ++ [done_frame] /\
  tasks s' !! r = Some TDone /\ out_objs s' !! r = Some t /\ outgoing s' = outgoing s.
Proof.
  revert s s0 k w i o n. induction fuel as [|fuel IH]; intros s s0 k w i o n Hk Ht Hseg Ht0 Hw0 Hout Hi Ho Hf;
    [lia|].
  destruct (next_chunk_run s0 i o n Ht0 Hi Ho) as (out & Hrun & Hout').
  assert (forall k', next_chunk E r t i o n s0 = (on_log (fun l => l ++ [out]) s0, Ok (Some k')) ->
    step s (E, TaskWakes r w) = on_tasks <[r := k']> (on_log (fun l => l ++ [out]) s0)) as Hstep.
  { intros k' Hnext. unfold step. simpl. unfold _send_chunks. by rewrite Hk, Ht, Hseg, Hnext. }
  cbn [chunks_from]. cbv zeta.
  destruct (take (Z.to_nat CHUNK_SIZE) (drop (Z.to_nat o) data)) as [|x c] eqn:Hc.
  - simpl in Hrun, Hout'. cbn [length replicate map app]. unfold run. cbn [foldl].
    rewrite (Hstep _ Hrun). simpl. rewrite lookup_insert_eq, wire_app, Hw0. simpl.
    rewrite Hout'. done.
  - simpl in Hrun, Hout'. specialize (Hstep _ Hrun).
    pose proof (f_equal length Hc) as Hlen. rewrite length_take, length_drop in Hlen.
    set (s1 := step s (E, TaskWakes r w)) in *.
    edestruct (IH s1 (on_log (fun l => l ++ [Progress (o_id t) (n + zlen (x :: c)) (o_size t) true]) s1)
      (TSending i o n (zlen (x :: c))) (SendReturned true) (i + 1) (o + zlen (x :: c))
      (n + zlen (x :: c))) as (Hw & Hrest).
    + rewrite Hstep. apply lookup_insert_eq.
    + by rewrite Hstep.
    + done.
    + by rewrite Hstep.
    + simpl. rewrite wire_app. simpl. apply app_nil_r.
    + done.
    + unfold zlen in *. simpl in *. lia.
    + unfold zlen in *. simpl in *. lia.
    + rewrite length_drop in *. unfold zlen in *. simpl in *. lia.
    + assert (drop (Z.to_nat (o + zlen (x :: c))) data
        = drop (Z.to_nat CHUNK_SIZE) (drop (Z.to_nat o) data)) as Hdrop.
      { rewrite drop_drop. unfold zlen in *.
        destruct (decide (Z.to_nat CHUNK_SIZE <= length data - Z.to_nat o)%nat); [f_equal; lia|].
        rewrite !drop_ge by lia. done. }
      rewrite Hdrop in Hw, Hrest. unfold run in *. cbn [length replicate foldl map app] in *.
      fold s1. split; [|destruct Hrest as (? & ? & Ho'); split; [done|]; split; [done|]].
      * rewrite Hw, Hstep. simpl. rewrite wire_app, Hw0. simpl.
        rewrite Hout', <- app_assoc. done.
      * rewrite Ho'. by rewrite Hstep.
Qed.

End Sending.

Lemma update_out_run r f t s :
  out_objs s !! r = Some t -> update_out r f s = (on_out_objs <[r := f t]> s, Ok ()).
Proof. intros Ht. unfold update_out, modify, on_out_objs. by rewrite (alter_insert_eq f r t). Qed.

Lemma move_out_run r st t s :
  out_objs s !! r = Some t -> st ∈ allowed (o_state t) ->
  move_out r st s = (on_out_objs <[r := o_with_state st t]> s, Ok true).
Proof.
  intros Ht Hst. unfold move_out. rewrite (bind_run _ _ s s (Some t)) by (unfold out_obj, gets; by rewrite Ht).
  simpl. unfold transition_to. rewrite decide_True by done.
  by rewrite (bind_run _ _ _ _ _ (update_out_run r _ t s Ht)).
Qed.

Section Completing.
Context `{JsonText} `{Sha256} `{FileData.UnicodeTables} (E : env).

(** The acknowledgement of the receiver reaches the task. *)
Definition closing_events (r : nat) (a k : string) : list (env * event) :=
  [(E, TaskWakes r (SendReturned true));
   (E, Received a (Json (make_file_complete_ack k true "")));
   (E, TaskWakes r (AckWaitOver false))].

Lemma sender_completes r a t s :
  tasks s !! r = Some TDone -> out_objs s !! r = Some t -> o_state t = Outgoing.SENDING ->
  dget (o_id t) (outgoing s) = Some r ->
  let s' := run s (closing_events r a (o_id t)) in
  (exists t', out_objs s' !! r = Some t' /\ o_state t' = Outgoing.COMPLETED) /\
  tasks s' !! r = None /\
  log s' = log s ++ [Completed true r (o_id t) true (Some (o_filepath t)) None].
Proof.
  intros Hk Ht Hs Hout.
  set (t1 := o_with_state Outgoing.WAITING_FOR_COMPLETE_ACK t).
  set (s1 := on_tasks <[r := TAck]> (on_out_objs <[r := t1]> s)).
  assert (step s (E, TaskWakes r (SendReturned true)) = s1) as H1'.
  { unfold step. simpl. unfold _send_chunks. rewrite Hk, Ht. simpl. unfold done_sent.
    erewrite bind_run; [|apply (move_out_run r _ t); [done|rewrite Hs; set_solver]]. done. }
  set (t2 := o_with_ack true t1). set (s2 := on_out_objs <[r := t2]> s1).
  assert (step s1 (E, Received a (Json (make_file_complete_ack (o_id t) true ""))) = s2) as H2'.
  { change (step s1 (E, _)) with (fst (_handle_complete_ack (o_id t) (JBool true) s1)).
    unfold _handle_complete_ack. erewrite bind_run; [|unfold find_out, gets; simpl; rewrite Hout; simpl;
      rewrite lookup_insert_eq; reflexivity].
    change (fst (update_out r (o_with_ack true) s1) = s2).
    by rewrite (update_out_run r _ t1) by apply lookup_insert_eq. }
  assert (tasks s2 !! r = Some TAck) as Hk2 by apply lookup_insert_eq.
  assert (out_objs s2 !! r = Some t2) as Ht2 by apply lookup_insert_eq.
  unfold closing_events, run. cbn [foldl]. rewrite H1', H2'.
  unfold step. simpl. unfold _send_chunks. rewrite Hk2, Ht2. simpl. unfold ack_arrived. simpl.
  erewrite bind_run; [|apply (move_out_run r _ t2); [done|set_solver]]. simpl.
  unfold end_task. simpl. rewrite lookup_insert_eq, lookup_delete_eq. eauto.
Qed.

End Completing.

(** ** The whole stream *)

Section Stream.
Context `{JsonText} `{Sha256} `{FileData.UnicodeTablesLaws}.

Lemma wf_run_from s tr : wf s -> wf (run s tr).
Proof.
  revert s. induction tr as [|ee tr IH]; intros s Hw; [done|]. by apply IH, wf_step.
Qed.

Lemma run_app s tr1 tr2 : run s (tr1 ++ tr2) = run (run s tr1) tr2.
Proof. apply foldl_app. Qed.

(** The sending task, started with the offset the receiver asked for, up to the wait for
    the send of [file_done]. *)
Lemma send_stream ES data rs ts s chunks :
  tasks s !! rs = Some TReady -> out_objs s !! rs = Some ts -> o_state ts = Outgoing.SENDING ->
  canonical_id (o_id ts) -> source ES (o_filepath ts) = Some data ->
  zlen data <= MAX_INCOMING_FILE_SIZE -> 0 <= o_resume ts <= zlen data ->
  read_chunks data (o_resume ts) CHUNK_SIZE = Some chunks ->
  let s' := run s ((ES, TaskWakes rs Started)
                   :: replicate (length chunks) (ES, TaskWakes rs (SendReturned true))) in
  wire (log s') = wire (log s)
    ++ map (fun '(i, o, c) => Data (FileData.mk_file_data (o_id ts) i o c)) chunks
    ++ [Json (make_file_done (o_id ts) (o_checksum ts))] /\
  tasks s' !! rs = Some TDone /\ out_objs s' !! rs = Some ts /\ outgoing s' = outgoing s.
Proof.
  intros Hk Ht Hs Hid Hsrc Hsz Hres Hchunks.
  unfold read_chunks in Hchunks. rewrite (proj2 (Z.ltb_ge _ _) (proj2 Hres)) in Hchunks.
  apply (inj Some) in Hchunks. rewrite <- Hchunks.
  apply (send_loop ES data rs ts Hsrc Hs Hid Hsz _ s s TReady Started
    (o_resume ts / CHUNK_SIZE) (o_resume ts) (o_resume ts)); try done; try lia.
  - simpl. unfold send_start. rewrite Hsrc. by rewrite (proj2 (Z.ltb_ge _ _) (proj2 Hres)).
  - pose proof chunk_size_pos. split; [apply Z.div_pos; lia|].
    apply Z.div_le_upper_bound; [lia|]. nia.
Qed.

(** C7: a file streamed by the sending task arrives.  The frames that the task hands to
    the connection, from the offset the receiver asked for, make a receiver that holds the
    bytes before that offset end with exactly the sender's file under the destination
    name, and report it; its acknowledgement makes the sender report success too.  The
    offset may be anything the receiver had on disk: a fresh transfer starts at 0. *)
Theorem stream_delivers ES ER data k dest S rs ts R rr tr chunks a b :
  tasks S !! rs = Some TReady -> out_objs S !! rs = Some ts -> o_state ts = Outgoing.SENDING ->
  o_id ts = k -> canonical_id k -> dget k (outgoing S) = Some rs ->
  source ES (o_filepath ts) = Some data -> zlen data <= MAX_INCOMING_FILE_SIZE ->
  wf R -> receiving data k rr (next_ref R) dest (o_resume ts / CHUNK_SIZE) (o_resume ts) R tr ->
  write_ok ER = true -> close_lost ER (get_part_path dest) = 0%nat ->
  read_chunks data (o_resume ts) CHUNK_SIZE = Some chunks ->
  let S1 := run S ((ES, TaskWakes rs Started)
                   :: replicate (length chunks) (ES, TaskWakes rs (SendReturned true))) in
  let frames := drop (length (wire (log S))) (wire (log S1)) in
  let R1 := run R (map (fun m => (ER, Received a m)) frames) in
  let R2 := step R1 (ER, DoneAckSent (next_ref R)) in
  let S2 := run S1 (closing_events ES rs b k) in
  read dest (files R2) = Some data /\
  Completed false rr k true (Some dest) None ∈ log R2 /\
  Sent a (make_file_complete_ack k true "") ∈ log R2 /\
  Completed true rs k true (Some (o_filepath ts)) None ∈ log S2.
Proof.
  intros Hk Ht Hs <- Hid Hout Hsrc Hsz Hw Hr Hwrite Hclose Hchunks S1 frames R1 R2 S2.
  pose proof (rc_off _ _ _ _ _ _ _ _ _ Hr) as Hoff.
  destruct (send_stream ES data rs ts S chunks Hk Ht Hs Hid Hsrc Hsz Hoff Hchunks)
    as (Hwire & Hk1 & Ht1 & Hout1). fold S1 in Hwire, Hk1, Ht1, Hout1.
  assert (map (fun m => (ER, Received a m)) frames
    = chunk_frames ER (o_id ts) a chunks
      ++ [(ER, Received a (Json (make_file_done (o_id ts) (o_checksum ts))))]) as Hframes.
  { unfold frames. rewrite Hwire, drop_app_length, map_app, map_map. f_equal.
    unfold chunk_frames. apply map_ext. by intros [[i o] c]. }
  unfold read_chunks in Hchunks. rewrite (proj2 (Z.ltb_ge _ _) (proj2 Hoff)) in Hchunks.
  apply (inj Some) in Hchunks.
  assert (exists idx t, receiving data (o_id ts) rr (next_ref R) dest idx (zlen data)
    (run R (chunk_frames ER (o_id ts) a chunks)) t) as (idx & Hreach).
  { rewrite <- Hchunks. apply receive_chunks; [done|done|by exists tr|lia]. }
  set (Rc := run R (chunk_frames ER (o_id ts) a chunks)) in *.
  assert (R1 = step Rc (ER, Received a (Json (make_file_done (o_id ts) (o_checksum ts))))) as HR1.
  { unfold R1. rewrite Hframes, run_app. done. }
  assert (read dest (files R2) = Some data /\
    log R2 = log Rc ++ [Sent a (make_file_complete_ack (o_id ts) true "");
                        Completed false rr (o_id ts) true (Some dest) None]) as [Hread Hlog].
  { unfold R2. rewrite HR1. eapply receive_done; [done|by apply wf_run_from|exact Hreach]. }
  destruct (sender_completes ES rs b ts S1 Hk1 Ht1 Hs) as (_ & _ & Hdone); [by rewrite Hout1|].
  fold S2 in Hdone. split; [done|]. rewrite Hlog, Hdone. clear.
  rewrite !elem_of_app, !elem_of_cons. tauto.
Qed.

End Stream.
