(* ===== verification/TransferRefinement.v ===== *)
(** * The session and the transfer lifecycles

    Every transfer object of a session ([Transfer]) moves along the tables of [Lifecycle]:
    a simulation between the runs of the session and the two abstract state machines.
    Also, what an [error] frame of a peer can change. *)

From Corelib Require Import SpecFloat.
From S2P Require Import Prelude Text Json Crypto Wire Messages Lifecycle Files Partial Transfer.
From S2P Require Import TransferTheory TransferFlow.
Import Factories Errors FS.
Local Open Scope peerc_scope.
Local Open Scope Z_scope.

(** ** The simulation *)

Definition fresh (s : session) : Prop :=
  forall r, is_Some (out_objs s !! r) \/ is_Some (in_objs s !! r) -> (r < next_ref s)%nat.

(** The object of an outgoing transfer later: the same offer, further in its lifecycle. *)
Definition out_later (t t' : OutgoingTransfer) : Prop :=
  (o_id t', o_addr t', o_filepath t', o_size t', o_checksum t')
    = (o_id t, o_addr t, o_filepath t, o_size t, o_checksum t) /\
  exists h, path (o_state t) h (o_state t').

Definition in_later (t t' : IncomingTransfer) : Prop :=
  terms t' = terms t /\ exists h, path (i_state t) h (i_state t').

(** Objects stay and move along their tables; new objects start at the beginning. *)
Record simulated (s s' : session) : Prop := {
  sim_fresh : fresh s';
  sim_out r t : out_objs s !! r = Some t -> exists t', out_objs s' !! r = Some t' /\ out_later t t';
  sim_in r t : in_objs s !! r = Some t -> exists t', in_objs s' !! r = Some t' /\ in_later t t';
  sim_new_out r t' : out_objs s !! r = None -> out_objs s' !! r = Some t' ->
    exists h, path initial h (o_state t');
  sim_new_in r t' : in_objs s !! r = None -> in_objs s' !! r = Some t' ->
    exists h, path initial h (i_state t')
}.

Definition simulates (s s' : session) : Prop := fresh s -> simulated s s'.

Lemma path_app {S} `{EqDecision S} `{Table S} (a b c : S) h h' :
  path a h b -> path b h' c -> path a (h ++ h') c.
Proof. induction 1; simpl; [done|]. intros. constructor; auto. Qed.

Lemma out_later_refl t : out_later t t.
Proof. split; [done|]. exists []. constructor. Qed.

Lemma in_later_refl t : in_later t t.
Proof. split; [done|]. exists []. constructor. Qed.

Lemma out_later_trans t1 t2 t3 : out_later t1 t2 -> out_later t2 t3 -> out_later t1 t3.
Proof.
  intros [E1 [h1 P1]] [E2 [h2 P2]]. split; [congruence|]. exists (h1 ++ h2). by eapply path_app.
Qed.

Lemma in_later_trans t1 t2 t3 : in_later t1 t2 -> in_later t2 t3 -> in_later t1 t3.
Proof.
  intros [E1 [h1 P1]] [E2 [h2 P2]]. split; [congruence|]. exists (h1 ++ h2). by eapply path_app.
Qed.

#[global] Instance simulates_preorder : PreOrder simulates.
Proof.
  split.
  - intros s Hf. split; eauto using out_later_refl, in_later_refl; congruence.
  - intros s1 s2 s3 S1 S2 Hf. destruct (S1 Hf) as [F1 O1 I1 NO1 NI1].
    destruct (S2 F1) as [F2 O2 I2 NO2 NI2]. split; [done|..].
    + intros r t Ht. destruct (O1 r t Ht) as (t2 & Ht2 & L1). destruct (O2 r t2 Ht2) as (t3 & Ht3 & L2).
      eauto using out_later_trans.
    + intros r t Ht. destruct (I1 r t Ht) as (t2 & Ht2 & L1). destruct (I2 r t2 Ht2) as (t3 & Ht3 & L2).
      eauto using in_later_trans.
    + intros r t Hn Ht. destruct (out_objs s2 !! r) as [t2|] eqn:H2; [|by apply (NO2 r)].
      destruct (NO1 r t2 Hn H2) as [h1 P1]. destruct (O2 r t2 H2) as (t3 & Ht3 & _ & h2 & P2).
      simplify_eq. exists (h1 ++ h2). by eapply path_app.
    + intros r t Hn Ht. destruct (in_objs s2 !! r) as [t2|] eqn:H2; [|by apply (NI2 r)].
      destruct (NI1 r t2 Hn H2) as [h1 P1]. destruct (I2 r t2 H2) as (t3 & Ht3 & _ & h2 & P2).
      simplify_eq. exists (h1 ++ h2). by eapply path_app.
Qed.

(** *** The updates *)

(** An update that leaves the objects alone. *)
Lemma sim_same s s' :
  out_objs s' = out_objs s -> in_objs s' = in_objs s -> (next_ref s <= next_ref s')%nat ->
  simulates s s'.
Proof.
  intros Ho Hi Hn Hf. split; rewrite ?Ho, ?Hi; eauto using out_later_refl, in_later_refl; try congruence.
  intros r Hr. rewrite Ho, Hi in Hr. specialize (Hf r Hr). lia.
Qed.

Lemma sim_alter_out r f s :
  (forall t, out_objs s !! r = Some t -> out_later t (f t)) -> simulates s (on_out_objs (alter f r) s).
Proof.
  intros Hl Hf. split; simpl; eauto using in_later_refl; try congruence.
  - intros r' [Hr|Hr]; simpl in Hr; apply Hf; [|by right]. left.
    destruct (decide (r' = r)) as [->|]; [|by rewrite lookup_alter_ne in Hr].
    rewrite lookup_alter_eq in Hr. by apply fmap_is_Some in Hr.
  - intros r' t Ht. destruct (decide (r' = r)) as [->|Hne].
    + exists (f t). rewrite lookup_alter_eq, Ht. auto.
    + exists t. rewrite lookup_alter_ne by done. auto using out_later_refl.
  - intros r' t' Hn Ht'. destruct (decide (r' = r)) as [->|Hne].
    + by rewrite lookup_alter_eq, Hn in Ht'.
    + rewrite lookup_alter_ne in Ht' by done. congruence.
Qed.

Lemma sim_alter_in r f s :
  (forall t, in_objs s !! r = Some t -> in_later t (f t)) -> simulates s (on_in_objs (alter f r) s).
Proof.
  intros Hl Hf. split; simpl; eauto using out_later_refl; try congruence.
  - intros r' [Hr|Hr]; simpl in Hr; apply Hf; [by left|]. right.
    destruct (decide (r' = r)) as [->|]; [|by rewrite lookup_alter_ne in Hr].
    rewrite lookup_alter_eq in Hr. by apply fmap_is_Some in Hr.
  - intros r' t Ht. destruct (decide (r' = r)) as [->|Hne].
    + exists (f t). rewrite lookup_alter_eq, Ht. auto.
    + exists t. rewrite lookup_alter_ne by done. auto using in_later_refl.
  - intros r' t' Hn Ht'. destruct (decide (r' = r)) as [->|Hne].
    + by rewrite lookup_alter_eq, Hn in Ht'.
    + rewrite lookup_alter_ne in Ht' by done. congruence.
Qed.

Lemma out_later_state t st :
  st ∈ allowed (o_state t) -> out_later t (o_with_state st t).
Proof. intros Hs. split; [done|]. exists [st]. by constructor; [|constructor]. Qed.

Lemma in_later_state t st :
  st ∈ allowed (i_state t) -> in_later t (i_with_state st t).
Proof. intros Hs. split; [done|]. exists [st]. by constructor; [|constructor]. Qed.

Ltac same_state := split; [done|]; exists []; constructor.

Ltac sim_update :=
  match goal with
  | |- forall s, simulates s (on_out_objs (alter _ _) s) =>
      intros ?; apply sim_alter_out; intros ? _; same_state
  | |- forall s, simulates s (on_in_objs (alter _ _) s) =>
      intros ?; apply sim_alter_in; intros ? _; same_state
  | |- forall s, simulates s _ => intros ?; apply sim_same; simpl; (done || lia)
  end.

Lemma sim_move_out r st : within simulates (move_out r st).
Proof.
  intros s. unfold move_out, out_obj. apply bind_at; [exact _|reflexivity|].
  intros s1 a [= <- <-]. destruct (out_objs s !! r) as [t|] eqn:Ht; simpl; [|reflexivity].
  unfold transition_to. case_decide as Hd; [|reflexivity].
  apply sim_alter_out. intros t' Ht'. simplify_eq. by apply out_later_state.
Qed.

Lemma sim_move_in r st : within simulates (move_in r st).
Proof.
  intros s. unfold move_in, in_obj. apply bind_at; [exact _|reflexivity|].
  intros s1 a [= <- <-]. destruct (in_objs s !! r) as [t|] eqn:Ht; simpl; [|reflexivity].
  unfold transition_to. case_decide as Hd; [|reflexivity].
  apply sim_alter_in. intros t' Ht'. simplify_eq. by apply in_later_state.
Qed.

Lemma sim_emit o : within simulates (emit o).
Proof. apply within_modify. sim_update. Qed.

Lemma sim_on_disk f : within simulates (on_disk f).
Proof. apply within_modify. sim_update. Qed.

Lemma sim_pop t : within simulates (pop_incoming t).
Proof. unfold pop_incoming. within_steps; sim_update. Qed.

Create HintDb sim discriminated.
#[export] Hint Resolve sim_move_out sim_move_in sim_emit sim_on_disk sim_pop : sim.

(** Along the structure of an operation, down to operations with a lemma. *)
Ltac sim_steps :=
  repeat first
    [ solve [auto 2 with sim]
    | lazymatch goal with
      | |- within _ (mbind _ _) => apply within_bind; [exact _| |intros ?]
      | |- within _ (mret _) => apply within_ret; exact _
      | |- within _ (gets _) => apply within_gets; exact _
      | |- within _ (raise _) => apply within_raise; exact _
      | |- within _ (raise_if _ _) => apply within_raise_if; exact _
      | |- within _ (modify _) => apply within_modify; sim_update
      | |- within _ (update_in _ _) => apply within_modify; sim_update
      | |- within _ (update_out _ _) => apply within_modify; sim_update
      | |- within _ (if ?b then _ else _) => destruct b
      | |- within _ (match ?x with _ => _ end) => destruct x
      end ].

Lemma sim_fail_outgoing r t e : within simulates (_fail_outgoing r t e).
Proof. unfold _fail_outgoing, _notify_complete_out. sim_steps. Qed.

Lemma sim_report_once a c i : within simulates (_report_once a c i).
Proof. unfold _report_once. sim_steps. Qed.

#[export] Hint Resolve sim_fail_outgoing sim_report_once : sim.

Section Operations.
Context `{JsonText} `{Sha256} `{FileData.UnicodeTables} (E : env).

Lemma sim_close r : within simulates (close_handle E r).
Proof. unfold close_handle, in_obj. sim_steps. Qed.

Lemma sim_keep_partial r t p : within simulates (keep_partial E r t p).
Proof. unfold keep_partial, record_meta. sim_steps. apply sim_close. Qed.

Lemma sim_fail_incoming r t e : within simulates (_fail_incoming E r t e).
Proof. unfold _fail_incoming, _notify_complete_in. sim_steps. apply sim_keep_partial. Qed.

Lemma sim_abort r t e : within simulates (_abort_incoming E r t e).
Proof. unfold _abort_incoming, _notify_complete_in. sim_steps. apply sim_close. Qed.

Lemma sim_for_each {A} (f : A -> tx unit) l :
  (forall x, within simulates (f x)) -> within simulates (for_each f l).
Proof. intros Hf. induction l as [|x l IH]; simpl; sim_steps; auto. Qed.

Lemma sim_lost a p : within simulates (handle_connection_lost E a p).
Proof.
  unfold handle_connection_lost. sim_steps.
  - apply sim_for_each. intros [r t]. unfold lose_incoming, _notify_complete_in. sim_steps.
    apply sim_keep_partial.
  - apply sim_for_each. intros [r t]. sim_steps.
Qed.

Lemma sim_checkpoint r : within simulates (_checkpoint_incoming E r).
Proof. unfold _checkpoint_incoming, in_obj, record_meta. sim_steps. Qed.

Lemma sim_handle_chunk a i q o data : within simulates (_handle_chunk E a i q o data).
Proof.
  unfold _handle_chunk, find_in_table, check_restart, restart, take_chunk, in_obj, record_meta.
  sim_steps; apply sim_abort || apply sim_checkpoint.
Qed.

Lemma sim_handle_done a i : within simulates (_handle_done E a i).
Proof. unfold _handle_done, find_in_table, start_verifying. sim_steps. apply sim_close. Qed.

Lemma sim_done_acknowledged n : within simulates (done_acknowledged n).
Proof. unfold done_acknowledged, _notify_complete_in. sim_steps. Qed.

Lemma sim_handle_error a m : within simulates (_handle_error E a m).
Proof. unfold _handle_error, find_out, find_in_table. sim_steps; apply sim_fail_incoming. Qed.

Lemma sim_handle_accept a i o : within simulates (_handle_accept a i o).
Proof. unfold _handle_accept, find_out. sim_steps. Qed.

Lemma sim_handle_reject i : within simulates (_handle_reject i).
Proof. unfold _handle_reject, find_out, _notify_complete_out. sim_steps. Qed.

Lemma sim_handle_complete_ack i o : within simulates (_handle_complete_ack i o).
Proof. unfold _handle_complete_ack, find_out. sim_steps. Qed.

Lemma sim_offer_sent r ok : within simulates (offer_sent r ok).
Proof. unfold offer_sent, out_obj. sim_steps. Qed.

Lemma sim_segment r t k w : within simulates (segment E r t k w).
Proof.
  unfold segment, send_start, chunk_sent, done_sent, ack_arrived, _notify_complete_out, next_chunk,
    send_done, is_sending, out_obj.
  sim_steps.
Qed.

Lemma sim_end_task r t s : simulates s (end_task r t s).
Proof. by apply sim_same. Qed.

Lemma sim_send_chunks r w : within simulates (_send_chunks E r w).
Proof.
  intros s. unfold _send_chunks. destruct (tasks s !! r) as [k|]; [|reflexivity].
  destruct (out_objs s !! r) as [t|]; [|reflexivity].
  pose proof (sim_segment r t k w s) as Hs.
  destruct (segment E r t k w s) as [s1 [[k'|]|e]]; simpl in *; (etransitivity; [exact Hs|]).
  - by apply sim_same.
  - apply sim_end_task.
  - destruct e; simpl; try apply sim_end_task.
    etransitivity; [apply (sim_fail_outgoing r t "os_error" s1)|apply sim_end_task].
Qed.

Lemma sim_cancel_task r : within simulates (cancel_task r).
Proof.
  intros s. unfold cancel_task.
  destruct (tasks s !! r) as [[]|]; simpl; try reflexivity; try by apply sim_same.
  all: destruct (out_objs s !! r); simpl; try reflexivity; apply sim_end_task.
Qed.

Lemma sim_sweep : within simulates (sweep E).
Proof. intros s. unfold sweep. destruct (sweep_expired _ _) as [d [l|e]]; by apply sim_same. Qed.

Lemma sim_handle_offer a i f sz c nm : within simulates (_handle_offer E a i f sz c nm).
Proof.
  unfold _handle_offer, busy, plan_resume, busy, resume_partial, plan_paths, reject. sim_steps.
  apply sim_sweep.
Qed.

(** A new object takes the next reference. *)
Lemma sim_offer_file a p f i : within simulates (offer_file E a p f i).
Proof.
  unfold offer_file. destruct (source E p) as [data|]; [|sim_steps].
  intros s. set (t := mk_out _ _ _ _ _ _ _ _ _ _ _).
  transitivity (on_out_objs <[next_ref s := t]> (on_next_ref S s)).
  - intros Hf. assert (out_objs s !! next_ref s = None) as Hn.
    { destruct (out_objs s !! next_ref s) eqn:Ho; [|done].
      assert (next_ref s < next_ref s)%nat by (apply Hf; left; by rewrite Ho). lia. }
    split; simpl; eauto using in_later_refl; try congruence.
    + intros r [Hr|Hr]; simpl in *; [|specialize (Hf r (or_intror Hr)); lia].
      destruct (decide (r = next_ref s)) as [->|]; [lia|].
      rewrite lookup_insert_ne in Hr by done. specialize (Hf r (or_introl Hr)). lia.
    + intros r t' Ht'. exists t'. rewrite lookup_insert_ne by congruence. auto using out_later_refl.
    + intros r t' Hr Ht'. destruct (decide (r = next_ref s)) as [->|].
      * rewrite lookup_insert_eq in Ht'. simplify_eq. exists []. constructor.
      * rewrite lookup_insert_ne in Ht' by done. congruence.
  - by apply sim_same.
Qed.

End Operations.

Section Simulation.
Context `{JsonText} `{Sha256} `{FileData.UnicodeTables}.

Lemma sim_entered s t :
  i_state t = Incoming.OFFERED -> simulates s (on_in_objs <[next_ref s := t]> (on_next_ref S s)).
Proof.
  intros Hst Hf. assert (in_objs s !! next_ref s = None) as Hn.
  { destruct (in_objs s !! next_ref s) eqn:Ho; [|done].
    assert (next_ref s < next_ref s)%nat by (apply Hf; right; by rewrite Ho). lia. }
  split; simpl; eauto using out_later_refl; try congruence.
  - intros r [Hr|Hr]; simpl in *; [specialize (Hf r (or_introl Hr)); lia|].
    destruct (decide (r = next_ref s)) as [->|]; [lia|].
    rewrite lookup_insert_ne in Hr by done. specialize (Hf r (or_intror Hr)). lia.
  - intros r t' Ht'. exists t'. rewrite lookup_insert_ne by congruence. auto using in_later_refl.
  - intros r t' Hr Ht'. destruct (decide (r = next_ref s)) as [->|].
    + rewrite lookup_insert_eq in Ht'. simplify_eq. rewrite Hst. exists []. constructor.
    + rewrite lookup_insert_ne in Ht' by done. congruence.
Qed.

Lemma sim_accept_offer E o : within simulates (accept_offer E o).
Proof.
  unfold accept_offer. apply within_bind; [exact _| |intros [h off]].
  { unfold open_part, create_part. sim_steps. }
  apply within_bind; [exact _|unfold record_meta; sim_steps|intros _]. intros s.
  set (t := mk_in _ _ _ _ _ _ _ _ _ _ _ _ _ _ _ _).
  transitivity (on_in_objs <[next_ref s := t]> (on_next_ref S s)); [by apply sim_entered|].
  assert (within simulates (moved ← move_in (next_ref s) Incoming.ACCEPTED;
    raise_if (negb moved) InvalidTransferTransition ;;
    modify (on_incoming (dset (po_id o) (next_ref s))) ;;
    match make_file_accept (now E) (po_id o) off with
    | Some m => emit (Sent (po_addr o) m)
    | None => raise ValueError
    end)) as Hrest by sim_steps.
  apply (Hrest (on_in_objs <[next_ref s := t]> (on_next_ref S s))).
Qed.

Lemma sim_offer_decided E n b : within simulates (offer_decided E n b).
Proof. unfold offer_decided, reject. sim_steps. apply sim_accept_offer. Qed.

Lemma sim_on_network_message E a m : within simulates (_on_network_message E a m).
Proof.
  unfold _on_network_message, text_field, size_field.
  destruct m as [m|d]; [|apply sim_handle_chunk].
  sim_steps; first [ apply sim_handle_offer | apply sim_handle_accept | apply sim_handle_reject
    | apply sim_handle_done | apply sim_handle_complete_ack | apply sim_handle_error ].
Qed.

Lemma sim_step s ee : simulates s (step s ee).
Proof.
  destruct ee as [E ev]. unfold step. simpl. destruct ev; simpl.
  - apply sim_offer_file.
  - apply sim_offer_sent.
  - apply sim_on_network_message.
  - unfold _on_peer_disconnected. destruct (first_id _); [apply sim_lost|reflexivity].
  - apply sim_offer_decided.
  - apply sim_done_acknowledged.
  - apply sim_send_chunks.
  - apply sim_cancel_task.
Qed.

Lemma sim_run s tr : simulates s (run s tr).
Proof.
  revert s. induction tr as [|ee tr IH]; intros s; [reflexivity|].
  transitivity (step s ee); [apply sim_step|apply IH].
Qed.

Lemma fresh_start E d : fresh (fst (start_session E d)).
Proof.
  unfold start_session. refine (sim_fresh _ _ (sim_sweep E _ _)).
  intros r [[x Hx]|[x Hx]]; simpl in Hx; by rewrite lookup_empty in Hx.
Qed.

(** C33: the session refines the two lifecycles.  Between any two points of a run, whatever
    events happen in between, every outgoing and every incoming transfer keeps its identity
    and the terms of its offer, and its state has moved along a path of the corresponding
    table; a transfer that appears in between has started in OFFERED. *)
Theorem session_refines_lifecycles E d tr1 tr2 :
  let s1 := run (fst (start_session E d)) tr1 in
  let s2 := run (fst (start_session E d)) (tr1 ++ tr2) in
  (forall r, match out_objs s1 !! r with
             | Some t => exists t', out_objs s2 !! r = Some t' /\ out_later t t'
             | None => forall t', out_objs s2 !! r = Some t' -> exists h, path initial h (o_state t')
             end) /\
  (forall r, match in_objs s1 !! r with
             | Some t => exists t', in_objs s2 !! r = Some t' /\ in_later t t'
             | None => forall t', in_objs s2 !! r = Some t' -> exists h, path initial h (i_state t')
             end).
Proof.
  intros s1 s2. assert (simulated s1 s2) as [_ Ho Hi Hno Hni].
  { unfold s2. rewrite run_app. apply sim_run.
    apply (sim_fresh (fst (start_session E d))), sim_run, fresh_start. }
  split; intros r.
  - destruct (out_objs s1 !! r) as [t|] eqn:Ht; eauto.
  - destruct (in_objs s1 !! r) as [t|] eqn:Ht; eauto.
Qed.

End Simulation.

(** ** Errors of a peer *)

(** Nothing was handed to the network. *)
Definition only_reports (l : list output) : Prop :=
  Forall (fun o => match o with Completed _ _ _ _ _ _ => True | _ => False end) l.

(** What a session keeps when a frame about transfers with [a] arrives. *)
Record others_kept (a : string) (s s' : session) : Prop := {
  kept_out r t : out_objs s !! r = Some t -> o_addr t <> a -> out_objs s' !! r = Some t;
  kept_in r t : in_objs s !! r = Some t -> i_addr t <> a -> in_objs s' !! r = Some t;
  kept_log : exists l, log s' = log s ++ l /\ only_reports l
}.

#[global] Instance others_kept_preorder a : PreOrder (others_kept a).
Proof.
  split.
  - intros s. split; auto. exists []. rewrite app_nil_r. split; [done|constructor].
  - intros s1 s2 s3 [O1 I1 (l1 & L1 & R1)] [O2 I2 (l2 & L2 & R2)]. split; eauto.
    exists (l1 ++ l2). rewrite L2, L1, <- app_assoc. split; [done|]. by apply Forall_app.
Qed.

(** The same, and the objects [ro] and [ri] belong to [a], before and after. *)
Definition owned (a : string) (ro ri : option nat) (s : session) : Prop :=
  (forall r t, ro = Some r -> out_objs s !! r = Some t -> o_addr t = a) /\
  (forall r t, ri = Some r -> in_objs s !! r = Some t -> i_addr t = a).

Definition keeps_others (a : string) (ro ri : option nat) (s s' : session) : Prop :=
  owned a ro ri s -> owned a ro ri s' /\ others_kept a s s'.

#[global] Instance keeps_others_preorder a ro ri : PreOrder (keeps_others a ro ri).
Proof.
  split; [by intros s Ho; split|]. intros s1 s2 s3 K1 K2 Ho.
  destruct (K1 Ho) as [Ho2 K12]. destruct (K2 Ho2) as [Ho3 K23]. split; [done|].
  by transitivity s2.
Qed.

Lemma keeps_alter_out a r ri f s :
  (forall t, o_addr (f t) = o_addr t) -> keeps_others a (Some r) ri s (on_out_objs (alter f r) s).
Proof.
  intros Hf [Ho Hi]. split; [split; simpl; [|done]|split; simpl; [|done|]].
  - intros r' t [= <-]. rewrite lookup_alter_eq. intros (t0 & Ht0 & ->)%fmap_Some_1.
    rewrite Hf. by eapply Ho.
  - intros r' t Ht Hne. rewrite lookup_alter_ne; [done|]. intros <-. apply Hne. by eapply Ho.
  - exists []. rewrite app_nil_r. split; [done|constructor].
Qed.

Lemma keeps_alter_in a ro r f s :
  (forall t, i_addr (f t) = i_addr t) -> keeps_others a ro (Some r) s (on_in_objs (alter f r) s).
Proof.
  intros Hf [Ho Hi]. split; [split; simpl; [done|]|split; simpl; [done| |]].
  - intros r' t [= <-]. rewrite lookup_alter_eq. intros (t0 & Ht0 & ->)%fmap_Some_1.
    rewrite Hf. by eapply Hi.
  - intros r' t Ht Hne. rewrite lookup_alter_ne; [done|]. intros <-. apply Hne. by eapply Hi.
  - exists []. rewrite app_nil_r. split; [done|constructor].
Qed.

Lemma keeps_report a ro ri o rf tid b fp e :
  within (keeps_others a ro ri) (emit (Completed o rf tid b fp e)).
Proof.
  intros s Ho. split; [done|]. split; simpl; auto. eexists. split; [done|]. by repeat constructor.
Qed.

Lemma keeps_rest a ro ri s s' :
  out_objs s' = out_objs s -> in_objs s' = in_objs s -> log s' = log s -> keeps_others a ro ri s s'.
Proof.
  intros Ho Hi Hl Hown. split; [unfold owned; by rewrite Ho, Hi|].
  split; rewrite ?Ho, ?Hi, ?Hl; auto. exists []. rewrite app_nil_r. split; [done|constructor].
Qed.

Ltac keeps_steps :=
  within_steps;
  first
    [ intros ?; apply keeps_alter_out; done
    | intros ?; apply keeps_alter_in; done
    | apply keeps_report
    | intros ?; apply keeps_rest; done
    | idtac ].

Section PeerErrors.
Context `{JsonText} `{Sha256} `{FileData.UnicodeTables}.

Lemma keeps_fail_outgoing a r ri t e : within (keeps_others a (Some r) ri) (_fail_outgoing r t e).
Proof.
  unfold _fail_outgoing, move_out, out_obj, update_out, _notify_complete_out. keeps_steps.
Qed.

Lemma keeps_fail_incoming E a ro r t e : within (keeps_others a ro (Some r)) (_fail_incoming E r t e).
Proof.
  unfold _fail_incoming, move_in, in_obj, update_in, _notify_complete_in, pop_incoming, keep_partial,
    close_handle, in_obj, record_meta, on_disk, update_in.
  keeps_steps.
Qed.

(** An [error] frame only affects a transfer with the peer that sent it.  Whatever the
    frame says, the transfers with every other peer are exactly as before, nothing is sent
    in answer to it, and all it can cause is the report of a failed transfer. *)
Theorem error_frame_isolated E a m s :
  has_type "error" m = true ->
  others_kept a s (step s (E, Received a (Json m))).
Proof.
  intros Ht. unfold step. simpl.
  assert (forall k, k <> "error"%string -> has_type k m = false) as Hother.
  { intros k Hk. unfold has_type in *. destruct (jget "type" m) as [[]|]; try done.
    apply bool_decide_eq_true in Ht. subst. by apply bool_decide_eq_false. }
  rewrite !Hother by done. rewrite Ht. unfold _handle_error.
  destruct (parse_error_message m) as [info|]; [|reflexivity].
  destruct (jget _ _) as [[| | | |tid| |]|]; try reflexivity.
  apply (wp_state (others_kept a s)). unfold find_out, find_in_table. wp_steps.
  destruct (negb _); [wp_steps; reflexivity|].
  assert (forall (f : tx bool) ro ri, within (keeps_others a ro ri) f -> owned a ro ri s ->
    wp (_ ← f; mret ()) (fun _ => others_kept a s) (others_kept a s) s) as Hact.
  { intros f ro ri Hf Hown. destruct (Hf s Hown) as [_ Hk]. unfold wp, mbind, stm_bind.
    by destruct (f s) as [s' [b|e]]. }
  assert (forall r t, (r0 ← dget tid (incoming s); t0 ← in_objs s !! r0; Some (r0, t0)) = Some (r, t) ->
    in_objs s !! r = Some t) as Hin.
  { intros r t Hf. destruct (dget tid (incoming s)) as [r0|]; [|done]. simpl in Hf.
    destruct (in_objs s !! r0) eqn:Hr; [|done]. simpl in Hf. by simplify_eq. }
  match goal with |- wp (match ?o with _ => _ end) _ _ _ => destruct o as [[r t]|] eqn:Ho end.
  - apply (Hact _ (Some r) None); [apply keeps_fail_outgoing|]. split; [|done].
    intros r' t' [= <-] Ht'. destruct (dget tid (outgoing s)) as [r0|]; [|done]. simpl in Ho.
    destruct (out_objs s !! r0) as [t0|] eqn:Hr; [|done]. simpl in Ho.
    destruct (bool_decide _) eqn:Ha; [|done]. bool_to_prop. by simplify_eq.
  - destruct (r0 ← dget tid (incoming s); _) as [[r t]|] eqn:Hi; [|wp_steps; reflexivity].
    destruct (bool_decide _) eqn:Ha; [|wp_steps; reflexivity]. bool_to_prop.
    apply (Hact _ None (Some r)); [apply keeps_fail_incoming|]. split; [done|].
    intros r' t' [= <-] Ht'. specialize (Hin r t eq_refl). by simplify_eq.
Qed.

End PeerErrors.
