(* ===== verification/Scenarios.v ===== *)
(** * Scenarios of the file transfer session

    Concrete runs of [Transfer], evaluated: a complete transfer between two sessions,
    which also shows that the hypotheses of the theorems can hold, and the interleavings
    in which the session does not do what its comments promise. *)

From Corelib Require Import SpecFloat.
From S2P Require Import Prelude Text Json Crypto Wire Messages Lifecycle Files Partial Transfer.
From S2P Require Import TransferTheory TransferFlow TransferRefinement.
Import Factories Errors FS.
Local Open Scope peerc_scope.
Local Open Scope Z_scope.

#[local] Existing Instances BitText.text Sample.sha.
#[local] Instance ascii_tables : FileData.UnicodeTables :=
  {| FileData.decimal_and_space_to_ascii s := s |}.
#[local] Instance ascii_tables_laws : FileData.UnicodeTablesLaws.
Proof. by split. Qed.

Definition noon : spec_float := binary_normalize 53 1024 43200 0 false.
Definition empty_dir : fs := {| entries := ∅; contents := ∅; next_inode := 0 |}.

Definition file_bytes : bytes := lit "the quick brown fox".

(** A device on which nothing fails. *)
Definition calm_env : env := {|
  now := noon; windows := false; my_id := "me"; my_name := "me";
  peer_of _ := Some "peer"%string; free_space := None; meta_ok _ := true; flush_ok _ := true;
  close_lost _ := 0%nat; write_ok := true; seek_ok := true; open_ok := true; reopen_ok := true;
  source _ := Some file_bytes |}.

Definition id1 : string := "00000000-0000-0000-0000-000000000001".
Definition id2 : string := "00000000-0000-0000-0000-000000000002".

Definition sum_of (b : bytes) : string := sha256_hex b.

Definition offer_of (k name : string) (b : bytes) : message :=
  Json (make_file_offer noon k "peer" "Peer" name (zlen b) (sum_of b)).

Definition happens (evs : list event) : list (env * event) := map (pair calm_env) evs.

Definition run_from_empty (evs : list event) : session :=
  run (fst (start_session calm_env empty_dir)) (happens evs).

(** ** A complete transfer *)

Definition accept_frame (k : string) : message :=
  Json (header "file_accept" ++ [("transfer_id"%string, JStr k)]).

(** The sender when its offer has been accepted, the receiver when it has accepted. *)
Definition sender : session :=
  run_from_empty [OfferFile "c1" "/home/a.bin" "a.bin" id1; OfferSent 0 true;
                  Received "c1" (accept_frame id1)].

Definition receiver : session :=
  run_from_empty [Received "c1" (offer_of id1 "a.bin" file_bytes); UserDecided 0 true].

Definition sender_transfer : OutgoingTransfer :=
  mk_out id1 "c1" "/home/a.bin" "a.bin" 19 (sum_of file_bytes) "peer" 0 Outgoing.SENDING
    false false.

Definition receiver_transfer : IncomingTransfer :=
  mk_in id1 "c1" "a.bin" 19 (sum_of file_bytes) (JStr "Peer") "a.bin" "a.bin.part" "peer"
    0 0 0 0 true Incoming.ACCEPTED (Some (mk_handle 0 0)).

Lemma receiver_ready :
  receiving file_bytes id1 1 (next_ref receiver) "a.bin" 0 0 receiver receiver_transfer.
Proof.
  split; try (vm_compute; exact eq_refl).
  - left. vm_compute. exact eq_refl.
  - split; vm_compute; exact eq_refl.
  - split; vm_compute; exact eq_refl.
  - split; vm_compute; exact eq_refl.
  - vm_compute. split; discriminate.
  - exists (mk_handle 0 0). split; [vm_compute; exact eq_refl|].
    split; [vm_compute; exact eq_refl|]. split; try (vm_compute; exact eq_refl).
    + vm_compute. lia.
    + vm_compute. discriminate.
Qed.

Lemma id1_canonical : canonical_id id1.
Proof. exists (repeat Byte.x00 15 ++ [Byte.x01]). split; vm_compute; exact eq_refl. Qed.

Lemma stream_delivers_witness :
  exists R S : session, read "a.bin" (files R) = Some file_bytes /\
    Completed false 1 id1 true (Some "a.bin"%string) None ∈ log R /\
    Completed true 0 id1 true (Some "/home/a.bin"%string) None ∈ log S.
Proof.
  destruct (stream_delivers calm_env calm_env file_bytes id1 "a.bin" sender 0 sender_transfer
    receiver 1 receiver_transfer [(0, 0, file_bytes)] "c1" "c1") as (Hread & Hr & _ & Hs).
  - vm_compute. exact eq_refl.
  - vm_compute. exact eq_refl.
  - exact eq_refl.
  - exact eq_refl.
  - exact id1_canonical.
  - vm_compute. exact eq_refl.
  - exact eq_refl.
  - vm_compute. discriminate.
  - apply wf_run.
  - exact receiver_ready.
  - exact eq_refl.
  - exact eq_refl.
  - vm_compute. exact eq_refl.
  - eexists _, _. split; [exact Hread|]. split; [exact Hr|exact Hs].
Defined.

(** The receiving side of the same transfer, frame by frame. *)
Definition receiving_events : list event :=
  [Received "c1" (offer_of id1 "a.bin" file_bytes); UserDecided 0 true;
   Received "c1" (Data (FileData.mk_file_data id1 0 0 file_bytes));
   Received "c1" (Json (make_file_done id1 (sum_of file_bytes))); DoneAckSent 2].

Lemma success_was_verified_witness :
  exists t, hashed (fst (start_session calm_env empty_dir)) (happens receiving_events) 1 t /\
    i_id t = id1 /\ Some "a.bin"%string = Some (i_dest t).
Proof.
  apply (success_was_verified calm_env empty_dir (happens receiving_events) 1 id1
    (Some "a.bin"%string) None).
  assert (log (run (fst (start_session calm_env empty_dir)) (happens receiving_events)) !! 4%nat
    = Some (Completed false 1 id1 true (Some "a.bin"%string) None)) as Hl
    by (vm_compute; exact eq_refl).
  exact (list_elem_of_lookup_2 _ _ _ Hl).
Defined.

(** ** Interleavings that go wrong *)

(** The second offer arrives on another connection of the same device while the
    acknowledgement of the first transfer is being sent. *)
Definition offer_during_ack : list event :=
  [Received "c1" (offer_of id1 "a.bin" file_bytes); UserDecided 0 true;
   Received "c1" (Data (FileData.mk_file_data id1 0 0 file_bytes));
   Received "c1" (Json (make_file_done id1 (sum_of file_bytes)));
   Received "c2" (offer_of id2 "a.bin" file_bytes); DoneAckSent 2].

(** The acknowledgement of a received file is sent before the file is put in place,
    and while it is being sent the part file is not protected.  A second offer of the same
    file by the same device, on another connection, discards it: the sender has been told
    that the transfer succeeded, but the receiver has no file, neither under the
    destination name nor as a partial download, and never reports an outcome. *)
Theorem acknowledged_file_lost :
  let s := run_from_empty offer_during_ack in
  Sent "c1" (make_file_complete_ack id1 true "") ∈ log s /\
  read "a.bin" (files s) = None /\ read "a.bin.part" (files s) = None /\
  List.filter (note_of 1) (log s) = [].
Proof.
  split; [|vm_compute; done].
  apply (list_elem_of_lookup_2 _ 3). vm_compute. reflexivity.
Qed.

(** The connection is lost while a chunk is being sent, and the send then fails. *)
Definition lost_while_sending : list event :=
  [OfferFile "c1" "/home/a.bin" "a.bin" id1; OfferSent 0 true;
   Received "c1" (accept_frame id1); TaskWakes 0 Started;
   Disconnected (Some "c1"%string) None; TaskWakes 0 (SendReturned false)].

(** A failed upload is reported twice when its connection is lost while a chunk is in
    flight: once by the disconnect and once more by the sending task, because a failed
    transfer may be moved to FAILED again. *)
Theorem failure_reported_twice :
  List.filter (fun o => match o with Completed true 0 _ _ _ _ => true | _ => false end)
    (log (run_from_empty lost_while_sending))
  = [Completed true 0 id1 false None (Some "connection_lost"%string);
     Completed true 0 id1 false None (Some "send_failed"%string)].
Proof. vm_compute. reflexivity. Qed.

Definition other_bytes : bytes := lit "something else".

(** Two devices offer a file of the same name before the user has answered. *)
Definition two_offers : list event :=
  [Received "c1" (offer_of id1 "a.bin" file_bytes); Received "c2" (offer_of id2 "a.bin" other_bytes);
   UserDecided 0 true; UserDecided 1 true;
   Received "c1" (Data (FileData.mk_file_data id1 0 0 file_bytes));
   Received "c1" (Json (make_file_done id1 (sum_of file_bytes))); DoneAckSent 4].

(** Two offers of a file of the same name that wait for the user at the same time are
    given the same part file, since only transfers that have been accepted count as busy.
    The first sender streams its file faithfully and is told that the checksum does not
    match, and the part file of the second transfer is deleted under its open handle. *)
Theorem concurrent_offers_collide :
  let s := run_from_empty two_offers in
  Sent "c1" (make_file_complete_ack id1 false "checksum mismatch") ∈ log s /\
  dget id2 (incoming s) = Some 3%nat /\ entries (files s) !! "a.bin.part"%string = None.
Proof.
  split; [|vm_compute; done].
  apply (list_elem_of_lookup_2 _ 5). vm_compute. reflexivity.
Qed.

(** ** An error of somebody else *)

Definition error_frame : dict :=
  make_error (fun _ => true) DISK_FULL None (Some [("transfer_id"%string, JStr id1)]).

Lemma error_frame_isolated_witness :
  in_objs (step receiver (calm_env, Received "c9" (Json error_frame))) !! 1%nat
    = Some receiver_transfer.
Proof.
  assert (has_type "error" error_frame = true) as Ht by (vm_compute; exact eq_refl).
  apply (kept_in _ _ _ (error_frame_isolated calm_env "c9" error_frame receiver Ht)).
  - vm_compute. exact eq_refl.
  - vm_compute. discriminate.
Defined.
